(* ===== verification/_CoqProject ===== *)
-Q . S2P
Prelude.v
Config.v
SizeClass.v
Mem.v
Types.v
Atomic.v
Os.v
DemoEnv.v
Page.v
Registry.v
Segment.v
Debug.v
Tld.v
Arena.v
Large.v
Slab.v
Init.v
Malloc.v
Zone.v
Heap.v
HeapOps.v
CtlOps.v
ArenaCorrect.v
SlabCorrect.v
InitCorrect.v
SlabSpec.v
DebugCorrect.v
LargeCorrect.v
Steady.v
Threads.v
MallocCorrect.v
ReallocCorrect.v
ExitCorrect.v
MallocSpec.v
AlignCorrect.v
Script.v
Relief.v
Spent.v
Edges.v
Treiber.v
Race.v
ZoneCorrect.v
OsCorrect.v
