(* ===== verification/Prelude.v ===== *)
(** * A verified model of the allocator

    The program is a general-purpose [malloc] in C (src/src, src/include): a
    slab allocator for small and medium requests, direct mappings for large
    ones, and the macOS zone that makes it the process's allocator.

    ** How the program works

    A request goes through [my_malloc] (malloc.c).  Up to 128 KB it is rounded
    to one of 75 size classes (size_class.c) and, if two slots of the class fit
    into a 64 KB page, served from a page of that class: first from the page
    the thread has cached in its thread-local data (slab.c, tld.c), from the
    page's local free list, its untouched part, or the slots other threads
    gave back through a lock-free stack (page.c, malloc_atomic.h); else from
    the thread's arena under its mutex (arena.c), which takes a page from a 4 MB
    segment (segment.c) or maps a new one (os.c).  The registry, a hash set of
    segment bases (segment.c), tells on [free] which pointers are slots.  Other
    requests get a mapping of their own, whose header is on a doubly-linked
    list (large.c).  With MALLOC_DEBUG a bitmap per page detects double frees
    and [debug_heap_check] walks the heap (debug.c).

    ** The model

    State: [machine] (Types.v) is [g_state] with all it points to: byte memory
    (Mem.v), segments with their pages, large headers, thread data, each in a
    map by address; the mapped ranges; the value each thread has under the
    [pthread] key.  Structs are records with the source's fields.  Integers
    are [Z] with the wrap-around of their width written out (u8 .. u64, s32 in
    this file).  Effects: an operation returns [res], which is [Ok], [Abort]
    (the program calls abort), [Hang] (it would block on a held mutex or follow a
    cyclic list for ever), or [Fault] (it follows a dangling or null pointer).
    A theorem that ends in [Ok] rules the other three out.

    The kernel is the class [Env] (Os.v): page size, the addresses [mmap]
    picks, what [madvise] leaves of a page, with the laws [EnvLaws]; the build
    mode is in it too, so that theorems hold with and without MALLOC_DEBUG.
    DemoEnv.v is an instance, on which the witnesses run.

    ** Files
    - Prelude, Config: integers, results, tactics; malloc_config.h.
    - SizeClass: size_class.c, tables built in binary64 as the code does.
    - Mem, Types: byte memory, free lists threaded through it; malloc_types.h.
    - Atomic: malloc_atomic.h, each CAS loop run by itself; Treiber: the same
      loops cut at their accesses to shared memory, as a step relation of any
      number of threads.
    - Os, DemoEnv, OsCorrect: os.c and the bootstrap allocator of init.c.
    - Page: page.c.  Registry, Segment: segment.c.  Debug, DebugCorrect:
      debug.c.  Tld: tld.c.  Arena: arena.c.  Large: large.c.  Slab: slab.c.
      Init: init.c.  Malloc: malloc.c.  Zone: zone.c.
    - Heap: the invariants [slab_inv] (pages, free lists, live slots, bitmap),
      [ctl_inv] (bin lists, segment lists, thread data, owners) and [heap_inv];
      HeapOps, CtlOps: one lemma per kind of step on them.
    - ArenaCorrect, SlabCorrect, InitCorrect, SlabSpec: the slab keeps
      [heap_inv] and meets its contract; LargeCorrect: the same for large.c.
    - Steady: what calls use up of ids, arenas and registry entries.
      Threads: the regions mapped for segments, large blocks, thread data and
      the bootstrap buffer are disjoint.
    - MallocCorrect, ReallocCorrect, MallocSpec, AlignCorrect: the public API
      refines an abstract allocator, a map from addresses to sizes.
      ExitCorrect: the end of a thread, [tld_cleanup], keeps all of it.
    - ZoneCorrect: batch callbacks (proved against the interface [Allocator],
      of which the public API is an instance), fork locks, good size, claimed
      address.
    - Where the code departs from its documentation: Edges (sizes near
      2^64, memalign, realloc), Relief (memory pressure), Spent (full pages),
      Race (two calls interleaved).  Script: client programs that run by
      evaluation, for the witnesses.

    ** What the theorems show
    - The API refines the abstract allocator call by call, for any client
      program ([MallocSpec]): blocks are aligned, mapped, disjoint, keep their
      bytes; calls return; null comes only with a refusal of the kernel.  Threads
      may end at any point.
    - The same for the slab by itself, with page-level and registry-level
      theorems under it.
    - The remote free stack is linearizable for any interleaving, and no call
      on it can be stuck ([Treiber]).
    - The debug checks fire on double frees and on nothing else.
    - The size classes computed in [double] are the exact progression of
      ratio 9/8, and [size_to_bin] and good size find the least that fits.
    - Departures, as statements about every state where they arise: overflow
      in the largest sizes, alignments memalign loses, a free that unmaps a
      neighbour, a byte counter that drifts, free lists cut under memory
      pressure, pages that are never used again ([Edges], [Relief], [Spent]).
      As counterexamples: a race between claim and slow path, and holes in the
      registry.

    ** Bounds and fuel
    Sizes below 2^59 (2^57 for aligned requests) keep header, rounding and
    alignment below 2^64.  [roomy] says that one more thread id, round-robin
    step and registry entry are left; [affords k] counts k calls, and short
    programs need neither.  List walks take fuel: the page's capacity for
    free lists, the number of pages for a bin list, of segments and of large
    headers for theirs; the invariants show that each list is shorter, and
    running out is [Hang], which the theorems exclude.

    ** Not modelled
    Except in Treiber.v and Race.v a call runs to completion before the next
    one starts, so mutexes never wait and atomics are plain accesses; memory
    orders weaker than sequential consistency are not modelled anywhere.
    [pthread_once] and key creation have no state of their own here.  The
    registration of the zone calls a parameter.  Diagnostics before abort() and
    the tests and benchmarks under src/tests are left out. *)
From Stdlib Require Export ZArith Lia.
From stdpp Require Export base numbers gmap list fin_maps.
#[global] Open Scope Z_scope.

(** ** Machine integers

    A C unsigned integer of width [w] is a [Z] in [0 .. 2^w - 1]; every store
    into such an object goes through the wrap of its width. *)
Definition u8 (x : Z) : Z := x mod 2 ^ 8.
Definition u16 (x : Z) : Z := x mod 2 ^ 16.
Definition u32 (x : Z) : Z := x mod 2 ^ 32.
Definition u64 (x : Z) : Z := x mod 2 ^ 64.

(** C's [int]: two's complement, 32 bits. *)
Definition s32 (x : Z) : Z := (x + 2 ^ 31) mod 2 ^ 32 - 2 ^ 31.

Definition UINT16_MAX : Z := 2 ^ 16 - 1.
Definition UINT32_MAX : Z := 2 ^ 32 - 1.
Definition SIZE_MAX : Z := 2 ^ 64 - 1.

(** The ubiquitous [(x + n - 1) & ~(n - 1)] on [size_t]. *)
Definition align_up (x n : Z) : Z := Z.land (u64 (x + n - 1)) (Z.lnot (n - 1)).

(** Half-open byte ranges, and their disjointness. *)
Definition in_range (a lo len : Z) : Prop := lo ≤ a < lo + len.
Definition disjoint_ranges (a la b lb : Z) : Prop := a + la ≤ b ∨ b + lb ≤ a.

#[global] Instance in_range_dec a lo len : Decision (in_range a lo len).
Proof. unfold in_range. apply _. Defined.
#[global] Instance disjoint_ranges_dec a la b lb : Decision (disjoint_ranges a la b lb).
Proof. unfold disjoint_ranges. apply _. Defined.

(** ** Outcomes

    A C call returns normally, stops the process with [abort()], dereferences
    a pointer that designates no object, or never returns (a lock that nobody
    will release, a list that loops, a spin that waits for itself). *)
Inductive res (A : Type) : Type :=
| Ok (a : A)
| Abort
| Fault
| Hang.
Arguments Ok {A} a.
Arguments Abort {A}.
Arguments Fault {A}.
Arguments Hang {A}.

#[global] Instance res_ret : MRet res := λ A a, Ok a.
#[global] Instance res_bind : MBind res := λ A B f m,
  match m with Ok a => f a | Abort => Abort | Fault => Fault | Hang => Hang end.

(** A pointer dereference: no object behind the pointer is a fault. *)
Definition deref {A} (o : option A) : res A :=
  match o with Some a => Ok a | None => Fault end.

(** ** Record updates

    [r <| f := v |>] and [r <| f ::= g |>] for a record with an [Eta]
    instance, which spells the record out by its projections once. *)
Class Eta (R : Type) := eta : R → R.
Class Setter {R E : Type} (get : R → E) := setter : (E → E) → R → R.
#[global] Hint Mode Setter - - ! : typeclass_instances.
Arguments setter {R E} get {_} _ _ /.

Ltac build_setter get :=
  match type of get with
  | ?R → ?E =>
      let e := constr:(_ : Eta R) in
      let e := eval hnf in e in
      match eval pattern get in e with
      | ?body _ =>
          let s := eval cbv beta in (λ g : E → E, body (λ r : R, g (get r))) in
          exact s
      end
  end.
#[global] Hint Extern 1 (Setter ?get) => build_setter get : typeclass_instances.

Declare Scope update_scope.
#[global] Open Scope update_scope.
Notation "r <| f ::= g |>" := (setter f g r)
  (at level 1, f at level 0, left associativity, format "r  <| f  ::=  g |>") : update_scope.
Notation "r <| f := v |>" := (setter f (λ _, v) r)
  (at level 1, f at level 0, left associativity, format "r  <| f  :=  v |>") : update_scope.

(** ** Tactics and hints *)
Create HintDb alloc.

(** Take apart a successful run: every bind of the hypothesis is split into
    the step that returned and the continuation. *)
Lemma res_bind_Ok {A B} (m : res A) (f : A → res B) b :
  m ≫= f = Ok b ↔ ∃ a, m = Ok a ∧ f a = Ok b.
Proof. destruct m; unfold mbind, res_bind; naive_solver. Qed.

Lemma deref_Ok {A} (o : option A) a : deref o = Ok a ↔ o = Some a.
Proof. destruct o; simpl; naive_solver. Qed.

Ltac inv_res :=
  repeat match goal with
  | H : _ ≫= _ = Ok _ |- _ =>
      let x := fresh "x" in let Hx := fresh "Hrun" in
      apply res_bind_Ok in H as (x & Hx & H)
  | H : deref _ = Ok _ |- _ => apply deref_Ok in H
  | H : Ok _ = Ok _ |- _ => injection H as H; subst
  | H : mret _ = Ok _ |- _ => injection H as H; subst
  | x : (_ * _)%type |- _ => destruct x
  end.

(** Arithmetic with division and modulo by constants. *)
Ltac zdiv := Z.div_mod_to_equations; nia.

(** ** Lemmas on ranges *)
Lemma ranges_disjoint a n b m :
  0 < n → 0 < m → (∀ x, in_range x a n → in_range x b m → False) → disjoint_ranges a n b m.
Proof.
  intros Hn Hm H. destruct (decide (disjoint_ranges a n b m)) as [|Hd]; [done|exfalso].
  apply (H (Z.max a b)); unfold in_range, disjoint_ranges in *; lia.
Qed.

Lemma disjoint_ranges_sym a n b m : disjoint_ranges a n b m → disjoint_ranges b m a n.
Proof. unfold disjoint_ranges. lia. Qed.

(** ** Lemmas on machine integers *)
Lemma u8_small x : 0 ≤ x < 2 ^ 8 → u8 x = x.
Proof. apply Z.mod_small. Qed.
Lemma u16_small x : 0 ≤ x < 2 ^ 16 → u16 x = x.
Proof. apply Z.mod_small. Qed.
Lemma u32_small x : 0 ≤ x < 2 ^ 32 → u32 x = x.
Proof. apply Z.mod_small. Qed.
Lemma u64_small x : 0 ≤ x < 2 ^ 64 → u64 x = x.
Proof. apply Z.mod_small. Qed.

Lemma u8_range x : 0 ≤ u8 x < 2 ^ 8.
Proof. by apply Z.mod_pos_bound. Qed.
Lemma u16_range x : 0 ≤ u16 x < 2 ^ 16.
Proof. by apply Z.mod_pos_bound. Qed.
Lemma u32_range x : 0 ≤ u32 x < 2 ^ 32.
Proof. by apply Z.mod_pos_bound. Qed.
Lemma u64_range x : 0 ≤ u64 x < 2 ^ 64.
Proof. by apply Z.mod_pos_bound. Qed.
#[export] Hint Resolve u8_range u16_range u32_range u64_range : alloc.

(** Clearing the low [k] bits rounds down to a multiple of [2^k]. *)
Lemma land_lnot_pow2 x k :
  0 ≤ k → Z.land x (Z.lnot (2 ^ k - 1)) = 2 ^ k * (x / 2 ^ k).
Proof.
  intros Hk. replace (2 ^ k - 1) with (Z.ones k) by (rewrite Z.ones_equiv; lia).
  rewrite <- Z.ldiff_land, Z.ldiff_ones_r, Z.shiftl_mul_pow2, Z.shiftr_div_pow2 by lia. lia.
Qed.

Lemma align_up_pow2 x k :
  0 ≤ k → 0 ≤ x → x + 2 ^ k - 1 < 2 ^ 64 →
  align_up x (2 ^ k) = 2 ^ k * ((x + 2 ^ k - 1) / 2 ^ k).
Proof.
  intros. pose proof (Z.pow_pos_nonneg 2 k ltac:(lia) ltac:(lia)).
  unfold align_up. rewrite u64_small by lia. by apply land_lnot_pow2.
Qed.

Lemma align_up_bounds x k :
  0 ≤ k → 0 ≤ x → x + 2 ^ k - 1 < 2 ^ 64 → x ≤ align_up x (2 ^ k) < x + 2 ^ k.
Proof.
  intros. pose proof (Z.pow_pos_nonneg 2 k ltac:(lia) ltac:(lia)) as Hp.
  rewrite align_up_pow2 by done. revert Hp. generalize (2 ^ k). intros n Hn.
  zdiv.
Qed.

Lemma align_up_divide x k :
  0 ≤ k → 0 ≤ x → x + 2 ^ k - 1 < 2 ^ 64 → (2 ^ k | align_up x (2 ^ k)).
Proof. intros. rewrite align_up_pow2 by done. apply Z.divide_factor_l. Qed.
