(* ===== verification/Config.v ===== *)
(** * Constants of include/malloc_config.h, include/malloc_atomic.h and
    include/malloc_types.h that the components share. *)
From S2P Require Import Prelude.

Definition SEGMENT_SHIFT : Z := 22.
Definition SEGMENT_SIZE : Z := Z.shiftl 1 SEGMENT_SHIFT.
Definition SEGMENT_MASK : Z := Z.lnot (SEGMENT_SIZE - 1).

Definition PAGE_SHIFT : Z := 16.
Definition PAGE_SIZE_ALLOC : Z := Z.shiftl 1 PAGE_SHIFT.

Definition PAGES_PER_SEGMENT : Z := SEGMENT_SIZE / PAGE_SIZE_ALLOC.
Definition PAGES_DATA_START : Z := 1.

Definition SMALL_MAX : Z := 128.
Definition MEDIUM_MAX : Z := 128 * 1024.

Definition SMALL_BIN_COUNT : Z := 16.
Definition BIN_COUNT : Z := 75.

Definition MAX_ARENAS : Z := 64.
Definition SEGMENT_REGISTRY_SIZE : Z := 256.
Definition MIN_ALIGN : Z := 16.
Definition DEBUG_BITMAP_BYTES : Z := PAGE_SIZE_ALLOC / MIN_ALIGN / 8.
Definition BOOTSTRAP_BUF_SIZE : Z := 64 * 1024.

Definition SEGMENT_MAGIC : Z := 0xA110CA7E.
Definition STAT_FLUSH_INTERVAL : Z := 64.

(** [sizeof(large_alloc_t)]: five 8-byte words. *)
Definition SIZEOF_LARGE_ALLOC : Z := 40.
Definition LARGE_HEADER_SIZE : Z := align_up SIZEOF_LARGE_ALLOC MIN_ALIGN.

(** [sizeof(tld_t)]: the arena pointer, the thread id with its padding, 75
    page pointers, four counters, and the operation count with its padding. *)
Definition SIZEOF_TLD : Z := 8 + 8 + 8 * BIN_COUNT + 8 * 4 + 8.

(** The values the definitions compute to, for arithmetic. *)
Lemma SEGMENT_SIZE_eq : SEGMENT_SIZE = 2 ^ 22.
Proof. reflexivity. Qed.
Lemma PAGE_SIZE_ALLOC_eq : PAGE_SIZE_ALLOC = 65536.
Proof. reflexivity. Qed.
Lemma PAGES_PER_SEGMENT_eq : PAGES_PER_SEGMENT = 64.
Proof. reflexivity. Qed.
Lemma LARGE_HEADER_SIZE_eq : LARGE_HEADER_SIZE = 48.
Proof. reflexivity. Qed.
Lemma DEBUG_BITMAP_BYTES_eq : DEBUG_BITMAP_BYTES = 512.
Proof. reflexivity. Qed.

Ltac config :=
  rewrite ?SEGMENT_SIZE_eq, ?PAGE_SIZE_ALLOC_eq, ?PAGES_PER_SEGMENT_eq,
    ?LARGE_HEADER_SIZE_eq, ?DEBUG_BITMAP_BYTES_eq in *;
  unfold SEGMENT_SHIFT, PAGE_SHIFT, PAGES_DATA_START, SMALL_MAX, MEDIUM_MAX,
    SMALL_BIN_COUNT, BIN_COUNT, MAX_ARENAS, SEGMENT_REGISTRY_SIZE, MIN_ALIGN,
    BOOTSTRAP_BUF_SIZE, STAT_FLUSH_INTERVAL in *.
