(* ===== verification/SizeClass.v ===== *)
(** * Size classes: src/size_class.c

    [size_class_init] fills the two tables of [global_state_t]; [size_to_bin]
    and [bin_to_size] read them.  The geometric progression of the medium bins
    is computed by the code in [double]: it is computed here in the IEEE-754
    binary64 arithmetic of [SpecFloat] (round to nearest, ties to even). *)
From S2P Require Import Prelude Config.
From Stdlib Require Import SpecFloat.

Module SizeClass.

(** ** C doubles *)
Definition dmul : spec_float → spec_float → spec_float := SFmul 53 1024.
Definition dltb : spec_float → spec_float → bool := SFltb.

(** Conversion of an integer to [double]; exact below [2^53]. *)
Definition double_of_int (z : Z) : spec_float := binary_normalize 53 1024 z 0 false.

(** [1.125]. *)
Definition growth : spec_float := binary_normalize 53 1024 9 (-3) false.

(** The conversion [(size_t)d] truncates toward zero. *)
Definition size_t_of_double (d : spec_float) : Z :=
  match d with
  | S754_finite false m e => Z.shiftl (Zpos m) e
  | _ => 0
  end.

(** The tables of [global_state_t]. *)
Record tables := MkTables {
  bin_size : list Z;
  size_to_bin_small : list Z
}.
#[global] Instance tables_eta : Eta tables :=
  λ t, MkTables (bin_size t) (size_to_bin_small t).

(** [g_state.bin_size[i]]: an index outside the array reads nothing the code
    ever reads, so the default is irrelevant. *)
Definition bin_size_at (t : tables) (i : Z) : Z := default 0 (bin_size t !! Z.to_nat i).

Definition set_bin_size (i v : Z) (t : tables) : tables :=
  t <| bin_size ::= <[Z.to_nat i := u32 v]> |>.

(** First loop: 8-byte spacing. *)
Definition init_small_bins (t : tables) : tables :=
  foldl (λ t i, set_bin_size (Z.of_nat i) ((Z.of_nat i + 1) * 8) t) t
    (seq 0 (Z.to_nat SMALL_BIN_COUNT)).

(** Second loop: the quick lookup table. *)
Definition init_small_lookup (t : tables) : tables :=
  foldl (λ t s, t <| size_to_bin_small ::= <[s := u8 (if (0 <? Z.of_nat s) then Z.of_nat s - 1 else 0)]> |>)
    t (seq 0 (Z.to_nat (SMALL_MAX / 8 + 1))).

(** The [while] loop over the medium bins; it stores one bin per iteration,
    so [BIN_COUNT] iterations always suffice. It returns the first bin that
    was not stored. *)
Fixpoint init_medium_bins (fuel : nat) (bin : Z) (size : spec_float) (t : tables) : Z * tables :=
  match fuel with
  | O => (bin, t)
  | S fuel =>
      if (bin <? BIN_COUNT) && dltb size (double_of_int MEDIUM_MAX) then
        let size := dmul size growth in
        let rounded := align_up (size_t_of_double size) 16 in
        let rounded := if rounded <=? SMALL_MAX then SMALL_MAX + 16 else rounded in
        let rounded :=
          if (SMALL_BIN_COUNT <? bin) && (rounded <=? bin_size_at t (bin - 1))
          then bin_size_at t (bin - 1) + 16 else rounded in
        let rounded := if MEDIUM_MAX <? rounded then MEDIUM_MAX else rounded in
        let t := set_bin_size bin rounded t in
        let bin := bin + 1 in
        if MEDIUM_MAX <=? rounded then (bin, t) else init_medium_bins fuel bin size t
      else (bin, t)
  end.

(** Last loop: the remaining bins repeat the last size. *)
Definition fill_bins (bin : Z) (t : tables) : tables :=
  foldl (λ t i, set_bin_size i (bin_size_at t (bin - 1)) t) t
    (seqZ bin (BIN_COUNT - bin)).

Definition size_class_init (t : tables) : tables :=
  let t := init_small_bins t in
  let t := init_small_lookup t in
  let '(bin, t) :=
    init_medium_bins (Z.to_nat BIN_COUNT) SMALL_BIN_COUNT (double_of_int SMALL_MAX) t in
  fill_bins bin t.

(** The binary search of [size_to_bin]; the interval [lo .. hi] shrinks in
    every iteration, [fuel] is its length. *)
Fixpoint bin_search_loop (fuel : nat) (t : tables) (size lo hi : Z) : Z :=
  match fuel with
  | O => lo
  | S fuel =>
      if lo <? hi then
        let mid := (lo + hi) / 2 in
        if bin_size_at t mid <? size
        then bin_search_loop fuel t size (mid + 1) hi
        else bin_search_loop fuel t size lo mid
      else lo
  end.

Definition bin_search (t : tables) (size lo hi : Z) : Z :=
  bin_search_loop (Z.to_nat (hi - lo)) t size lo hi.

Definition size_to_bin (t : tables) (size : Z) : Z :=
  let size := if size =? 0 then 1 else size in
  let size := align_up size 8 in
  if size <=? SMALL_MAX
  then default 0 (size_to_bin_small t !! Z.to_nat (size / 8))
  else u8 (bin_search t size SMALL_BIN_COUNT (BIN_COUNT - 1)).

Definition bin_to_size (t : tables) (bin : Z) : Z :=
  if BIN_COUNT <=? bin then MEDIUM_MAX else bin_size_at t bin.

(** ** What the tables are

    The values every call of [size_class_init] computes, evaluated once. *)
Definition zero_tables : tables := MkTables (replicate 75 0) (replicate 17 0).
Definition the_tables : tables := Eval vm_compute in size_class_init zero_tables.

(** The arrays have their declared lengths. *)
Definition tables_shape (t : tables) : Prop :=
  length (bin_size t) = 75%nat ∧ length (size_to_bin_small t) = 17%nat.

(** Reference semantics of the lookup: the least bin whose slots hold [size]. *)
Definition least_bin (t : tables) (size b : Z) : Prop :=
  0 ≤ b < BIN_COUNT ∧ size ≤ bin_size_at t b ∧ ∀ b', 0 ≤ b' < b → bin_size_at t b' < size.

(** Strictly increasing sizes, as a computable check. *)
Definition increasing (l : list Z) : bool :=
  forallb (λ '(a, b), a <? b) (zip l (tail l)).

(** ** The tables do not depend on what the arrays held before *)

(** Every entry of the tables is written, whatever they held. *)
Lemma size_class_tables t : tables_shape t → size_class_init t = the_tables.
Proof.
  destruct t as [bs sm]. intros [Hbs Hsm]; simpl in *.
  do 75 (destruct bs as [|? bs]; [discriminate|]). destruct bs; [|discriminate].
  do 17 (destruct sm as [|? sm]; [discriminate|]). destruct sm; [|discriminate].
  vm_compute. reflexivity.
Qed.

(** The sizes the comments of the source describe, in exact integer
    arithmetic: the first sixteen multiples of 8, then 128 * (9/8)^k, cut to an
    integer and rounded up to a multiple of 16, up to 128 KB. *)
Definition class_size (b : Z) : Z :=
  if b <? SMALL_BIN_COUNT then 8 * (b + 1)
  else Z.min MEDIUM_MAX ((SMALL_MAX * 9 ^ (b - 15) / 8 ^ (b - 15) + 15) / 16 * 16).

Lemma bin_size_at_set i v j t :
  tables_shape t → 0 ≤ i < BIN_COUNT → 0 ≤ v < 2 ^ 32 → 0 ≤ j →
  bin_size_at (set_bin_size i v t) j = if decide (j = i) then v else bin_size_at t j.
Proof.
  intros [Hl _] Hi Hv Hj. unfold bin_size_at, set_bin_size. simpl. rewrite (u32_small v) by done.
  destruct (decide (j = i)) as [->|Hne]; [rewrite list_lookup_insert_eq; [done|config; lia]|].
  by rewrite list_lookup_insert_ne by lia.
Qed.

Lemma set_bin_size_shape i v t : tables_shape t → tables_shape (set_bin_size i v t).
Proof. intros [Hl Hs]. split; [|done]. simpl. by rewrite length_insert. Qed.

(** The last loop copies the last size stored into the bins that are left. *)
Lemma fill_bins_at bin t i :
  tables_shape t → 0 < bin ≤ BIN_COUNT → 0 ≤ bin_size_at t (bin - 1) < 2 ^ 32 → 0 ≤ i < BIN_COUNT →
  bin_size_at (fill_bins bin t) i = bin_size_at t (Z.min i (bin - 1)).
Proof.
  intros Ht Hb Hv Hi. unfold fill_bins. set (v := bin_size_at t (bin - 1)) in *.
  assert (∀ n k t', Z.of_nat n = BIN_COUNT - k → bin ≤ k → tables_shape t' → bin_size_at t' (bin - 1) = v →
    bin_size_at (foldl (λ t i, set_bin_size i (bin_size_at t (bin - 1)) t) t' (seqZ k (Z.of_nat n))) i =
      if decide (k ≤ i) then v else bin_size_at t' i) as Hloop.
  { induction n as [|n IH]; intros k t' Hn Hk Ht' Hv'.
    - simpl. rewrite decide_False by lia. done.
    - rewrite seqZ_cons by lia. simpl. replace (Z.pred (Z.of_nat (S n))) with (Z.of_nat n) by lia.
      rewrite IH; [|lia|lia|by apply set_bin_size_shape|].
      + rewrite Hv'. destruct (decide (Z.succ k ≤ i)); [by rewrite decide_True by lia|].
        rewrite bin_size_at_set by (done || lia). destruct (decide (i = k)); [by rewrite decide_True by lia|].
        by rewrite decide_False by lia.
      + rewrite bin_size_at_set by (done || lia). by rewrite decide_False by lia. }
  rewrite <- (Z2Nat.id (BIN_COUNT - bin)) by lia. rewrite Hloop by (done || lia).
  destruct (decide (bin ≤ i)); [by rewrite Z.min_r by lia|by rewrite Z.min_l by lia].
Qed.

Lemma the_tables_class b : 0 ≤ b < BIN_COUNT → bin_size_at the_tables b = class_size b.
Proof.
  intros Hb.
  assert (forallb (λ b, bin_size_at the_tables b =? class_size b) (seqZ 0 75) = true) as Hall
    by (vm_compute; reflexivity).
  rewrite forallb_forall in Hall. apply Z.eqb_eq, Hall, list_elem_of_In, elem_of_seqZ. config. lia.
Qed.

(** C26: whatever the arrays held before the call, the medium bins computed in
    [double] are the exact geometric progression of ratio 9/8 rounded up to
    multiples of 16: no rounding of the floating-point loop shows.  Small bins
    are the multiples of 8, and the quick table maps a number of 8-byte words
    to its bin.  The last loop, which would copy the last size stored into
    the bins left over, finds none left, because the last of the 75 bins is
    the one that reaches 128 KB. *)
Theorem size_class_init_tables t :
  tables_shape t →
  (∀ b, 0 ≤ b < BIN_COUNT → bin_size_at (size_class_init t) b = class_size b) ∧
  (∀ s, 0 ≤ s ≤ SMALL_MAX / 8 → size_to_bin_small (size_class_init t) !! Z.to_nat s = Some (Z.max 0 (s - 1))) ∧
  (class_size (BIN_COUNT - 2) < MEDIUM_MAX ∧ class_size (BIN_COUNT - 1) = MEDIUM_MAX) ∧
  (∀ bin i, 0 < bin ≤ BIN_COUNT → 0 ≤ bin_size_at t (bin - 1) < 2 ^ 32 → 0 ≤ i < BIN_COUNT →
    bin_size_at (fill_bins bin t) i = bin_size_at t (Z.min i (bin - 1))).
Proof.
  intros Ht. rewrite size_class_tables by done. split; [apply the_tables_class|]. split; [|split].
  - intros s Hs.
    assert (forallb (λ s, bool_decide (size_to_bin_small the_tables !! Z.to_nat s = Some (Z.max 0 (s - 1))))
      (seqZ 0 17) = true) as Hall by (vm_compute; reflexivity).
    change (SMALL_MAX / 8) with 16 in Hs.
    rewrite forallb_forall in Hall. eapply bool_decide_eq_true_1, Hall, list_elem_of_In, elem_of_seqZ. lia.
  - by vm_compute.
  - intros. by apply fill_bins_at.
Qed.

(** ** The binary search *)
Lemma bin_search_loop_fuel t size n lo hi :
  (Z.to_nat (hi - lo) ≤ n)%nat →
  bin_search_loop n t size lo hi = bin_search t size lo hi.
Proof.
  unfold bin_search. remember (Z.to_nat (hi - lo)) as k eqn:Hk.
  revert n lo hi Hk. induction k as [k IH] using lt_wf_ind. intros n lo hi Hk Hle.
  destruct n as [|n].
  { by replace k with O by lia. }
  destruct k as [|k]; simpl.
  { destruct (Z.ltb_spec lo hi); [lia|done]. }
  destruct (Z.ltb_spec lo hi); [|lia].
  assert (lo ≤ (lo + hi) / 2 < hi) by (Z.div_mod_to_equations; lia).
  assert (∀ lo' hi', (Z.to_nat (hi' - lo') ≤ k)%nat →
    bin_search_loop n t size lo' hi' = bin_search_loop k t size lo' hi') as Heq.
  { intros lo' hi' Hk'. rewrite (IH (Z.to_nat (hi' - lo'))) by lia.
    symmetry. apply IH; lia. }
  destruct (_ <? size); apply Heq; lia.
Qed.

(** The fuel is no artefact: the search satisfies the loop's own equation. *)
Lemma bin_search_unfold t size lo hi :
  bin_search t size lo hi =
    if lo <? hi then
      let mid := (lo + hi) / 2 in
      if bin_size_at t mid <? size then bin_search t size (mid + 1) hi
      else bin_search t size lo mid
    else lo.
Proof.
  rewrite <- (bin_search_loop_fuel t size (S (Z.to_nat (hi - lo)))) by lia. simpl.
  destruct (Z.ltb_spec lo hi); [|done].
  assert (lo ≤ (lo + hi) / 2 < hi) by (Z.div_mod_to_equations; lia).
  destruct (_ <? size); apply bin_search_loop_fuel; lia.
Qed.

Lemma bin_search_range t size lo hi :
  lo ≤ hi → lo ≤ bin_search t size lo hi ≤ hi.
Proof.
  remember (Z.to_nat (hi - lo)) as k eqn:Hk. revert lo hi Hk.
  induction k as [k IH] using lt_wf_ind. intros lo hi Hk Hle.
  rewrite bin_search_unfold. destruct (Z.ltb_spec lo hi); [|lia].
  assert (lo ≤ (lo + hi) / 2 < hi) by (Z.div_mod_to_equations; lia). simpl.
  destruct (_ <? size).
  - pose proof (IH (Z.to_nat (hi - ((lo + hi) / 2 + 1)))
      ltac:(lia) ((lo + hi) / 2 + 1) hi ltac:(lia) ltac:(lia)). lia.
  - pose proof (IH (Z.to_nat ((lo + hi) / 2 - lo))
      ltac:(lia) lo ((lo + hi) / 2) ltac:(lia) ltac:(lia)). lia.
Qed.

(** On a table that increases over [lo .. hi] and whose entry at [hi] fits,
    the search finds the first entry that fits. *)
Lemma bin_search_spec t size lo hi :
  lo ≤ hi →
  (∀ i j, lo ≤ i ≤ j → j ≤ hi → bin_size_at t i ≤ bin_size_at t j) →
  size ≤ bin_size_at t hi →
  size ≤ bin_size_at t (bin_search t size lo hi) ∧
  ∀ b, lo ≤ b < bin_search t size lo hi → bin_size_at t b < size.
Proof.
  remember (Z.to_nat (hi - lo)) as k eqn:Hk. revert lo hi Hk.
  induction k as [k IH] using lt_wf_ind. intros lo hi Hk Hle Hmono Hhi.
  rewrite bin_search_unfold. destruct (Z.ltb_spec lo hi) as [Hlt|].
  2: { replace lo with hi by lia. split; [done|lia]. }
  assert (lo ≤ (lo + hi) / 2 < hi) by (Z.div_mod_to_equations; lia). simpl.
  destruct (Z.ltb_spec (bin_size_at t ((lo + hi) / 2)) size) as [Hm|Hm].
  - destruct (IH (Z.to_nat (hi - ((lo + hi) / 2 + 1))) ltac:(lia)
      ((lo + hi) / 2 + 1) hi ltac:(lia) ltac:(lia)) as [H1 H2]; [|done|].
    { intros; apply Hmono; lia. }
    split; [done|]. intros b Hb. destruct (decide (b ≤ (lo + hi) / 2)).
    + pose proof (Hmono b ((lo + hi) / 2) ltac:(lia) ltac:(lia)). lia.
    + apply H2. lia.
  - apply (IH (Z.to_nat ((lo + hi) / 2 - lo))); [lia..| |lia].
    intros; apply Hmono; lia.
Qed.

(** ** The lookup *)
Lemma increasing_lookup l i j x y :
  increasing l = true → (i < j)%nat → l !! i = Some x → l !! j = Some y → x < y.
Proof.
  intros Hinc Hij. revert i j x y Hij. induction l as [|a l IH]; [done|].
  intros i j x y Hij Hi Hj.
  assert (increasing l = true ∧ ∀ b l', l = b :: l' → a < b) as [Hl Hab].
  { unfold increasing in *. destruct l as [|b l]; [by split|]. simpl in Hinc.
    apply andb_true_iff in Hinc as [? ?]. split; [done|]. intros; simplify_eq. lia. }
  destruct j as [|j]; [lia|]. destruct i as [|i]; simpl in *.
  2: { eapply (IH Hl); [|done..]. lia. }
  simplify_eq. destruct l as [|b l]; [done|]. specialize (Hab b l eq_refl).
  destruct j as [|j]; simpl in Hj; [naive_solver|].
  assert (b < y) by (eapply (IH Hl 0%nat (S j)); [lia|done..]). lia.
Qed.

Lemma the_tables_strict i j :
  0 ≤ i < j → j < BIN_COUNT → bin_size_at the_tables i < bin_size_at the_tables j.
Proof.
  intros Hij Hj. assert (length (bin_size the_tables) = 75%nat) as Hlen by reflexivity. config.
  destruct (lookup_lt_is_Some_2 (bin_size the_tables) (Z.to_nat i)) as [x Hx]; [lia|].
  destruct (lookup_lt_is_Some_2 (bin_size the_tables) (Z.to_nat j)) as [y Hy]; [lia|].
  unfold bin_size_at. rewrite Hx, Hy. simpl.
  eapply (increasing_lookup (bin_size the_tables)); [reflexivity| |done..]. lia.
Qed.

Lemma the_tables_mono i j :
  0 ≤ i ≤ j → j < BIN_COUNT → bin_size_at the_tables i ≤ bin_size_at the_tables j.
Proof.
  intros Hij Hj. destruct (decide (i = j)) as [->|]; [lia|].
  apply Z.lt_le_incl, the_tables_strict; lia.
Qed.

(** The bins [0 .. 15] hold the multiples of 8. *)
Lemma bin_size_at_small b :
  0 ≤ b < SMALL_BIN_COUNT → bin_size_at the_tables b = 8 * (b + 1).
Proof.
  intros Hb.
  assert (forallb (λ b, bin_size_at the_tables b =? 8 * (b + 1)) (seqZ 0 16) = true) as Hall
    by reflexivity.
  rewrite forallb_forall in Hall. apply Z.eqb_eq, Hall, list_elem_of_In, elem_of_seqZ.
  config. lia.
Qed.

Lemma align8 size : 0 ≤ size ≤ MEDIUM_MAX → align_up size 8 = 8 * ((size + 7) / 8).
Proof.
  intros. config. change 8 with (2 ^ 3). rewrite align_up_pow2 by lia.
  do 2 f_equal. lia.
Qed.

Lemma small_lookup k :
  0 ≤ k ≤ 16 → default 0 (size_to_bin_small the_tables !! Z.to_nat k) = Z.max 0 (k - 1).
Proof.
  intros Hk.
  assert (forallb (λ k, default 0 (size_to_bin_small the_tables !! Z.to_nat k) =? Z.max 0 (k - 1))
    (seqZ 0 17) = true) as Hall by reflexivity.
  rewrite forallb_forall in Hall. apply Z.eqb_eq, Hall, list_elem_of_In, elem_of_seqZ. lia.
Qed.

Lemma size_to_bin_small_case size :
  0 ≤ size ≤ SMALL_MAX →
  size_to_bin the_tables size = Z.max 0 ((size + 7) / 8 - 1).
Proof.
  intros Hs. config. unfold size_to_bin. config.
  destruct (Z.eqb_spec size 0) as [->|]; [reflexivity|].
  rewrite align8 by (config; lia).
  destruct (Z.leb_spec (8 * ((size + 7) / 8)) 128) as [Hle|Hgt].
  2: { Z.div_mod_to_equations; lia. }
  rewrite Z.mul_comm, Z.div_mul by lia. apply small_lookup.
  Z.div_mod_to_equations; lia.
Qed.

Lemma size_to_bin_medium_case size :
  SMALL_MAX < size ≤ MEDIUM_MAX →
  size_to_bin the_tables size =
    bin_search the_tables (8 * ((size + 7) / 8)) SMALL_BIN_COUNT (BIN_COUNT - 1).
Proof.
  intros Hs. unfold size_to_bin. config.
  destruct (Z.eqb_spec size 0); [lia|]. rewrite align8 by (config; lia).
  destruct (Z.leb_spec (8 * ((size + 7) / 8)) 128) as [Hle|Hgt].
  { Z.div_mod_to_equations; lia. }
  apply u8_small.
  pose proof (bin_search_range the_tables (8 * ((size + 7) / 8)) 16 (75 - 1)). lia.
Qed.

(** Every medium size is a multiple of 16, so rounding the request up to a
    multiple of 8 first does not change which bins fit. *)
Lemma bin_size_at_mult8 b : 0 ≤ b < BIN_COUNT → bin_size_at the_tables b mod 8 = 0.
Proof.
  intros Hb.
  assert (forallb (λ b, bin_size_at the_tables b mod 8 =? 0) (seqZ 0 75) = true) as Hall
    by reflexivity.
  rewrite forallb_forall in Hall. apply Z.eqb_eq, Hall, list_elem_of_In, elem_of_seqZ.
  config. lia.
Qed.

Lemma size_to_bin_least size :
  0 ≤ size ≤ MEDIUM_MAX → least_bin the_tables size (size_to_bin the_tables size).
Proof.
  intros Hs. destruct (decide (size ≤ SMALL_MAX)) as [Hsm|Hmed].
  - rewrite size_to_bin_small_case by (config; lia). config.
    assert (Z.max 0 ((size + 7) / 8 - 1) < 16) by (Z.div_mod_to_equations; lia).
    split; [config; lia|]. rewrite bin_size_at_small by (config; lia).
    split; [Z.div_mod_to_equations; lia|].
    intros b Hb. rewrite bin_size_at_small by (config; lia).
    Z.div_mod_to_equations; lia.
  - rewrite size_to_bin_medium_case by lia.
    set (size' := 8 * ((size + 7) / 8)).
    pose proof (bin_search_range the_tables size' SMALL_BIN_COUNT (BIN_COUNT - 1)
      ltac:(config; lia)) as Hr.
    destruct (bin_search_spec the_tables size' SMALL_BIN_COUNT (BIN_COUNT - 1))
      as [Hfit Hbelow].
    { config; lia. }
    { intros; apply the_tables_mono; config; lia. }
    { change (bin_size_at the_tables (BIN_COUNT - 1)) with MEDIUM_MAX.
      unfold size'. config. Z.div_mod_to_equations; lia. }
    split; [config; lia|]. split; [unfold size' in *; Z.div_mod_to_equations; lia|].
    intros b Hb. destruct (decide (b < SMALL_BIN_COUNT)) as [Hlt|Hge].
    + rewrite bin_size_at_small by lia. config. lia.
    + specialize (Hbelow b ltac:(lia)).
      pose proof (bin_size_at_mult8 b ltac:(config; lia)).
      unfold size' in *. Z.div_mod_to_equations; lia.
Qed.

Lemma size_class_init_tables_witness :
  bin_size_at (size_class_init zero_tables) 17 = class_size 17 ∧ class_size 17 = 176 ∧
  bin_size_at (fill_bins 3 the_tables) 40 = 24.
Proof.
  assert (tables_shape zero_tables) as H0 by (by split). assert (tables_shape the_tables) as H1 by (by split).
  split; [exact (proj1 (size_class_init_tables zero_tables H0) 17 ltac:(by vm_compute))|]. split; [by vm_compute|].
  destruct (size_class_init_tables the_tables H1) as (_ & _ & _ & Hf).
  rewrite Hf; [|by vm_compute|by vm_compute|by vm_compute]. by vm_compute.
Defined.

(** The reference is functional: there is only one least bin. *)
Lemma least_bin_unique t size b b' : least_bin t size b → least_bin t size b' → b = b'.
Proof.
  intros (? & Hb & Hb1) (? & Hb' & Hb1').
  destruct (Ztrichotomy b b') as [Hlt|[?|Hgt]]; [|done|].
  - specialize (Hb1' b ltac:(lia)). lia.
  - specialize (Hb1 b' ltac:(lia)). lia.
Qed.

Lemma bin_to_size_lt b : b < BIN_COUNT → bin_to_size the_tables b = bin_size_at the_tables b.
Proof. intros. unfold bin_to_size. destruct (Z.leb_spec BIN_COUNT b); [lia|done]. Qed.

Lemma size_to_bin_range size :
  0 ≤ size ≤ MEDIUM_MAX → 0 ≤ size_to_bin the_tables size < BIN_COUNT.
Proof. apply size_to_bin_least. Qed.

Lemma size_to_bin_fits size :
  0 ≤ size ≤ MEDIUM_MAX → size ≤ bin_to_size the_tables (size_to_bin the_tables size).
Proof.
  intros Hs. destruct (size_to_bin_least size Hs) as (? & ? & _).
  rewrite bin_to_size_lt; lia.
Qed.
#[export] Hint Resolve size_to_bin_range size_to_bin_fits : alloc.

(** Above the small bins, a slot exceeds the smallest request it serves by at
    most a quarter. *)
Lemma medium_gap b :
  SMALL_BIN_COUNT ≤ b < BIN_COUNT →
  4 * (bin_size_at the_tables b - (bin_size_at the_tables (b - 1) + 1))
    ≤ bin_size_at the_tables (b - 1) + 1.
Proof.
  intros Hb.
  assert (forallb (λ b, 4 * (bin_size_at the_tables b - (bin_size_at the_tables (b - 1) + 1))
    <=? bin_size_at the_tables (b - 1) + 1) (seqZ 16 59) = true) as Hall by reflexivity.
  rewrite forallb_forall in Hall. apply Z.leb_le, Hall, list_elem_of_In, elem_of_seqZ.
  config. lia.
Qed.

(** ** Properties *)

(** C27: for every request the slab serves, [size_to_bin] (table lookup up to
    128 bytes, binary search above) returns exactly the least bin whose slots
    hold the request: the optimised lookup agrees with the linear reference. *)
Theorem size_to_bin_correct size b :
  0 ≤ size ≤ MEDIUM_MAX →
  least_bin the_tables size b ↔ size_to_bin the_tables size = b.
Proof.
  intros Hs. pose proof (size_to_bin_least size Hs). split.
  - intros. by eapply least_bin_unique.
  - by intros <-.
Qed.

Lemma size_to_bin_correct_witness :
  0 ≤ 145 ≤ MEDIUM_MAX ∧ (least_bin the_tables 145 17 ↔ size_to_bin the_tables 145 = 17).
Proof. split; [by vm_compute|]. apply (size_to_bin_correct 145 17). by vm_compute. Defined.

(** C28: a medium request never gets a slot more than a quarter larger than
    itself (the documented 12.5% does not hold: see
    [fragmentation_exceeds_eighth]). *)
Theorem medium_waste_quarter size :
  SMALL_MAX < size ≤ MEDIUM_MAX →
  4 * (bin_to_size the_tables (size_to_bin the_tables size) - size) ≤ size.
Proof.
  intros Hs. destruct (size_to_bin_least size ltac:(config; lia)) as (Hr & Hfit & Hlow).
  rewrite bin_to_size_lt by lia. set (b := size_to_bin the_tables size) in *.
  assert (SMALL_BIN_COUNT ≤ b).
  { destruct (decide (SMALL_BIN_COUNT ≤ b)); [done|].
    rewrite bin_size_at_small in Hfit by lia. config. lia. }
  pose proof (medium_gap b ltac:(lia)).
  specialize (Hlow (b - 1) ltac:(config; lia)). lia.
Qed.

Lemma medium_waste_quarter_witness :
  SMALL_MAX < 145 ≤ MEDIUM_MAX ∧
  4 * (bin_to_size the_tables (size_to_bin the_tables 145) - 145) ≤ 145.
Proof. split; [by vm_compute|]. apply (medium_waste_quarter 145). by vm_compute. Defined.

(** C29: the bound of an eighth that the design document gives does not hold:
    a request of 145 bytes gets a 176-byte slot, 31 bytes of which are waste,
    more than an eighth of the slot and of the request. *)
Theorem fragmentation_exceeds_eighth :
  ∃ size slot, SMALL_MAX < size ≤ MEDIUM_MAX ∧
    slot = bin_to_size the_tables (size_to_bin the_tables size) ∧
    slot < 8 * (slot - size) ∧ size < 8 * (slot - size).
Proof. exists 145, 176. by vm_compute. Qed.

End SizeClass.
