(* ===== verification/Mem.v ===== *)
(** * Byte-addressed memory

    The user-visible part of the address space: a finite map from addresses
    to bytes, absent addresses holding the zero that fresh anonymous mappings
    hold.  Pointers stored in freed slots are 8-byte little-endian words
    (arm64 and x86_64), the null pointer is address 0. *)
From S2P Require Import Prelude.

Notation mem := (gmap Z Z).

Definition load8 (m : mem) (a : Z) : Z := default 0 (m !! a).
Definition store8 (m : mem) (a v : Z) : mem := <[a := u8 v]> m.

Fixpoint load_le (n : nat) (m : mem) (a : Z) : Z :=
  match n with
  | O => 0
  | S n => load8 m a + 256 * load_le n m (a + 1)
  end.

Fixpoint store_le (n : nat) (m : mem) (a v : Z) : mem :=
  match n with
  | O => m
  | S n => store_le n (store8 m a v) (a + 1) (v / 256)
  end.

(** A load and a store of a pointer-sized word. *)
Definition load64 (m : mem) (a : Z) : Z := load_le 8 m a.
Definition store64 (m : mem) (a v : Z) : mem := store_le 8 m a v.

(** [memset] and [memcpy], byte by byte. *)
Definition memset (m : mem) (a v n : Z) : mem :=
  foldl (λ m i, store8 m (a + i) v) m (seqZ 0 n).

Definition memcpy (m : mem) (dst src n : Z) : mem :=
  foldl (λ m i, store8 m (dst + i) (load8 m (src + i))) m (seqZ 0 n).

(** What the kernel does to the bytes of a fresh or discarded range. *)
Definition zero_range (m : mem) (lo len : Z) : mem :=
  filter (λ kv, ¬ in_range kv.1 lo len) m.

(** A singly-linked list threaded through the first word of its nodes: [l]
    lists the nodes reached from [h]. *)
Fixpoint is_list (m : mem) (h : Z) (l : list Z) : Prop :=
  match l with
  | [] => h = 0
  | a :: l => h = a ∧ a ≠ 0 ∧ is_list m (load64 m a) l
  end.

(** Bytes are bytes: what [load8] returns after any store. *)
Definition bytes (m : mem) : Prop := ∀ a, 0 ≤ load8 m a < 256.

(** ** Loads of stores *)
Lemma load8_store8 m a v b :
  load8 (store8 m a v) b = if decide (a = b) then u8 v else load8 m b.
Proof.
  unfold load8, store8. rewrite lookup_insert. by destruct (decide (a = b)).
Qed.

Lemma load8_store8_ne m a v b : a ≠ b → load8 (store8 m a v) b = load8 m b.
Proof. intros. rewrite load8_store8. by rewrite decide_False. Qed.

Lemma load8_store_le_out n m a v b :
  b < a ∨ a + Z.of_nat n ≤ b → load8 (store_le n m a v) b = load8 m b.
Proof.
  revert m a v. induction n as [|n IH]; intros m a v Hb; simpl; [done|].
  rewrite IH by lia. apply load8_store8_ne. lia.
Qed.

Lemma load_le_ext n m m' a :
  (∀ b, a ≤ b < a + Z.of_nat n → load8 m b = load8 m' b) → load_le n m a = load_le n m' a.
Proof.
  revert a. induction n as [|n IH]; intros a H; simpl; [done|].
  rewrite (H a) by lia. rewrite (IH (a + 1)); [done|]. intros. apply H. lia.
Qed.

Lemma load_le_store_le_eq n m a v :
  0 ≤ v < 256 ^ Z.of_nat n → load_le n (store_le n m a v) a = v.
Proof.
  revert m a v. induction n as [|n IH]; intros m a v Hv.
  { simpl in *. lia. }
  rewrite Nat2Z.inj_succ, Z.pow_succ_r in Hv by lia. simpl.
  rewrite load8_store_le_out by lia. rewrite load8_store8, decide_True by done.
  rewrite IH by (Z.div_mod_to_equations; nia).
  unfold u8. change (2 ^ 8) with 256. Z.div_mod_to_equations; lia.
Qed.

Lemma load64_store64_eq m a v : 0 ≤ v < 2 ^ 64 → load64 (store64 m a v) a = v.
Proof. intros. by apply load_le_store_le_eq. Qed.

Lemma load8_store64_out m a v b :
  b < a ∨ a + 8 ≤ b → load8 (store64 m a v) b = load8 m b.
Proof. intros. apply load8_store_le_out. lia. Qed.

Lemma load64_ext m m' a :
  (∀ b, a ≤ b < a + 8 → load8 m b = load8 m' b) → load64 m a = load64 m' a.
Proof. intros. apply load_le_ext. intros. apply H. lia. Qed.

Lemma load64_store64_ne m a v b :
  b + 8 ≤ a ∨ a + 8 ≤ b → load64 (store64 m a v) b = load64 m b.
Proof. intros. apply load64_ext. intros. apply load8_store64_out. lia. Qed.
#[export] Hint Rewrite load64_store64_eq using lia : mem.
#[export] Hint Rewrite load64_store64_ne using lia : mem.

Lemma load8_zero_range m lo len a :
  load8 (zero_range m lo len) a = if decide (in_range a lo len) then 0 else load8 m a.
Proof.
  unfold load8, zero_range. destruct (decide (in_range a lo len)) as [Hin|Hout].
  - rewrite map_lookup_filter_None_2; [done|]. right. naive_solver.
  - destruct (m !! a) as [v|] eqn:Hm.
    + by rewrite (map_lookup_filter_Some_2 _ m a v).
    + rewrite map_lookup_filter_None_2; [done|]. by left.
Qed.

Lemma load8_memset m a v n b :
  load8 (memset m a v n) b = if decide (in_range b a n) then u8 v else load8 m b.
Proof.
  unfold memset, in_range. destruct (Z.le_gt_cases n 0) as [Hn|Hn].
  { rewrite seqZ_nil by lia. rewrite decide_False by lia. done. }
  rewrite <- (Z2Nat.id n) by lia. clear Hn. induction (Z.to_nat n) as [|k IH].
  - simpl. by rewrite decide_False by lia.
  - rewrite seqZ_S, foldl_app, Z.add_0_l. simpl. rewrite load8_store8, IH. destruct (decide (a + Z.of_nat k = b)).
    + rewrite decide_True by lia. done.
    + destruct (decide (a ≤ b < a + Z.of_nat k)); [rewrite decide_True by lia|rewrite decide_False by lia]; done.
Qed.

(** A copy between disjoint ranges. *)
Lemma load8_memcpy m dst src n b :
  disjoint_ranges dst n src n → bytes m →
  load8 (memcpy m dst src n) b =
    if decide (in_range b dst n) then load8 m (src + (b - dst)) else load8 m b.
Proof.
  unfold memcpy, in_range, disjoint_ranges. intros Hd Hm.
  destruct (Z.le_gt_cases n 0) as [Hn|Hn].
  { rewrite seqZ_nil by lia. rewrite decide_False by lia. done. }
  cut (∀ k : nat, Z.of_nat k ≤ n → ∀ b,
    load8 (foldl (λ m i, store8 m (dst + i) (load8 m (src + i))) m (seqZ 0 (Z.of_nat k))) b =
    if decide (dst ≤ b < dst + Z.of_nat k) then load8 m (src + (b - dst)) else load8 m b).
  { intros H. specialize (H (Z.to_nat n) ltac:(lia) b). by rewrite Z2Nat.id in H by lia. }
  induction k as [|k IH]; intros Hk c.
  - simpl. by rewrite decide_False by lia.
  - rewrite seqZ_S, foldl_app, Z.add_0_l. simpl. rewrite load8_store8, !IH by lia. destruct (decide (dst + Z.of_nat k = c)) as [<-|].
    + rewrite (decide_False (P := dst ≤ src + Z.of_nat k < dst + Z.of_nat k)) by lia.
      rewrite decide_True by lia. rewrite u8_small by apply Hm. f_equal. lia.
    + destruct (decide (dst ≤ c < dst + Z.of_nat k)); [rewrite decide_True by lia|rewrite decide_False by lia]; done.
Qed.

(** ** Lists through memory *)
Lemma is_list_ext m m' h l :
  (∀ a, a ∈ l → load64 m a = load64 m' a) → is_list m h l → is_list m' h l.
Proof.
  revert h. induction l as [|a l IH]; intros h Heq; simpl; [done|].
  intros (-> & ? & Hl). split_and!; [done..|].
  rewrite <- (Heq a) by set_solver. apply IH; [|done]. set_solver.
Qed.

(** Storing through a word that is no node of the list keeps the list. *)
Lemma is_list_store m h l a v :
  (∀ b, b ∈ l → b + 8 ≤ a ∨ a + 8 ≤ b) → is_list m h l → is_list (store64 m a v) h l.
Proof. intros Hd. apply is_list_ext. intros b Hb. by rewrite load64_store64_ne by auto. Qed.

Lemma is_list_fun m h l l' : is_list m h l → is_list m h l' → l = l'.
Proof.
  revert h l'. induction l as [|a l IH]; intros h [|b l']; simpl; [done|naive_solver..|].
  intros (-> & ? & ?) (-> & ? & ?). f_equal. eauto.
Qed.

Lemma is_list_null m l : is_list m 0 l → l = [].
Proof. destruct l; simpl; [done|]. naive_solver. Qed.

Lemma is_list_cons m h l : is_list m h l → h ≠ 0 → ∃ l', l = h :: l' ∧ is_list m (load64 m h) l'.
Proof. destruct l as [|a l]; simpl; [done|]. intros (-> & ? & ?) _. eauto. Qed.

(** Linking the last node of a list to the head of another one. *)
Lemma is_list_app m h l a k lk :
  is_list m h (l ++ [a]) → is_list m k lk → 0 ≤ k < 2 ^ 64 →
  NoDup (l ++ [a]) →
  (∀ b c, b ∈ l ++ [a] ++ lk → c ∈ l ++ [a] ++ lk → b ≠ c → b + 8 ≤ c ∨ c + 8 ≤ b) →
  a ∉ lk →
  is_list (store64 m a k) h (l ++ [a] ++ lk).
Proof.
  intros Hl Hk Hkr. revert h Hl. induction l as [|b l IH]; intros h Hl Hnd Hsep Ha; simpl in *.
  - destruct Hl as (-> & ? & _). split_and!; [done..|].
    rewrite load64_store64_eq by done. apply is_list_store; [|done].
    intros b Hb. apply Hsep; set_solver.
  - destruct Hl as (-> & ? & Hl). apply NoDup_cons in Hnd as [Hb Hnd].
    split_and!; [done..|]. rewrite load64_store64_ne.
    + apply IH; [done..| |done]. intros; apply Hsep; set_solver.
    + apply Hsep; set_solver.
Qed.

(** Stores keep memory a map to bytes. *)
Lemma bytes_store8 m a v : bytes m → bytes (store8 m a v).
Proof.
  intros Hm b. rewrite load8_store8. destruct (decide _); [|done]. apply u8_range.
Qed.

Lemma bytes_store_le n m a v : bytes m → bytes (store_le n m a v).
Proof. revert m a v. induction n; intros; simpl; auto using bytes_store8. Qed.

Lemma bytes_store64 m a v : bytes m → bytes (store64 m a v).
Proof. apply bytes_store_le. Qed.
#[export] Hint Resolve bytes_store8 bytes_store64 : alloc.

Lemma load_le_range n m a : bytes m → 0 ≤ load_le n m a < 256 ^ Z.of_nat n.
Proof.
  intros Hm. revert a. induction n as [|n IH]; intros a; [simpl; lia|].
  rewrite Nat2Z.inj_succ, Z.pow_succ_r by lia. simpl.
  specialize (IH (a + 1)). specialize (Hm a). lia.
Qed.

Lemma load64_range m a : bytes m → 0 ≤ load64 m a < 2 ^ 64.
Proof. intros. by apply (load_le_range 8). Qed.
