(* ===== verification/Types.v ===== *)
(** * Data model: the structs of include/malloc_types.h

    Metadata objects are records in finite maps keyed by the address the C
    code knows them by: a segment by its 4 MB aligned base, a page by its
    segment and its index in [pages], a large allocation by the base of its
    mapping, a thread's data by the address it was allocated at, an arena by
    its index in [g_state.arenas].  A null pointer is [None] (pages, arenas)
    or address 0 (everything that is an address). *)
From S2P Require Import Prelude Config Mem SizeClass.

(** ** Pages *)
Inductive page_state_t :=
| PAGE_UNUSED
| PAGE_ACTIVE
| PAGE_FULL
| PAGE_RETIRED.

#[global] Instance page_state_eq_dec : EqDecision page_state_t.
Proof. solve_decision. Defined.

(** [&seg->pages[i]]. *)
Notation page_ref := (Z * nat)%type.

Record page_meta_t := MkPage {
  pm_arena : option nat;
  pm_segment : Z;
  pm_owner_tid : Z;
  pm_bin_idx : Z;
  pm_state : page_state_t;
  pm_slot_size : Z;
  pm_capacity : Z;
  pm_used : Z;
  pm_bump_offset : Z;
  pm_bump_end : Z;
  pm_local_free : Z;
  pm_local_free_count : Z;
  pm_remote_free : Z;
  pm_remote_free_count : Z;
  pm_next : option page_ref;
  pm_prev : option page_ref;
  pm_page_index : Z;
  pm_debug_bitmap : mem
}.
#[global] Instance page_eta : Eta page_meta_t := λ p,
  MkPage (pm_arena p) (pm_segment p) (pm_owner_tid p) (pm_bin_idx p) (pm_state p)
    (pm_slot_size p) (pm_capacity p) (pm_used p) (pm_bump_offset p) (pm_bump_end p)
    (pm_local_free p) (pm_local_free_count p) (pm_remote_free p) (pm_remote_free_count p)
    (pm_next p) (pm_prev p) (pm_page_index p) (pm_debug_bitmap p).

(** The bytes of [memset(seg, 0, sizeof(segment_t))], read as a page. *)
Definition zero_page : page_meta_t :=
  MkPage None 0 0 0 PAGE_UNUSED 0 0 0 0 0 0 0 0 0 None None 0 ∅.

(** ** Segments *)
Record segment_t := MkSegment {
  sg_magic : Z;
  sg_page_count : Z;
  sg_pages_used : Z;
  sg_arena : option nat;
  sg_next : Z;
  sg_prev : Z;
  sg_pages : list page_meta_t
}.
#[global] Instance segment_eta : Eta segment_t := λ s,
  MkSegment (sg_magic s) (sg_page_count s) (sg_pages_used s) (sg_arena s)
    (sg_next s) (sg_prev s) (sg_pages s).

(** ** Arenas; a mutex is held or free. *)
Record arena_t := MkArena {
  ar_lock : bool;
  ar_id : Z;
  ar_thread_count : Z;
  ar_bins : list (option page_ref);
  ar_segments : Z;
  ar_segment_count : Z;
  ar_allocated : Z;
  ar_freed : Z;
  ar_alloc_count : Z;
  ar_free_count : Z
}.
#[global] Instance arena_eta : Eta arena_t := λ a,
  MkArena (ar_lock a) (ar_id a) (ar_thread_count a) (ar_bins a) (ar_segments a)
    (ar_segment_count a) (ar_allocated a) (ar_freed a) (ar_alloc_count a) (ar_free_count a).

(** ** Thread-local data *)
Record tld_t := MkTld {
  td_arena : option nat;
  td_thread_id : Z;
  td_bin_page : list (option page_ref);
  td_stat_allocated : Z;
  td_stat_freed : Z;
  td_stat_alloc_count : Z;
  td_stat_free_count : Z;
  td_stat_ops : Z
}.
#[global] Instance tld_eta : Eta tld_t := λ t,
  MkTld (td_arena t) (td_thread_id t) (td_bin_page t) (td_stat_allocated t)
    (td_stat_freed t) (td_stat_alloc_count t) (td_stat_free_count t) (td_stat_ops t).

(** ** Large allocations *)
Record large_alloc_t := MkLarge {
  la_base : Z;
  la_size : Z;
  la_user_size : Z;
  la_next : Z;
  la_prev : Z
}.
#[global] Instance large_eta : Eta large_alloc_t := λ l,
  MkLarge (la_base l) (la_size l) (la_user_size l) (la_next l) (la_prev l).

(** ** Global state

    [init_lock] and [segment_registry_lock] are declared in the source and
    never used; the bytes of [bootstrap_buf] are part of the memory, and its
    address is a parameter (Os.v). *)
Record global_state_t := MkGlobal {
  g_initialized : Z;
  g_arenas : list arena_t;
  g_arena_count : Z;
  g_arena_next : Z;
  g_large_list : Z;
  g_large_lock : bool;
  g_bootstrap_used : Z;
  g_large_allocated : Z;
  g_large_alloc_count : Z;
  g_mmap_bytes : Z;
  g_peak_in_use : Z;
  g_segment_registry : list Z;
  g_tables : SizeClass.tables
}.
#[global] Instance global_eta : Eta global_state_t := λ g,
  MkGlobal (g_initialized g) (g_arenas g) (g_arena_count g) (g_arena_next g)
    (g_large_list g) (g_large_lock g) (g_bootstrap_used g) (g_large_allocated g)
    (g_large_alloc_count g) (g_mmap_bytes g) (g_peak_in_use g)
    (g_segment_registry g) (g_tables g).

(** ** The machine

    [mc_g] is the C object [g_state]; the other fields are what it points to
    and what the program knows through the kernel and the thread library:
    user memory, the metadata stores, the mapped ranges, the value each
    thread has under [tld_key], [thread_id_counter] of src/tld.c, and [errno]. *)
Record machine := MkMachine {
  mc_g : global_state_t;
  mc_mem : mem;
  mc_segs : gmap Z segment_t;
  mc_larges : gmap Z large_alloc_t;
  mc_tlds : gmap Z tld_t;
  mc_specific : gmap Z Z;
  mc_thread_id_counter : Z;
  mc_mapped : list (Z * Z);
  mc_errno : Z
}.
#[global] Instance machine_eta : Eta machine := λ s,
  MkMachine (mc_g s) (mc_mem s) (mc_segs s) (mc_larges s) (mc_tlds s)
    (mc_specific s) (mc_thread_id_counter s) (mc_mapped s) (mc_errno s).

(** ** Access through pointers *)

(** [seg->pages[i]], and the store through a page pointer. *)
Definition lookup_page (s : machine) (r : page_ref) : option page_meta_t :=
  mc_segs s !! r.1 ≫= λ sg, sg_pages sg !! r.2.

Definition upd_seg (b : Z) (f : segment_t → segment_t) (s : machine) : machine :=
  s <| mc_segs ::= alter f b |>.

Definition upd_page (r : page_ref) (f : page_meta_t → page_meta_t) (s : machine) : machine :=
  upd_seg r.1 (λ sg, sg <| sg_pages ::= alter f r.2 |>) s.

Definition upd_arena (i : nat) (f : arena_t → arena_t) (s : machine) : machine :=
  s <| mc_g ::= λ g, g <| g_arenas ::= alter f i |> |>.

Definition upd_tld (a : Z) (f : tld_t → tld_t) (s : machine) : machine :=
  s <| mc_tlds ::= alter f a |>.

Definition upd_large (a : Z) (f : large_alloc_t → large_alloc_t) (s : machine) : machine :=
  s <| mc_larges ::= alter f a |>.

Definition upd_g (f : global_state_t → global_state_t) (s : machine) : machine :=
  s <| mc_g ::= f |>.

(** [pthread_mutex_lock] and [pthread_mutex_unlock] on an arena: taking a
    mutex that is already held, inside one call that nobody interrupts,
    blocks for ever. *)
Definition lock_arena (i : nat) (s : machine) : res machine :=
  a ← deref (g_arenas (mc_g s) !! i);
  if ar_lock a then Hang else Ok (upd_arena i (λ a, a <| ar_lock := true |>) s).

Definition unlock_arena (i : nat) (s : machine) : machine :=
  upd_arena i (λ a, a <| ar_lock := false |>) s.

(** Relaxed [atomic_fetch_add] on a [size_t]. *)
Definition add64 (x y : Z) : Z := u64 (x + y).
Definition sub64 (x y : Z) : Z := u64 (x - y).

(** ** Lemmas on the stores *)
Lemma lookup_page_Some s b i p :
  lookup_page s (b, i) = Some p ↔ ∃ sg, mc_segs s !! b = Some sg ∧ sg_pages sg !! i = Some p.
Proof. unfold lookup_page. simpl. by rewrite bind_Some. Qed.

Lemma lookup_upd_page_eq s r f :
  lookup_page (upd_page r f s) r = f <$> lookup_page s r.
Proof.
  destruct r as [b i]. unfold lookup_page, upd_page, upd_seg. simpl.
  rewrite lookup_alter_eq. destruct (mc_segs s !! b); simpl; [|done].
  by rewrite list_lookup_alter_eq.
Qed.

Lemma lookup_upd_page_ne s r r' f :
  r ≠ r' → lookup_page (upd_page r f s) r' = lookup_page s r'.
Proof.
  destruct r as [b i], r' as [b' i']. intros Hne.
  unfold lookup_page, upd_page, upd_seg. simpl. destruct (decide (b = b')) as [->|].
  - rewrite lookup_alter_eq. destruct (mc_segs s !! b'); simpl; [|done].
    rewrite list_lookup_alter_ne; [done|]. congruence.
  - by rewrite lookup_alter_ne.
Qed.
