(* ===== verification/Atomic.v ===== *)
(** * Tagged pointers and the Treiber stack: include/malloc_atomic.h

    A [tagged_ptr_t] is a 64-bit word: 16 bits of tag above 48 bits of
    address.  The operations below are the uncontended runs of the three CAS
    loops; a weak CAS may fail spuriously, which the [_loop] versions model
    by a list of oracle answers. *)
From S2P Require Import Prelude Config Mem.

Definition TAG_SHIFT : Z := 48.
Definition PTR_MASK : Z := Z.shiftl 1 TAG_SHIFT - 1.

Definition tagged_ptr_get (v : Z) : Z := Z.land v PTR_MASK.
Definition tagged_ptr_tag (v : Z) : Z := u16 (Z.shiftr v TAG_SHIFT).
Definition tagged_make (ptr tag : Z) : Z :=
  Z.lor (u64 (Z.shiftl tag TAG_SHIFT)) (Z.land ptr PTR_MASK).

(** [atomic_compare_exchange_weak]: the answer and the new contents; it may
    fail although the word holds the expected value. *)
Definition tagged_cas (spurious : bool) (cur expected desired : Z) : bool * Z :=
  if negb spurious && (cur =? expected) then (true, desired) else (false, cur).

(** [treiber_push]: returns the memory and the new head word. *)
Fixpoint treiber_push_loop (spurious : list bool) (m : mem) (head node next_offset : Z) : mem * Z :=
  let old := head in
  let old_ptr := Z.land old PTR_MASK in
  let old_tag := u16 (Z.shiftr old TAG_SHIFT) in
  let m := store64 m (node + next_offset) old_ptr in
  let desired := tagged_make node (u16 (old_tag + 1)) in
  match spurious with
  | [] => (m, snd (tagged_cas false head old desired))
  | b :: spurious =>
      let '(ok, head) := tagged_cas b head old desired in
      if ok then (m, head) else treiber_push_loop spurious m head node next_offset
  end.

Definition treiber_push (m : mem) (head node next_offset : Z) : mem * Z :=
  treiber_push_loop [] m head node next_offset.

(** [treiber_pop]: returns the popped node (0 when empty) and the new head. *)
Fixpoint treiber_pop_loop (spurious : list bool) (m : mem) (head next_offset : Z) : Z * Z :=
  let old := head in
  let old_ptr := Z.land old PTR_MASK in
  if old_ptr =? 0 then (0, head) else
  let old_tag := u16 (Z.shiftr old TAG_SHIFT) in
  let next := load64 m (old_ptr + next_offset) in
  let desired := tagged_make next (u16 (old_tag + 1)) in
  match spurious with
  | [] => (old_ptr, snd (tagged_cas false head old desired))
  | b :: spurious =>
      let '(ok, head) := tagged_cas b head old desired in
      if ok then (old_ptr, head) else treiber_pop_loop spurious m head next_offset
  end.

Definition treiber_pop (m : mem) (head next_offset : Z) : Z * Z :=
  treiber_pop_loop [] m head next_offset.

(** [treiber_collect]: takes the whole list, leaving an empty stack. *)
Fixpoint treiber_collect_loop (spurious : list bool) (head : Z) : Z * Z :=
  let old := head in
  let old_ptr := Z.land old PTR_MASK in
  if old_ptr =? 0 then (0, head) else
  let old_tag := u16 (Z.shiftr old TAG_SHIFT) in
  let desired := tagged_make 0 (u16 (old_tag + 1)) in
  match spurious with
  | [] => (old_ptr, snd (tagged_cas false head old desired))
  | b :: spurious =>
      let '(ok, head) := tagged_cas b head old desired in
      if ok then (old_ptr, head) else treiber_collect_loop spurious head
  end.

Definition treiber_collect (head : Z) : Z * Z := treiber_collect_loop [] head.

(** The stack a head word denotes: its nodes, linked at offset 0. *)
Definition is_stack (m : mem) (head : Z) (l : list Z) : Prop :=
  is_list m (tagged_ptr_get head) l.

(** Addresses a tagged pointer can hold. *)
Definition user_addr (a : Z) : Prop := 0 < a < 2 ^ 48.

(** ** Round trips of the encoding *)
Lemma PTR_MASK_ones : PTR_MASK = Z.ones 48.
Proof. reflexivity. Qed.

Lemma tagged_ptr_get_mod v : tagged_ptr_get v = v mod 2 ^ 48.
Proof. unfold tagged_ptr_get. rewrite PTR_MASK_ones. by apply Z.land_ones. Qed.

Lemma tagged_ptr_tag_div v : 0 ≤ v < 2 ^ 64 → tagged_ptr_tag v = v / 2 ^ 48.
Proof.
  intros. unfold tagged_ptr_tag, TAG_SHIFT. rewrite Z.shiftr_div_pow2 by lia.
  apply u16_small. Z.div_mod_to_equations; lia.
Qed.

Lemma tagged_make_arith p t :
  0 ≤ t < 2 ^ 16 → tagged_make p t = t * 2 ^ 48 + p mod 2 ^ 48.
Proof.
  intros Ht. unfold tagged_make, TAG_SHIFT. rewrite PTR_MASK_ones.
  rewrite Z.land_ones, Z.shiftl_mul_pow2, u64_small by lia.
  rewrite <- Z.add_lor_land.
  replace (Z.land (t * 2 ^ 48) (p mod 2 ^ 48)) with 0; [lia|].
  symmetry. apply Z.bits_inj'. intros n Hn. rewrite Z.land_spec, Z.bits_0.
  destruct (Z.lt_ge_cases n 48).
  - rewrite Z.mul_pow2_bits_low by lia. done.
  - rewrite Z.mod_pow2_bits_high by lia. apply andb_false_r.
Qed.

Lemma tagged_make_range p t : 0 ≤ t < 2 ^ 16 → 0 ≤ tagged_make p t < 2 ^ 64.
Proof. intros. rewrite tagged_make_arith by done. Z.div_mod_to_equations; lia. Qed.

Lemma tagged_get_make p t :
  0 ≤ p < 2 ^ 48 → 0 ≤ t < 2 ^ 16 → tagged_ptr_get (tagged_make p t) = p.
Proof.
  intros. rewrite tagged_ptr_get_mod, tagged_make_arith by done.
  Z.div_mod_to_equations; lia.
Qed.

Lemma tagged_tag_make p t :
  0 ≤ t < 2 ^ 16 → tagged_ptr_tag (tagged_make p t) = t.
Proof.
  intros. rewrite tagged_ptr_tag_div by by apply tagged_make_range.
  rewrite tagged_make_arith by done. Z.div_mod_to_equations; lia.
Qed.

Lemma tagged_make_get_tag v :
  0 ≤ v < 2 ^ 64 → tagged_make (tagged_ptr_get v) (tagged_ptr_tag v) = v.
Proof.
  intros. rewrite tagged_make_arith by apply u16_range.
  rewrite tagged_ptr_tag_div, tagged_ptr_get_mod by done. Z.div_mod_to_equations; lia.
Qed.

Lemma tagged_get_range v : 0 ≤ tagged_ptr_get v < 2 ^ 48.
Proof. rewrite tagged_ptr_get_mod. by apply Z.mod_pos_bound. Qed.
#[export] Hint Resolve tagged_make_range tagged_get_range : alloc.

(** ** Spurious failures only repeat the attempt *)
Lemma store64_idem m a v : store64 (store64 m a v) a v = store64 m a v.
Proof.
  unfold store64. simpl. unfold store8. apply map_eq. intros b.
  rewrite !lookup_insert. repeat case_decide; done.
Qed.

Lemma treiber_push_loop_eq spurious m head node off :
  treiber_push_loop spurious m head node off = treiber_push m head node off.
Proof.
  revert m. induction spurious as [|b l IH]; intros m; [done|]. simpl.
  unfold tagged_cas. rewrite Z.eqb_refl. destruct b; simpl.
  - rewrite IH. unfold treiber_push. simpl. unfold tagged_cas. rewrite Z.eqb_refl.
    by rewrite store64_idem.
  - unfold treiber_push. simpl. unfold tagged_cas. by rewrite Z.eqb_refl.
Qed.

Lemma treiber_collect_loop_eq spurious head :
  treiber_collect_loop spurious head = treiber_collect head.
Proof.
  induction spurious as [|b l IH]; [done|]. simpl. unfold treiber_collect. simpl.
  destruct (Z.land head PTR_MASK =? 0) eqn:E; [done|].
  unfold tagged_cas. rewrite Z.eqb_refl. destruct b; simpl; [|done].
  rewrite IH. unfold treiber_collect. simpl. rewrite E. unfold tagged_cas.
  by rewrite Z.eqb_refl.
Qed.

(** ** The stack operations *)
Lemma treiber_push_value m head node :
  treiber_push m head node 0 =
    (store64 m node (tagged_ptr_get head), tagged_make node (u16 (tagged_ptr_tag head + 1))).
Proof.
  unfold treiber_push. simpl. unfold tagged_cas. rewrite Z.eqb_refl, Z.add_0_r. done.
Qed.

Lemma treiber_push_spec m head node l :
  user_addr node → is_stack m head l →
  (∀ b, b ∈ l → b + 8 ≤ node ∨ node + 8 ≤ b) →
  let '(m', head') := treiber_push m head node 0 in
  is_stack m' head' (node :: l).
Proof.
  intros Hn Hl Hsep. rewrite treiber_push_value. unfold is_stack, user_addr in *. simpl.
  rewrite tagged_get_make by (try apply u16_range; lia).
  split_and!; [done|lia|]. rewrite load64_store64_eq.
  - by apply is_list_store.
  - pose proof (tagged_get_range head). lia.
Qed.

Lemma treiber_collect_value head :
  treiber_collect head =
    if tagged_ptr_get head =? 0 then (0, head)
    else (tagged_ptr_get head, tagged_make 0 (u16 (tagged_ptr_tag head + 1))).
Proof.
  unfold treiber_collect. simpl. unfold tagged_ptr_get, tagged_ptr_tag, tagged_cas.
  by rewrite Z.eqb_refl.
Qed.

Lemma treiber_collect_empties head :
  tagged_ptr_get (snd (treiber_collect head)) = 0.
Proof.
  rewrite treiber_collect_value. destruct (Z.eqb_spec (tagged_ptr_get head) 0); simpl; [done|].
  apply tagged_get_make; [lia|apply u16_range].
Qed.

Lemma treiber_collect_head head : fst (treiber_collect head) = tagged_ptr_get head.
Proof.
  rewrite treiber_collect_value. by destruct (Z.eqb_spec (tagged_ptr_get head) 0).
Qed.
