(* ===== verification/Os.v ===== *)
(** * The operating system: src/os.c

    The kernel is a parameter of the development: [Env] collects what the
    program learns from it (the page size, the address [mmap] chooses, what
    [madvise] leaves of the pages it is given) together with the address the
    linker gives [g_state.bootstrap_buf] and the build mode [MALLOC_DEBUG].
    [EnvLaws] states the documented behaviour of these calls.  The set of
    mapped ranges is part of the machine. *)
From S2P Require Import Prelude Config Mem Types.

Class Env := {
  getpagesize : Z;
  (** the address [mmap(NULL, len, ...)] returns when the given ranges are
      mapped, [None] for [MAP_FAILED] *)
  mmap_choose : list (Z * Z) → Z → option Z;
  (** memory after [madvise(addr, len, MADV_FREE)] *)
  madvise_mem : mem → Z → Z → mem;
  bootstrap_buf : Z;
  malloc_debug : bool
}.

(** Lengths are rounded up to whole pages by the kernel. *)
Definition whole_pages `{Env} (len : Z) : Z := (len + getpagesize - 1) / getpagesize * getpagesize.

Class EnvLaws (E : Env) := {
  getpagesize_pow2 : ∃ k, 12 ≤ k ≤ 16 ∧ getpagesize = 2 ^ k;
  (** a mapping is page aligned, not null, below 2^47, and overlaps no range
      that is already mapped; a length of 0 is refused *)
  mmap_choose_spec rs len p :
    mmap_choose rs len = Some p →
    0 < len ∧ 0 < p ∧ (getpagesize | p) ∧ p + whole_pages len ≤ 2 ^ 47 ∧
    ∀ r, r ∈ rs → disjoint_ranges p (whole_pages len) r.1 r.2;
  (** a discarded byte keeps its value or reads as zero; the rest is kept *)
  madvise_mem_spec m lo len a :
    load8 (madvise_mem m lo len) a = load8 m a ∨
    (in_range a lo len ∧ load8 (madvise_mem m lo len) a = 0);
  (** the bootstrap buffer is a static object of 16-byte alignment *)
  bootstrap_buf_range : 0 < bootstrap_buf ∧ bootstrap_buf + BOOTSTRAP_BUF_SIZE ≤ 2 ^ 47;
  bootstrap_buf_aligned : (16 | bootstrap_buf)
}.

Section Os.
Context `{E : Env}.

(** An address that some mapped range covers. *)
Definition is_mapped (s : machine) (a : Z) : Prop :=
  Exists (λ r, in_range a r.1 r.2) (mc_mapped s).

(** What is left of a mapped range after unmapping [lo .. lo + len). *)
Definition range_sub (lo len : Z) (r : Z * Z) : list (Z * Z) :=
  let '(b, l) := r in
  (if b <? lo then [(b, Z.min (b + l) lo - b)] else []) ++
  (if lo + len <? b + l then [(Z.max b (lo + len), b + l - Z.max b (lo + len))] else []).

(** The system calls. *)
Definition sys_mmap (len : Z) (s : machine) : option Z * machine :=
  match mmap_choose (mc_mapped s) len with
  | None => (None, s)
  | Some p =>
      (Some p, s <| mc_mapped ::= cons (p, whole_pages len) |>
                 <| mc_mem ::= λ m, zero_range m p (whole_pages len) |>)
  end.

Definition sys_munmap (addr len : Z) (s : machine) : machine :=
  s <| mc_mapped ::= λ rs, rs ≫= range_sub addr (whole_pages len) |>.

Definition add_mmap_bytes (n : Z) (s : machine) : machine :=
  upd_g (λ g, g <| g_mmap_bytes ::= λ b, add64 b n |>) s.

Definition sub_mmap_bytes (n : Z) (s : machine) : machine :=
  upd_g (λ g, g <| g_mmap_bytes ::= λ b, sub64 b n |>) s.

(** [os_mmap_aligned]: 0 is the null pointer it returns on failure. *)
Definition os_mmap_aligned (size alignment : Z) (s : machine) : Z * machine :=
  if alignment <=? getpagesize then
    match sys_mmap size s with
    | (Some p, s) => (p, add_mmap_bytes size s)
    | (None, s) => (0, s)
    end
  else
    let extra := u64 (size + alignment - 1) in
    match sys_mmap extra s with
    | (None, s) => (0, s)
    | (Some base, s) =>
        let addr := base in
        let aligned := align_up addr alignment in
        let s := if addr <? aligned then sys_munmap base (aligned - addr) s else s in
        let end_ := u64 (aligned + size) in
        let base_end := u64 (addr + extra) in
        let s := if end_ <? base_end then sys_munmap end_ (base_end - end_) s else s in
        (aligned, add_mmap_bytes size s)
    end.

Definition os_munmap (addr size : Z) (s : machine) : machine :=
  if negb (addr =? 0) && (0 <? size) then sub_mmap_bytes size (sys_munmap addr size s) else s.

Definition os_madvise_free (addr size : Z) (s : machine) : machine :=
  if negb (addr =? 0) && (0 <? size)
  then s <| mc_mem ::= λ m, madvise_mem m addr size |> else s.

Definition os_page_size : Z := getpagesize.

(** The kernel refuses a mapping of [len] bytes in this state. *)
Definition mmap_refused (len : Z) (s : machine) : Prop := mmap_choose (mc_mapped s) len = None.

(** The length [os_mmap_aligned] asks the kernel for. *)
Definition mapping_request (size alignment : Z) : Z :=
  if alignment <=? getpagesize then size else size + alignment - 1.

(** What a successful aligned mapping of [size] bytes at [p] gives: the
    mapped set grows by exactly these bytes, none of which was mapped before,
    they read as zero, and nothing else of the machine changes but the byte
    counter. *)
Definition mapped_fresh (size p : Z) (s s' : machine) : Prop :=
  0 < p ∧ p + size ≤ 2 ^ 47 ∧
  (∀ a, is_mapped s' a ↔ is_mapped s a ∨ in_range a p size) ∧
  (∀ a, in_range a p size → ¬ is_mapped s a) ∧
  (∀ a, in_range a p size → load8 (mc_mem s') a = 0) ∧
  (∀ a, is_mapped s a → load8 (mc_mem s') a = load8 (mc_mem s) a) ∧
  s' = s <| mc_mapped := mc_mapped s' |> <| mc_mem := mc_mem s' |>
         <| mc_g ::= λ g, g <| g_mmap_bytes := add64 (g_mmap_bytes g) size |> |>.

(** ** Ranges *)
Lemma range_sub_spec lo len r a :
  Exists (λ r, in_range a r.1 r.2) (range_sub lo len r) ↔
  in_range a r.1 r.2 ∧ ¬ in_range a lo len.
Proof.
  destruct r as [b l]. unfold range_sub. rewrite Exists_app. unfold in_range.
  destruct (Z.ltb_spec b lo), (Z.ltb_spec (lo + len) (b + l));
    rewrite ?Exists_cons, ?Exists_nil; simpl; lia.
Qed.

Lemma is_mapped_munmap addr len s a :
  is_mapped (sys_munmap addr len s) a ↔
  is_mapped s a ∧ ¬ in_range a addr (whole_pages len).
Proof.
  unfold is_mapped, sys_munmap. simpl. induction (mc_mapped s) as [|r rs IH].
  - simpl. rewrite Exists_nil. naive_solver.
  - simpl. rewrite Exists_app, IH, range_sub_spec, Exists_cons. tauto.
Qed.

Lemma is_mapped_mmap p len s s' a :
  sys_mmap len s = (Some p, s') →
  is_mapped s' a ↔ is_mapped s a ∨ in_range a p (whole_pages len).
Proof.
  unfold sys_mmap, is_mapped. destruct (mmap_choose _ _); [|done]. intros [= -> <-]. simpl.
  rewrite Exists_cons. simpl. tauto.
Qed.

Section Laws.
Context {EL : EnvLaws E}.

Lemma getpagesize_pos : 0 < getpagesize.
Proof. destruct getpagesize_pow2 as (k & Hk & ->). apply Z.pow_pos_nonneg; lia. Qed.

(** A segment is a whole number of the kernel's pages. *)
Lemma segment_whole_pages : (getpagesize | SEGMENT_SIZE).
Proof.
  destruct getpagesize_pow2 as (k & Hk & ->). exists (2 ^ (22 - k)).
  rewrite <- Z.pow_add_r by lia. change SEGMENT_SIZE with (2 ^ 22). f_equal. lia.
Qed.

Lemma whole_pages_ge len : len ≤ whole_pages len < len + getpagesize.
Proof.
  unfold whole_pages. pose proof getpagesize_pos. revert H.
  generalize getpagesize. intros n Hn. Z.div_mod_to_equations; nia.
Qed.

Lemma whole_pages_id len : (getpagesize | len) → whole_pages len = len.
Proof.
  intros [q ->]. pose proof getpagesize_pos. unfold whole_pages. revert H.
  generalize getpagesize. intros n Hn.
  replace (q * n + n - 1) with ((n - 1) + q * n) by lia.
  rewrite Z.div_add, Z.div_small by lia. lia.
Qed.

Lemma sys_mmap_fresh p len s s' :
  sys_mmap len s = (Some p, s') →
  0 < len ∧ 0 < p ∧ (getpagesize | p) ∧ p + whole_pages len ≤ 2 ^ 47 ∧
  (∀ a, in_range a p (whole_pages len) → ¬ is_mapped s a) ∧
  s' = s <| mc_mapped ::= cons (p, whole_pages len) |>
         <| mc_mem ::= λ m, zero_range m p (whole_pages len) |>.
Proof.
  unfold sys_mmap. destruct (mmap_choose _ _) as [q|] eqn:Hq; [|done]. intros [= -> <-].
  apply mmap_choose_spec in Hq as (? & ? & ? & ? & Hd). split_and!; try done.
  intros a Ha Hm. unfold is_mapped in Hm. apply Exists_exists in Hm as (r & Hr & Har).
  specialize (Hd r Hr). unfold disjoint_ranges, in_range in *. lia.
Qed.

Lemma whole_pages_pred n : (getpagesize | n) → whole_pages (n - 1) = n.
Proof.
  intros [q ->]. destruct getpagesize_pow2 as (k & Hk & Hp).
  assert (1 < getpagesize) by (rewrite Hp; apply Z.pow_gt_1; lia).
  unfold whole_pages. clear Hp. revert H. generalize getpagesize. intros n Hn.
  replace (q * n - 1 + n - 1) with ((n - 2) + q * n) by lia.
  rewrite Z.div_add, Z.div_small by lia. lia.
Qed.

(** Where [align_up] puts a page-aligned base, and that the two trims cover
    exactly the slack. *)
Lemma trim_ranges base size k :
  0 < base → (getpagesize | base) → (getpagesize | size) → 0 < size →
  getpagesize < 2 ^ k → 0 ≤ k → base + size + 2 ^ k < 2 ^ 63 →
  let aligned := align_up base (2 ^ k) in
  base ≤ aligned < base + 2 ^ k ∧ (2 ^ k | aligned) ∧
  whole_pages (aligned - base) = aligned - base ∧
  whole_pages (size + 2 ^ k - 1) = size + 2 ^ k ∧
  aligned + size < base + (size + 2 ^ k - 1) ∧
  whole_pages (base + (size + 2 ^ k - 1) - (aligned + size)) = base + 2 ^ k - aligned.
Proof.
  intros Hb Hpb Hps Hs Hk Hk0 Hlim aligned.
  pose proof (Z.pow_pos_nonneg 2 k ltac:(lia) ltac:(lia)).
  destruct getpagesize_pow2 as (j & Hj & Hp).
  assert (getpagesize | 2 ^ k) as Hpk.
  { rewrite Hp in *. exists (2 ^ (k - j)). rewrite <- Z.pow_add_r by
      (try lia; apply Z.lt_le_incl, Z.lt_0_sub, (Z.pow_lt_mono_r_iff 2); lia).
    f_equal. lia. }
  pose proof (align_up_bounds base k Hk0 ltac:(lia) ltac:(lia)) as Hal.
  pose proof (align_up_divide base k Hk0 ltac:(lia) ltac:(lia)) as Hdiv.
  fold aligned in Hal, Hdiv.
  assert (getpagesize | aligned) as Hpa by (by etrans).
  assert (getpagesize | base + 2 ^ k - aligned) as Hrest by auto using Z.divide_sub_r, Z.divide_add_r.
  split_and!; [lia|lia|done|apply whole_pages_id; by apply Z.divide_sub_r
    |apply whole_pages_pred; by apply Z.divide_add_r| |].
  - pose proof getpagesize_pos. assert (1 < getpagesize) by (rewrite Hp; apply Z.pow_gt_1; lia).
    apply Z.divide_pos_le in Hrest; lia.
  - rewrite <- (whole_pages_pred (base + 2 ^ k - aligned)) by done. f_equal. lia.
Qed.

Lemma mapped_fresh_direct size p s s' :
  0 < size → (getpagesize | size) →
  sys_mmap size s = (Some p, s') → mapped_fresh size p s (add_mmap_bytes size s').
Proof.
  intros Hs Hps Hm. pose proof (is_mapped_mmap p size s s') as His.
  apply sys_mmap_fresh in Hm as Hf. destruct Hf as (_ & Hp & _ & Hlim & Hfresh & ->).
  rewrite (whole_pages_id size Hps) in *. split_and!; simpl; try done.
  - intros a. by apply His.
  - intros a Ha. rewrite load8_zero_range. by rewrite decide_True.
  - intros a Ha. rewrite load8_zero_range. rewrite decide_False; [done|].
    intros Hin. by apply (Hfresh a).
Qed.

(** Unmapping what lies before and after [p .. p + size) in a fresh mapping. *)
Lemma mapped_fresh_trimmed base total p size s s1 lead tail :
  s1 = s <| mc_mapped ::= cons (base, total) |> <| mc_mem ::= λ m, zero_range m base total |> →
  0 < base → base + total ≤ 2 ^ 47 →
  (∀ a, in_range a base total → ¬ is_mapped s a) →
  base + whole_pages lead = p → 0 ≤ whole_pages lead → 0 < size →
  p + size + whole_pages tail = base + total → 0 ≤ whole_pages tail →
  let s2 := if base <? p then sys_munmap base lead s1 else s1 in
  mapped_fresh size p s (add_mmap_bytes size (sys_munmap (p + size) tail s2)).
Proof.
  intros Hs1 Hb Hlim Hfresh Hp Hl0 Hs Htl Ht0 s2.
  assert (∀ a, is_mapped s1 a ↔ is_mapped s a ∨ in_range a base total) as H1.
  { intros a. subst s1. unfold is_mapped. simpl. rewrite Exists_cons. simpl. tauto. }
  assert (∀ a, is_mapped s2 a ↔ is_mapped s1 a ∧ ¬ in_range a base (whole_pages lead)) as H2.
  { intros a. unfold s2. destruct (Z.ltb_spec base p); [apply is_mapped_munmap|].
    unfold in_range. split; [|tauto]. intros; split; [done|lia]. }
  assert (mc_mem s2 = zero_range (mc_mem s) base total) as Hmem.
  { unfold s2. subst s1. by destruct (base <? p). }
  assert (∀ a, in_range a p size → in_range a base total) as Hin by (unfold in_range; lia).
  split_and!; simpl.
  - lia.
  - lia.
  - intros a. change (is_mapped (add_mmap_bytes size (sys_munmap (p + size) tail s2)) a)
      with (is_mapped (sys_munmap (p + size) tail s2) a).
    rewrite is_mapped_munmap, H2, H1. specialize (Hfresh a). specialize (Hin a).
    split.
    + unfold in_range in *. intros [[[?|?] ?] ?]; [by left|right; lia].
    + intros [Hm|Ha]; [|unfold in_range in *; lia].
      split_and!; [by left|intros Hr..]; (destruct Hfresh; [unfold in_range in *; lia|done]).
  - intros a Ha. auto.
  - intros a Ha. rewrite Hmem, load8_zero_range, decide_True; auto.
  - intros a Ha. rewrite Hmem, load8_zero_range, decide_False; [done|].
    intros Hr. by apply (Hfresh a).
  - unfold s2. subst s1. by destruct (base <? p), s.
Qed.

Lemma os_mmap_aligned_run size k s p s' :
  0 < size → (getpagesize | size) → 0 ≤ k → size + 2 ^ k < 2 ^ 62 →
  os_mmap_aligned size (2 ^ k) s = (p, s') →
  (p = 0 ∧ s' = s ∧ mmap_refused (mapping_request size (2 ^ k)) s) ∨
  ((2 ^ k | p) ∧ mapped_fresh size p s s').
Proof.
  intros Hs Hps Hk Hlim. unfold os_mmap_aligned, mapping_request, mmap_refused.
  pose proof (Z.pow_pos_nonneg 2 k ltac:(lia) ltac:(lia)).
  destruct (Z.leb_spec (2 ^ k) getpagesize) as [Hle|Hgt].
  - destruct (sys_mmap size s) as [[q|] s1] eqn:Hm; intros [= <- <-].
    2: { left. unfold sys_mmap in Hm. destruct (mmap_choose _ _) eqn:?; naive_solver. }
    right. split; [|by apply mapped_fresh_direct].
    apply sys_mmap_fresh in Hm as (_ & _ & Hq & _).
    destruct getpagesize_pow2 as (j & Hj & Hp). rewrite Hp in *.
    etrans; [|exact Hq]. exists (2 ^ (j - k)).
    assert (k ≤ j) by (apply (Z.pow_le_mono_r_iff 2); lia).
    rewrite <- Z.pow_add_r by lia. f_equal. lia.
  - rewrite (u64_small (size + 2 ^ k - 1)) by lia.
    destruct (sys_mmap _ s) as [[base|] s1] eqn:Hm.
    2: { intros [= <- <-]. left. unfold sys_mmap in Hm. destruct (mmap_choose _ _) eqn:?; naive_solver. }
    apply sys_mmap_fresh in Hm as Hf. destruct Hf as (_ & Hb & Hpb & Hmax & Hfresh & Heq).
    pose proof (whole_pages_ge (size + 2 ^ k - 1)).
    destruct (trim_ranges base size k) as (Hal & Hdiv & Hw1 & Hw2 & Hlt & Hw3); try done; [lia|].
    rewrite Hw2 in *. set (aligned := align_up base (2 ^ k)) in *.
    rewrite (u64_small (aligned + size)), (u64_small (base + _)) by lia.
    destruct (Z.ltb_spec (aligned + size) (base + (size + 2 ^ k - 1))); [|lia].
    intros [= <- <-]. right. split; [done|].
    apply (mapped_fresh_trimmed base (size + 2 ^ k)); rewrite ?Hw1, ?Hw3; first [done|lia].
Qed.

End Laws.
End Os.
