(* ===== verification/DemoEnv.v ===== *)
(** * A concrete environment

    An instance of [Env] that satisfies [EnvLaws]: 16 KB pages, a kernel that
    maps every request just above the highest mapped byte and discards what
    [madvise] offers.  The witnesses run the allocator on it. *)
From S2P Require Import Prelude Config Mem Types Os.

Definition demo_page : Z := 16384.

(** The end of the highest mapped range. *)
Definition highest (rs : list (Z * Z)) : Z := foldr (λ r h, Z.max (r.1 + r.2) h) (2 ^ 32) rs.

Definition demo_choose (rs : list (Z * Z)) (len : Z) : option Z :=
  let p := (highest rs + demo_page - 1) / demo_page * demo_page in
  let wp := (len + demo_page - 1) / demo_page * demo_page in
  if (0 <? len) && (p + wp <=? 2 ^ 47) then Some p else None.

Definition demo_env (debug : bool) : Env := {|
  getpagesize := demo_page;
  mmap_choose := demo_choose;
  madvise_mem := zero_range;
  bootstrap_buf := 2 ^ 31;
  malloc_debug := debug
|}.

Lemma highest_ge rs : 2 ^ 32 ≤ highest rs.
Proof. induction rs; simpl; lia. Qed.

Lemma highest_above rs r : r ∈ rs → r.1 + r.2 ≤ highest rs.
Proof.
  induction rs as [|r' rs IH]; [set_solver|]. intros [->|Hr]%elem_of_cons; simpl; [lia|].
  specialize (IH Hr). lia.
Qed.

#[global] Instance demo_laws debug : EnvLaws (demo_env debug).
Proof.
  split.
  - exists 14. by split.
  - intros rs len p. unfold mmap_choose, demo_env, demo_choose, whole_pages.
    simpl. unfold demo_page. intros H. case_match eqn:Hc; [|done]. injection H as <-.
    apply andb_true_iff in Hc as [Hlen Hmax]. pose proof (highest_ge rs).
    apply Z.ltb_lt in Hlen. apply Z.leb_le in Hmax.
    split_and!; [lia|Z.div_mod_to_equations; lia|by apply Z.divide_factor_r|lia|].
    intros r Hr%highest_above. right. Z.div_mod_to_equations; lia.
  - intros m lo len a. simpl. rewrite load8_zero_range.
    destruct (decide _); [by right|by left].
  - by vm_compute.
  - by exists (2 ^ 27).
Qed.
