(* ===== verification/Page.v ===== *)
(** * Pages: src/page.c

    A page is a 64 KB slab of equal slots.  Its metadata lives out of band in
    the segment header; freed slots are linked through their first word, on
    the owner's [local_free] list or on the [remote_free] Treiber stack. *)
From S2P Require Import Prelude Config Mem Atomic Types Os.

(** [page_start] of src/segment.c. *)
Definition page_start (p : page_meta_t) : Z :=
  u64 (pm_segment p + pm_page_index p * PAGE_SIZE_ALLOC).

Definition page_init (p : page_meta_t) (seg : Z) (seg_arena : option nat)
    (page_index bin_idx slot_size : Z) : page_meta_t :=
  let p := p <| pm_segment := seg |> <| pm_arena := seg_arena |>
             <| pm_page_index := page_index |> <| pm_bin_idx := bin_idx |>
             <| pm_slot_size := slot_size |> <| pm_state := PAGE_ACTIVE |> in
  let p := if pm_slot_size p <? MIN_ALIGN then p <| pm_slot_size := MIN_ALIGN |> else p in
  let p := p <| pm_slot_size ::=
    λ z, u32 (Z.land (u32 (z + (MIN_ALIGN - 1))) (Z.lnot (MIN_ALIGN - 1))) |> in
  let p := p <| pm_capacity := u16 (PAGE_SIZE_ALLOC / pm_slot_size p) |> <| pm_used := 0 |> in
  p <| pm_bump_offset := 0 |> <| pm_bump_end := u32 (pm_capacity p * pm_slot_size p) |>
    <| pm_local_free := 0 |> <| pm_local_free_count := 0 |>
    <| pm_remote_free := 0 |> <| pm_remote_free_count := 0 |>
    <| pm_next := None |> <| pm_prev := None |>
    <| pm_owner_tid := UINT32_MAX |> <| pm_debug_bitmap := ∅ |>.

(** The four statements that pop the local free list. *)
Definition pop_local_free (m : mem) (p : page_meta_t) : Z * page_meta_t :=
  let slot := pm_local_free p in
  (slot, p <| pm_local_free := load64 m slot |>
           <| pm_local_free_count ::= λ c, u16 (c - 1) |>
           <| pm_used ::= λ u, u16 (u + 1) |>).

(** The statements that take the next virgin slot. *)
Definition bump_slot (p : page_meta_t) : Z * page_meta_t :=
  let slot := u64 (page_start p + pm_bump_offset p) in
  (slot, p <| pm_bump_offset ::= λ o, u32 (o + pm_slot_size p) |>
           <| pm_used ::= λ u, u16 (u + 1) |>).

(** The loop of [page_collect_remote] that looks for the last node and counts
    the list.  A list of a page has at most [capacity] nodes; a longer walk
    is a cycle, which the code follows for ever. *)
Fixpoint collect_walk (fuel : nat) (m : mem) (current count : Z) : res (Z * Z) :=
  match fuel with
  | O => Hang
  | S fuel =>
      let tail := current in
      let count := u16 (count + 1) in
      let next := load64 m current in
      if next =? 0 then Ok (tail, count) else collect_walk fuel m next count
  end.

Definition page_collect_remote (m : mem) (p : page_meta_t) : res (mem * page_meta_t) :=
  let '(lst, head) := treiber_collect (pm_remote_free p) in
  let p := p <| pm_remote_free := head |> in
  if lst =? 0 then Ok (m, p) else
  '(tail, count) ← collect_walk (Z.to_nat (pm_capacity p)) m lst 0;
  let m := store64 m tail (pm_local_free p) in
  Ok (m, p <| pm_local_free := lst |>
           <| pm_local_free_count ::= λ c, u16 (c + count) |>
           <| pm_remote_free_count ::= λ c, u16 (c - count) |>).

Definition page_alloc_slot (m : mem) (p : page_meta_t) : res (Z * mem * page_meta_t) :=
  if negb (pm_local_free p =? 0) then
    let '(slot, p) := pop_local_free m p in Ok (slot, m, p)
  else if pm_bump_offset p <? pm_bump_end p then
    let '(slot, p) := bump_slot p in Ok (slot, m, p)
  else
    '(m, p) ← page_collect_remote m p;
    if negb (pm_local_free p =? 0) then
      let '(slot, p) := pop_local_free m p in Ok (slot, m, p)
    else Ok (0, m, p).

Definition page_free_slot_local (m : mem) (p : page_meta_t) (ptr : Z) : mem * page_meta_t :=
  (store64 m ptr (pm_local_free p),
   p <| pm_local_free := ptr |>
     <| pm_local_free_count ::= λ c, u16 (c + 1) |>
     <| pm_used ::= λ u, u16 (u - 1) |>).

Definition page_free_slot_remote (m : mem) (p : page_meta_t) (ptr : Z) : mem * page_meta_t :=
  let '(m, head) := treiber_push m (pm_remote_free p) ptr 0 in
  (m, p <| pm_remote_free := head |>
        <| pm_remote_free_count ::= λ c, u16 (c + 1) |>
        <| pm_used ::= λ u, u16 (u - 1) |>).

Definition page_is_empty (p : page_meta_t) : bool :=
  (pm_used p =? 0) && (0 <? pm_bump_offset p).

Definition page_retire `{Env} (r : page_ref) (s : machine) : res machine :=
  p ← deref (lookup_page s r);
  Ok (os_madvise_free (page_start p) PAGE_SIZE_ALLOC
        (upd_page r (λ p, p <| pm_state := PAGE_RETIRED |>) s)).

(** ** The page invariant *)

(** The slot size a bin's pages really use. *)
Definition slot_size_of (size : Z) : Z := 16 * ((Z.max 16 size + 15) / 16).

Definition slot_addr (p : page_meta_t) (k : Z) : Z := page_start p + k * pm_slot_size p.

(** The slots handed out at least once: those below the bump offset. *)
Definition touched (p : page_meta_t) : list Z :=
  slot_addr p <$> seqZ 0 (pm_bump_offset p / pm_slot_size p).

(** The slab geometry: what [page_init] fixes for the life of the page. *)
Record page_geometry (p : page_meta_t) : Prop := {
  pg_addr : 0 < page_start p ∧ page_start p + PAGE_SIZE_ALLOC ≤ 2 ^ 47;
  pg_aligned : (PAGE_SIZE_ALLOC | page_start p);
  pg_slot : 16 ≤ pm_slot_size p ≤ PAGE_SIZE_ALLOC / 2;
  pg_slot16 : (16 | pm_slot_size p);
  pg_capacity : pm_capacity p = PAGE_SIZE_ALLOC / pm_slot_size p;
  pg_bump_end : pm_bump_end p = pm_capacity p * pm_slot_size p;
  pg_bump : 0 ≤ pm_bump_offset p ≤ pm_bump_end p;
  pg_bump_slot : (pm_slot_size p | pm_bump_offset p)
}.

(** [page_inv m p lf rf live]: the touched slots are split, without overlap,
    between the local free list [lf], the remote free list [rf] and the slots
    [live] that callers hold; the counters of the page count them, and the
    slots never handed out still read as zero. *)
Record page_inv (m : mem) (p : page_meta_t) (lf rf live : list Z) : Prop := {
  pi_geometry : page_geometry p;
  pi_local : is_list m (pm_local_free p) lf;
  pi_remote : is_stack m (pm_remote_free p) rf;
  pi_remote_word : 0 ≤ pm_remote_free p < 2 ^ 64;
  pi_split : lf ++ rf ++ live ≡ₚ touched p;
  pi_local_count : pm_local_free_count p = Z.of_nat (length lf);
  pi_remote_count : pm_remote_free_count p = Z.of_nat (length rf);
  pi_used : pm_used p = Z.of_nat (length live);
  pi_virgin : ∀ a, page_start p + pm_bump_offset p ≤ a < page_start p + PAGE_SIZE_ALLOC →
    load8 m a = 0
}.

(** The fields that only [page_init], the arena lists and the ownership CAS
    write: no slot operation changes them. *)
Definition same_slab (p p' : page_meta_t) : Prop :=
  pm_arena p' = pm_arena p ∧ pm_segment p' = pm_segment p ∧ pm_owner_tid p' = pm_owner_tid p ∧
  pm_bin_idx p' = pm_bin_idx p ∧ pm_state p' = pm_state p ∧ pm_slot_size p' = pm_slot_size p ∧
  pm_capacity p' = pm_capacity p ∧ pm_bump_end p' = pm_bump_end p ∧
  pm_next p' = pm_next p ∧ pm_prev p' = pm_prev p ∧ pm_page_index p' = pm_page_index p.

(** Bytes outside the first words of the slots in [l] are unchanged. *)
Definition mem_frame (l : list Z) (m m' : mem) : Prop :=
  ∀ b, (∀ a, a ∈ l → b < a ∨ a + 8 ≤ b) → load8 m' b = load8 m b.

(** ** Geometry *)
Section Geometry.
Context (p : page_meta_t) (Hg : page_geometry p).

Lemma slot_size_pos : 0 < pm_slot_size p.
Proof. pose proof (pg_slot p Hg). lia. Qed.

Lemma bump_slots : pm_bump_offset p = pm_bump_offset p / pm_slot_size p * pm_slot_size p.
Proof.
  pose proof slot_size_pos. destruct (pg_bump_slot p Hg) as [q Hq]. rewrite Hq at 2.
  rewrite Z.div_mul by lia. done.
Qed.

Lemma bump_end_page : 0 < pm_bump_end p ≤ PAGE_SIZE_ALLOC.
Proof.
  pose proof (pg_slot p Hg). rewrite (pg_bump_end p Hg), (pg_capacity p Hg). config.
  change (65536 / 2) with 32768 in *.
  pose proof (Z.mul_div_le 65536 (pm_slot_size p) ltac:(lia)).
  pose proof (Z.div_le_lower_bound 65536 (pm_slot_size p) 2 ltac:(lia) ltac:(lia)). nia.
Qed.

Lemma capacity_range : 2 ≤ pm_capacity p ≤ 4096.
Proof.
  pose proof (pg_slot p Hg). rewrite (pg_capacity p Hg). config.
  change (65536 / 2) with 32768 in *. split; [apply Z.div_le_lower_bound; lia|].
  change 4096 with (65536 / 16). apply Z.div_le_compat_l; lia.
Qed.

Lemma touched_elem a :
  a ∈ touched p ↔ ∃ k, 0 ≤ k < pm_bump_offset p / pm_slot_size p ∧ a = slot_addr p k.
Proof.
  unfold touched. rewrite list_elem_of_fmap. setoid_rewrite elem_of_seqZ. naive_solver lia.
Qed.

Lemma length_touched : Z.of_nat (length (touched p)) = pm_bump_offset p / pm_slot_size p.
Proof.
  unfold touched. rewrite length_fmap, length_seqZ, Z2Nat.id; [done|].
  apply Z.div_pos; [apply (pg_bump p Hg)|apply slot_size_pos].
Qed.

Lemma touched_NoDup : NoDup (touched p).
Proof.
  apply NoDup_fmap_2; [|apply NoDup_seqZ]. pose proof slot_size_pos.
  intros x y. unfold slot_addr. nia.
Qed.

Lemma touched_range a :
  a ∈ touched p →
  page_start p ≤ a ∧ a + pm_slot_size p ≤ page_start p + pm_bump_offset p.
Proof.
  rewrite touched_elem. intros (k & Hk & ->). pose proof bump_slots.
  pose proof slot_size_pos. unfold slot_addr. nia.
Qed.

Lemma touched_sep a b :
  a ∈ touched p → b ∈ touched p → a ≠ b →
  a + pm_slot_size p ≤ b ∨ b + pm_slot_size p ≤ a.
Proof.
  rewrite !touched_elem. intros (k & Hk & ->) (j & Hj & ->).
  pose proof slot_size_pos. unfold slot_addr. intros Hne.
  assert (k < j ∨ j < k) as [?|?] by (destruct (Z.lt_trichotomy k j) as [|[->|]]; auto; done);
    [left|right]; nia.
Qed.

Lemma touched_addr a : a ∈ touched p → user_addr a ∧ (16 | a).
Proof.
  intros Ha. pose proof (touched_range a Ha). pose proof (pg_addr p Hg).
  pose proof bump_end_page. pose proof (pg_bump p Hg). pose proof (pg_slot p Hg).
  split; [unfold user_addr; lia|].
  apply touched_elem in Ha as (k & Hk & ->). unfold slot_addr.
  apply Z.divide_add_r.
  - etrans; [|apply (pg_aligned p Hg)]. by exists 4096.
  - apply Z.divide_mul_r, (pg_slot16 p Hg).
Qed.

(** The bytes of a touched slot lie in its page. *)
Lemma touched_in_page a :
  a ∈ touched p → page_start p ≤ a ∧ a + pm_slot_size p ≤ page_start p + PAGE_SIZE_ALLOC.
Proof.
  intros Ha%touched_range. pose proof bump_end_page. pose proof (pg_bump p Hg). lia.
Qed.

Lemma bump_count : pm_bump_offset p / pm_slot_size p ≤ pm_capacity p.
Proof.
  pose proof slot_size_pos. apply Z.div_le_upper_bound; [done|].
  pose proof (pg_bump p Hg). rewrite (pg_bump_end p Hg) in *. lia.
Qed.

(** Taking a virgin slot keeps it inside the page. *)
Lemma bump_step :
  pm_bump_offset p < pm_bump_end p → pm_bump_offset p + pm_slot_size p ≤ pm_bump_end p.
Proof.
  intros Hlt. pose proof slot_size_pos. rewrite (pg_bump_end p Hg) in *.
  pose proof bump_slots as Hb. set (q := pm_bump_offset p / pm_slot_size p) in *.
  assert (q < pm_capacity p) by (apply (Z.mul_lt_mono_pos_r (pm_slot_size p)); lia).
  rewrite Hb. nia.
Qed.

End Geometry.

(** Updates that keep the geometry fields keep the geometry. *)
Lemma page_geometry_ext p p' :
  pm_segment p' = pm_segment p → pm_page_index p' = pm_page_index p →
  pm_slot_size p' = pm_slot_size p → pm_capacity p' = pm_capacity p →
  pm_bump_end p' = pm_bump_end p → pm_bump_offset p' = pm_bump_offset p →
  page_geometry p → page_geometry p'.
Proof.
  intros E1 E2 E3 E4 E5 E6 []. assert (page_start p' = page_start p) as E7.
  { unfold page_start. by rewrite E1, E2. }
  split; rewrite ?E7, ?E3, ?E4, ?E5, ?E6; auto.
Qed.

(** What the invariant says about the members of the three lists. *)
Section PageInv.
Context m p lf rf live (Hp : page_inv m p lf rf live).

Lemma page_inv_NoDup : NoDup (lf ++ rf ++ live).
Proof. rewrite (pi_split _ _ _ _ _ Hp). apply touched_NoDup, Hp. Qed.

Lemma page_inv_touched a : a ∈ lf ++ rf ++ live → a ∈ touched p.
Proof. by rewrite (pi_split _ _ _ _ _ Hp). Qed.

Lemma page_inv_sep a b :
  a ∈ lf ++ rf ++ live → b ∈ lf ++ rf ++ live → a ≠ b →
  a + pm_slot_size p ≤ b ∨ b + pm_slot_size p ≤ a.
Proof.
  intros. apply touched_sep; [apply Hp|by apply page_inv_touched..|done].
Qed.

Lemma page_inv_sep8 a b :
  a ∈ lf ++ rf ++ live → b ∈ lf ++ rf ++ live → a ≠ b → b + 8 ≤ a ∨ a + 8 ≤ b.
Proof.
  intros. pose proof (pg_slot p (pi_geometry _ _ _ _ _ Hp)).
  destruct (page_inv_sep a b); auto; lia.
Qed.

(** used + local + remote = slots below the bump offset *)
Lemma page_inv_counts :
  pm_used p + pm_local_free_count p + pm_remote_free_count p =
    pm_bump_offset p / pm_slot_size p.
Proof.
  rewrite <- (length_touched p) by apply Hp.
  rewrite <- (Permutation_length (pi_split _ _ _ _ _ Hp)).
  rewrite (pi_used _ _ _ _ _ Hp), (pi_local_count _ _ _ _ _ Hp), (pi_remote_count _ _ _ _ _ Hp).
  rewrite !length_app. lia.
Qed.

Lemma page_inv_bounds :
  0 ≤ pm_used p ≤ 4096 ∧ 0 ≤ pm_local_free_count p ≤ 4096 ∧
  0 ≤ pm_remote_free_count p ≤ 4096.
Proof.
  pose proof page_inv_counts. pose proof (bump_count p ltac:(apply Hp)).
  pose proof (capacity_range p ltac:(apply Hp)).
  rewrite (pi_used _ _ _ _ _ Hp), (pi_local_count _ _ _ _ _ Hp), (pi_remote_count _ _ _ _ _ Hp) in *.
  lia.
Qed.

(** A store inside a touched slot leaves the virgin region alone. *)
Lemma virgin_store a v :
  a ∈ touched p →
  ∀ b, page_start p + pm_bump_offset p ≤ b < page_start p + PAGE_SIZE_ALLOC →
    load8 (store64 m a v) b = 0.
Proof.
  intros Ha b Hb. pose proof (touched_range p ltac:(apply Hp) a Ha).
  pose proof (pg_slot p ltac:(apply Hp)).
  rewrite load8_store64_out by lia. by apply (pi_virgin _ _ _ _ _ Hp).
Qed.

End PageInv.

(** Two pages with the same place and slots touch the same slots. *)
Lemma touched_ext p p' :
  pm_segment p' = pm_segment p → pm_page_index p' = pm_page_index p →
  pm_slot_size p' = pm_slot_size p → pm_bump_offset p' = pm_bump_offset p →
  touched p' = touched p.
Proof.
  intros E1 E2 E3 E4. unfold touched, slot_addr, page_start. by rewrite E1, E2, E3, E4.
Qed.

(** ** The operations keep the invariant *)

(** A counter of the page that the invariant bounds does not wrap. *)
Ltac page_count Hp :=
  pose proof (page_inv_bounds _ _ _ _ _ Hp);
  simpl; rewrite u16_small; simpl in *; lia.

(** Close the fields of [page_inv] that an operation leaves alone. *)
Ltac page_same Hp :=
  first [ eapply page_geometry_ext; [..|apply Hp]; done
        | apply Hp
        | page_count Hp ].

Lemma pop_local_free_inv m p a lf rf live :
  page_inv m p (a :: lf) rf live →
  pop_local_free m p = (a, snd (pop_local_free m p)) ∧
  page_inv m (snd (pop_local_free m p)) lf rf (a :: live).
Proof.
  intros Hp. destruct (pi_local _ _ _ _ _ Hp) as (Ha & Ha0 & Hlf).
  unfold pop_local_free. simpl. split; [by rewrite Ha|].
  pose proof (pi_local_count _ _ _ _ _ Hp) as Hlc. pose proof (pi_used _ _ _ _ _ Hp) as Hu.
  simpl in Hlc. split; simpl; try page_same Hp.
  - by rewrite Ha.
  - rewrite <- (pi_split _ _ _ _ _ Hp). simpl. rewrite !app_assoc. by rewrite Permutation_middle.
Qed.

Lemma bump_slot_inv m p lf rf live :
  page_inv m p lf rf live → pm_bump_offset p < pm_bump_end p →
  let slot := page_start p + pm_bump_offset p in
  bump_slot p = (slot, snd (bump_slot p)) ∧
  page_inv m (snd (bump_slot p)) lf rf (slot :: live) ∧
  (∀ a, in_range a slot (pm_slot_size p) → load8 m a = 0) ∧
  slot ∉ touched p.
Proof.
  intros Hp Hlt slot. pose proof (pi_geometry _ _ _ _ _ Hp) as Hg.
  pose proof (slot_size_pos p Hg). pose proof (bump_step p Hg Hlt).
  pose proof (bump_end_page p Hg). pose proof (pg_bump p Hg). pose proof (pg_addr p Hg).
  pose proof (pi_used _ _ _ _ _ Hp) as Hu. pose proof (bump_slots p Hg) as Hb.
  config. unfold bump_slot. simpl.
  rewrite u64_small by (subst slot; lia). split_and!; [done| | |].
  2: { intros a Ha. apply (pi_virgin _ _ _ _ _ Hp). unfold in_range in Ha. subst slot. config. lia. }
  2: { intros Ht%touched_range; [subst slot; lia|done]. }
  split; simpl; try page_same Hp.
  - destruct Hg. split; simpl; rewrite ?u32_small by lia; try done; [lia|].
    by apply Z.divide_add_r.
  - rewrite (u32_small (_ + _)) by lia. unfold touched at 1. simpl.
    replace ((pm_bump_offset p + pm_slot_size p) / pm_slot_size p)
      with (Z.of_nat (S (Z.to_nat (pm_bump_offset p / pm_slot_size p)))).
    2: { rewrite <- (Z.mul_1_l (pm_slot_size p)) at 2. rewrite Z.div_add by lia.
         pose proof (Z.div_pos (pm_bump_offset p) (pm_slot_size p)). lia. }
    rewrite seqZ_S, fmap_app, Z2Nat.id by (apply Z.div_pos; lia).
    change (slot_addr _ <$> seqZ 0 _) with (touched p) at 1.
    rewrite <- (pi_split _ _ _ _ _ Hp). simpl. unfold slot_addr. simpl.
    rewrite Z.add_0_l, <- Hb. fold slot.
    replace (page_start _) with (page_start p) by done.
    rewrite <- !app_assoc, <- Permutation_cons_append.
    done.
  - intros a Ha. rewrite u32_small in Ha by lia. apply (pi_virgin _ _ _ _ _ Hp). config.
    unfold page_start in *; simpl in *. lia.
Qed.

(** Moving one slot out of [live] to the front of another list. *)
Lemma page_inv_live_perm m p lf rf live live' :
  live ≡ₚ live' → page_inv m p lf rf live → page_inv m p lf rf live'.
Proof.
  intros Hperm []. split; auto.
  - by rewrite <- Hperm.
  - by rewrite <- Hperm.
Qed.

(** A live slot is no node of either list, so a store through it keeps both. *)
Lemma live_store_lists m p lf rf live a v :
  page_inv m p lf rf (a :: live) →
  is_list (store64 m a v) (pm_local_free p) lf ∧ is_stack (store64 m a v) (pm_remote_free p) rf.
Proof.
  intros Hp. pose proof (page_inv_NoDup _ _ _ _ _ Hp) as Hnd.
  assert (∀ b, b ∈ lf ++ rf → b + 8 ≤ a ∨ a + 8 ≤ b) as Hsep.
  { intros b Hb. apply (page_inv_sep8 _ _ _ _ _ Hp); [set_solver..|].
    intros ->. rewrite app_assoc in Hnd. apply NoDup_app in Hnd as (_ & Hd & _).
    apply (Hd b Hb). set_solver. }
  split; apply is_list_store; try apply Hp; intros; apply Hsep; set_solver.
Qed.

Lemma page_free_slot_local_inv m p lf rf live a :
  page_inv m p lf rf (a :: live) →
  let '(m', p') := page_free_slot_local m p a in
  m' = store64 m a (pm_local_free p) ∧ page_inv m' p' (a :: lf) rf live.
Proof.
  intros Hp. unfold page_free_slot_local. split; [done|].
  assert (a ∈ touched p) as Ha by (apply (page_inv_touched _ _ _ _ _ Hp); set_solver).
  destruct (touched_addr p (pi_geometry _ _ _ _ _ Hp) a Ha) as [Hua _].
  destruct (live_store_lists m p lf rf live a (pm_local_free p) Hp) as [Hl Hr].
  pose proof (pi_local_count _ _ _ _ _ Hp) as Hlc. pose proof (pi_used _ _ _ _ _ Hp) as Hu.
  assert (0 ≤ pm_local_free p < 2 ^ 48) as Hrange.
  { pose proof (pi_local _ _ _ _ _ Hp) as Hlf. destruct lf as [|b lf]; simpl in Hlf; [lia|].
    destruct Hlf as (-> & _). destruct (touched_addr p (pi_geometry _ _ _ _ _ Hp) b) as [Hb _].
    { apply (page_inv_touched _ _ _ _ _ Hp). set_solver. }
    unfold user_addr in Hb. lia. }
  simpl in Hu. split; simpl; try page_same Hp; try done.
  - unfold user_addr in Hua. split_and!; [done|lia|]. by rewrite load64_store64_eq by lia.
  - rewrite (touched_ext p) by done. rewrite <- (pi_split _ _ _ _ _ Hp).
    by rewrite !app_assoc, <- Permutation_middle.
  - intros b Hb. by apply (virgin_store _ _ _ _ _ Hp).
Qed.

Lemma page_free_slot_remote_inv m p lf rf live a :
  page_inv m p lf rf (a :: live) →
  let '(m', p') := page_free_slot_remote m p a in
  m' = store64 m a (tagged_ptr_get (pm_remote_free p)) ∧ page_inv m' p' lf (a :: rf) live.
Proof.
  intros Hp. unfold page_free_slot_remote. rewrite treiber_push_value. split; [done|].
  assert (a ∈ touched p) as Ha by (apply (page_inv_touched _ _ _ _ _ Hp); set_solver).
  destruct (touched_addr p (pi_geometry _ _ _ _ _ Hp) a Ha) as [Hua _].
  destruct (live_store_lists m p lf rf live a (tagged_ptr_get (pm_remote_free p)) Hp) as [Hl Hr].
  pose proof (pi_remote_count _ _ _ _ _ Hp) as Hrc. pose proof (pi_used _ _ _ _ _ Hp) as Hu.
  simpl in Hu. unfold user_addr in Hua. pose proof (tagged_get_range (pm_remote_free p)).
  split; simpl; try page_same Hp; try done.
  - unfold is_stack in *. rewrite tagged_get_make by (auto with alloc; lia). simpl.
    split_and!; [done|lia|]. by rewrite load64_store64_eq by lia.
  - apply tagged_make_range. auto with alloc.
  - rewrite (touched_ext p) by done. rewrite <- (pi_split _ _ _ _ _ Hp). simpl.
    apply Permutation_app_head. by rewrite Permutation_middle.
  - intros b Hb. by apply (virgin_store _ _ _ _ _ Hp).
Qed.

(** The walk of [page_collect_remote] reaches the last node and counts. *)
Lemma collect_walk_spec fuel m l a h count :
  is_list m h (l ++ [a]) → (length l < fuel)%nat →
  0 ≤ count → count + Z.of_nat (length l) + 1 < 2 ^ 16 →
  collect_walk fuel m h count = Ok (a, count + Z.of_nat (length l) + 1).
Proof.
  revert fuel h count. induction l as [|b l IH]; intros [|fuel] h count Hl Hf Hc Hmax;
    simpl in *; try lia.
  - destruct Hl as (-> & ? & ->). simpl. rewrite u16_small by lia. do 2 f_equal. lia.
  - destruct Hl as (-> & Hb & Hl). destruct (Z.eqb_spec (load64 m b) 0) as [E|E].
    { rewrite E in Hl. apply is_list_null in Hl. by destruct l. }
    rewrite u16_small by lia. rewrite (IH fuel _ (count + 1) Hl) by lia. do 2 f_equal. lia.
Qed.

Lemma page_collect_remote_inv m p lf rf live :
  page_inv m p lf rf live →
  ∃ m' p', page_collect_remote m p = Ok (m', p') ∧
    page_inv m' p' (rf ++ lf) [] live ∧
    (∀ b, (∀ a, a ∈ rf → b < a ∨ a + 8 ≤ b) → load8 m' b = load8 m b) ∧
    p' = p <| pm_local_free := pm_local_free p' |>
           <| pm_local_free_count := pm_local_free_count p' |>
           <| pm_remote_free := pm_remote_free p' |>
           <| pm_remote_free_count := pm_remote_free_count p' |>.
Proof.
  intros Hp. unfold page_collect_remote.
  destruct (treiber_collect (pm_remote_free p)) as [lst head] eqn:Hc.
  pose proof (treiber_collect_head (pm_remote_free p)) as Hh.
  pose proof (treiber_collect_empties (pm_remote_free p)) as He.
  assert (0 ≤ head < 2 ^ 64) as Hhr.
  { rewrite treiber_collect_value in Hc. case_match; simplify_eq; [apply Hp|].
    apply tagged_make_range, u16_range. }
  rewrite Hc in Hh, He. simpl in Hh, He. subst lst.
  pose proof (pi_remote _ _ _ _ _ Hp) as Hrf. unfold is_stack in Hrf.
  destruct (Z.eqb_spec (tagged_ptr_get (pm_remote_free p)) 0) as [E|E].
  - rewrite E in Hrf. apply is_list_null in Hrf as ->. eexists _, _. split; [done|].
    split_and!; [|done|by destruct p].
    split; simpl; try page_same Hp; try done.
  - destruct rf as [|a rf] using rev_ind; [done|]. clear IHrf.
    pose proof (page_inv_bounds _ _ _ _ _ Hp). pose proof (page_inv_counts _ _ _ _ _ Hp).
    pose proof (bump_count p ltac:(apply Hp)).
    pose proof (pi_remote_count _ _ _ _ _ Hp) as Hrc. rewrite length_app in Hrc. simpl in Hrc.
    pose proof (pi_local_count _ _ _ _ _ Hp) as Hlc.
    rewrite (collect_walk_spec _ _ rf a) by (simpl; first [done|lia]). simpl.
    eexists _, _. split; [done|].
    pose proof (page_inv_NoDup _ _ _ _ _ Hp) as Hnd.
    apply NoDup_app in Hnd as (Hnlf & Hdis & (Hnrf & Hdis2 & _)%NoDup_app).
    assert (a ∈ touched p) as Ha by (apply (page_inv_touched _ _ _ _ _ Hp); set_solver).
    split_and!.
    + split; simpl; try page_same Hp; try done.
      * rewrite <- app_assoc. apply is_list_app; try done.
        -- apply Hp.
        -- pose proof (pi_local _ _ _ _ _ Hp) as Hlf. destruct lf as [|b lf]; simpl in Hlf; [lia|].
           destruct Hlf as (-> & _). destruct (touched_addr p ltac:(apply Hp) b) as [Hb _].
           { apply (page_inv_touched _ _ _ _ _ Hp). set_solver. }
           unfold user_addr in Hb. lia.
        -- intros b c Hb Hc' Hne.
           destruct (page_inv_sep8 _ _ _ _ _ Hp b c); [set_solver..|by right|by left].
        -- intros Hin. apply (Hdis a Hin). set_solver.
      * rewrite (touched_ext p) by done. rewrite <- (pi_split _ _ _ _ _ Hp). simpl.
        rewrite !app_assoc. apply Permutation_app_tail. by rewrite Permutation_app_comm, !app_assoc.
      * rewrite !length_app. simpl. page_count Hp.
      * intros b Hb. by apply (virgin_store _ _ _ _ _ Hp).
    + intros b Hb. apply load8_store64_out. apply Hb. set_solver.
    + by destruct p.
Qed.

(** ** Initialisation *)
Lemma slot_size_of_bounds size :
  1 ≤ size ≤ PAGE_SIZE_ALLOC / 2 →
  16 ≤ slot_size_of size ≤ PAGE_SIZE_ALLOC / 2 ∧ (16 | slot_size_of size) ∧
  size ≤ slot_size_of size.
Proof.
  unfold slot_size_of. config. change (65536 / 2) with 32768. intros Hs.
  split_and!; try (Z.div_mod_to_equations; lia). apply Z.divide_factor_l.
Qed.

Lemma page_init_slot_size p seg ar i bin size :
  1 ≤ size ≤ PAGE_SIZE_ALLOC / 2 →
  pm_slot_size (page_init p seg ar i bin size) = slot_size_of size.
Proof.
  intros Hs. destruct (slot_size_of_bounds size Hs) as (Hb & _ & _).
  config. change (65536 / 2) with 32768 in *.
  unfold page_init, slot_size_of in *. simpl. config.
  assert (∀ z, 16 ≤ z ≤ 32768 →
    u32 (Z.land (u32 (z + (16 - 1))) (Z.lnot (16 - 1))) = 16 * ((z + 15) / 16)) as Hround.
  { intros z Hz. change (16 - 1) with (2 ^ 4 - 1). rewrite land_lnot_pow2 by lia.
    rewrite (u32_small (z + _)) by lia. change (2 ^ 4) with 16. change (16 - 1) with 15.
    apply u32_small. Z.div_mod_to_equations; lia. }
  destruct (Z.ltb_spec size 16); simpl.
  - rewrite Hround by lia. by rewrite Z.max_l by lia.
  - rewrite Hround by lia. by rewrite Z.max_r by lia.
Qed.

(** The fields [page_init] sets, whatever the page held before. *)
Lemma page_init_fields p seg ar i bin size :
  let p' := page_init p seg ar i bin size in
  pm_segment p' = seg ∧ pm_arena p' = ar ∧ pm_page_index p' = i ∧ pm_bin_idx p' = bin ∧
  pm_state p' = PAGE_ACTIVE ∧ pm_owner_tid p' = UINT32_MAX ∧
  pm_capacity p' = u16 (PAGE_SIZE_ALLOC / pm_slot_size p') ∧
  pm_bump_end p' = u32 (pm_capacity p' * pm_slot_size p') ∧
  pm_bump_offset p' = 0 ∧ pm_local_free p' = 0 ∧ pm_local_free_count p' = 0 ∧
  pm_remote_free p' = 0 ∧ pm_remote_free_count p' = 0 ∧ pm_used p' = 0 ∧
  pm_next p' = None ∧ pm_prev p' = None ∧ pm_debug_bitmap p' = ∅.
Proof. unfold page_init. simpl. by destruct (size <? MIN_ALIGN). Qed.

(** Where a data page of a segment lies. *)
Definition page_addr (seg i : Z) : Z := seg + i * PAGE_SIZE_ALLOC.

Definition segment_place (seg : Z) : Prop :=
  0 < seg ∧ seg + SEGMENT_SIZE ≤ 2 ^ 47 ∧ (SEGMENT_SIZE | seg).

Lemma page_start_addr p seg i :
  segment_place seg → 0 ≤ i < PAGES_PER_SEGMENT →
  pm_segment p = seg → pm_page_index p = i → page_start p = page_addr seg i.
Proof.
  intros (? & ? & _) Hi <- <-. unfold page_start, page_addr. config. apply u64_small. lia.
Qed.

Lemma page_init_inv m p seg ar i bin size :
  segment_place seg → 0 ≤ i < PAGES_PER_SEGMENT →
  1 ≤ size ≤ PAGE_SIZE_ALLOC / 2 →
  (∀ a, in_range a (page_addr seg i) PAGE_SIZE_ALLOC → load8 m a = 0) →
  page_inv m (page_init p seg ar i bin size) [] [] [].
Proof.
  intros Hseg Hi Hs Hz.
  pose proof (page_init_slot_size p seg ar i bin size Hs) as Hsz.
  destruct (page_init_fields p seg ar i bin size)
    as (F1 & F2 & F3 & F4 & F5 & F6 & F7 & F8 & F9 & F10 & F11 & F12 & F13 & F14 & F15 & F16 & F17).
  set (p' := page_init p seg ar i bin size) in *. clearbody p'.
  destruct (slot_size_of_bounds size Hs) as (Hb & Hb16 & _).
  pose proof (page_start_addr p' seg i Hseg Hi F1 F3) as Hst.
  destruct Hseg as (? & ? & Hdiv).
  assert (page_geometry p') as Hg.
  { assert (pm_capacity p' = PAGE_SIZE_ALLOC / pm_slot_size p') as Hcap.
    { rewrite F7. apply u16_small. rewrite Hsz. config. change (65536 / 2) with 32768 in *.
      pose proof (Z.div_le_upper_bound 65536 (slot_size_of size) 4096 ltac:(lia) ltac:(lia)).
      pose proof (Z.div_pos 65536 (slot_size_of size) ltac:(lia) ltac:(lia)). lia. }
    assert (0 ≤ pm_capacity p' * pm_slot_size p' ≤ 65536) as Hend.
    { rewrite Hcap, Hsz. config. change (65536 / 2) with 32768 in *.
      pose proof (Z.mul_div_le 65536 (slot_size_of size) ltac:(lia)).
      pose proof (Z.div_pos 65536 (slot_size_of size) ltac:(lia) ltac:(lia)). nia. }
    rewrite u32_small in F8 by lia.
    split; rewrite ?Hst, ?Hsz, ?F8, ?F9; unfold page_addr; config; try done; try lia.
    - apply Z.divide_add_r; [|by apply Z.divide_factor_r].
      etrans; [|exact Hdiv]. by exists 64.
    - by rewrite Hcap, Hsz.
    - by exists 0. }
  assert (touched p' = []) as Ht.
  { unfold touched. rewrite F9, Z.div_0_l by (rewrite Hsz; lia). done. }
  split; rewrite ?F10, ?F12, ?Ht, ?F11, ?F13, ?F14, ?F9; try done.
  intros a Ha. apply Hz. rewrite Hst in Ha. unfold in_range. lia.
Qed.

(** ** Allocation from a page *)
Lemma pop_nonempty m p lf rf live :
  page_inv m p lf rf live → pm_local_free p ≠ 0 →
  ∃ r p', pop_local_free m p = (r, p') ∧ r ≠ 0 ∧ same_slab p p' ∧
    ∃ lf', page_inv m p' lf' rf (r :: live).
Proof.
  intros Hp H0.
  destruct (is_list_cons _ _ _ (pi_local _ _ _ _ _ Hp) H0) as (lf' & -> & _).
  destruct (pop_local_free_inv _ _ _ _ _ _ Hp) as [Heq Hp'].
  rewrite Heq. eexists _, _. split; [done|]. split_and!; eauto. done.
Qed.

(** A page whose bump region and free lists are exhausted is full. *)
Lemma page_inv_full m p live :
  page_inv m p [] [] live → pm_bump_end p ≤ pm_bump_offset p → pm_used p = pm_capacity p.
Proof.
  intros Hp Hge. pose proof (page_inv_counts _ _ _ _ _ Hp) as Hc.
  rewrite (pi_local_count _ _ _ _ _ Hp), (pi_remote_count _ _ _ _ _ Hp) in Hc. simpl in Hc.
  pose proof (pi_geometry _ _ _ _ _ Hp) as Hg. pose proof (pg_bump p Hg).
  replace (pm_bump_offset p) with (pm_capacity p * pm_slot_size p) in Hc
    by (rewrite <- (pg_bump_end p Hg); lia).
  rewrite Z.div_mul in Hc by (pose proof (slot_size_pos p Hg); lia). lia.
Qed.

Lemma page_alloc_slot_inv m p lf rf live :
  page_inv m p lf rf live →
  ∃ r m' p', page_alloc_slot m p = Ok (r, m', p') ∧ same_slab p p' ∧ mem_frame rf m m' ∧
    ((r = 0 ∧ pm_used p = pm_capacity p ∧ page_inv m' p' [] [] live) ∨
     (r ≠ 0 ∧ ∃ lf' rf', page_inv m' p' lf' rf' (r :: live))).
Proof.
  intros Hp. unfold page_alloc_slot.
  destruct (Z.eqb_spec (pm_local_free p) 0) as [E|E]; cbn [negb].
  2: { destruct (pop_nonempty m p lf rf live Hp E) as (r & p' & -> & ? & ? & ? & ?).
       eexists _, _, _. split; [done|]. split_and!; [done|done|]. right. eauto. }
  pose proof (pi_local _ _ _ _ _ Hp) as Hlf. rewrite E in Hlf. apply is_list_null in Hlf as ->.
  destruct (Z.ltb_spec (pm_bump_offset p) (pm_bump_end p)) as [Hlt|Hge].
  - destruct (bump_slot_inv m p [] rf live Hp Hlt) as (Heq & Hp' & _).
    rewrite Heq. eexists _, _, _. split; [done|]. split_and!; [done|done|]. right.
    pose proof (pg_addr p ltac:(apply Hp)). pose proof (pg_bump p ltac:(apply Hp)).
    split; [lia|eauto].
  - destruct (page_collect_remote_inv m p [] rf live Hp) as (m' & p' & -> & Hp' & Hfr & Heqp).
    assert (same_slab p p') as Hss by (rewrite Heqp; done).
    cbn [mbind res_bind]. destruct (Z.eqb_spec (pm_local_free p') 0) as [E'|E']; cbn [negb].
    2: { destruct (pop_nonempty m' p' _ _ live Hp' E') as (r & p2 & -> & ? & ? & ? & ?).
         eexists _, _, _. split; [done|]. split_and!; [|done|right; eauto].
         unfold same_slab in *. naive_solver congruence. }
    eexists _, _, _. split; [done|]. split_and!; [done|done|]. left. split; [done|].
    pose proof (pi_local _ _ _ _ _ Hp') as Hlf. rewrite E' in Hlf.
    apply is_list_null in Hlf. rewrite Hlf in Hp'. split; [|done].
    pose proof (page_inv_full _ _ _ Hp') as Hfull. rewrite Heqp in Hfull. simpl in Hfull.
    by apply Hfull.
Qed.

(** ** Properties *)

(** C30: allocating from a page never hangs; it returns null exactly when all
    [capacity] slots are live, and otherwise a 16-byte aligned slot inside
    the page that overlaps no live slot; the page invariant is kept with that
    slot added to the live ones, and no byte of a live slot changes. *)
Theorem page_alloc_slot_correct m p lf rf live :
  page_inv m p lf rf live →
  ∃ r m' p', page_alloc_slot m p = Ok (r, m', p') ∧
    (r = 0 ↔ pm_used p = pm_capacity p) ∧
    (r = 0 → page_inv m' p' [] [] live) ∧
    (r ≠ 0 →
      (16 | r) ∧ page_start p ≤ r ∧ r + pm_slot_size p ≤ page_start p + PAGE_SIZE_ALLOC ∧
      (∀ a, a ∈ live → disjoint_ranges r (pm_slot_size p) a (pm_slot_size p)) ∧
      ∃ lf' rf', page_inv m' p' lf' rf' (r :: live)) ∧
    (∀ a b, a ∈ live → in_range b a (pm_slot_size p) → load8 m' b = load8 m b).
Proof.
  intros Hp. destruct (page_alloc_slot_inv m p lf rf live Hp)
    as (r & m' & p' & Hrun & Hss & Hfr & Hcase).
  exists r, m', p'. split; [done|].
  assert (∀ a b, a ∈ live → in_range b a (pm_slot_size p) → load8 m' b = load8 m b) as Hlive.
  { intros a b Ha Hb. apply Hfr. intros c Hc. pose proof (page_inv_NoDup _ _ _ _ _ Hp) as Hnd.
    destruct (page_inv_sep _ _ _ _ _ Hp a c) as [?|?]; [set_solver..| | |].
    - intros ->. apply NoDup_app in Hnd as (_ & _ & Hnd). apply NoDup_app in Hnd as (_ & Hd & _).
      by apply (Hd c Hc).
    - unfold in_range in Hb. lia.
    - pose proof (pg_slot p ltac:(apply Hp)). unfold in_range in Hb. lia. }
  destruct Hcase as [(-> & Hfull & Hp')|(Hr & lf' & rf' & Hp')]; [by split_and!|].
  pose proof (pi_geometry _ _ _ _ _ Hp') as Hg'.
  destruct Hss as (_ & E1 & _ & _ & _ & E2 & E3 & _ & _ & _ & E4).
  assert (page_start p' = page_start p) as E5 by (unfold page_start; by rewrite E1, E4).
  split_and!; [|done| |done].
  - split; [done|]. intros Hfull. exfalso.
    pose proof (page_inv_counts _ _ _ _ _ Hp') as Hc. pose proof (bump_count p' Hg').
    pose proof (page_inv_bounds _ _ _ _ _ Hp').
    rewrite (pi_used _ _ _ _ _ Hp') in Hc. rewrite (pi_used _ _ _ _ _ Hp) in Hfull.
    simpl in Hc. lia.
  - intros _. assert (r ∈ touched p') as Ht.
    { apply (page_inv_touched _ _ _ _ _ Hp'). set_solver. }
    pose proof (touched_in_page p' Hg' r Ht). rewrite E2, E5 in *.
    split_and!; [by apply (touched_addr p' Hg' r)|lia|lia| |eauto].
    intros a Ha. pose proof (page_inv_NoDup _ _ _ _ _ Hp') as Hnd.
    destruct (page_inv_sep _ _ _ _ _ Hp' r a) as [?|?]; [set_solver..| | |].
    + intros ->. apply NoDup_app in Hnd as (_ & _ & Hnd). apply NoDup_app in Hnd as (_ & _ & Hnd).
      by apply NoDup_cons in Hnd as [? _].
    + left. lia.
    + right. lia.
Qed.

(** A page of 64-byte slots, second page of the segment at 4 MB. *)
Definition demo_page_meta : page_meta_t := page_init zero_page (2 ^ 22) (Some 0%nat) 1 7 64.

Lemma demo_page_inv : page_inv ∅ demo_page_meta [] [] [].
Proof.
  apply page_init_inv; [split_and!; [done|done|by exists 1]|done|done|].
  intros a _. by unfold load8.
Qed.

Lemma page_alloc_slot_correct_witness :
  ∃ r m' p', page_alloc_slot ∅ demo_page_meta = Ok (r, m', p') ∧ r = 2 ^ 22 + 2 ^ 16.
Proof.
  destruct (page_alloc_slot_correct ∅ demo_page_meta [] [] [] demo_page_inv)
    as (r & m' & p' & Hrun & _).
  exists r, m', p'. split; [done|]. vm_compute in Hrun. by injection Hrun.
Defined.

(** C31: freeing a live slot on the owning thread and allocating again gives
    the same slot back and restores the free lists (the local list is LIFO);
    only the first word of the slot is written. *)
Theorem free_local_alloc_roundtrip m p lf rf live a :
  page_inv m p lf rf (a :: live) →
  let '(m1, p1) := page_free_slot_local m p a in
  page_inv m1 p1 (a :: lf) rf live ∧ mem_frame [a] m m1 ∧
  ∃ p2, page_alloc_slot m1 p1 = Ok (a, m1, p2) ∧ page_inv m1 p2 lf rf (a :: live).
Proof.
  intros Hp. pose proof (page_free_slot_local_inv m p lf rf live a Hp) as Hfree.
  destruct (page_free_slot_local m p a) as [m1 p1] eqn:Hrun. destruct Hfree as [Hm1 Hp1].
  split_and!; [done| |].
  - intros b Hb. rewrite Hm1. apply load8_store64_out. apply Hb. set_solver.
  - destruct (pop_local_free_inv _ _ _ _ _ _ Hp1) as [Heq Hp2].
    destruct (pi_local _ _ _ _ _ Hp1) as (Ha & Ha0 & _).
    eexists. split; [|exact Hp2]. unfold page_alloc_slot.
    destruct (Z.eqb_spec (pm_local_free p1) 0); [congruence|]. cbn [negb]. by rewrite Heq.
Qed.

Lemma free_local_alloc_roundtrip_witness :
  ∃ p a, page_inv ∅ p [] [] [a] ∧
    let '(m1, p1) := page_free_slot_local ∅ p a in
    page_inv m1 p1 [a] [] [] ∧ mem_frame [a] ∅ m1 ∧
    ∃ p2, page_alloc_slot m1 p1 = Ok (a, m1, p2) ∧ page_inv m1 p2 [] [] [a].
Proof.
  assert (page_inv ∅ (snd (bump_slot demo_page_meta)) [] [] [2 ^ 22 + 2 ^ 16]) as Hp.
  { apply (bump_slot_inv ∅ demo_page_meta [] [] [] demo_page_inv). by vm_compute. }
  exists (snd (bump_slot demo_page_meta)), (2 ^ 22 + 2 ^ 16). split; [exact Hp|].
  exact (free_local_alloc_roundtrip _ _ _ _ _ _ Hp).
Defined.
