(* ===== verification/Registry.v ===== *)
(** * The segment registry: first part of src/segment.c

    An open-addressing hash set of segment base addresses in a fixed array of
    256 words, 0 marking a free entry.  [segment_register] fills the first
    free entry of the probe sequence; a full array is not reported. *)
From S2P Require Import Prelude Config.

Module Registry.

Definition seg_hash (addr : Z) : Z :=
  Z.land (Z.shiftr addr SEGMENT_SHIFT) (SEGMENT_REGISTRY_SIZE - 1).

(** The [i]-th entry the probe sequence of [idx] visits, and its contents. *)
Definition probe_slot (idx i : Z) : Z := Z.land (idx + i) (SEGMENT_REGISTRY_SIZE - 1).
Definition probe (reg : list Z) (idx i : Z) : Z :=
  default 0 (reg !! Z.to_nat (probe_slot idx i)).

(** The three loops, with [n] iterations left at iteration [i]. *)
Fixpoint register_loop (n : nat) (i : Z) (reg : list Z) (base : Z) : list Z :=
  match n with
  | O => reg
  | S n =>
      let slot := probe_slot (seg_hash base) i in
      let expected := probe reg (seg_hash base) i in
      if expected =? 0 then <[Z.to_nat slot := base]> reg
      else if expected =? base then reg
      else register_loop n (i + 1) reg base
  end.

Definition segment_register (reg : list Z) (base : Z) : list Z :=
  register_loop (Z.to_nat SEGMENT_REGISTRY_SIZE) 0 reg base.

Fixpoint unregister_loop (n : nat) (i : Z) (reg : list Z) (base : Z) : list Z :=
  match n with
  | O => reg
  | S n =>
      let slot := probe_slot (seg_hash base) i in
      let val := probe reg (seg_hash base) i in
      if val =? base then <[Z.to_nat slot := 0]> reg
      else if val =? 0 then reg
      else unregister_loop n (i + 1) reg base
  end.

Definition segment_unregister (reg : list Z) (base : Z) : list Z :=
  unregister_loop (Z.to_nat SEGMENT_REGISTRY_SIZE) 0 reg base.

Fixpoint is_registered_loop (n : nat) (i : Z) (reg : list Z) (base : Z) : bool :=
  match n with
  | O => false
  | S n =>
      let val := probe reg (seg_hash base) i in
      if val =? base then true
      else if val =? 0 then false
      else is_registered_loop n (i + 1) reg base
  end.

Definition segment_is_registered (reg : list Z) (base : Z) : bool :=
  is_registered_loop (Z.to_nat SEGMENT_REGISTRY_SIZE) 0 reg base.

(** ** The registry invariant: no entry is duplicated, and no free entry lies
    before an entry on its own probe sequence. *)
Record registry_wf (reg : list Z) : Prop := {
  rw_length : length reg = Z.to_nat SEGMENT_REGISTRY_SIZE;
  rw_unique i j b : b ≠ 0 → reg !! i = Some b → reg !! j = Some b → i = j;
  rw_path b i k : b ≠ 0 → 0 ≤ k < i → i < SEGMENT_REGISTRY_SIZE →
    probe reg (seg_hash b) i = b → probe reg (seg_hash b) k ≠ 0
}.

Definition empty_registry : list Z := replicate 256 0.

(** ** Probe sequences *)
Lemma probe_slot_mod idx i : probe_slot idx i = (idx + i) mod 256.
Proof.
  unfold probe_slot. change (SEGMENT_REGISTRY_SIZE - 1) with (Z.ones 8). by rewrite Z.land_ones.
Qed.

Lemma seg_hash_range a : 0 ≤ seg_hash a < 256.
Proof.
  unfold seg_hash. change (SEGMENT_REGISTRY_SIZE - 1) with (Z.ones 8).
  rewrite Z.land_ones by lia. by apply Z.mod_pos_bound.
Qed.

Lemma probe_slot_inj idx i j :
  0 ≤ i < 256 → 0 ≤ j < 256 → probe_slot idx i = probe_slot idx j → i = j.
Proof. rewrite !probe_slot_mod. intros. Z.div_mod_to_equations; lia. Qed.

(** The probe sequence visits every entry. *)
Lemma probe_slot_surj idx (j : nat) :
  0 ≤ idx < 256 → (j < 256)%nat → ∃ i, 0 ≤ i < 256 ∧ Z.to_nat (probe_slot idx i) = j.
Proof.
  intros Hi Hj. exists ((Z.of_nat j - idx) mod 256). split; [by apply Z.mod_pos_bound|].
  rewrite probe_slot_mod. rewrite Zplus_mod_idemp_r.
  replace (idx + (Z.of_nat j - idx)) with (Z.of_nat j) by lia. rewrite Z.mod_small; lia.
Qed.

Section Probes.
Context (reg : list Z) (Hwf : registry_wf reg).

Lemma probe_slot_lt idx i : (Z.to_nat (probe_slot idx i) < length reg)%nat.
Proof.
  rewrite (rw_length _ Hwf), probe_slot_mod. config.
  pose proof (Z.mod_pos_bound (idx + i) 256). lia.
Qed.

Lemma probe_lookup idx i b :
  probe reg idx i = b ↔ reg !! Z.to_nat (probe_slot idx i) = Some b.
Proof.
  unfold probe. destruct (lookup_lt_is_Some_2 _ _ (probe_slot_lt idx i)) as [c Hc].
  rewrite Hc. simpl. naive_solver.
Qed.

(** Membership, in terms of the element's own probe sequence. *)
Lemma elem_of_probe b :
  b ∈ reg ↔ ∃ i, 0 ≤ i < 256 ∧ probe reg (seg_hash b) i = b.
Proof.
  rewrite list_elem_of_lookup. split.
  - intros [j Hj]. apply lookup_lt_Some in Hj as Hlt. rewrite (rw_length _ Hwf) in Hlt.
    destruct (probe_slot_surj (seg_hash b) j (seg_hash_range b) Hlt) as (i & Hi & Heq).
    exists i. split; [done|]. apply probe_lookup. by rewrite Heq.
  - intros (i & _ & Hi). apply probe_lookup in Hi. eauto.
Qed.

End Probes.

(** ** Lookup *)
Lemma is_registered_loop_spec n i reg base :
  base ≠ 0 →
  is_registered_loop n i reg base = true ↔
  ∃ k, i ≤ k < i + Z.of_nat n ∧ probe reg (seg_hash base) k = base ∧
    ∀ k', i ≤ k' < k → probe reg (seg_hash base) k' ≠ 0.
Proof.
  intros Hb. revert i. induction n as [|n IH]; intros i; cbn [is_registered_loop].
  { split; [done|]. intros (k & ? & _). lia. }
  destruct (Z.eqb_spec (probe reg (seg_hash base) i) base) as [E|E].
  { split; [|done]. intros _. exists i. split_and!; [lia..|done|lia]. }
  destruct (Z.eqb_spec (probe reg (seg_hash base) i) 0) as [E0|E0].
  { split; [done|]. intros (k & Hk & Hp & Hpath).
    destruct (decide (k = i)) as [->|]; [done|]. by destruct (Hpath i ltac:(lia)). }
  rewrite IH. split.
  - intros (k & Hk & Hp & Hpath). exists k. split_and!; [lia..|done|].
    intros k' Hk'. destruct (decide (k' = i)) as [->|]; [done|]. apply Hpath. lia.
  - intros (k & Hk & Hp & Hpath). destruct (decide (k = i)) as [->|]; [done|].
    exists k. split_and!; [lia..|done|]. intros; apply Hpath; lia.
Qed.

Lemma segment_is_registered_iff reg base :
  registry_wf reg → base ≠ 0 → segment_is_registered reg base = true ↔ base ∈ reg.
Proof.
  intros Hwf Hb. unfold segment_is_registered. rewrite is_registered_loop_spec by done.
  rewrite (elem_of_probe reg Hwf). config. split.
  - intros (k & Hk & Hp & _). exists k. split; [lia|done].
  - intros (k & Hk & Hp). exists k. split_and!; [lia..|done|].
    intros k' Hk'. apply (rw_path _ Hwf base k k' Hb); [lia|config; lia|done].
Qed.

(** ** Insertion *)
Lemma register_loop_spec n i reg base :
  base ≠ 0 → 0 ≤ i →
  (register_loop n i reg base = reg ∧
    ((∃ k, i ≤ k < i + Z.of_nat n ∧ probe reg (seg_hash base) k = base) ∨
     (∀ k, i ≤ k < i + Z.of_nat n → probe reg (seg_hash base) k ≠ 0))) ∨
  (∃ k, i ≤ k < i + Z.of_nat n ∧ probe reg (seg_hash base) k = 0 ∧
    (∀ k', i ≤ k' < k → probe reg (seg_hash base) k' ≠ 0 ∧ probe reg (seg_hash base) k' ≠ base) ∧
    register_loop n i reg base = <[Z.to_nat (probe_slot (seg_hash base) k) := base]> reg).
Proof.
  intros Hb. revert i. induction n as [|n IH]; intros i Hi; cbn [register_loop].
  { left. split; [done|]. right. lia. }
  destruct (Z.eqb_spec (probe reg (seg_hash base) i) 0) as [E0|E0].
  { right. exists i. split_and!; [lia..|done|lia|done]. }
  destruct (Z.eqb_spec (probe reg (seg_hash base) i) base) as [E|E].
  { left. split; [done|]. left. exists i. split; [lia|done]. }
  destruct (IH (i + 1) ltac:(lia)) as [[Heq [(k & Hk & Hp)|Hall]]|(k & Hk & Hp & Hpath & Heq)].
  - left. split; [done|]. left. exists k. split; [lia|done].
  - left. split; [done|]. right. intros k Hk.
    destruct (decide (k = i)) as [->|]; [done|]. apply Hall. lia.
  - right. exists k. split_and!; [lia..|done| |done]. intros k' Hk'.
    destruct (decide (k' = i)) as [->|]; [done|]. apply Hpath. lia.
Qed.

(** Filling a free entry at position [k] of [base]'s own probe sequence. *)
Lemma registry_wf_insert reg base k :
  registry_wf reg → base ≠ 0 → base ∉ reg → 0 ≤ k < SEGMENT_REGISTRY_SIZE →
  probe reg (seg_hash base) k = 0 →
  (∀ k', 0 ≤ k' < k → probe reg (seg_hash base) k' ≠ 0) →
  registry_wf (<[Z.to_nat (probe_slot (seg_hash base) k) := base]> reg).
Proof.
  intros Hwf Hb Hnin Hk Hz Hpath.
  pose proof (probe_slot_lt reg Hwf (seg_hash base) k) as Hj.
  remember (Z.to_nat (probe_slot (seg_hash base) k)) as j eqn:Ej.
  assert (∀ i b, <[j := base]> reg !! i = Some b → (i = j ∧ b = base) ∨ (i ≠ j ∧ reg !! i = Some b)) as Hlk.
  { intros i b. rewrite list_lookup_insert_Some.
    intros [(-> & -> & _)|[? ?]]; [by left|right; split; [congruence|done]]. }
  assert (∀ h i, probe (<[j := base]> reg) h i =
    if decide (Z.to_nat (probe_slot h i) = j) then base else probe reg h i) as Hpr.
  { intros h i. unfold probe. case_decide as E.
    - rewrite E. by rewrite list_lookup_insert_eq.
    - by rewrite list_lookup_insert_ne. }
  split.
  - rewrite length_insert. apply Hwf.
  - intros i1 i2 b Hb0 H1%Hlk H2%Hlk.
    destruct H1 as [[-> ->]|[? H1]], H2 as [[-> ?]|[? H2]]; try done.
    + exfalso. apply Hnin, list_elem_of_lookup. eauto.
    + exfalso. subst. apply Hnin, list_elem_of_lookup. eauto.
    + by apply (rw_unique _ Hwf i1 i2 b).
  - intros b i k' Hb0 Hk' Hi. rewrite !Hpr. case_decide as E.
    + intros <-. case_decide; [done|]. apply Hpath. split; [lia|].
      assert (i = k); [|lia]. config. apply (probe_slot_inj (seg_hash base)); [lia..|].
      rewrite Ej, !probe_slot_mod in *.
      pose proof (Z.mod_pos_bound (seg_hash base + i) 256).
      pose proof (Z.mod_pos_bound (seg_hash base + k) 256). lia.
    + intros Hp. case_decide; [done|]. by apply (rw_path _ Hwf b i k').
Qed.

Lemma segment_register_spec reg base :
  registry_wf reg → base ≠ 0 → 0 ∈ reg →
  registry_wf (segment_register reg base) ∧
  ∀ b, b ≠ 0 → b ∈ segment_register reg base ↔ b = base ∨ b ∈ reg.
Proof.
  intros Hwf Hb Hfree. unfold segment_register.
  destruct (register_loop_spec (Z.to_nat SEGMENT_REGISTRY_SIZE) 0 reg base Hb ltac:(lia))
    as [[Heq [(k & Hk & Hp)|Hall]]|(k & Hk & Hp & Hpath & Heq)]; config.
  - rewrite Heq. split; [done|]. intros b Hb0. split; [by right|]. intros [->|?]; [|done].
    apply (elem_of_probe reg Hwf). exists k. split; [lia|done].
  - exfalso. apply list_elem_of_lookup in Hfree as [j Hj].
    apply lookup_lt_Some in Hj as Hlt. rewrite (rw_length _ Hwf) in Hlt.
    destruct (probe_slot_surj (seg_hash base) j (seg_hash_range base) Hlt) as (i & Hi & Hij).
    apply (Hall i); [lia|]. apply (probe_lookup reg Hwf). by rewrite Hij.
  - rewrite Heq. assert (base ∉ reg) as Hnin.
    { intros Hin. apply (elem_of_probe reg Hwf) in Hin as (i & Hi & Hpi).
      destruct (Z.lt_trichotomy i k) as [?|[->|?]]; [|congruence|].
      - by destruct (Hpath i ltac:(lia)) as [_ ?].
      - apply (rw_path _ Hwf base i k Hb); [lia|config; lia|done|done]. }
    split.
    + apply registry_wf_insert; [done..|config; lia|done|].
      intros k' Hk'. by apply Hpath.
    + intros b Hb0. pose proof (probe_slot_lt reg Hwf (seg_hash base) k) as Hj.
      apply (probe_lookup reg Hwf) in Hp.
      rewrite !list_elem_of_lookup. setoid_rewrite list_lookup_insert_Some. split.
      * intros (i & [(_ & <- & _)|(? & ?)]); [by left|right; eauto].
      * intros [->|(i & Hi)]; [eexists; left; by split_and!|]. exists i.
        right. split; [|done]. intros <-. congruence.
Qed.

Lemma empty_registry_wf : registry_wf empty_registry.
Proof.
  assert (∀ i b, empty_registry !! i = Some b → b = 0) as Hz.
  { intros i b. unfold empty_registry. by intros [-> _]%lookup_replicate_1. }
  assert (∀ h i, probe empty_registry h i = 0) as Hp.
  { intros h i. unfold probe. destruct (empty_registry !! _) eqn:E; [|done]. simpl. eauto. }
  split; [done| |].
  - intros i j b Hb Hi. by apply Hz in Hi.
  - intros b i k Hb _ _. rewrite Hp. congruence.
Qed.

(** ** Properties *)

(** C32: as long as an entry is free, registering a segment makes exactly that
    base address (and what was registered before) answer to the lookup, and
    keeps the registry well formed. *)
Theorem register_lookup reg base b :
  registry_wf reg → base ≠ 0 → b ≠ 0 → 0 ∈ reg →
  registry_wf (segment_register reg base) ∧
  (segment_is_registered (segment_register reg base) b = true ↔
   b = base ∨ segment_is_registered reg b = true).
Proof.
  intros Hwf Hbase Hb Hfree.
  destruct (segment_register_spec reg base Hwf Hbase Hfree) as [Hwf' Hin].
  split; [done|]. rewrite !segment_is_registered_iff by done. by apply Hin.
Qed.

Lemma register_lookup_witness :
  registry_wf (segment_register empty_registry (2 ^ 22)) ∧
  (segment_is_registered (segment_register empty_registry (2 ^ 22)) (2 ^ 22) = true ↔
   2 ^ 22 = 2 ^ 22 ∨ segment_is_registered empty_registry (2 ^ 22) = true).
Proof.
  apply (register_lookup empty_registry (2 ^ 22) (2 ^ 22)); [apply empty_registry_wf|done|done|].
  apply list_elem_of_lookup. exists 0%nat. reflexivity.
Defined.

(** C33: [segment_unregister] clears an entry without keeping the probe
    sequences of the others intact: after registering two segments whose
    bases hash alike and unregistering the first, the second is no longer
    found although its entry is still in the array. *)
Theorem unregister_loses_segment :
  ∃ a b, a ≠ b ∧ a ≠ 0 ∧ b ≠ 0 ∧
    let reg := segment_register (segment_register empty_registry a) b in
    segment_is_registered reg b = true ∧
    b ∈ segment_unregister reg a ∧
    segment_is_registered (segment_unregister reg a) b = false.
Proof.
  exists (2 ^ 22), (2 ^ 22 + 2 ^ 30). cbv zeta.
  split_and!; [done|done|done|vm_compute; reflexivity| |vm_compute; reflexivity].
  apply list_elem_of_lookup. exists 2%nat. vm_compute. reflexivity.
Qed.

(** C34: with all 256 entries taken by other segments, registration is lost
    without notice: the table is unchanged and the new segment is not found. *)
Theorem register_full reg base :
  registry_wf reg → base ≠ 0 → 0 ∉ reg → base ∉ reg →
  segment_register reg base = reg ∧ segment_is_registered (segment_register reg base) base = false.
Proof.
  intros Hwf Hb Hfull Hnin. assert (segment_register reg base = reg) as Heq.
  { unfold segment_register.
    destruct (register_loop_spec (Z.to_nat SEGMENT_REGISTRY_SIZE) 0 reg base Hb ltac:(lia))
      as [[? _]|(k & Hk & Hp & _)]; [done|].
    exfalso. apply Hfull, list_elem_of_lookup. eexists. by apply (probe_lookup reg Hwf). }
  rewrite Heq. split; [done|]. apply not_true_is_false.
  by rewrite segment_is_registered_iff.
Qed.

(** A full registry: 256 consecutive segments, each at its own hash. *)
Definition full_registry : list Z := (λ i, (i + 256) * 2 ^ 22) <$> seqZ 0 256.

Lemma full_registry_lookup j b :
  full_registry !! j = Some b → b = (Z.of_nat j + 256) * 2 ^ 22 ∧ seg_hash b = Z.of_nat j.
Proof.
  unfold full_registry. rewrite list_lookup_fmap, fmap_Some.
  intros (x & [-> Hj]%lookup_seqZ & ->). split; [lia|]. unfold seg_hash, SEGMENT_SHIFT.
  change (SEGMENT_REGISTRY_SIZE - 1) with (Z.ones 8).
  rewrite Z.land_ones, Z.shiftr_div_pow2, Z.div_mul by lia. Z.div_mod_to_equations; lia.
Qed.

Lemma full_registry_wf : registry_wf full_registry.
Proof.
  assert (length full_registry = 256%nat) as Hlen by reflexivity.
  split; [done| |].
  - intros i j b _ [-> _]%full_registry_lookup [? _]%full_registry_lookup. lia.
  - intros b i k Hb Hk Hi. unfold probe at 1.
    destruct (full_registry !! _) as [c|] eqn:Hc; simpl; [|congruence]. intros ->.
    apply full_registry_lookup in Hc as [_ Hc]. rewrite probe_slot_mod in Hc.
    pose proof (seg_hash_range b). config.
    rewrite Z2Nat.id in Hc by (apply Z.mod_pos_bound; lia). Z.div_mod_to_equations; lia.
Qed.

Lemma register_full_witness :
  segment_register full_registry (2 ^ 22) = full_registry ∧
  segment_is_registered (segment_register full_registry (2 ^ 22)) (2 ^ 22) = false.
Proof.
  apply (register_full full_registry (2 ^ 22)); [apply full_registry_wf|done| |];
    intros (j & [? _]%full_registry_lookup)%list_elem_of_lookup; lia.
Defined.

End Registry.
