(* ===== verification/Segment.v ===== *)
(** * Segments: src/segment.c (the registry is in Registry.v) *)
From S2P Require Import Prelude Config Mem Atomic SizeClass Types Os Page Registry.
Import Registry.

Section Segment.
Context `{E : Env}.

(** The page array [segment_create] leaves: page 0 is the header. *)
Definition fresh_page (seg : Z) (arena : option nat) (i : Z) : page_meta_t :=
  zero_page <| pm_state := PAGE_UNUSED |> <| pm_segment := seg |> <| pm_arena := arena |>
    <| pm_page_index := u16 i |> <| pm_local_free := 0 |> <| pm_local_free_count := 0 |>
    <| pm_remote_free := 0 |> <| pm_remote_free_count := 0 |>
    <| pm_next := None |> <| pm_prev := None |>.

Definition fresh_segment (seg : Z) (arena : option nat) : segment_t :=
  let pages := fresh_page seg arena <$> seqZ 0 PAGES_PER_SEGMENT in
  MkSegment SEGMENT_MAGIC PAGES_PER_SEGMENT 0 arena 0 0
    (alter (λ p, p <| pm_state := PAGE_FULL |>) 0%nat pages).

Definition segment_create (arena : option nat) (s : machine) : Z * machine :=
  let '(mem, s) := os_mmap_aligned SEGMENT_SIZE SEGMENT_SIZE s in
  if mem =? 0 then (0, s) else
  (mem, s <| mc_segs ::= <[mem := fresh_segment mem arena]> |>
          <| mc_g ::= λ g, g <| g_segment_registry ::= λ r, segment_register r mem |> |>).

Definition segment_destroy (seg : Z) (s : machine) : machine :=
  if seg =? 0 then s else
  let s := upd_g (λ g, g <| g_segment_registry ::= λ r, segment_unregister r seg |>) s in
  os_munmap seg SEGMENT_SIZE (s <| mc_segs ::= delete seg |>).

(** The scan of [segment_alloc_page] for the first unused data page. *)
Fixpoint find_unused (pages : list page_meta_t) (i : nat) : option nat :=
  match pages with
  | [] => None
  | p :: pages => if decide (pm_state p = PAGE_UNUSED) then Some i else find_unused pages (S i)
  end.

Definition segment_alloc_page (seg bin_idx : Z) (s : machine) : res (option page_ref * machine) :=
  sg ← deref (mc_segs s !! seg);
  match find_unused (drop (Z.to_nat PAGES_DATA_START) (sg_pages sg)) (Z.to_nat PAGES_DATA_START) with
  | None => Ok (None, s)
  | Some i =>
      let slot_size := u32 (SizeClass.bin_to_size (g_tables (mc_g s)) bin_idx) in
      let s := upd_page (seg, i)
        (λ p, page_init p seg (sg_arena sg) (u16 (Z.of_nat i)) bin_idx slot_size) s in
      let s := upd_seg seg (λ sg, sg <| sg_pages_used ::= λ n, u16 (n + 1) |>) s in
      Ok (Some (seg, i), s)
  end.

Definition segment_free_page (seg : Z) (r : page_ref) (s : machine) : res machine :=
  p ← deref (lookup_page s r);
  let s := os_madvise_free (page_start p) PAGE_SIZE_ALLOC s in
  let s := upd_page r (λ p, p <| pm_owner_tid := UINT32_MAX |> <| pm_state := PAGE_UNUSED |>
    <| pm_local_free := 0 |> <| pm_local_free_count := 0 |> <| pm_remote_free := 0 |>
    <| pm_remote_free_count := 0 |> <| pm_used := 0 |> <| pm_bump_offset := 0 |>
    <| pm_bump_end := 0 |>) s in
  Ok (upd_seg seg (λ sg, sg <| sg_pages_used ::= λ n, u16 (n - 1) |>) s).

(** [ptr_to_segment]: 0 when the pointer is in no registered segment. *)
Definition ptr_to_segment (s : machine) (ptr : Z) : Z :=
  let base := Z.land ptr SEGMENT_MASK in
  if segment_is_registered (g_segment_registry (mc_g s)) base then base else 0.

Definition ptr_to_page (s : machine) (ptr : Z) : option page_ref :=
  let seg := ptr_to_segment s ptr in
  if seg =? 0 then None else
  let page_idx := u16 ((ptr - seg) / PAGE_SIZE_ALLOC) in
  if PAGES_PER_SEGMENT <=? page_idx then None else Some (seg, Z.to_nat page_idx).

End Segment.
