(* ===== verification/Debug.v ===== *)
(** * Debug mode: src/debug.c

    With [MALLOC_DEBUG], every page keeps a bitmap with one bit per slot, set
    while the slot is allocated; the operations below abort the process on a
    pointer that is no slot, on a double allocation and on a double free. *)
From S2P Require Import Prelude Config Mem Atomic SizeClass Types Os Page Segment.

Definition debug_slot_index (p : page_meta_t) (ptr : Z) : Z :=
  let base := page_start p in
  if ptr <? base then UINT16_MAX else
  let offset := ptr - base in
  if negb (offset mod pm_slot_size p =? 0) then UINT16_MAX else
  let idx := u16 (offset / pm_slot_size p) in
  if idx <? pm_capacity p then idx else UINT16_MAX.

Definition bit_mask (idx : Z) : Z := u8 (Z.shiftl 1 (idx mod 8)).

Definition debug_mark_allocated (p : page_meta_t) (ptr : Z) : res page_meta_t :=
  let idx := debug_slot_index p ptr in
  if idx =? UINT16_MAX then Abort else
  let mask := bit_mask idx in
  let old := load8 (pm_debug_bitmap p) (idx / 8) in
  let p := p <| pm_debug_bitmap ::= λ b, store8 b (idx / 8) (Z.lor old mask) |> in
  if negb (Z.land old mask =? 0) then Abort else Ok p.

Definition debug_check_and_mark_freed (p : page_meta_t) (ptr : Z) : res page_meta_t :=
  let idx := debug_slot_index p ptr in
  if idx =? UINT16_MAX then Abort else
  let mask := bit_mask idx in
  let old := load8 (pm_debug_bitmap p) (idx / 8) in
  let p := p <| pm_debug_bitmap ::= λ b, store8 b (idx / 8) (Z.land old (u8 (Z.lnot mask))) |> in
  if Z.land old mask =? 0 then Abort else Ok p.

(** ** The heap check *)

(** [__builtin_popcount] of a byte. *)
Definition popcount8 (b : Z) : Z :=
  foldr (λ i n, (if Z.testbit b i then 1 else 0) + n) 0 (seqZ 0 8).

Definition bitmap_count (p : page_meta_t) : Z :=
  foldl (λ n b, u16 (n + popcount8 (load8 (pm_debug_bitmap p) b))) 0
    (seqZ 0 ((pm_capacity p + 7) / 8)).

(** The walk over [local_free]: whether it found nothing wrong, and the
    number of entries it counted.  The count stops it after [capacity]
    entries, so it always ends. *)
Fixpoint check_local_walk (fuel : nat) (m : mem) (p : page_meta_t) (entry free_walk : Z)
    (ok : bool) : bool * Z :=
  if entry =? 0 then (ok, free_walk) else
  let free_walk := u16 (free_walk + 1) in
  match fuel with
  | O => (false, free_walk)
  | S fuel =>
      let idx := debug_slot_index p entry in
      if idx =? UINT16_MAX then (false, free_walk) else
      let byte := load8 (pm_debug_bitmap p) (idx / 8) in
      let ok := ok && (Z.land byte (Z.shiftl 1 (idx mod 8)) =? 0) in
      check_local_walk fuel m p (load64 m entry) free_walk ok
  end.

Definition check_page (m : mem) (p : page_meta_t) : bool :=
  if decide (pm_state p = PAGE_ACTIVE ∨ pm_state p = PAGE_FULL) then
    let used := pm_used p in
    let ok := bitmap_count p =? used in
    let '(ok, free_walk) :=
      check_local_walk (Z.to_nat (pm_capacity p)) m p (pm_local_free p) 0 ok in
    let ok := ok && (free_walk =? pm_local_free_count p) in
    let bump_remaining :=
      if pm_bump_offset p <? pm_bump_end p
      then u16 ((pm_bump_end p - pm_bump_offset p) / pm_slot_size p) else 0 in
    let accounted := u16 (used + free_walk + pm_remote_free_count p + bump_remaining) in
    ok && (accounted =? pm_capacity p)
  else true.

(** All data pages of the segments of one arena. *)
Fixpoint check_segments (fuel : nat) (s : machine) (seg : Z) : res bool :=
  if seg =? 0 then Ok true else
  match fuel with
  | O => Hang
  | S fuel =>
      sg ← deref (mc_segs s !! seg);
      let ok := forallb (check_page (mc_mem s)) (drop (Z.to_nat PAGES_DATA_START) (sg_pages sg)) in
      rest ← check_segments fuel s (sg_next sg);
      Ok (ok && rest)
  end.

(** The arenas one after the other, each under its lock. *)
Fixpoint check_arenas (n i : nat) (s : machine) : res (bool * machine) :=
  match n with
  | O => Ok (true, s)
  | S n =>
      s ← lock_arena i s;
      a ← deref (g_arenas (mc_g s) !! i);
      ok ← check_segments (size (mc_segs s)) s (ar_segments a);
      let s := unlock_arena i s in
      '(rest, s) ← check_arenas n (S i) s;
      Ok (ok && rest, s)
  end.

Definition debug_heap_check (s : machine) : res (bool * machine) :=
  check_arenas (Z.to_nat (g_arena_count (mc_g s))) 0 s.

(** ** The bitmap invariant: one set bit per live slot, nothing else. *)
Definition bitmap_ok (p : page_meta_t) (live : list Z) : Prop :=
  bytes (pm_debug_bitmap p) ∧
  ∀ k, 0 ≤ k → Z.testbit (load8 (pm_debug_bitmap p) (k / 8)) (k mod 8)
    = bool_decide (slot_addr p k ∈ live).

(** ** Single bits *)
Lemma bit_mask_pow idx : bit_mask idx = 2 ^ (idx mod 8).
Proof.
  unfold bit_mask. pose proof (Z.mod_pos_bound idx 8 ltac:(lia)).
  rewrite Z.shiftl_mul_pow2, Z.mul_1_l by lia. apply u8_small.
  split; [apply Z.pow_nonneg; lia|]. apply Z.pow_lt_mono_r; lia.
Qed.

Lemma land_pow2_eq0 x j : 0 ≤ j → (Z.land x (2 ^ j) =? 0) = negb (Z.testbit x j).
Proof.
  intros Hj. assert (Z.land x (2 ^ j) = if Z.testbit x j then 2 ^ j else 0) as ->.
  { apply Z.bits_inj'. intros i Hi. rewrite Z.land_spec, Z.pow2_bits_eqb by lia.
    destruct (Z.eqb_spec j i) as [->|Hne].
    - destruct (Z.testbit x i) eqn:E; [by rewrite Z.pow2_bits_true by lia|by rewrite Z.bits_0].
    - rewrite andb_false_r. destruct (Z.testbit x j); [by rewrite Z.pow2_bits_false by lia|by rewrite Z.bits_0]. }
  pose proof (Z.pow_pos_nonneg 2 j ltac:(lia) ltac:(lia)).
  destruct (Z.testbit x j); cbn [negb]; [|done]. apply Z.eqb_neq. lia.
Qed.

Lemma byte_high_bits x i : 0 ≤ x < 256 → 8 ≤ i → Z.testbit x i = false.
Proof.
  intros Hx Hi. destruct (Z.eq_dec x 0) as [->|]; [apply Z.bits_0|].
  apply Z.bits_above_log2; [lia|]. apply Z.log2_lt_pow2; [lia|].
  pose proof (Z.pow_le_mono_r 2 8 i ltac:(lia) Hi). lia.
Qed.

(** Bits of a byte are those below 8; [u8] keeps them. *)
Lemma u8_bits x i : 0 ≤ i < 8 → Z.testbit (u8 x) i = Z.testbit x i.
Proof. intros Hi. unfold u8. by rewrite Z.mod_pow2_bits_low by lia. Qed.

Lemma set_bit_bits x j i :
  0 ≤ j < 8 → 0 ≤ i < 8 → Z.testbit (u8 (Z.lor x (2 ^ j))) i = (j =? i) || Z.testbit x i.
Proof.
  intros Hj Hi. rewrite u8_bits, Z.lor_spec, Z.pow2_bits_eqb by lia. apply orb_comm.
Qed.

Lemma clear_bit_bits x j i :
  0 ≤ j < 8 → 0 ≤ i < 8 →
  Z.testbit (u8 (Z.land x (u8 (Z.lnot (2 ^ j))))) i = negb (j =? i) && Z.testbit x i.
Proof.
  intros Hj Hi. rewrite u8_bits, Z.land_spec, u8_bits, Z.lnot_spec, Z.pow2_bits_eqb by lia.
  apply andb_comm.
Qed.

(** ** Slots of a page, by index *)
Lemma slot_addr_inj p k j : page_geometry p → slot_addr p k = slot_addr p j → k = j.
Proof. intros Hg. pose proof (slot_size_pos p Hg). unfold slot_addr. nia. Qed.

Lemma debug_slot_index_slot p k :
  page_geometry p → 0 ≤ k < pm_capacity p → debug_slot_index p (slot_addr p k) = k.
Proof.
  intros Hg Hk. pose proof (slot_size_pos p Hg). pose proof (capacity_range p Hg).
  unfold debug_slot_index, slot_addr. destruct (Z.ltb_spec (page_start p + k * pm_slot_size p) (page_start p)); [nia|].
  replace (page_start p + k * pm_slot_size p - page_start p) with (k * pm_slot_size p) by lia.
  rewrite Z.mod_mul, Z.div_mul by lia. simpl. rewrite u16_small by lia.
  destruct (Z.ltb_spec k (pm_capacity p)); lia.
Qed.

(** On addresses of the page, the index is [UINT16_MAX] or names the slot. *)
Lemma debug_slot_index_inv p ptr :
  page_geometry p → ptr < page_start p + PAGE_SIZE_ALLOC →
  debug_slot_index p ptr = UINT16_MAX ∨
  (0 ≤ debug_slot_index p ptr < pm_capacity p ∧ ptr = slot_addr p (debug_slot_index p ptr)).
Proof.
  intros Hg Hptr. pose proof (slot_size_pos p Hg). unfold debug_slot_index.
  destruct (Z.ltb_spec ptr (page_start p)); [by left|].
  destruct (Z.eqb_spec ((ptr - page_start p) mod pm_slot_size p) 0) as [E|E]; [|by left].
  cbn [negb]. assert (0 ≤ (ptr - page_start p) / pm_slot_size p < 2 ^ 16).
  { split; [apply Z.div_pos; lia|]. apply Z.div_lt_upper_bound; [lia|]. config. nia. }
  rewrite u16_small by lia. destruct (Z.ltb_spec ((ptr - page_start p) / pm_slot_size p) (pm_capacity p)); [|by left].
  right. split; [lia|]. unfold slot_addr. rewrite Z.mod_eq in E by lia. lia.
Qed.

Lemma touched_index p a :
  page_geometry p → a ∈ touched p → ∃ k, 0 ≤ k < pm_capacity p ∧ a = slot_addr p k.
Proof.
  intros Hg (k & Hk & ->)%touched_elem. pose proof (bump_count p Hg). exists k. split; [lia|done].
Qed.

(** What storing one byte of the bitmap does to the bits. *)
Lemma bitmap_store p k v live live' :
  0 ≤ k → bitmap_ok p live →
  (∀ i, 0 ≤ i < 8 → Z.testbit (u8 v) i =
    if decide (i = k mod 8) then bool_decide (slot_addr p k ∈ live')
    else Z.testbit (load8 (pm_debug_bitmap p) (k / 8)) i) →
  (∀ j, j ≠ k → slot_addr p j ∈ live ↔ slot_addr p j ∈ live') →
  bitmap_ok (p <| pm_debug_bitmap ::= λ b, store8 b (k / 8) v |>) live'.
Proof.
  intros Hk [Hb Hbits] Hv Hrest. split; [by apply bytes_store8|]. intros j Hj. simpl.
  change (slot_addr _ j) with (slot_addr p j). rewrite load8_store8.
  pose proof (Z.mod_pos_bound j 8 ltac:(lia)).
  destruct (decide (j = k)) as [->|Hne].
  - rewrite decide_True by done. rewrite Hv by lia. by rewrite decide_True.
  - rewrite <- (bool_decide_ext _ _ (Hrest j Hne)), <- (Hbits j Hj).
    destruct (decide (k / 8 = j / 8)) as [E|E]; [|done]. rewrite Hv by lia.
    rewrite decide_False, E; [done|]. Z.div_mod_to_equations; lia.
Qed.

Section Bitmap.
Context (p : page_meta_t) (live : list Z) (Hg : page_geometry p) (Hb : bitmap_ok p live).

Lemma debug_mark_allocated_ok k :
  0 ≤ k < pm_capacity p → slot_addr p k ∉ live →
  ∃ b, debug_mark_allocated p (slot_addr p k) = Ok (p <| pm_debug_bitmap := b |>) ∧
    bitmap_ok (p <| pm_debug_bitmap := b |>) (slot_addr p k :: live).
Proof.
  intros Hk Hnin. pose proof (capacity_range p Hg).
  unfold debug_mark_allocated. rewrite debug_slot_index_slot by done.
  destruct (Z.eqb_spec k UINT16_MAX); [unfold UINT16_MAX in *; lia|].
  rewrite bit_mask_pow. pose proof (Z.mod_pos_bound k 8 ltac:(lia)).
  rewrite land_pow2_eq0, (proj2 Hb), bool_decide_eq_false_2 by (done || lia). cbn [negb].
  eexists. split; [reflexivity|].
  apply (bitmap_store p k _ live); [lia|done| |].
  - intros i Hi. rewrite set_bit_bits by lia. destruct (decide (i = k mod 8)) as [->|Hne].
    + rewrite Z.eqb_refl. rewrite bool_decide_eq_true_2; [done|set_solver].
    + destruct (Z.eqb_spec (k mod 8) i); [congruence|done].
  - intros j Hj. assert (slot_addr p j ≠ slot_addr p k) by (by intros ?%slot_addr_inj).
    set_solver.
Qed.

Lemma debug_check_freed_ok k live' :
  0 ≤ k < pm_capacity p → live ≡ₚ slot_addr p k :: live' → NoDup live →
  ∃ b, debug_check_and_mark_freed p (slot_addr p k) = Ok (p <| pm_debug_bitmap := b |>) ∧
    bitmap_ok (p <| pm_debug_bitmap := b |>) live'.
Proof.
  intros Hk Hperm Hnd. pose proof (capacity_range p Hg). rewrite Hperm in Hnd.
  apply NoDup_cons in Hnd as [Hnin _].
  assert (∀ a, a ∈ live ↔ a = slot_addr p k ∨ a ∈ live') as Hin.
  { intros a. by rewrite Hperm, elem_of_cons. }
  unfold debug_check_and_mark_freed. rewrite debug_slot_index_slot by done.
  destruct (Z.eqb_spec k UINT16_MAX); [unfold UINT16_MAX in *; lia|].
  rewrite bit_mask_pow. pose proof (Z.mod_pos_bound k 8 ltac:(lia)).
  rewrite land_pow2_eq0, (proj2 Hb), bool_decide_eq_true_2 by (try lia; apply Hin; by left).
  cbn [negb]. eexists. split; [reflexivity|].
  apply (bitmap_store p k _ live); [lia|done| |].
  - intros i Hi. rewrite clear_bit_bits by lia. destruct (decide (i = k mod 8)) as [->|Hne].
    + rewrite Z.eqb_refl. by rewrite bool_decide_eq_false_2.
    + destruct (Z.eqb_spec (k mod 8) i); [congruence|done].
  - intros j Hj. assert (slot_addr p j ≠ slot_addr p k) by (by intros ?%slot_addr_inj).
    rewrite Hin. naive_solver.
Qed.

(** On a pointer into the page that is no live slot, the check aborts. *)
Lemma debug_check_freed_abort ptr :
  ptr < page_start p + PAGE_SIZE_ALLOC → ptr ∉ live →
  debug_check_and_mark_freed p ptr = Abort.
Proof.
  intros Hptr Hnin. unfold debug_check_and_mark_freed. cbv zeta.
  destruct (debug_slot_index_inv p ptr Hg Hptr) as [->|[Hk Heq]]; [done|].
  set (k := debug_slot_index p ptr) in *. pose proof (capacity_range p Hg).
  destruct (Z.eqb_spec k UINT16_MAX); [done|].
  rewrite bit_mask_pow. pose proof (Z.mod_pos_bound k 8 ltac:(lia)).
  by rewrite land_pow2_eq0, (proj2 Hb), <- Heq, bool_decide_eq_false_2 by (done || lia).
Qed.

End Bitmap.

(** ** Counting *)

(** How many members of [l] satisfy [f]; [popcount8] counts bits this way. *)
Definition cnt (f : Z → bool) (l : list Z) : Z :=
  foldr (λ k n, (if f k then 1 else 0) + n) 0 l.

Lemma cnt_app f l k : cnt f (l ++ k) = cnt f l + cnt f k.
Proof. unfold cnt. induction l; simpl; lia. Qed.

Lemma cnt_ext f g l : (∀ k, k ∈ l → f k = g k) → cnt f l = cnt g l.
Proof.
  unfold cnt. induction l as [|k l IH]; intros H; simpl; [done|].
  rewrite H, IH by set_solver. done.
Qed.

Lemma cnt_fmap f (g : Z → Z) l : cnt f (g <$> l) = cnt (λ k, f (g k)) l.
Proof. unfold cnt. induction l; simpl; [done|]. by f_equal. Qed.

Lemma cnt_filter (P : Z → Prop) `{∀ k, Decision (P k)} l :
  cnt (λ k, bool_decide (P k)) l = Z.of_nat (length (filter P l)).
Proof.
  unfold cnt. induction l as [|k l IH]; simpl; [done|]. rewrite IH, filter_cons.
  destruct (decide (P k)); [rewrite bool_decide_eq_true_2 by done|rewrite bool_decide_eq_false_2 by done];
    simpl; lia.
Qed.

Lemma cnt_bounds f l : 0 ≤ cnt f l ≤ Z.of_nat (length l).
Proof. unfold cnt. induction l as [|k l IH]; simpl; [lia|]. destruct (f k); lia. Qed.

(** The bits of the first [n] bytes, counted byte by byte. *)
Definition map_bit (bm : mem) (k : Z) : bool := Z.testbit (load8 bm (k / 8)) (k mod 8).

Lemma byte_count bm (n : nat) :
  popcount8 (load8 bm (Z.of_nat n)) = cnt (map_bit bm) (Z.add (8 * Z.of_nat n) <$> seqZ 0 8).
Proof.
  rewrite cnt_fmap. unfold popcount8. apply cnt_ext. intros k [Hk ?]%elem_of_seqZ. unfold map_bit.
  replace ((8 * Z.of_nat n + k) / 8) with (Z.of_nat n) by (Z.div_mod_to_equations; lia).
  replace ((8 * Z.of_nat n + k) mod 8) with k by (Z.div_mod_to_equations; lia). done.
Qed.

Lemma bitmap_sum bm (n : nat) :
  (n ≤ 4096)%nat →
  foldl (λ c b, u16 (c + popcount8 (load8 bm b))) 0 (seqZ 0 (Z.of_nat n)) =
    cnt (map_bit bm) (seqZ 0 (8 * Z.of_nat n)).
Proof.
  induction n as [|n IH]; intros Hn; [done|]. rewrite seqZ_S, foldl_app, IH, Z.add_0_l by lia.
  cbn [foldl]. rewrite byte_count. replace (8 * Z.of_nat (S n)) with (8 * Z.of_nat n + 8) by lia.
  rewrite (seqZ_app 0 (8 * Z.of_nat n) 8), cnt_app by lia.
  replace (seqZ (0 + 8 * Z.of_nat n) 8) with (Z.add (8 * Z.of_nat n) <$> seqZ 0 8)
    by (rewrite fmap_add_seqZ; f_equal; lia).
  apply u16_small. pose proof (cnt_bounds (map_bit bm) (seqZ 0 (8 * Z.of_nat n))) as H1.
  pose proof (cnt_bounds (map_bit bm) (Z.add (8 * Z.of_nat n) <$> seqZ 0 8)) as H2.
  rewrite length_seqZ in H1. rewrite length_fmap, length_seqZ in H2. lia.
Qed.

Section Check.
Context (m : mem) (p : page_meta_t) (lf rf live : list Z).
Context (Hi : page_inv m p lf rf live) (Hb : bitmap_ok p live).

Lemma live_NoDup : NoDup live.
Proof.
  pose proof (page_inv_NoDup _ _ _ _ _ Hi) as Hnd. rewrite app_assoc in Hnd.
  by apply NoDup_app in Hnd as (_ & _ & ?).
Qed.

(** The bitmap has as many bits set as there are live slots. *)
Lemma bitmap_count_live : bitmap_count p = pm_used p.
Proof.
  pose proof (pi_geometry _ _ _ _ _ Hi) as Hg. pose proof (capacity_range p Hg) as Hcap.
  rewrite (pi_used _ _ _ _ _ Hi). unfold bitmap_count.
  set (n := Z.to_nat ((pm_capacity p + 7) / 8)).
  assert (Z.of_nat n = (pm_capacity p + 7) / 8) as Hn by (unfold n; Z.div_mod_to_equations; lia).
  rewrite <- Hn, bitmap_sum by (Z.div_mod_to_equations; lia).
  rewrite (cnt_ext _ (λ k, bool_decide (slot_addr p k ∈ live))).
  2: { intros k [? ?]%elem_of_seqZ. apply Hb. lia. }
  rewrite cnt_filter. f_equal. rewrite <- (length_fmap (slot_addr p)).
  apply Permutation_length, NoDup_Permutation.
  - apply NoDup_fmap_2_strong; [intros x y _ _; by apply slot_addr_inj|].
    apply NoDup_filter, NoDup_seqZ.
  - apply live_NoDup.
  - intros a. rewrite list_elem_of_fmap. setoid_rewrite list_elem_of_filter. setoid_rewrite elem_of_seqZ.
    split; [by intros (k & -> & ? & _)|]. intros Ha.
    destruct (touched_index p a Hg) as (k & Hk & ->).
    { apply (page_inv_touched _ _ _ _ _ Hi). set_solver. }
    exists k. split_and!; [done|done|lia|Z.div_mod_to_equations; lia].
Qed.

(** The walk meets every entry of the list, finds nothing wrong, and counts
    them. *)
Lemma check_local_walk_ok l h fuel fw :
  is_list m h l → (∀ a, a ∈ l → a ∈ touched p ∧ a ∉ live) → (length l ≤ fuel)%nat →
  0 ≤ fw → fw + Z.of_nat (length l) < 2 ^ 16 →
  check_local_walk fuel m p h fw true = (true, fw + Z.of_nat (length l)).
Proof.
  pose proof (pi_geometry _ _ _ _ _ Hi) as Hg. pose proof (capacity_range p Hg) as Hcap.
  revert h fuel fw. induction l as [|a l IH]; intros h fuel fw Hl Hin Hlen H0 Hlt; simpl in Hl.
  { subst h. rewrite Z.add_0_r. by destruct fuel. }
  destruct Hl as (-> & Ha0 & Hl). destruct fuel as [|fuel]; simpl in Hlen; [lia|].
  cbn [check_local_walk]. destruct (Z.eqb_spec a 0); [done|].
  destruct (Hin a) as [Ht Hn]; [set_solver|]. destruct (touched_index p a Hg Ht) as (k & Hk & ->).
  rewrite debug_slot_index_slot by done. destruct (Z.eqb_spec k UINT16_MAX); [unfold UINT16_MAX in *; lia|].
  pose proof (Z.mod_pos_bound k 8 ltac:(lia)).
  rewrite Z.shiftl_mul_pow2, Z.mul_1_l, land_pow2_eq0 by lia.
  rewrite (proj2 Hb), bool_decide_eq_false_2 by (done || lia). cbn [negb andb].
  cbn [length] in *. rewrite u16_small by lia.
  rewrite IH; [f_equal; lia|done|set_solver|lia|lia|lia].
Qed.

Lemma check_page_ok : check_page m p = true.
Proof.
  pose proof (pi_geometry _ _ _ _ _ Hi) as Hg. pose proof (capacity_range p Hg) as Hcap.
  pose proof (page_inv_counts _ _ _ _ _ Hi) as Hcnt. pose proof (page_inv_bounds _ _ _ _ _ Hi).
  pose proof (bump_count p Hg) as Hbc. pose proof (bump_slots p Hg) as Hbs. pose proof (slot_size_pos p Hg).
  unfold check_page. destruct (decide _); [|done]. rewrite bitmap_count_live, Z.eqb_refl.
  rewrite (check_local_walk_ok lf); [|apply Hi| | |lia|].
  2: { intros a Ha. split; [apply (page_inv_touched _ _ _ _ _ Hi); set_solver|].
       pose proof (page_inv_NoDup _ _ _ _ _ Hi) as Hnd. apply NoDup_app in Hnd as (_ & Hd & _).
       intros Hl. apply (Hd a Ha). set_solver. }
  2: { rewrite (pi_local_count _ _ _ _ _ Hi) in *. lia. }
  2: { rewrite (pi_local_count _ _ _ _ _ Hi) in *. lia. }
  rewrite Z.add_0_l, <- (pi_local_count _ _ _ _ _ Hi), Z.eqb_refl. cbn [andb].
  set (q := pm_bump_offset p / pm_slot_size p) in *.
  assert ((if pm_bump_offset p <? pm_bump_end p
    then u16 ((pm_bump_end p - pm_bump_offset p) / pm_slot_size p) else 0) = pm_capacity p - q) as ->.
  { rewrite (pg_bump_end p Hg). destruct (Z.ltb_spec (pm_bump_offset p) (pm_capacity p * pm_slot_size p)).
    - rewrite Hbs, <- Z.mul_sub_distr_r, Z.div_mul by lia. apply u16_small.
      assert (0 ≤ q) by (apply Z.div_pos; [apply (pg_bump p Hg)|lia]). lia.
    - rewrite Hbs in *. assert (q = pm_capacity p); [|lia]. nia. }
  apply Z.eqb_eq. rewrite u16_small; lia.
Qed.

End Check.

(** ** Properties *)

(** C24: the double-free check is exact.  For a pointer into the page, the
    check before a free aborts precisely when the pointer is not a slot a
    caller holds (freed before, never handed out, or inside a slot), and
    otherwise clears exactly its bit. *)
Theorem double_free_detection m p lf rf live ptr :
  page_inv m p lf rf live → bitmap_ok p live → ptr < page_start p + PAGE_SIZE_ALLOC →
  (ptr ∉ live → debug_check_and_mark_freed p ptr = Abort) ∧
  (ptr ∈ live → ∃ live' b, live ≡ₚ ptr :: live' ∧
    debug_check_and_mark_freed p ptr = Ok (p <| pm_debug_bitmap := b |>) ∧
    bitmap_ok (p <| pm_debug_bitmap := b |>) live').
Proof.
  intros Hi Hb Hptr. pose proof (pi_geometry _ _ _ _ _ Hi) as Hg.
  split; [by apply debug_check_freed_abort|]. intros Hin.
  destruct (proj1 (elem_of_Permutation live ptr) Hin) as [live' Hperm].
  destruct (touched_index p ptr Hg) as (k & Hk & ->).
  { apply (page_inv_touched _ _ _ _ _ Hi). set_solver. }
  destruct (debug_check_freed_ok p live Hg Hb k live' Hk Hperm) as (b & ? & ?); [by eapply live_NoDup|].
  eauto.
Qed.

Lemma double_free_detection_witness :
  bitmap_ok demo_page_meta [] ∧ debug_check_and_mark_freed demo_page_meta (2 ^ 22 + 2 ^ 16) = Abort.
Proof.
  assert (bitmap_ok demo_page_meta []) as Hb.
  { split; [intros a; unfold load8; simpl; rewrite lookup_empty; simpl; lia|]. intros k Hk.
    unfold load8. simpl. rewrite lookup_empty. simpl. by rewrite Z.bits_0. }
  split; [exact Hb|].
  apply (double_free_detection ∅ demo_page_meta [] [] [] (2 ^ 22 + 2 ^ 16) demo_page_inv Hb); [done|set_solver].
Defined.
