(* ===== verification/Tld.v ===== *)
(** * Thread-local data and early allocation: src/tld.c and the bootstrap
    allocator of src/init.c

    A thread is named by the key the thread library knows it by; what
    [pthread_getspecific(tld_key)] returns is [mc_specific]. *)
From S2P Require Import Prelude Config Mem SizeClass Types Os.

Section Tld.
Context `{E : Env}.

(** ** src/init.c: [bootstrap_alloc], [malloc_is_initialized] *)
Definition bootstrap_alloc (size : Z) (s : machine) : Z * machine :=
  let size := align_up size MIN_ALIGN in
  let offset := g_bootstrap_used (mc_g s) in
  let s := upd_g (λ g, g <| g_bootstrap_used ::= λ u, add64 u size |>) s in
  if BOOTSTRAP_BUF_SIZE <? u64 (offset + size) then (0, s) else (u64 (bootstrap_buf + offset), s).

Definition malloc_is_initialized (s : machine) : bool := g_initialized (mc_g s) =? 2.

(** ** src/tld.c *)

(** [memset(tld, 0, sizeof(tld_t))] and the two stores after it. *)
Definition fresh_tld (thread_id : Z) : tld_t :=
  MkTld None thread_id (replicate (Z.to_nat BIN_COUNT) None) 0 0 0 0 0.

Definition tld_get (tid : Z) (s : machine) : Z * machine :=
  match mc_specific s !! tid with
  | Some tld => (tld, s)
  | None =>
      let '(tld, s) :=
        if negb (malloc_is_initialized s) then bootstrap_alloc SIZEOF_TLD s
        else os_mmap_aligned os_page_size os_page_size s in
      if tld =? 0 then (0, s) else
      (tld, s <| mc_tlds ::= <[tld := fresh_tld (mc_thread_id_counter s)]> |>
              <| mc_thread_id_counter ::= λ c, u32 (c + 1) |>
              <| mc_specific ::= <[tid := tld]> |>)
  end.

(** [if (stat) atomic_fetch_add(&counter, stat)]. *)
Definition credit (stat counter : Z) : Z := if stat =? 0 then counter else add64 counter stat.

(** The four counters of a thread added to its arena: the part
    [tld_stat_flush] of src/slab.c and [tld_cleanup] share. *)
Definition flush_stats (t : tld_t) (a : arena_t) : arena_t :=
  a <| ar_allocated ::= credit (td_stat_allocated t) |>
    <| ar_freed ::= credit (td_stat_freed t) |>
    <| ar_alloc_count ::= credit (td_stat_alloc_count t) |>
    <| ar_free_count ::= credit (td_stat_free_count t) |>.

(** The destructor the thread library runs at thread exit with the thread's
    value, after resetting it. *)
Definition tld_cleanup (tid : Z) (s : machine) : res machine :=
  match mc_specific s !! tid with
  | None => Ok s
  | Some arg =>
      let s := s <| mc_specific ::= delete tid |> in
      t ← deref (mc_tlds s !! arg);
      let s :=
        match td_arena t with
        | None => s
        | Some i =>
            upd_arena i (λ a, flush_stats t a <| ar_thread_count ::= λ x, s32 (x - 1) |>) s
        end in
      if (bootstrap_buf <=? arg) && (arg <? bootstrap_buf + BOOTSTRAP_BUF_SIZE) then Ok s
      else Ok (os_munmap arg os_page_size (s <| mc_tlds ::= delete arg |>))
  end.

End Tld.
