(* ===== verification/Arena.v ===== *)
(** * Arenas: src/arena.c

    The slow path of small allocations, under the arena's mutex.  [zeroed] is
    the out parameter of the C functions: [Some b] when they store [b]
    through it, [None] when they leave it alone. *)
From S2P Require Import Prelude Config Mem Atomic SizeClass Types Os Page Segment Debug Tld.

Section Arena.
Context `{E : Env}.

Definition arena_init (id : Z) : arena_t :=
  MkArena false id 0 (replicate (Z.to_nat BIN_COUNT) None) 0 0 0 0 0 0.

Definition bin_remove_page (i : nat) (r : page_ref) (s : machine) : res machine :=
  p ← deref (lookup_page s r);
  let bin := Z.to_nat (pm_bin_idx p) in
  let s := match pm_prev p with
           | Some q => upd_page q (λ q, q <| pm_next := pm_next p |>) s
           | None => s end in
  let s := match pm_next p with
           | Some q => upd_page q (λ q, q <| pm_prev := pm_prev p |>) s
           | None => s end in
  a ← deref (g_arenas (mc_g s) !! i);
  head ← deref (ar_bins a !! bin);
  let s := if decide (head = Some r)
           then upd_arena i (λ a, a <| ar_bins ::= <[bin := pm_next p]> |>) s else s in
  Ok (upd_page r (λ p, p <| pm_next := None |> <| pm_prev := None |>) s).

Definition bin_insert_page (i : nat) (r : page_ref) (s : machine) : res machine :=
  p ← deref (lookup_page s r);
  let bin := Z.to_nat (pm_bin_idx p) in
  a ← deref (g_arenas (mc_g s) !! i);
  head ← deref (ar_bins a !! bin);
  let s := upd_page r (λ p, p <| pm_prev := None |> <| pm_next := head |>) s in
  let s := match head with
           | Some h => upd_page h (λ p, p <| pm_prev := Some r |>) s
           | None => s end in
  Ok (upd_arena i (λ a, a <| ar_bins ::= <[bin := Some r]> |>) s).

(** The scan of the bin list for an unowned page with bump space; [fuel]
    bounds the length of the list by the number of pages there are. *)
Fixpoint scan_bin (fuel : nat) (s : machine) (page : option page_ref) : res (option page_ref) :=
  match page with
  | None => Ok None
  | Some r =>
      match fuel with
      | O => Hang
      | S fuel =>
          p ← deref (lookup_page s r);
          if (pm_owner_tid p =? UINT32_MAX) && (pm_bump_offset p <? pm_bump_end p)
          then Ok (Some r) else scan_bin fuel s (pm_next p)
      end
  end.

Definition page_fuel (s : machine) : nat := S (size (mc_segs s) * Z.to_nat PAGES_PER_SEGMENT).

(** The statements that bump-allocate from a page and credit the arena. *)
Definition bump_from (i : nat) (r : page_ref) (s : machine) : res (Z * machine) :=
  p ← deref (lookup_page s r);
  let '(slot, p) := bump_slot p in
  p ← (if malloc_debug then debug_mark_allocated p slot else Ok p);
  let s := upd_page r (λ _, p) s in
  Ok (slot, upd_arena i (λ a, a <| ar_allocated ::= λ x, add64 x (pm_slot_size p) |>
                              <| ar_alloc_count ::= λ x, add64 x 1 |>) s).

(** The loop over the arena's segments for one with an unused page. *)
Fixpoint alloc_in_segments (fuel : nat) (seg bin : Z) (s : machine) : res (option page_ref * machine) :=
  if seg =? 0 then Ok (None, s) else
  match fuel with
  | O => Hang
  | S fuel =>
      '(new_page, s) ← segment_alloc_page seg bin s;
      match new_page with
      | Some r => Ok (Some r, s)
      | None => sg ← deref (mc_segs s !! seg); alloc_in_segments fuel (sg_next sg) bin s
      end
  end.

(** The new segment becomes the head of the list, which was [old]. *)
Definition link_segment (i : nat) (seg old : Z) (s : machine) : machine :=
  let s := upd_seg seg (λ sg, sg <| sg_next := old |>) s in
  let s := if old =? 0 then s else upd_seg old (λ sg, sg <| sg_prev := seg |>) s in
  upd_arena i (λ a, a <| ar_segments := seg |> <| ar_segment_count ::= λ c, u32 (c + 1) |>) s.

(** A new segment at the head of the arena's list, and a page from it. *)
Definition grow_arena (i : nat) (bin : Z) (s : machine) : res (option page_ref * machine) :=
  let '(seg, s) := segment_create (Some i) s in
  if seg =? 0 then Ok (None, s) else
  a ← deref (g_arenas (mc_g s) !! i);
  segment_alloc_page seg bin (link_segment i seg (ar_segments a) s).

Definition arena_alloc (i : nat) (bin_idx : Z) (s : machine) : res (Z * option bool * machine) :=
  let bin := u8 bin_idx in
  s ← lock_arena i s;
  a ← deref (g_arenas (mc_g s) !! i);
  head ← deref (ar_bins a !! Z.to_nat bin);
  found ← scan_bin (page_fuel s) s head;
  match found with
  | Some r =>
      '(slot, s) ← bump_from i r s;
      Ok (slot, Some true, unlock_arena i s)
  | None =>
      '(new_page, s) ← alloc_in_segments (S (size (mc_segs s))) (ar_segments a) bin s;
      '(new_page, s) ← match new_page with
                       | Some r => Ok (Some r, s)
                       | None => grow_arena i bin s end;
      match new_page with
      | None => Ok (0, None, unlock_arena i s)
      | Some r =>
          s ← bin_insert_page i r s;
          '(slot, s) ← bump_from i r s;
          Ok (slot, Some true, unlock_arena i s)
      end
  end.

(** Page retirement; no caller is left in the sources. *)
Definition arena_free (i : nat) (r : page_ref) (s : machine) : res machine :=
  p ← deref (lookup_page s r);
  if negb (page_is_empty p) then Ok s else
  s ← bin_remove_page i r s;
  segment_free_page (pm_segment p) r s.

(** Round-robin assignment of the calling thread to an arena. *)
Definition arena_get (tid : Z) (s : machine) : res (option nat * machine) :=
  let '(tld, s) := tld_get tid s in
  t ← (if tld =? 0 then Ok None else t ← deref (mc_tlds s !! tld); Ok (Some t));
  match t ≫= td_arena with
  | Some i => Ok (Some i, s)
  | None =>
      let count := g_arena_count (mc_g s) in
      if count =? 0 then Ok (None, s) else
      let idx := Z.rem (g_arena_next (mc_g s)) count in
      let s := upd_g (λ g, g <| g_arena_next ::= λ n, s32 (n + 1) |>) s in
      if idx <? 0 then Fault else
      let i := Z.to_nat idx in
      _ ← deref (g_arenas (mc_g s) !! i);
      let s := upd_arena i (λ a, a <| ar_thread_count ::= λ n, s32 (n + 1) |>) s in
      let s := if tld =? 0 then s else upd_tld tld (λ t, t <| td_arena := Some i |>) s in
      Ok (Some i, s)
  end.

End Arena.
