(* ===== verification/Large.v ===== *)
(** * Large allocations: src/large.c

    Each one is a mapping of its own whose first bytes hold the
    [large_alloc_t] header; the headers form a doubly-linked list under
    [g_state.large_lock]. *)
From S2P Require Import Prelude Config Mem SizeClass Types Os.

Section Large.
Context `{E : Env}.

(** The mutex of the list. *)
Definition lock_large (s : machine) : res machine :=
  if g_large_lock (mc_g s) then Hang
  else Ok (upd_g (λ g, g <| g_large_lock := true |>) s).
Definition unlock_large (s : machine) : machine :=
  upd_g (λ g, g <| g_large_lock := false |>) s.

(** The bytes [large_alloc_aligned] asks the kernel for. *)
Definition large_header_space (alignment : Z) : Z := align_up LARGE_HEADER_SIZE alignment.
Definition large_total (size alignment : Z) : Z :=
  align_up (u64 (large_header_space alignment + size)) os_page_size.

(** The critical section that links a header in at the head of the list. *)
Definition large_link (base : Z) (s : machine) : machine :=
  let head := g_large_list (mc_g s) in
  let s := upd_large base (λ l, l <| la_next := head |> <| la_prev := 0 |>) s in
  let s := if head =? 0 then s else upd_large head (λ l, l <| la_prev := base |>) s in
  upd_g (λ g, g <| g_large_list := base |>) s.

Definition large_alloc_aligned (size alignment : Z) (s : machine) : res (Z * machine) :=
  let alignment := if alignment <? MIN_ALIGN then MIN_ALIGN else alignment in
  let header_space := large_header_space alignment in
  let total := large_total size alignment in
  let os_page := os_page_size in
  let '(base, s) := os_mmap_aligned total (if alignment <? os_page then os_page else alignment) s in
  if base =? 0 then Ok (0, s) else
  let s := s <| mc_larges ::= <[base := MkLarge base total size 0 0]> |> in
  s ← lock_large s;
  let s := unlock_large (large_link base s) in
  let s := upd_g (λ g, g <| g_large_allocated ::= λ x, add64 x size |>
                         <| g_large_alloc_count ::= λ x, add64 x 1 |>) s in
  Ok (u64 (base + header_space), s).

Definition large_alloc (size : Z) (s : machine) : res (Z * machine) :=
  large_alloc_aligned size MIN_ALIGN s.

(** The list walk of [large_free] and [large_find]: the header of the first
    entry whose mapping holds [ptr]; [fuel] is the number of entries. *)
Fixpoint large_walk (fuel : nat) (s : machine) (la ptr : Z) : res (option large_alloc_t) :=
  if la =? 0 then Ok None else
  match fuel with
  | O => Hang
  | S fuel =>
      l ← deref (mc_larges s !! la);
      let base := la_base l in
      let end_ := u64 (base + la_size l) in
      if (base <=? ptr) && (ptr <? end_) then Ok (Some l) else large_walk fuel s (la_next l) ptr
  end.

Definition large_fuel (s : machine) : nat := S (size (mc_larges s)).

(** The statements that unlink an entry. *)
Definition large_unlink (la : Z) (l : large_alloc_t) (s : machine) : machine :=
  let s := if la_prev l =? 0 then s
           else upd_large (la_prev l) (λ q, q <| la_next := la_next l |>) s in
  let s := if la_next l =? 0 then s
           else upd_large (la_next l) (λ q, q <| la_prev := la_prev l |>) s in
  if g_large_list (mc_g s) =? la
  then upd_g (λ g, g <| g_large_list := la_next l |>) s else s.

(** The header of an entry lies at the base of its mapping, so the address of
    the entry found is its [base]. *)
Definition large_free (ptr : Z) (s : machine) : res machine :=
  if ptr =? 0 then Ok s else
  s ← lock_large s;
  found ← large_walk (large_fuel s) s (g_large_list (mc_g s)) ptr;
  match found with
  | None => Ok (unlock_large s)
  | Some l =>
      let s := unlock_large (large_unlink (la_base l) l s) in
      let s := upd_g (λ g, g <| g_large_allocated ::= λ x, sub64 x (la_user_size l) |>
                             <| g_large_alloc_count ::= λ x, sub64 x 1 |>) s in
      Ok (os_munmap (la_base l) (la_size l) (s <| mc_larges ::= delete (la_base l) |>))
  end.

Definition large_find (ptr : Z) (s : machine) : res (option large_alloc_t) :=
  s ← lock_large s;
  large_walk (large_fuel s) s (g_large_list (mc_g s)) ptr.

Definition large_usable_size (ptr : Z) (s : machine) : res Z :=
  found ← large_find ptr s;
  Ok (match found with Some l => la_user_size l | None => 0 end).

End Large.
