(* ===== verification/Slab.v ===== *)
(** * The slab allocator: src/slab.c

    The hot path: the calling thread's cached page first, the arena next.
    The model runs a call of one thread to completion before the next call
    starts; [tid] names the calling thread. *)
From S2P Require Import Prelude Config Mem Atomic SizeClass Types Os Page Segment Debug Tld Arena Large.

Section Slab.
Context `{E : Env}.

(** The arena is dereferenced only when one of the counters is not 0. *)
Definition tld_stat_flush (tld : Z) (s : machine) : res machine :=
  t ← deref (mc_tlds s !! tld);
  s ← (if (td_stat_allocated t =? 0) && (td_stat_freed t =? 0) &&
          (td_stat_alloc_count t =? 0) && (td_stat_free_count t =? 0) then Ok s
       else
         i ← deref (td_arena t);
         _ ← deref (g_arenas (mc_g s) !! i);
         Ok (upd_arena i (flush_stats t) s));
  Ok (upd_tld tld (λ t, t <| td_stat_allocated := 0 |> <| td_stat_freed := 0 |>
                          <| td_stat_alloc_count := 0 |> <| td_stat_free_count := 0 |>
                          <| td_stat_ops := 0 |>) s).

(** The flush every [STAT_FLUSH_INTERVAL] operations. *)
Definition tld_stat_tick (tld : Z) (s : machine) : res machine :=
  let s := upd_tld tld (λ t, t <| td_stat_ops ::= λ n, u32 (n + 1) |>) s in
  t ← deref (mc_tlds s !! tld);
  if STAT_FLUSH_INTERVAL <=? td_stat_ops t then tld_stat_flush tld s else Ok s.

Definition tld_stat_alloc (tld slot_size : Z) (s : machine) : res machine :=
  tld_stat_tick tld (upd_tld tld (λ t, t <| td_stat_allocated ::= λ x, add64 x slot_size |>
                                         <| td_stat_alloc_count ::= λ x, add64 x 1 |>) s).

Definition tld_stat_free (tld slot_size : Z) (s : machine) : res machine :=
  tld_stat_tick tld (upd_tld tld (λ t, t <| td_stat_freed ::= λ x, add64 x slot_size |>
                                         <| td_stat_free_count ::= λ x, add64 x 1 |>) s).

(** What follows taking a slot from the cached page: the debug mark and the
    statistics. *)
Definition finish_fast (tld : Z) (r : page_ref) (slot : Z) (p : page_meta_t) (s : machine)
    : res (Z * machine) :=
  p ← (if malloc_debug then debug_mark_allocated p slot else Ok p);
  s ← tld_stat_alloc tld (pm_slot_size p) (upd_page r (λ _, p) s);
  Ok (slot, s).

(** The fast path: [None] when the caller has to go through the arena. *)
Definition slab_alloc_fast (tld bin : Z) (s : machine) : res (option (Z * option bool) * machine) :=
  if tld =? 0 then Ok (None, s) else
  t ← deref (mc_tlds s !! tld);
  match default None (td_bin_page t !! Z.to_nat bin) with
  | None => Ok (None, s)
  | Some r =>
      p ← deref (lookup_page s r);
      if negb (bool_decide (pm_state p = PAGE_ACTIVE)) then Ok (None, s) else
      if negb (pm_local_free p =? 0) then
        let '(slot, p) := pop_local_free (mc_mem s) p in
        '(slot, s) ← finish_fast tld r slot p s;
        Ok (Some (slot, Some false), s)
      else if pm_bump_offset p <? pm_bump_end p then
        let '(slot, p) := bump_slot p in
        '(slot, s) ← finish_fast tld r slot p s;
        Ok (Some (slot, Some true), s)
      else
        '(m, p) ← page_collect_remote (mc_mem s) p;
        let s := upd_page r (λ _, p) (s <| mc_mem := m |>) in
        if negb (pm_local_free p =? 0) then
          let '(slot, p) := pop_local_free (mc_mem s) p in
          '(slot, s) ← finish_fast tld r slot p s;
          Ok (Some (slot, Some false), s)
        else
          Ok (None, upd_tld tld (λ t, t <| td_bin_page ::= <[Z.to_nat bin := None]> |>) s)
  end.

(** Claiming the page the arena allocated from, by CAS on its owner. *)
Definition claim_page (tld bin result : Z) (s : machine) : res machine :=
  if (result =? 0) || (tld =? 0) then Ok s else
  match ptr_to_page s result with
  | None => Ok s
  | Some r =>
      p ← deref (lookup_page s r);
      t ← deref (mc_tlds s !! tld);
      let cache := upd_tld tld (λ t, t <| td_bin_page ::= <[Z.to_nat bin := Some r]> |>) in
      if pm_owner_tid p =? UINT32_MAX
      then Ok (cache (upd_page r (λ p, p <| pm_owner_tid := td_thread_id t |>) s))
      else if pm_owner_tid p =? td_thread_id t then Ok (cache s)
      else Ok s
  end.

Definition slab_alloc_inner (tid size : Z) (s : machine) : res (Z * option bool * machine) :=
  let size := if size =? 0 then 1 else size in
  if MEDIUM_MAX <? size then
    '(p, s) ← large_alloc size s; Ok (p, Some false, s)
  else
  let bin := SizeClass.size_to_bin (g_tables (mc_g s)) size in
  let slot_size := SizeClass.bin_to_size (g_tables (mc_g s)) bin in
  if PAGE_SIZE_ALLOC / 2 <? slot_size then
    '(p, s) ← large_alloc size s; Ok (p, Some false, s)
  else
  let '(tld, s) := tld_get tid s in
  '(fast, s) ← slab_alloc_fast tld bin s;
  match fast with
  | Some (slot, zeroed) => Ok (slot, zeroed, s)
  | None =>
      '(arena, s) ← arena_get tid s;
      match arena with
      | None => Ok (0, None, s)
      | Some i =>
          '(result, zeroed, s) ← arena_alloc i bin s;
          s ← claim_page tld bin result s;
          Ok (result, zeroed, s)
      end
  end.

Definition slab_alloc (tid size : Z) (s : machine) : res (Z * machine) :=
  '(p, _, s) ← slab_alloc_inner tid size s; Ok (p, s).

(** [zeroed] is the caller's flag, overwritten when the callee stores it. *)
Definition slab_alloc_zeroed (tid size : Z) (zeroed : bool) (s : machine) : res (Z * bool * machine) :=
  '(p, z, s) ← slab_alloc_inner tid size s; Ok (p, default zeroed z, s).

Definition slab_free (tid ptr : Z) (s : machine) : res machine :=
  if ptr =? 0 then Ok s else
  if ptr_to_segment s ptr =? 0 then Ok s else
  match ptr_to_page s ptr with
  | None => Ok s
  | Some r =>
      p ← deref (lookup_page s r);
      if decide (pm_state p = PAGE_UNUSED) then Ok s else
      p ← (if malloc_debug then debug_check_and_mark_freed p ptr else Ok p);
      let s := upd_page r (λ _, p) s in
      let '(tld, s) := tld_get tid s in
      owner ← (if tld =? 0 then Ok false else
               t ← deref (mc_tlds s !! tld); Ok (pm_owner_tid p =? td_thread_id t));
      if (owner : bool) then
        let '(m, p) := page_free_slot_local (mc_mem s) p ptr in
        tld_stat_free tld (pm_slot_size p) (upd_page r (λ _, p) (s <| mc_mem := m |>))
      else
        let '(m, p) := page_free_slot_remote (mc_mem s) p ptr in
        let s := upd_page r (λ _, p) (s <| mc_mem := m |>) in
        match pm_arena p with
        | None => Ok s
        | Some i =>
            Ok (upd_arena i (λ a, a <| ar_freed ::= λ x, add64 x (pm_slot_size p) |>
                                    <| ar_free_count ::= λ x, add64 x 1 |>) s)
        end
  end.

End Slab.
