(* ===== verification/Init.v ===== *)
(** * Initialisation: src/init.c

    [g_state.initialized] goes 0 (static storage), 1 (one thread is
    initialising), 2 (ready). *)
From S2P Require Import Prelude Config Mem SizeClass Types Os Page Registry Segment Debug Tld Arena.

Section Init.
Context `{E : Env}.

(** [g_state] as static storage leaves it, and the machine before the first
    call: nothing is mapped but the program's own bootstrap buffer. *)
Definition zero_arena : arena_t :=
  MkArena false 0 0 (replicate (Z.to_nat BIN_COUNT) None) 0 0 0 0 0 0.

Definition static_state : global_state_t :=
  MkGlobal 0 (replicate (Z.to_nat MAX_ARENAS) zero_arena) 0 0 0 false 0 0 0 0 0
    (replicate (Z.to_nat SEGMENT_REGISTRY_SIZE) 0) SizeClass.zero_tables.

Definition boot_machine : machine :=
  MkMachine static_state ∅ ∅ ∅ ∅ ∅ 0 [(bootstrap_buf, BOOTSTRAP_BUF_SIZE)] 0.

(** The body of the thread that wins the CAS. *)
Definition malloc_init_body (g : global_state_t) : global_state_t :=
  let g := g <| g_large_lock := false |> in
  let g := g <| g_segment_registry ::= λ reg,
    foldl (λ reg i, <[i := 0]> reg) reg (seq 0 (Z.to_nat SEGMENT_REGISTRY_SIZE)) |> in
  let g := g <| g_tables ::= SizeClass.size_class_init |> in
  let num_arenas := 4 in
  let num_arenas := if MAX_ARENAS <? num_arenas then MAX_ARENAS else num_arenas in
  let g := g <| g_arenas ::= λ arenas,
    foldl (λ arenas i, <[i := arena_init (Z.of_nat i)]> arenas) arenas
      (seq 0 (Z.to_nat num_arenas)) |> in
  g <| g_arena_count := num_arenas |> <| g_arena_next := 0 |>
    <| g_large_list := 0 |> <| g_bootstrap_used := 0 |> <| g_initialized := 2 |>.

(** A caller that loses the CAS spins until the flag is 2; run to completion
    with nobody else making progress, a flag of 1 never becomes 2. *)
Definition malloc_init (s : machine) : res machine :=
  if g_initialized (mc_g s) =? 0 then Ok (upd_g malloc_init_body s)
  else if g_initialized (mc_g s) =? 2 then Ok s
  else Hang.

Definition malloc_ensure_init (s : machine) : res machine :=
  if negb (g_initialized (mc_g s) =? 2) then malloc_init s else Ok s.

End Init.
