(* ===== verification/Malloc.v ===== *)
(** * The public API: src/malloc.c *)
From S2P Require Import Prelude Config Mem Atomic SizeClass Types Os Page Registry Segment Debug Tld Arena Large Slab Init.

Section Malloc.
Context `{E : Env}.

Definition ENOMEM : Z := 12.
Definition EINVAL : Z := 22.
Definition set_errno (e : Z) (s : machine) : machine := s <| mc_errno := e |>.

(** The range test for the bootstrap buffer. *)
Definition in_bootstrap (ptr : Z) : bool :=
  (bootstrap_buf <=? ptr) && (ptr <? bootstrap_buf + BOOTSTRAP_BUF_SIZE).

Definition my_malloc (tid size : Z) (s : machine) : res (Z * machine) :=
  s ← malloc_ensure_init s;
  let size := if size =? 0 then 1 else size in
  if MEDIUM_MAX <? size then large_alloc size s else slab_alloc tid size s.

Definition my_free (tid ptr : Z) (s : machine) : res machine :=
  if ptr =? 0 then Ok s else
  if in_bootstrap ptr then Ok s else
  if negb (ptr_to_segment s ptr =? 0) then slab_free tid ptr s
  else large_free ptr s.

Definition my_calloc (tid count size : Z) (s : machine) : res (Z * machine) :=
  if SIZE_MAX <? count * size then Ok (0, set_errno ENOMEM s) else
  let total := count * size in
  s ← malloc_ensure_init s;
  let total := if total =? 0 then 1 else total in
  if MEDIUM_MAX <? total then large_alloc total s
  else
    '(ptr, zeroed, s) ← slab_alloc_zeroed tid total false s;
    if negb (ptr =? 0) && negb zeroed
    then Ok (ptr, s <| mc_mem ::= λ m, memset m ptr 0 total |>)
    else Ok (ptr, s).

(** Allocate, copy [n] bytes, free: the common tail of [my_realloc]. *)
Definition realloc_move (tid ptr new_size n : Z) (s : machine) : res (Z * machine) :=
  '(new_ptr, s) ← my_malloc tid new_size s;
  if new_ptr =? 0 then Ok (0, s) else
  let s := s <| mc_mem ::= λ m, memcpy m new_ptr ptr n |> in
  s ← my_free tid ptr s;
  Ok (new_ptr, s).

(** The large-allocation case of [my_realloc]. *)
Definition realloc_large (tid ptr new_size : Z) (s : machine) : res (Z * machine) :=
  found ← large_find ptr s;
  match found with
  | None => Ok (0, s)
  | Some l =>
      let old_size := la_user_size l in
      if new_size <=? u64 (la_size l - u64 (ptr - la_base l))
      then Ok (ptr, upd_large (la_base l) (λ l, l <| la_user_size := new_size |>) s)
      else realloc_move tid ptr new_size (if old_size <? new_size then old_size else new_size) s
  end.

Definition my_realloc (tid ptr new_size : Z) (s : machine) : res (Z * machine) :=
  if ptr =? 0 then my_malloc tid new_size s else
  if new_size =? 0 then s ← my_free tid ptr s; Ok (0, s) else
  s ← malloc_ensure_init s;
  if in_bootstrap ptr then
    '(new_ptr, s) ← my_malloc tid new_size s;
    if new_ptr =? 0 then Ok (0, s)
    else Ok (new_ptr, s <| mc_mem ::= λ m, memcpy m new_ptr ptr new_size |>)
  else
  if ptr_to_segment s ptr =? 0 then realloc_large tid ptr new_size s else
  match ptr_to_page s ptr with
  | None => realloc_large tid ptr new_size s
  | Some r =>
      p ← deref (lookup_page s r);
      let old_size := pm_slot_size p in
      if (new_size <=? old_size) &&
         (SizeClass.size_to_bin (g_tables (mc_g s)) new_size =? pm_bin_idx p)
      then Ok (ptr, s)
      else realloc_move tid ptr new_size (if old_size <? new_size then old_size else new_size) s
  end.

(** [alignment & (alignment - 1)] is 0 for powers of two (and for 0). *)
Definition my_memalign (tid alignment size : Z) (s : machine) : res (Z * machine) :=
  s ← malloc_ensure_init s;
  if (alignment =? 0) || negb (Z.land alignment (alignment - 1) =? 0)
  then Ok (0, set_errno EINVAL s) else
  if alignment <=? MIN_ALIGN then my_malloc tid size s else
  if (MEDIUM_MAX <? size) || (PAGE_SIZE_ALLOC <? alignment)
  then large_alloc_aligned size alignment s else
  let alloc_size := if size <? alignment then alignment else size in
  let alloc_size := align_up alloc_size alignment in
  if MEDIUM_MAX <? alloc_size then large_alloc_aligned size alignment s
  else slab_alloc tid alloc_size s.

(** The return code, and the value of [*memptr] when it is stored. *)
Definition my_posix_memalign (tid alignment size : Z) (s : machine) : res (Z * option Z * machine) :=
  if (alignment <? 8) || negb (Z.land alignment (alignment - 1) =? 0)
  then Ok (EINVAL, None, s) else
  '(ptr, s) ← my_memalign tid alignment size s;
  if ptr =? 0 then Ok (ENOMEM, None, s) else Ok (0, Some ptr, s).

Definition my_valloc (tid size : Z) (s : machine) : res (Z * machine) :=
  my_memalign tid os_page_size size s.

Definition my_malloc_usable_size (ptr : Z) (s : machine) : res Z :=
  if ptr =? 0 then Ok 0 else
  if ptr_to_segment s ptr =? 0 then large_usable_size ptr s else
  match ptr_to_page s ptr with
  | None => large_usable_size ptr s
  | Some r => p ← deref (lookup_page s r); Ok (pm_slot_size p)
  end.

End Malloc.
