(* ===== verification/Zone.v ===== *)
(** * The macOS zone: src/zone.c

    The callbacks of [malloc_zone_t], those that forward to the public API and
    those with code of their own, the table [custom_zone] that collects them,
    its registration, and the symbols that interpose the system's.  The zone
    argument, which every callback ignores, is left out; [tid] is the calling
    thread. *)
From S2P Require Import Prelude Config Mem Atomic SizeClass Types Os Page Registry Segment Debug Tld Arena Large Slab Init Malloc.

Section Zone.
Context `{E : Env}.

(** ** Callbacks that forward *)
Definition zone_size (ptr : Z) (s : machine) : res Z := my_malloc_usable_size ptr s.
Definition zone_malloc (tid size : Z) (s : machine) : res (Z * machine) := my_malloc tid size s.
Definition zone_calloc (tid count size : Z) (s : machine) : res (Z * machine) := my_calloc tid count size s.
Definition zone_valloc (tid size : Z) (s : machine) : res (Z * machine) := my_valloc tid size s.
Definition zone_free (tid ptr : Z) (s : machine) : res machine := my_free tid ptr s.
Definition zone_realloc (tid ptr size : Z) (s : machine) : res (Z * machine) := my_realloc tid ptr size s.
Definition zone_memalign (tid alignment size : Z) (s : machine) : res (Z * machine) :=
  my_memalign tid alignment size s.
Definition zone_free_definite_size (tid ptr size : Z) (s : machine) : res machine := my_free tid ptr s.

(** ** Callbacks that do nothing *)
Definition KERN_SUCCESS : Z := 0.
Definition zone_destroy (s : machine) : machine := s.
Definition zone_enumerator (s : machine) : Z := KERN_SUCCESS.
Definition zone_log (addr : Z) (s : machine) : machine := s.
Definition zone_locked (s : machine) : Z := 0.

(** ** Callbacks with code of their own *)
Definition zone_good_size (s : machine) (size : Z) : Z :=
  let size := if size =? 0 then 1 else size in
  if MEDIUM_MAX <? size then align_up size os_page_size else
  let bin := SizeClass.size_to_bin (g_tables (mc_g s)) size in
  SizeClass.bin_to_size (g_tables (mc_g s)) bin.

(** The pointers stored in [results], the last one null when the loop broke
    off, and the count returned. *)
Fixpoint zone_batch_malloc (tid size : Z) (num_requested : nat) (s : machine)
    : res (list Z * Z * machine) :=
  match num_requested with
  | O => Ok ([], 0, s)
  | S n =>
      '(p, s) ← my_malloc tid size s;
      if p =? 0 then Ok ([p], 0, s) else
      '(ps, count, s) ← zone_batch_malloc tid size n s;
      Ok (p :: ps, 1 + count, s)
  end.

(** Returns the array, nulled entry by entry. *)
Fixpoint zone_batch_free (tid : Z) (to_be_freed : list Z) (s : machine) : res (list Z * machine) :=
  match to_be_freed with
  | [] => Ok ([], s)
  | p :: ps =>
      s ← my_free tid p s;
      '(ps, s) ← zone_batch_free tid ps s;
      Ok (0 :: ps, s)
  end.

Definition zone_claimed_address (ptr : Z) (s : machine) : res bool :=
  if ptr =? 0 then Ok false else
  if in_bootstrap ptr then Ok true else
  if negb (ptr_to_segment s ptr =? 0) then Ok true else
  found ← large_find ptr s;
  Ok (bool_decide (is_Some found)).

(** [zone_pressure_relief]: the pages of one segment, the segments of one
    arena, the arenas one after the other under their locks. *)
Definition relieve_page (r : page_ref) (sr : machine * Z) : res (machine * Z) :=
  let '(s, released) := sr in
  p ← deref (lookup_page s r);
  if bool_decide (pm_state p = PAGE_ACTIVE) && page_is_empty p
  then Ok (os_madvise_free (page_start p) PAGE_SIZE_ALLOC s, u64 (released + PAGE_SIZE_ALLOC))
  else Ok (s, released).

Fixpoint relieve_pages (seg : Z) (n i : nat) (sr : machine * Z) : res (machine * Z) :=
  match n with
  | O => Ok sr
  | S n => sr ← relieve_page (seg, i) sr; relieve_pages seg n (S i) sr
  end.

Fixpoint relieve_segments (fuel : nat) (seg : Z) (sr : machine * Z) : res (machine * Z) :=
  if seg =? 0 then Ok sr else
  match fuel with
  | O => Hang
  | S fuel =>
      sr ← relieve_pages seg (Z.to_nat (PAGES_PER_SEGMENT - PAGES_DATA_START))
        (Z.to_nat PAGES_DATA_START) sr;
      sg ← deref (mc_segs sr.1 !! seg);
      relieve_segments fuel (sg_next sg) sr
  end.

Fixpoint relieve_arenas (n i : nat) (sr : machine * Z) : res (machine * Z) :=
  match n with
  | O => Ok sr
  | S n =>
      s ← lock_arena i sr.1;
      a ← deref (g_arenas (mc_g s) !! i);
      '(s, released) ← relieve_segments (size (mc_segs s)) (ar_segments a) (s, sr.2);
      relieve_arenas n (S i) (unlock_arena i s, released)
  end.

Definition zone_pressure_relief (s : machine) : res (machine * Z) :=
  relieve_arenas (Z.to_nat (g_arena_count (mc_g s))) 0 (s, 0).

(** [malloc_statistics_t], and what [zone_statistics] stores through [stats],
    if it is not null. *)
Record malloc_statistics_t := MkStats {
  blocks_in_use : Z;
  size_in_use : Z;
  max_size_in_use : Z;
  size_allocated : Z
}.

Definition saturating_sub (x y : Z) : Z := if y <? x then x - y else 0.

Definition zone_statistics (stats : Z) (s : machine) : option malloc_statistics_t * machine :=
  if stats =? 0 then (None, s) else
  let g := mc_g s in
  let arenas := take (Z.to_nat (g_arena_count g)) (g_arenas g) in
  let blocks := foldl (λ n a, u64 (n + saturating_sub (ar_alloc_count a) (ar_free_count a))) 0 arenas in
  let bytes := foldl (λ n a, u64 (n + saturating_sub (ar_allocated a) (ar_freed a))) 0 arenas in
  let blocks := u64 (blocks + g_large_alloc_count g) in
  let bytes := u64 (bytes + g_large_allocated g) in
  let prev_peak := g_peak_in_use g in
  let s := if prev_peak <? bytes then upd_g (λ g, g <| g_peak_in_use := bytes |>) s else s in
  (Some (MkStats (u32 blocks) bytes (if prev_peak <? bytes then bytes else prev_peak) (g_mmap_bytes g)), s).

(** Fork safety: all arena locks in order, then the large lock. *)
Fixpoint lock_arenas (n i : nat) (s : machine) : res machine :=
  match n with
  | O => Ok s
  | S n => s ← lock_arena i s; lock_arenas n (S i) s
  end.

Definition zone_force_lock (s : machine) : res machine :=
  s ← lock_arenas (Z.to_nat (g_arena_count (mc_g s))) 0 s;
  lock_large s.

Definition zone_force_unlock (s : machine) : machine :=
  let s := unlock_large s in
  foldl (λ s i, unlock_arena i s) s (seq 0 (Z.to_nat (g_arena_count (mc_g s)))).

(** ** The table of callbacks *)
Record malloc_introspection_t := MkIntrospect {
  zi_enumerator : machine → Z;
  zi_good_size : machine → Z → Z;
  zi_log : Z → machine → machine;
  zi_force_lock : machine → res machine;
  zi_force_unlock : machine → machine;
  zi_statistics : Z → machine → option malloc_statistics_t * machine;
  zi_zone_locked : machine → Z
}.

Record malloc_zone_t := MkZone {
  z_size : Z → machine → res Z;
  z_malloc : Z → Z → machine → res (Z * machine);
  z_calloc : Z → Z → Z → machine → res (Z * machine);
  z_valloc : Z → Z → machine → res (Z * machine);
  z_free : Z → Z → machine → res machine;
  z_realloc : Z → Z → Z → machine → res (Z * machine);
  z_destroy : machine → machine;
  z_batch_malloc : Z → Z → nat → machine → res (list Z * Z * machine);
  z_batch_free : Z → list Z → machine → res (list Z * machine);
  z_introspect : malloc_introspection_t;
  z_version : Z;
  z_memalign : Z → Z → Z → machine → res (Z * machine);
  z_free_definite_size : Z → Z → Z → machine → res machine;
  z_pressure_relief : machine → res (machine * Z);
  z_claimed_address : Z → machine → res bool
}.

Definition zone_introspection : malloc_introspection_t := {|
  zi_enumerator := zone_enumerator;
  zi_good_size := zone_good_size;
  zi_log := zone_log;
  zi_force_lock := zone_force_lock;
  zi_force_unlock := zone_force_unlock;
  zi_statistics := zone_statistics;
  zi_zone_locked := zone_locked
|}.

Definition custom_zone : malloc_zone_t := {|
  z_size := zone_size;
  z_malloc := zone_malloc;
  z_calloc := zone_calloc;
  z_valloc := zone_valloc;
  z_free := zone_free;
  z_realloc := zone_realloc;
  z_destroy := zone_destroy;
  z_batch_malloc := zone_batch_malloc;
  z_batch_free := zone_batch_free;
  z_introspect := zone_introspection;
  z_version := 12;
  z_memalign := zone_memalign;
  z_free_definite_size := zone_free_definite_size;
  z_pressure_relief := zone_pressure_relief;
  z_claimed_address := zone_claimed_address
|}.

(** ** Registration

    The system's list of zones and the call that registers a zone there are
    parameters; what [malloc_default_zone] answers decides about an empty
    block. *)
Section Register.
Context {zones : Type} (malloc_zone_register : malloc_zone_t → zones → zones).

Definition zone_register (s : machine) (zs : zones) : res (machine * zones) :=
  s ← malloc_ensure_init s; Ok (s, malloc_zone_register custom_zone zs).

(** The constructor the loader runs before [main]. *)
Definition zone_init_constructor (s : machine) (zs : zones) : res (machine * zones) := zone_register s zs.
End Register.

End Zone.

(** ** The interposed symbols *)
Module Interpose.
Section Interpose.
Context `{E : Env}.
Definition malloc (tid size : Z) (s : machine) : res (Z * machine) := my_malloc tid size s.
Definition free (tid ptr : Z) (s : machine) : res machine := my_free tid ptr s.
Definition calloc (tid count size : Z) (s : machine) : res (Z * machine) := my_calloc tid count size s.
Definition realloc (tid ptr size : Z) (s : machine) : res (Z * machine) := my_realloc tid ptr size s.
Definition valloc (tid size : Z) (s : machine) : res (Z * machine) := my_valloc tid size s.
Definition posix_memalign (tid alignment size : Z) (s : machine) : res (Z * option Z * machine) :=
  my_posix_memalign tid alignment size s.
Definition malloc_usable_size (ptr : Z) (s : machine) : res Z := my_malloc_usable_size ptr s.
Definition malloc_size (ptr : Z) (s : machine) : res Z := my_malloc_usable_size ptr s.
Definition malloc_good_size (s : machine) (size : Z) : Z := zone_good_size s size.
End Interpose.
End Interpose.
