(* ===== verification/Heap.v ===== *)
(** * The heap invariant

    What holds of the machine between calls.  [slab_inv] is about the data:
    the size tables, the segments and their pages, the registry, the bytes of
    memory; [ctl_inv] is about the links: the arenas' bin and segment lists
    and the threads' caches.  [L] maps every active page to the slots of it
    that callers hold.  [same_shape] relates machines that agree on
    everything [ctl_inv] looks at. *)
From S2P Require Import Prelude Config Mem Atomic SizeClass Types Os Page Registry Segment Debug Tld Arena.
Import SizeClass Registry.

Notation live_map := (gmap page_ref (list Z)).

(** Linked structures: [l] lists the nodes reached from [h] through [next],
    which is undefined where there is no object. *)
Fixpoint chain {K} (next : K → option (option K)) (h : option K) (l : list K) : Prop :=
  match l with
  | [] => h = None
  | k :: l => h = Some k ∧ ∃ n, next k = Some n ∧ chain next n l
  end.

Section Inv.
Context `{E : Env}.

(** An active page with the live slots [live]. *)
Definition active_ok (m : mem) (arena : option nat) (p : page_meta_t) (live : list Z) : Prop :=
  pm_arena p = arena ∧
  0 ≤ pm_bin_idx p < BIN_COUNT ∧
  1 ≤ bin_to_size the_tables (pm_bin_idx p) ≤ PAGE_SIZE_ALLOC / 2 ∧
  pm_slot_size p = slot_size_of (bin_to_size the_tables (pm_bin_idx p)) ∧
  (malloc_debug = true → bitmap_ok p live) ∧
  ∃ lf rf, page_inv m p lf rf live.

(** The three kinds of pages a segment holds between calls. *)
Definition page_ok (m : mem) (L : live_map) (arena : option nat) (r : page_ref) (p : page_meta_t) : Prop :=
  pm_segment p = r.1 ∧ pm_page_index p = Z.of_nat r.2 ∧
  match pm_state p with
  | PAGE_FULL => r.2 = 0%nat ∧ L !! r = None
  | PAGE_UNUSED => r.2 ≠ 0%nat ∧ L !! r = None ∧
      ∀ a, in_range a (page_addr r.1 (Z.of_nat r.2)) PAGE_SIZE_ALLOC → load8 m a = 0
  | PAGE_ACTIVE => r.2 ≠ 0%nat ∧ ∃ live, L !! r = Some live ∧ active_ok m arena p live
  | PAGE_RETIRED => False
  end.

Record slab_inv (s : machine) (L : live_map) : Prop := {
  si_tables : g_tables (mc_g s) = the_tables;
  si_bytes : bytes (mc_mem s);
  si_place b sg : mc_segs s !! b = Some sg → segment_place b;
  si_pages b sg : mc_segs s !! b = Some sg → length (sg_pages sg) = 64%nat;
  si_mapped b sg a : mc_segs s !! b = Some sg → in_range a b SEGMENT_SIZE → is_mapped s a;
  si_page b sg i p : mc_segs s !! b = Some sg → sg_pages sg !! i = Some p →
    page_ok (mc_mem s) L (sg_arena sg) (b, i) p;
  si_live r live : L !! r = Some live → is_Some (lookup_page s r);
  si_registry : registry_wf (g_segment_registry (mc_g s));
  si_registered b : b ≠ 0 → b ∈ g_segment_registry (mc_g s) ↔ is_Some (mc_segs s !! b)
}.

(** ** Links: the fields of each object that the lists and caches use. *)
Definition page_link (s : machine) (r : page_ref) :=
  (λ p, (pm_next p, pm_state p, pm_bin_idx p, pm_arena p, pm_owner_tid p)) <$> lookup_page s r.
Definition seg_link (s : machine) (b : Z) :=
  (λ sg, (sg_next sg, sg_arena sg)) <$> mc_segs s !! b.
Definition arena_link (s : machine) (i : nat) :=
  (λ a, (ar_bins a, ar_segments a)) <$> g_arenas (mc_g s) !! i.
Definition tld_link (s : machine) (a : Z) :=
  (λ t, (td_arena t, td_thread_id t, td_bin_page t)) <$> mc_tlds s !! a.

Record same_shape (s s' : machine) : Prop := {
  ss_page r : page_link s r = page_link s' r;
  ss_seg b : seg_link s b = seg_link s' b;
  ss_arena i : arena_link s i = arena_link s' i;
  ss_tld a : tld_link s a = tld_link s' a;
  ss_length : length (g_arenas (mc_g s)) = length (g_arenas (mc_g s'));
  ss_count : g_arena_count (mc_g s) = g_arena_count (mc_g s');
  ss_next : g_arena_next (mc_g s) = g_arena_next (mc_g s');
  ss_specific : mc_specific s = mc_specific s';
  ss_counter : mc_thread_id_counter s = mc_thread_id_counter s'
}.

(** Null pointers of the segment list. *)
Definition ptr_opt (a : Z) : option Z := if a =? 0 then None else Some a.

Definition page_next (s : machine) (r : page_ref) : option (option page_ref) :=
  (λ x, x.1.1.1.1) <$> page_link s r.
Definition seg_next (s : machine) (b : Z) : option (option Z) :=
  (λ x, ptr_opt x.1) <$> seg_link s b.

(** The page is active, of bin [bin], and belongs to arena [i]. *)
Definition active_page (s : machine) (i : nat) (bin : nat) (r : page_ref) : Prop :=
  ∃ n o, page_link s r = Some (n, PAGE_ACTIVE, Z.of_nat bin, Some i, o).

(** A bin's list holds pages of its bin; the segment list holds segments of
    the arena. *)
Record arena_inv (s : machine) (i : nat) (bins : list (option page_ref)) (segs : Z) : Prop := {
  ai_bins : length bins = 75%nat;
  ai_bin bin h : bins !! bin = Some h →
    ∃ l, chain (page_next s) h l ∧ NoDup l ∧ ∀ r, r ∈ l → active_page s i bin r;
  ai_segments : ∃ l, chain (seg_next s) (ptr_opt segs) l ∧ NoDup l ∧
    ∀ b, b ∈ l → ∃ n, seg_link s b = Some (n, Some i)
}.

(** A thread's cached pages are active, of the right bin, and owned by it;
    a thread that owns a page has an arena. *)
Record tld_inv (s : machine) (arena : option nat) (id : Z) (cache : list (option page_ref)) : Prop := {
  ti_pages : length cache = 75%nat;
  ti_id : 0 ≤ id < mc_thread_id_counter s;
  ti_arena i : arena = Some i → (i < 4)%nat;
  ti_cached bin r : cache !! bin = Some (Some r) →
    is_Some arena ∧ ∃ n a, page_link s r = Some (n, PAGE_ACTIVE, Z.of_nat bin, a, id);
  ti_owner r n b a : page_link s r = Some (n, PAGE_ACTIVE, b, a, id) → is_Some arena
}.

Record ctl_inv (s : machine) : Prop := {
  ci_count : g_arena_count (mc_g s) = 4;
  ci_length : length (g_arenas (mc_g s)) = 64%nat;
  ci_arena i bins segs : arena_link s i = Some (bins, segs) → arena_inv s i bins segs;
  ci_seg_arena b n ar : seg_link s b = Some (n, ar) → ∃ i, ar = Some i ∧ (i < 4)%nat;
  ci_counter : 0 ≤ mc_thread_id_counter s ≤ UINT32_MAX;
  ci_tld a arena id cache : tld_link s a = Some (arena, id, cache) → tld_inv s arena id cache;
  ci_ids a a' arena arena' id cache cache' : tld_link s a = Some (arena, id, cache) →
    tld_link s a' = Some (arena', id, cache') → a = a';
  ci_specific tid a : mc_specific s !! tid = Some a → a ≠ 0 ∧ is_Some (tld_link s a);
  ci_owner r n b a o : page_link s r = Some (n, PAGE_ACTIVE, b, a, o) →
    o = UINT32_MAX ∨ 0 ≤ o < mc_thread_id_counter s;
  ci_next : 0 ≤ g_arena_next (mc_g s) < 2 ^ 31
}.

(** The state of the mutexes. *)
Definition locks (s : machine) : list bool := ar_lock <$> g_arenas (mc_g s).
Definition unlocked (s : machine) : Prop := ∀ i b, locks s !! i = Some b → b = false.

(** ** Steps: what an operation on the page [r] does to the stores, [p']
    being the new metadata of the page. *)
Definition seg_view (sg : segment_t) := (sg_arena sg, sg_pages sg).
Definition segs_upd (r : page_ref) (p' : page_meta_t) (s s' : machine) : Prop :=
  ∀ b, seg_view <$> mc_segs s' !! b =
    (λ sg, (sg_arena sg, if decide (b = r.1) then <[r.2 := p']> (sg_pages sg) else sg_pages sg))
      <$> mc_segs s !! b.

(** The tables and the registry are the same, and no mapping is gone. *)
Record same_world (s s' : machine) : Prop := {
  sw_tables : g_tables (mc_g s') = g_tables (mc_g s);
  sw_registry : g_segment_registry (mc_g s') = g_segment_registry (mc_g s);
  sw_mapped a : is_mapped s a → is_mapped s' a
}.

Record heap_inv (s : machine) (L : live_map) : Prop := {
  hi_slab : slab_inv s L;
  hi_ctl : ctl_inv s;
  hi_unlocked : unlocked s
}.

(** ** The shape is an equivalence, and [ctl_inv] only sees the shape. *)
#[global] Instance same_shape_equiv : Equivalence same_shape.
Proof.
  split.
  - by split.
  - intros s s' []. by split.
  - intros s1 s2 s3 [] []. split; intros; etrans; eauto.
Qed.

End Inv.

(** ** Chains *)
Lemma chain_ext {K} (next next' : K → option (option K)) h l :
  (∀ k, k ∈ l → next' k = next k) → chain next h l → chain next' h l.
Proof.
  revert h. induction l as [|k l IH]; intros h Heq; simpl; [done|].
  intros (-> & n & Hn & Hl). split; [done|]. exists n. rewrite Heq by set_solver.
  split; [done|]. apply IH; [|done]. set_solver.
Qed.

Lemma chain_head {K} (next : K → option (option K)) k l :
  chain next (Some k) l → ∃ l' n, l = k :: l' ∧ next k = Some n ∧ chain next n l'.
Proof. destruct l as [|k' l]; simpl; [done|]. intros ([= ->] & n & ? & ?). eauto 6. Qed.

(** ** Addresses *)
Lemma page_addr_disjoint b b' i i' :
  segment_place b → segment_place b' → 0 ≤ i < 64 → 0 ≤ i' < 64 → (b, i) ≠ (b', i') →
  disjoint_ranges (page_addr b i) PAGE_SIZE_ALLOC (page_addr b' i') PAGE_SIZE_ALLOC.
Proof.
  intros (_ & _ & [q ->]) (_ & _ & [q' ->]) Hi Hi' Hne. unfold disjoint_ranges, page_addr. config.
  change (2 ^ 22) with 4194304. destruct (decide (q = q')) as [->|].
  - assert (i ≠ i') by congruence. lia.
  - lia.
Qed.

Lemma page_addr_in_segment b i a :
  0 ≤ i < 64 → in_range a (page_addr b i) PAGE_SIZE_ALLOC → in_range a b SEGMENT_SIZE.
Proof. unfold in_range, page_addr. config. change (2 ^ 22) with 4194304. lia. Qed.

Lemma segment_base b a :
  segment_place b → in_range a b SEGMENT_SIZE → Z.land a SEGMENT_MASK = b.
Proof.
  intros (? & ? & [q Hq]) Ha. unfold SEGMENT_MASK. unfold in_range in Ha. config.
  rewrite land_lnot_pow2 by lia. subst b. change (2 ^ 22) with 4194304 in *.
  Z.div_mod_to_equations; lia.
Qed.

(** ** Memory of one page *)
Lemma page_inv_mem m m' p lf rf live :
  (∀ b, in_range b (page_start p) PAGE_SIZE_ALLOC → load8 m' b = load8 m b) →
  page_inv m p lf rf live → page_inv m' p lf rf live.
Proof.
  intros Heq Hp. assert (∀ a, a ∈ lf ++ rf → load64 m a = load64 m' a) as Hld.
  { intros a Ha. apply load64_ext. intros b Hb. symmetry. apply Heq.
    pose proof (touched_in_page p ltac:(apply Hp) a) as Hin.
    destruct Hin; [apply (page_inv_touched _ _ _ _ _ Hp); set_solver|].
    pose proof (pg_slot p ltac:(apply Hp)). unfold in_range. lia. }
  destruct Hp as [Hg Hlf Hrf ? ? ? ? ? Hv]. split; try done.
  - eapply is_list_ext; [|done]. intros a Ha. apply Hld. set_solver.
  - eapply is_list_ext; [|done]. intros a Ha. apply Hld. set_solver.
  - intros a Ha. rewrite Heq; [by apply Hv|]. pose proof (pg_bump p Hg). unfold in_range. lia.
Qed.

Section Lemmas.
Context `{E : Env}.
Implicit Types (s : machine) (L : live_map) (r : page_ref).

Lemma page_link_Some s r x :
  page_link s r = Some x ↔ ∃ p, lookup_page s r = Some p ∧
    x = (pm_next p, pm_state p, pm_bin_idx p, pm_arena p, pm_owner_tid p).
Proof. unfold page_link. rewrite fmap_Some. naive_solver. Qed.

Lemma arena_inv_shape s s' i bins segs :
  same_shape s s' → arena_inv s i bins segs → arena_inv s' i bins segs.
Proof.
  intros Hsh [Hlen Hbin Hseg]. split; [done| |].
  - intros bin h Hh. destruct (Hbin bin h Hh) as (l & Hl & Hnd & Hact). exists l. split_and!; [|done|].
    + eapply chain_ext; [|done]. intros r _. unfold page_next. by rewrite (ss_page _ _ Hsh).
    + intros r Hr. unfold active_page. rewrite <- (ss_page _ _ Hsh). by apply Hact.
  - destruct Hseg as (l & Hl & Hnd & Har). exists l. split_and!; [|done|].
    + eapply chain_ext; [|done]. intros b _. unfold seg_next. by rewrite (ss_seg _ _ Hsh).
    + intros b Hb. rewrite <- (ss_seg _ _ Hsh). by apply Har.
Qed.

Lemma tld_inv_shape s s' arena id cache :
  same_shape s s' → tld_inv s arena id cache → tld_inv s' arena id cache.
Proof.
  intros Hsh []. split; try done.
  - by rewrite <- (ss_counter _ _ Hsh).
  - intros bin r Hr. rewrite <- (ss_page _ _ Hsh). by apply ti_cached0.
  - intros r n b a. rewrite <- (ss_page _ _ Hsh). apply ti_owner0.
Qed.

#[global] Instance ctl_inv_proper : Proper (same_shape ==> iff) ctl_inv.
Proof.
  assert (∀ s s', same_shape s s' → ctl_inv s → ctl_inv s') as H.
  { intros s s' Hsh []. split.
    - by rewrite <- (ss_count _ _ Hsh).
    - by rewrite <- (ss_length _ _ Hsh).
    - intros i bins segs. rewrite <- (ss_arena _ _ Hsh). intros. eapply arena_inv_shape; eauto.
    - intros b n ar. rewrite <- (ss_seg _ _ Hsh). eauto.
    - by rewrite <- (ss_counter _ _ Hsh).
    - intros a arena id cache. rewrite <- (ss_tld _ _ Hsh). intros. eapply tld_inv_shape; eauto.
    - intros a a' arena arena' id cache cache'. rewrite <- !(ss_tld _ _ Hsh). eauto.
    - intros tid a. rewrite <- (ss_specific _ _ Hsh), <- (ss_tld _ _ Hsh). eauto.
    - intros r n b a o. rewrite <- (ss_page _ _ Hsh), <- (ss_counter _ _ Hsh). eauto.
    - by rewrite <- (ss_next _ _ Hsh). }
  intros s s' Hsh. split; apply H; [done|by symmetry].
Qed.

(** ** What the slab invariant says of one page *)
Lemma slab_page s L r p :
  slab_inv s L → lookup_page s r = Some p →
  ∃ sg, mc_segs s !! r.1 = Some sg ∧ segment_place r.1 ∧ (r.2 < 64)%nat ∧
    page_ok (mc_mem s) L (sg_arena sg) r p.
Proof.
  destruct r as [b i]. intros Hs (sg & Hsg & Hp)%lookup_page_Some. exists sg.
  split_and!; [done|by eapply si_place| |by eapply si_page].
  apply lookup_lt_Some in Hp. by rewrite (si_pages _ _ Hs _ _ Hsg) in Hp.
Qed.

Lemma slab_active s L r p :
  slab_inv s L → lookup_page s r = Some p → pm_state p = PAGE_ACTIVE →
  ∃ sg live, mc_segs s !! r.1 = Some sg ∧ segment_place r.1 ∧ (0 < r.2 < 64)%nat ∧
    pm_segment p = r.1 ∧ pm_page_index p = Z.of_nat r.2 ∧
    L !! r = Some live ∧ active_ok (mc_mem s) (sg_arena sg) p live.
Proof.
  intros Hs Hp Hst. destruct (slab_page s L r p Hs Hp) as (sg & ? & ? & ? & Hok).
  destruct Hok as (? & ? & Hok). rewrite Hst in Hok. destruct Hok as (? & live & ? & ?).
  exists sg, live. split_and!; try done; lia.
Qed.

(** A live entry of [L] is an active page. *)
Lemma slab_live s L r live :
  slab_inv s L → L !! r = Some live →
  ∃ p, lookup_page s r = Some p ∧ pm_state p = PAGE_ACTIVE.
Proof.
  intros Hs HL. destruct (si_live _ _ Hs _ _ HL) as [p Hp]. exists p. split; [done|].
  destruct (slab_page s L r p Hs Hp) as (sg & _ & _ & _ & _ & _ & Hok).
  destruct (pm_state p); naive_solver.
Qed.

Lemma slab_page_start s L r p :
  slab_inv s L → lookup_page s r = Some p → page_start p = page_addr r.1 (Z.of_nat r.2).
Proof.
  intros Hs Hp. destruct (slab_page s L r p Hs Hp) as (sg & _ & Hpl & Hlt & Hok).
  destruct Hok as (? & ? & _). apply page_start_addr; [done|config; lia|done..].
Qed.

(** [page_ok] of a page whose bytes and live slots do not change. *)
Lemma page_ok_frame m m' L L' arena r p :
  (∀ b, in_range b (page_addr r.1 (Z.of_nat r.2)) PAGE_SIZE_ALLOC → load8 m' b = load8 m b) →
  segment_place r.1 → (r.2 < 64)%nat → L' !! r = L !! r →
  page_ok m L arena r p → page_ok m' L' arena r p.
Proof.
  intros Heq Hseg Hlt HL (Hsg & Hix & Hst). split_and!; [done..|]. rewrite HL.
  destruct (pm_state p); try done.
  - destruct Hst as (? & ? & Hz). split_and!; [done..|]. intros a Ha. rewrite Heq; auto.
  - destruct Hst as (? & live & ? & Hst). split; [done|]. exists live. split; [done|].
    destruct Hst as (? & ? & ? & ? & ? & lf & rf & Hp).
    split_and!; try done; try lia. exists lf, rf.
    eapply page_inv_mem; [|done]. intros b Hb. apply Heq.
    rewrite <- (page_start_addr p r.1 (Z.of_nat r.2)); [done|done|config; lia|done..].
Qed.

(** ** Steps *)
Lemma segs_upd_Some r p' s s' b sg' :
  segs_upd r p' s s' → mc_segs s' !! b = Some sg' →
  ∃ sg, mc_segs s !! b = Some sg ∧ sg_arena sg' = sg_arena sg ∧
    sg_pages sg' = if decide (b = r.1) then <[r.2 := p']> (sg_pages sg) else sg_pages sg.
Proof.
  intros Hu Hsg'. specialize (Hu b). rewrite Hsg' in Hu. simpl in Hu. symmetry in Hu.
  apply fmap_Some in Hu as (sg & Hsg & Heq). injection Heq as ? ?. eauto.
Qed.

Lemma segs_upd_is_Some r p' s s' b :
  segs_upd r p' s s' → is_Some (mc_segs s' !! b) ↔ is_Some (mc_segs s !! b).
Proof. intros Hu. specialize (Hu b). destruct (mc_segs s' !! b), (mc_segs s !! b); naive_solver. Qed.

Lemma segs_upd_lookup r p' s s' r' :
  segs_upd r p' s s' → is_Some (lookup_page s r) →
  lookup_page s' r' = if decide (r' = r) then Some p' else lookup_page s r'.
Proof.
  destruct r as [b i], r' as [b' i']. intros Hu [p (sg & Hsg & Hp)%lookup_page_Some].
  unfold lookup_page. simpl. pose proof (Hu b') as Hb. simpl in Hb.
  destruct (mc_segs s' !! b') as [sg'|] eqn:Hsg'; simpl in *.
  - destruct (segs_upd_Some _ _ _ _ _ _ Hu Hsg') as (sg2 & Hsg2 & _ & Hpg). simpl in Hpg.
    rewrite Hsg2. simpl. rewrite Hpg. destruct (decide (b' = b)) as [->|].
    + simplify_eq. destruct (decide (i' = i)) as [->|].
      * rewrite decide_True by done. apply list_lookup_insert_eq. by eapply lookup_lt_Some.
      * rewrite decide_False by congruence. by rewrite list_lookup_insert_ne.
    + by rewrite decide_False by congruence.
  - destruct (mc_segs s !! b') eqn:Hn; [done|]. rewrite decide_False by congruence. done.
Qed.

(** One page changes, together with its bytes and its live slots. *)
Lemma slab_inv_step s s' L L' r p' :
  slab_inv s L → is_Some (lookup_page s r) → segs_upd r p' s s' → same_world s s' →
  bytes (mc_mem s') →
  (∀ b, ¬ in_range b (page_addr r.1 (Z.of_nat r.2)) PAGE_SIZE_ALLOC →
    load8 (mc_mem s') b = load8 (mc_mem s) b) →
  (∀ r', r' ≠ r → L' !! r' = L !! r') →
  (∀ sg, mc_segs s !! r.1 = Some sg → page_ok (mc_mem s') L' (sg_arena sg) r p') →
  slab_inv s' L'.
Proof.
  intros Hs Hr Hu Hw Hby Hmem HL Hok. split.
  - rewrite (sw_tables _ _ Hw). apply Hs.
  - done.
  - intros b sg' Hsg'. destruct (segs_upd_Some _ _ _ _ _ _ Hu Hsg') as (sg & Hsg & _).
    by eapply si_place.
  - intros b sg' Hsg'. destruct (segs_upd_Some _ _ _ _ _ _ Hu Hsg') as (sg & Hsg & _ & ->).
    pose proof (si_pages _ _ Hs _ _ Hsg). destruct (decide _); by rewrite ?length_insert.
  - intros b sg' a Hsg' Ha. destruct (segs_upd_Some _ _ _ _ _ _ Hu Hsg') as (sg & Hsg & _).
    apply (sw_mapped _ _ Hw). by eapply si_mapped.
  - intros b sg' i p Hsg' Hp.
    destruct (segs_upd_Some _ _ _ _ _ _ Hu Hsg') as (sg & Hsg & Har & Hpg).
    assert (lookup_page s' (b, i) = Some p) as Hlk by (apply lookup_page_Some; eauto).
    rewrite (segs_upd_lookup _ _ _ _ _ Hu Hr) in Hlk. rewrite Har.
    destruct (decide ((b, i) = r)) as [<-|Hne]; [simplify_eq; auto|].
    destruct (slab_page s L (b, i) p Hs Hlk) as (sg2 & Hsg2 & Hpl & Hlt & Hok2).
    simpl in Hsg2. simplify_eq. eapply page_ok_frame; [|done..|by apply HL|done].
    intros a Ha. apply Hmem. intros Ha2. destruct Hr as [pr Hr].
    destruct (slab_page s L r pr Hs Hr) as (sg3 & _ & Hpl3 & Hlt3 & _).
    destruct (page_addr_disjoint b r.1 (Z.of_nat i) (Z.of_nat r.2) Hpl Hpl3);
      unfold in_range in *; simpl in *; try lia.
    intros [= -> Hi]. apply Hne. destruct r; simpl in *. f_equal. lia.
  - intros r' live HL'. rewrite (segs_upd_lookup _ _ _ _ _ Hu Hr).
    destruct (decide (r' = r)); [eauto|]. rewrite HL in HL' by done. by eapply si_live.
  - rewrite (sw_registry _ _ Hw). apply Hs.
  - intros b Hb. rewrite (sw_registry _ _ Hw), (segs_upd_is_Some _ _ _ _ _ Hu).
    by apply Hs.
Qed.

(** Nothing the slab invariant sees changes but bytes outside the segments. *)
Lemma slab_inv_same s s' L :
  slab_inv s L → (∀ b, seg_view <$> mc_segs s' !! b = seg_view <$> mc_segs s !! b) →
  same_world s s' → bytes (mc_mem s') →
  (∀ a, is_mapped s a → load8 (mc_mem s') a = load8 (mc_mem s) a) →
  slab_inv s' L.
Proof.
  intros Hs Hsegs Hw Hby Hmem. destruct Hw as [Ht Hreg Hm]. destruct Hs.
  assert (∀ b sg', mc_segs s' !! b = Some sg' → ∃ sg, mc_segs s !! b = Some sg ∧
    sg_arena sg' = sg_arena sg ∧ sg_pages sg' = sg_pages sg) as Hv.
  { intros b sg' Hsg'. specialize (Hsegs b). rewrite Hsg' in Hsegs. simpl in Hsegs.
    symmetry in Hsegs. apply fmap_Some in Hsegs as (sg & Hsg & [= ? ?]). eauto. }
  split; rewrite ?Ht, ?Hreg; try done.
  - intros b sg' (sg & Hsg & _)%Hv. eauto.
  - intros b sg' (sg & Hsg & _ & ->)%Hv. eauto.
  - intros b sg' a (sg & Hsg & _)%Hv Ha. eauto.
  - intros b sg' i p (sg & Hsg & -> & ->)%Hv Hp. pose proof (si_page0 b sg i p Hsg Hp).
    assert (i < 64)%nat by (rewrite <- (si_pages0 _ _ Hsg); by eapply lookup_lt_Some).
    eapply page_ok_frame; [|by eapply si_place0|done..].
    intros a Ha. apply Hmem. eapply si_mapped0; [done|].
    by eapply page_addr_in_segment; [|apply Ha]; simpl; lia.
  - intros r live HL. destruct (si_live0 r live HL) as [p Hp]. unfold lookup_page in *.
    specialize (Hsegs r.1). destruct (mc_segs s !! r.1) as [sg|]; [|done].
    destruct (mc_segs s' !! r.1) as [sg'|]; [|done]. injection Hsegs as _ Hpg. simpl in *.
    rewrite Hpg. eauto.
  - intros b Hb. rewrite (si_registered0 b Hb). specialize (Hsegs b).
    destruct (mc_segs s' !! b), (mc_segs s !! b); naive_solver.
Qed.

End Lemmas.
