(* ===== verification/HeapOps.v ===== *)
(** * Operations on one page, seen from the whole heap

    [block s L a n]: a caller holds the [n]-byte slot at [a].  The lemmas say
    how the blocks, the invariant and the links change when the metadata of
    one page changes. *)
From S2P Require Import Prelude Config Mem Atomic SizeClass Types Os Page Registry Segment Debug Tld Arena Heap.
Import SizeClass Registry.

Definition block (s : machine) (L : live_map) (a n : Z) : Prop :=
  ∃ r live p, L !! r = Some live ∧ a ∈ live ∧ lookup_page s r = Some p ∧ n = pm_slot_size p.

(** From [s] to [s'] the blocks [new] appear, and the bytes of the others
    are kept. *)
Record grows (new : Z → Z → Prop) (s : machine) (L : live_map) (s' : machine) (L' : live_map) : Prop := {
  gr_blocks a n : block s' L' a n ↔ block s L a n ∨ new a n;
  gr_bytes a n b : block s L a n → in_range b a n → load8 (mc_mem s') b = load8 (mc_mem s) b
}.

Definition no_new : Z → Z → Prop := λ _ _, False.
Definition one_new (slot size : Z) : Z → Z → Prop := λ a n, a = slot ∧ n = size.

Definition in_segs (s : machine) (a : Z) : Prop :=
  ∃ b sg, mc_segs s !! b = Some sg ∧ in_range a b SEGMENT_SIZE.

(** What the slab side leaves alone: the large allocations, the mappings
    there are, and the bytes outside the segments. *)
Definition large_view (s : machine) :=
  (mc_larges s, g_large_list (mc_g s), g_large_lock (mc_g s),
   g_large_allocated (mc_g s), g_large_alloc_count (mc_g s)).

Section Ops.
Context `{E : Env}.

Record outside (s s' : machine) : Prop := {
  ou_mapped a : is_mapped s a → is_mapped s' a;
  ou_segs a : is_mapped s a → in_segs s' a → in_segs s a;
  ou_mem a : is_mapped s a → ¬ in_segs s a → load8 (mc_mem s') a = load8 (mc_mem s) a;
  ou_large : large_view s' = large_view s;
  ou_init : g_initialized (mc_g s') = g_initialized (mc_g s)
}.
Implicit Types (s : machine) (L : live_map) (r : page_ref).

#[global] Instance outside_preorder : PreOrder outside.
Proof.
  split.
  - by split.
  - intros s1 s2 s3 [A1 B1 C1 D1 E1] [A2 B2 C2 D2 E2]. split; [eauto..| |congruence|congruence].
    intros a Ha Hn. rewrite C2, C1; eauto.
Qed.

(** Updates of metadata only. *)
Lemma outside_meta s s' :
  (∀ b, is_Some (mc_segs s' !! b) → is_Some (mc_segs s !! b)) → mc_mapped s' = mc_mapped s →
  mc_mem s' = mc_mem s → large_view s' = large_view s →
  g_initialized (mc_g s') = g_initialized (mc_g s) → outside s s'.
Proof.
  intros Hb Hmap Hm Hl Hi. split; try done.
  - intros a. unfold is_mapped. by rewrite Hmap.
  - intros a _ (b & sg & Hsg & Ha). destruct (Hb b) as [sg' Hsg']; [eauto|]. exists b, sg'. done.
  - by rewrite Hm.
Qed.

Lemma grows_refl s L s' L' :
  (∀ r, lookup_page s' r = lookup_page s r) → mc_mem s' = mc_mem s → L' = L → grows no_new s L s' L'.
Proof.
  intros Hlk Hm ->. split; [|by rewrite Hm]. intros a n. unfold block, no_new.
  setoid_rewrite Hlk. tauto.
Qed.

Lemma grows_trans new s1 L1 s2 L2 s3 L3 :
  grows no_new s1 L1 s2 L2 → grows new s2 L2 s3 L3 → grows new s1 L1 s3 L3.
Proof.
  intros [Hb Hm] [Hb' Hm']. unfold no_new in *. split.
  - intros a n. rewrite Hb', Hb. tauto.
  - intros a n b Ha Hin. rewrite (Hm' a n b), (Hm a n b); try done. apply Hb. by left.
Qed.

Lemma grows_trans_r new s1 L1 s2 L2 s3 L3 :
  grows new s1 L1 s2 L2 → grows no_new s2 L2 s3 L3 → grows new s1 L1 s3 L3.
Proof.
  intros [Hb Hm] [Hb' Hm']. unfold no_new in *. split.
  - intros a n. rewrite Hb', Hb. tauto.
  - intros a n b Ha Hin. rewrite (Hm' a n b), (Hm a n b); try done. apply Hb. by left.
Qed.

(** ** Where blocks are *)
Lemma block_place s L a n :
  slab_inv s L → block s L a n →
  ∃ r p live, L !! r = Some live ∧ lookup_page s r = Some p ∧ a ∈ live ∧ n = pm_slot_size p ∧
    pm_state p = PAGE_ACTIVE ∧ segment_place r.1 ∧ (0 < r.2 < 64)%nat ∧
    a ∈ touched p ∧ page_addr r.1 (Z.of_nat r.2) ≤ a ∧
    a + n ≤ page_addr r.1 (Z.of_nat r.2) + PAGE_SIZE_ALLOC ∧ 16 ≤ n ∧ (16 | a) ∧ 0 < a.
Proof.
  intros Hs (r & live & p & HL & Ha & Hp & ->). exists r, p, live.
  destruct (slab_live s L r live Hs HL) as (p2 & Hp2 & Hst). simplify_eq.
  destruct (slab_active s L r p Hs Hp Hst)
    as (sg & live2 & Hsg & Hpl & Hlt & Hseg & Hix & HL2 & (_ & _ & _ & _ & _ & lf & rf & Hi)).
  simplify_eq. pose proof (pi_geometry _ _ _ _ _ Hi) as Hg.
  assert (a ∈ touched p) as Ht by (apply (page_inv_touched _ _ _ _ _ Hi); set_solver).
  pose proof (touched_in_page p Hg a Ht). destruct (touched_addr p Hg a Ht) as [[? ?] ?].
  rewrite <- (slab_page_start s L r p) by done. pose proof (pg_slot p Hg).
  split_and!; try done; lia.
Qed.

Lemma block_bounds s L a n : slab_inv s L → block s L a n → 0 < a ∧ 16 ≤ n ∧ (16 | a).
Proof.
  intros Hs Hbl. destruct (block_place s L a n Hs Hbl)
    as (_ & _ & _ & _ & _ & _ & _ & _ & _ & _ & _ & _ & _ & ? & ? & ?). done.
Qed.

(** The page of an address is unique. *)
Lemma page_addr_unique r r' a :
  segment_place r.1 → segment_place r'.1 → (r.2 < 64)%nat → (r'.2 < 64)%nat →
  in_range a (page_addr r.1 (Z.of_nat r.2)) PAGE_SIZE_ALLOC →
  in_range a (page_addr r'.1 (Z.of_nat r'.2)) PAGE_SIZE_ALLOC → r = r'.
Proof.
  intros Hp Hp' Hlt Hlt' Ha Ha'. destruct (decide (r = r')) as [|Hne]; [done|exfalso].
  destruct (page_addr_disjoint r.1 r'.1 (Z.of_nat r.2) (Z.of_nat r'.2)); unfold in_range in *; try lia; try done.
  intros [= ? ?]. apply Hne. destruct r, r'; simpl in *. f_equal; [done|lia].
Qed.

Lemma live_in_page s L r live a :
  slab_inv s L → L !! r = Some live → a ∈ live →
  segment_place r.1 ∧ (r.2 < 64)%nat ∧ in_range a (page_addr r.1 (Z.of_nat r.2)) PAGE_SIZE_ALLOC.
Proof.
  intros Hs HL Ha. destruct (slab_live s L r live Hs HL) as (p & Hp & Hst).
  destruct (slab_active s L r p Hs Hp Hst)
    as (sg & live2 & _ & Hpl & Hlt & _ & _ & HL2 & (_ & _ & _ & _ & _ & lf & rf & Hi)).
  simplify_eq. pose proof (touched_in_page p ltac:(apply Hi) a) as Hin.
  destruct Hin; [apply (page_inv_touched _ _ _ _ _ Hi); set_solver|].
  rewrite (slab_page_start s L r p Hs Hp) in *. pose proof (pg_slot p ltac:(apply Hi)).
  split_and!; [done|lia|unfold in_range; lia].
Qed.

(** Distinct blocks do not overlap. *)
Lemma block_disjoint s L a n a' n' :
  slab_inv s L → block s L a n → block s L a' n' → a ≠ a' → disjoint_ranges a n a' n'.
Proof.
  intros Hs H1 H2 Hne.
  destruct (block_place s L a n Hs H1) as (r & p & live & HL & Hp & Ha & -> & Hst & Hpl & Hlt & Ht & Hlo & Hhi & _).
  destruct (block_place s L a' n' Hs H2) as (r' & p' & live' & HL' & Hp' & Ha' & -> & _ & Hpl' & Hlt' & Ht' & Hlo' & Hhi' & _).
  destruct (decide (r = r')) as [->|Hr].
  - assert (p' = p) as -> by congruence. destruct (slab_active s L r' p Hs Hp Hst)
      as (sg & live2 & _ & _ & _ & _ & _ & _ & (_ & _ & _ & _ & _ & lf & rf & Hi)).
    destruct (touched_sep p ltac:(apply Hi) a a' Ht Ht' Hne); [by left|by right].
  - destruct (page_addr_disjoint r.1 r'.1 (Z.of_nat r.2) (Z.of_nat r'.2)); try done; [lia..| | |].
    + intros [= ? ?]. apply Hr. destruct r, r'; simpl in *. f_equal; [done|lia].
    + left. lia.
    + right. lia.
Qed.

(** Pointer classification finds the page of every address in it. *)
Lemma ptr_to_page_in s L r p a :
  slab_inv s L → lookup_page s r = Some p →
  in_range a (page_addr r.1 (Z.of_nat r.2)) PAGE_SIZE_ALLOC →
  ptr_to_segment s a = r.1 ∧ ptr_to_page s a = Some r.
Proof.
  intros Hs Hp Ha. destruct (slab_page s L r p Hs Hp) as (sg & Hsg & Hpl & Hlt & _).
  assert (in_range a r.1 SEGMENT_SIZE) as Hin by (eapply page_addr_in_segment; [|done]; lia).
  assert (ptr_to_segment s a = r.1) as Hseg.
  { unfold ptr_to_segment. rewrite (segment_base r.1 a) by done.
    destruct (segment_is_registered _ _) eqn:Hreg; [done|]. exfalso.
    destruct Hpl as (? & _). revert Hreg. apply not_false_iff_true.
    apply segment_is_registered_iff; [apply Hs|lia|]. apply Hs; [lia|eauto]. }
  split; [done|]. unfold ptr_to_page. rewrite Hseg. destruct Hpl as (? & _).
  destruct (Z.eqb_spec r.1 0); [lia|]. unfold in_range, page_addr in Ha. config.
  assert ((a - r.1) / 65536 = Z.of_nat r.2) as -> by (Z.div_mod_to_equations; lia).
  rewrite u16_small by lia. destruct (Z.leb_spec 64 (Z.of_nat r.2)); [lia|].
  rewrite Nat2Z.id. by destruct r.
Qed.

(** The bytes of a block are mapped. *)
Lemma block_mapped s L a n b : slab_inv s L → block s L a n → in_range b a n → is_mapped s b.
Proof.
  intros Hs Hbl Hin. destruct (block_place s L a n Hs Hbl)
    as (r & q & live & _ & Hq & _ & _ & _ & _ & Hlt & _ & Hlo & Hhi & _).
  destruct (slab_page s L r q Hs Hq) as (sg & Hsg & _ & _ & _).
  eapply si_mapped; [done..|]. eapply (page_addr_in_segment _ (Z.of_nat r.2)); [lia|].
  unfold in_range in *. lia.
Qed.

(** ** Shapes of the record updates *)
Lemma upd_page_shape s r f :
  (∀ p, lookup_page s r = Some p →
    pm_next (f p) = pm_next p ∧ pm_state (f p) = pm_state p ∧ pm_bin_idx (f p) = pm_bin_idx p ∧
    pm_arena (f p) = pm_arena p ∧ pm_owner_tid (f p) = pm_owner_tid p) →
  same_shape s (upd_page r f s).
Proof.
  intros Hf. split; try done.
  - intros r'. unfold page_link. destruct (decide (r = r')) as [<-|Hne].
    + rewrite lookup_upd_page_eq. destruct (lookup_page s r) as [p|] eqn:Hp; [|done]. simpl.
      destruct (Hf p eq_refl) as (-> & -> & -> & -> & ->). done.
    + by rewrite lookup_upd_page_ne.
  - intros b. unfold seg_link, upd_page, upd_seg. simpl. rewrite lookup_alter.
    destruct (decide _) as [->|]; [|done]. by destruct (mc_segs s !! b).
Qed.

Lemma upd_arena_shape s i f :
  (∀ a, ar_bins (f a) = ar_bins a ∧ ar_segments (f a) = ar_segments a) →
  same_shape s (upd_arena i f s).
Proof.
  intros Hf. split; try done.
  - intros j. unfold arena_link, upd_arena. simpl. rewrite list_lookup_alter.
    destruct (decide _) as [->|]; [|done]. destruct (g_arenas (mc_g s) !! j) as [a|]; [|done].
    simpl. by destruct (Hf a) as [-> ->].
  - unfold upd_arena. simpl. by rewrite length_alter.
Qed.

Lemma upd_tld_shape s tld f :
  (∀ t, td_arena (f t) = td_arena t ∧ td_thread_id (f t) = td_thread_id t ∧
    td_bin_page (f t) = td_bin_page t) →
  same_shape s (upd_tld tld f s).
Proof.
  intros Hf. split; try done. intros a. unfold tld_link, upd_tld. simpl. rewrite lookup_alter.
  destruct (decide _) as [->|]; [|done]. destruct (mc_tlds s !! a) as [t|]; [|done]. simpl.
  by destruct (Hf t) as (-> & -> & ->).
Qed.

Lemma set_mem_shape s m : same_shape s (s <| mc_mem := m |>).
Proof. by split. Qed.

(** Updates of one arena's counters keep the mutexes. *)
Lemma locks_upd_arena s i f : (∀ a, ar_lock (f a) = ar_lock a) → locks (upd_arena i f s) = locks s.
Proof.
  intros Hf. unfold locks, upd_arena. simpl. apply list_eq. intros j.
  rewrite !list_lookup_fmap, list_lookup_alter. destruct (decide _) as [->|]; [|done].
  destruct (g_arenas (mc_g s) !! j); simpl; [|done]. by rewrite Hf.
Qed.

(** Segment fields other than the arena and the pages. *)
Lemma upd_seg_view s b f c :
  (∀ sg, sg_arena (f sg) = sg_arena sg ∧ sg_pages (f sg) = sg_pages sg) →
  seg_view <$> mc_segs (upd_seg b f s) !! c = seg_view <$> mc_segs s !! c.
Proof.
  intros Hf. unfold upd_seg. simpl. rewrite lookup_alter. destruct (decide _) as [->|]; [|done].
  destruct (mc_segs s !! c) as [sg|]; [|done]. simpl. unfold seg_view. by destruct (Hf sg) as [-> ->].
Qed.

Lemma upd_seg_link s b f c :
  (∀ sg, sg_next (f sg) = sg_next sg ∧ sg_arena (f sg) = sg_arena sg) →
  seg_link (upd_seg b f s) c = seg_link s c.
Proof.
  intros Hf. unfold seg_link, upd_seg. simpl. rewrite lookup_alter. destruct (decide _) as [->|]; [|done].
  destruct (mc_segs s !! c) as [sg|]; [|done]. simpl. by destruct (Hf sg) as [-> ->].
Qed.

(** An update through the pointer only sees the page that is there. *)
Lemma upd_page_const s r p f :
  lookup_page s r = Some p → upd_page r f s = upd_page r (λ _, f p) s.
Proof.
  destruct r as [b i]. intros (sg & Hsg & Hp)%lookup_page_Some.
  unfold upd_page, upd_seg. simpl. f_equal. apply alter_ext. intros sg2 Hsg2.
  assert (sg2 = sg) as -> by congruence. f_equal. apply list_alter_ext; [|done]. congruence.
Qed.

Lemma upd_page_segs_upd s r p' : segs_upd r p' s (upd_page r (λ _, p') s).
Proof.
  intros b. unfold upd_page, upd_seg. simpl. rewrite lookup_alter.
  destruct (decide (r.1 = b)) as [->|Hne].
  - destruct (mc_segs s !! b) as [sg|]; [|done]. simpl. rewrite decide_True by done.
    unfold seg_view. simpl. repeat f_equal. apply list_eq. intros i.
    destruct (decide (r.2 = i)) as [<-|]; [|by rewrite list_lookup_alter_ne, list_lookup_insert_ne].
    rewrite list_lookup_alter_eq. destruct (sg_pages sg !! r.2) eqn:Hi; simpl.
    + rewrite list_lookup_insert_eq; [done|]. by eapply lookup_lt_Some.
    + symmetry. apply lookup_ge_None. rewrite length_insert. by apply lookup_ge_None.
  - destruct (mc_segs s !! b); simpl; [|done]. by rewrite decide_False by congruence.
Qed.

(** ** One page gets new slots lists *)

(** The fields that say which slab a page is. *)
Definition same_place (p p' : page_meta_t) : Prop :=
  pm_arena p' = pm_arena p ∧ pm_segment p' = pm_segment p ∧ pm_bin_idx p' = pm_bin_idx p ∧
  pm_state p' = pm_state p ∧ pm_slot_size p' = pm_slot_size p ∧ pm_page_index p' = pm_page_index p.

Lemma same_slab_place p p' : same_slab p p' → same_place p p'.
Proof. unfold same_slab, same_place. naive_solver. Qed.

(** [active_ok] moves along [same_place]. *)
Lemma active_ok_slab m m' ar p p' live live' lf' rf' :
  active_ok m ar p live → same_place p p' → (malloc_debug = true → bitmap_ok p' live') →
  page_inv m' p' lf' rf' live' → active_ok m' ar p' live'.
Proof.
  intros (Har & Hbin & Hsz & Hslot & _ & _) (E1 & _ & E2 & _ & E3 & _) Hb Hi.
  unfold active_ok. rewrite E1, E2, E3. eauto 10.
Qed.

Section SlotStep.
Context (s s' : machine) (L : live_map) (r : page_ref) (p p' : page_meta_t).
Context (live live' lf' rf' : list Z) (l : list Z).
Context (Hs : slab_inv s L) (Hp : lookup_page s r = Some p) (Hst : pm_state p = PAGE_ACTIVE).
Context (HL : L !! r = Some live) (Hss : same_place p p').
Context (Hi : page_inv (mc_mem s') p' lf' rf' live').
Context (Hb : malloc_debug = true → bitmap_ok p' live').
Context (Hsegs : mc_segs s' = mc_segs (upd_page r (λ _, p') s)).
Context (Hw : same_world s s') (Hby : bytes (mc_mem s')).
Context (Hfr : mem_frame l (mc_mem s) (mc_mem s')) (Hl : ∀ a, a ∈ l → a ∈ touched p).

Lemma slot_step_upd : segs_upd r p' s s'.
Proof. intros b. rewrite Hsegs. apply upd_page_segs_upd. Qed.

(** Bytes outside the page do not change. *)
Lemma slot_step_outside b :
  ¬ in_range b (page_addr r.1 (Z.of_nat r.2)) PAGE_SIZE_ALLOC →
  load8 (mc_mem s') b = load8 (mc_mem s) b.
Proof.
  intros Hout. apply Hfr. intros a Ha%Hl.
  destruct (slab_active s L r p Hs Hp Hst)
    as (sg & live2 & _ & _ & _ & _ & _ & _ & (_ & _ & _ & _ & _ & lf & rf & Hi0)).
  pose proof (touched_in_page p ltac:(apply Hi0) a Ha).
  rewrite (slab_page_start s L r p Hs Hp) in *. pose proof (pg_slot p ltac:(apply Hi0)).
  unfold in_range in Hout. lia.
Qed.

Lemma slot_step_inv : slab_inv s' (<[r := live']> L).
Proof.
  destruct (slab_active s L r p Hs Hp Hst)
    as (sg & live2 & Hsg & Hpl & Hlt & Hseg & Hix & HL2 & Hok).
  eapply slab_inv_step; [exact Hs|eauto|apply slot_step_upd|done|done|apply slot_step_outside| |].
  - intros r' Hne. by rewrite lookup_insert_ne.
  - intros sg2 Hsg2. simplify_eq. pose proof Hss as (_ & E1 & _ & E2 & _ & E3).
    split_and!; [by rewrite E1|by rewrite E3|]. rewrite E2, Hst. split; [lia|].
    exists live'. rewrite lookup_insert_eq. split; [done|]. by eapply active_ok_slab.
Qed.

Lemma slot_step_outside_segs a : ¬ in_segs s a → load8 (mc_mem s') a = load8 (mc_mem s) a.
Proof.
  intros Hn. apply slot_step_outside. intros Ha. apply Hn.
  destruct (slab_page s L r p Hs Hp) as (sg & Hsg & _ & Hlt & _). exists r.1, sg. split; [done|].
  eapply page_addr_in_segment; [|done]. lia.
Qed.

Lemma slot_step_blocks a n :
  block s' (<[r := live']> L) a n ↔ (block s L a n ∧ a ∉ live) ∨ (a ∈ live' ∧ n = pm_slot_size p).
Proof.
  assert (∀ r', lookup_page s' r' = if decide (r' = r) then Some p' else lookup_page s r') as Hlk.
  { intros r'. apply segs_upd_lookup; [apply slot_step_upd|eauto]. }
  pose proof Hss as (_ & _ & _ & _ & Esz & _). split.
  - intros (r2 & live2 & p2 & HL2 & Ha & Hp2 & ->). rewrite Hlk in Hp2.
    destruct (decide (r2 = r)) as [->|Hne].
    + rewrite lookup_insert_eq in HL2. simplify_eq. right. by rewrite Esz.
    + rewrite lookup_insert_ne in HL2 by done. left.
      assert (block s L a (pm_slot_size p2)) as Hbl by (exists r2, live2, p2; done). split; [done|].
      intros Ha1.
      destruct (live_in_page s L r2 live2 a) as (? & ? & ?); try done.
      destruct (live_in_page s L r live a) as (? & ? & ?); try done.
      apply Hne. by apply (page_addr_unique r2 r a).
  - intros [[(r2 & live2 & p2 & HL2 & Ha & Hp2 & ->) Hnin]|[Ha ->]].
    + assert (r2 ≠ r) as Hne by (intros ->; congruence).
      exists r2, live2, p2. rewrite Hlk, decide_False, lookup_insert_ne by done. done.
    + exists r, live', p'. rewrite Hlk, decide_True, lookup_insert_eq by done. by rewrite Esz.
Qed.

Lemma slot_step_bytes a n b :
  block s L a n → a ∉ l → in_range b a n → load8 (mc_mem s') b = load8 (mc_mem s) b.
Proof.
  intros Hbl Hnin Hbr. apply Hfr. intros c Hc.
  destruct (block_place s L a n Hs Hbl)
    as (r2 & p2 & live2 & HL2 & Hp2 & Ha & -> & _ & Hpl2 & Hlt2 & Ht2 & Hlo & Hhi & _).
  destruct (slab_active s L r p Hs Hp Hst)
    as (_ & ? & _ & Hpl & Hlt & _ & _ & ? & (_ & _ & _ & _ & _ & lf & rf & Hi5)). simplify_eq.
  pose proof (pg_slot p ltac:(apply Hi5)). pose proof (Hl c Hc) as Htc. unfold in_range in Hbr.
  destruct (decide (r2 = r)) as [->|Hne].
  - assert (p2 = p) as -> by congruence. assert (a ≠ c) by congruence.
    destruct (touched_sep p ltac:(apply Hi5) a c); try done; lia.
  - pose proof (touched_in_page p ltac:(apply Hi5) c Htc) as Hin.
    rewrite (slab_page_start s L r p Hs Hp) in Hin.
    destruct (page_addr_disjoint r2.1 r.1 (Z.of_nat r2.2) (Z.of_nat r.2)); try done; try lia.
    intros [= ? ?]. apply Hne. destruct r2, r; simpl in *. f_equal; [done|lia].
Qed.

Lemma slot_step_outside_all :
  large_view s' = large_view s → g_initialized (mc_g s') = g_initialized (mc_g s) → outside s s'.
Proof.
  intros Hlv Hin. split; [apply Hw| | |done|done].
  - intros x _ (b & sg' & Hsg' & Hx). destruct (segs_upd_Some _ _ _ _ _ _ slot_step_upd Hsg') as (sg & Hsg & _).
    by exists b, sg.
  - intros x _ Hx. by apply slot_step_outside_segs.
Qed.

(** The slots that were live and still are keep their bytes; [new] appear. *)
Lemma slot_step_grows new :
  (∀ a, a ∈ live → a ∉ l) →
  (∀ a n, (a ∈ live' ∧ n = pm_slot_size p) ↔ (a ∈ live ∧ n = pm_slot_size p) ∨ new a n) →
  grows new s L s' (<[r := live']> L).
Proof.
  intros Hfree Hnew. split.
  - intros a n. rewrite slot_step_blocks, Hnew. split.
    + intros [[? _]|[[Ha ->]|?]]; [by left|left|by right]. by exists r, live, p.
    + intros [Hbl|?]; [|by right; right]. destruct (decide (a ∈ live)) as [Ha|Ha]; [right; left|by left].
      split; [done|]. destruct Hbl as (r2 & live2 & q & HL2 & Ha2 & Hq & ->).
      destruct (live_in_page s L r2 live2 a) as (? & ? & ?); try done.
      destruct (live_in_page s L r live a) as (? & ? & ?); try done.
      assert (r2 = r) as -> by (by apply (page_addr_unique r2 r a)). congruence.
  - intros a n b Hbl Hb2. eapply slot_step_bytes; [done| |done]. intros Hal.
    destruct Hbl as (r2 & live2 & q & HL2 & Ha2 & Hq & ->).
    destruct (live_in_page s L r2 live2 a) as (? & ? & ?); try done.
    destruct (slab_active s L r p Hs Hp Hst)
      as (sg & live3 & _ & Hpl & Hlt & _ & _ & HL3 & (_ & _ & _ & _ & _ & lf & rf & Hi3)).
    assert (r2 = r) as ->; [|apply (Hfree a); congruence].
    apply (page_addr_unique r2 r a); try done; [lia|].
    pose proof (touched_in_page p ltac:(apply Hi3) a (Hl a Hal)).
    rewrite (slab_page_start s L r p Hs Hp) in *. pose proof (pg_slot p ltac:(apply Hi3)).
    unfold in_range. lia.
Qed.

End SlotStep.

Lemma page_inv_bitmap m p lf rf live b :
  page_inv m p lf rf live → page_inv m (p <| pm_debug_bitmap := b |>) lf rf live.
Proof. intros []. split; try done. by eapply page_geometry_ext; [..|done]. Qed.

Lemma bitmap_ok_ext p p' live :
  pm_debug_bitmap p' = pm_debug_bitmap p → pm_segment p' = pm_segment p →
  pm_page_index p' = pm_page_index p → pm_slot_size p' = pm_slot_size p →
  bitmap_ok p live → bitmap_ok p' live.
Proof.
  intros E1 E2 E3 E4 [Hb Hk]. split; [by rewrite E1|]. intros k Hk0. rewrite E1, (Hk k Hk0).
  unfold slot_addr, page_start. by rewrite E2, E3, E4.
Qed.

(** Updates of the list links and the owner keep the slots. *)
Lemma page_inv_links m p p' lf rf live :
  p' = p <| pm_next := pm_next p' |> <| pm_prev := pm_prev p' |> <| pm_owner_tid := pm_owner_tid p' |> →
  page_inv m p lf rf live → page_inv m p' lf rf live.
Proof. intros ->. intros []. split; try done. by eapply page_geometry_ext; [..|done]. Qed.

(** The parts of a step that keeps the blocks. *)
Lemma relink_step s L r p p' :
  slab_inv s L → lookup_page s r = Some p → pm_state p = PAGE_ACTIVE →
  p' = p <| pm_next := pm_next p' |> <| pm_prev := pm_prev p' |> <| pm_owner_tid := pm_owner_tid p' |> →
  let s' := upd_page r (λ _, p') s in
  slab_inv s' L ∧ grows no_new s L s' L ∧ outside s s'.
Proof.
  intros Hs Hp Hst Heq s'. destruct (slab_active s L r p Hs Hp Hst)
    as (sg & live & _ & _ & _ & _ & _ & HL & (_ & _ & _ & _ & Hbm & lf & rf & Hi)).
  assert (<[r := live]> L = L) as HLL by (by apply insert_id).
  assert (same_place p p') as Hss by (rewrite Heq; done).
  assert (page_inv (mc_mem s') p' lf rf live) as Hi' by (by eapply page_inv_links).
  assert (malloc_debug = true → bitmap_ok p' live) as Hbm' by (rewrite Heq; exact Hbm).
  assert (mem_frame [] (mc_mem s) (mc_mem s')) as Hfr by done.
  assert (same_world s s') as Hw by done.
  split_and!; [rewrite <- HLL|rewrite <- HLL at 2|].
  - eapply (slot_step_inv s s' L r p p' live); try done; [apply Hs|set_solver].
  - eapply (slot_step_grows s s' L r p p' live live); try done; unfold no_new; set_solver.
  - eapply (slot_step_outside_all s s' L r p p' []); try done. set_solver.
Qed.

End Ops.
