(* ===== verification/CtlOps.v ===== *)
(** * Operations on the links: threads, arenas, mutexes *)
From S2P Require Import Prelude Config Mem Atomic SizeClass Types Os Page Registry Segment Debug Tld Arena Large Slab Heap HeapOps.
Import SizeClass Registry.

Section Ctl.
Context `{E : Env}.
Implicit Types (s : machine) (L : live_map) (r : page_ref).

(** A step that touches neither pages nor blocks, and no mutex. *)
Record calm (s : machine) (L : live_map) (s' : machine) : Prop := {
  ca_slab : slab_inv s' L;
  ca_ctl : ctl_inv s';
  ca_locks : locks s' = locks s;
  ca_segs : mc_segs s' = mc_segs s;
  ca_registry : g_segment_registry (mc_g s') = g_segment_registry (mc_g s);
  ca_grows : grows no_new s L s' L;
  ca_outside : outside s s'
}.

Lemma calm_refl s L : slab_inv s L → ctl_inv s → calm s L s.
Proof. intros. split; try done. by apply grows_refl. Qed.

Lemma calm_trans s1 s2 s3 L : calm s1 L s2 → calm s2 L s3 → calm s1 L s3.
Proof.
  intros [] []. split; try done; [congruence..| |]; [by eapply grows_trans|by etrans].
Qed.

(** Updates of links and counters only. *)
Lemma calm_ctl s L s' :
  slab_inv s L → ctl_inv s' → locks s' = locks s → mc_segs s' = mc_segs s →
  mc_mem s' = mc_mem s → mc_mapped s' = mc_mapped s → g_tables (mc_g s') = g_tables (mc_g s) →
  g_segment_registry (mc_g s') = g_segment_registry (mc_g s) →
  large_view s' = large_view s → g_initialized (mc_g s') = g_initialized (mc_g s) → calm s L s'.
Proof.
  intros Hs Hc Hlk Hsegs Hm Hmap Ht Hr Hlv Hin. split; try done.
  - eapply slab_inv_same; [done|by rewrite Hsegs| |by rewrite Hm; apply Hs|by rewrite Hm].
    split; [done..|]. intros a. unfold is_mapped. by rewrite Hmap.
  - apply grows_refl; [|done..]. intros r. unfold lookup_page. by rewrite Hsegs.
  - apply outside_meta; try done. by rewrite Hsegs.
Qed.

Lemma locks_lock s i a :
  g_arenas (mc_g s) !! i = Some a → ar_lock a = false →
  lock_arena i s = Ok (upd_arena i (λ a, a <| ar_lock := true |>) s).
Proof. intros Ha Hl. unfold lock_arena. by rewrite Ha; simpl; rewrite Hl. Qed.

Lemma locks_set s i b : locks (upd_arena i (λ a, a <| ar_lock := b |>) s) = <[i := b]> (locks s).
Proof.
  unfold locks, upd_arena. simpl. apply list_eq. intros j.
  rewrite list_lookup_fmap, list_lookup_alter. destruct (decide (i = j)) as [->|].
  - rewrite list_lookup_insert, list_lookup_fmap. destruct (g_arenas (mc_g s) !! j) eqn:Hj; simpl.
    + rewrite decide_True; [done|]. split; [done|]. rewrite length_fmap. by eapply lookup_lt_Some.
    + rewrite decide_False; [done|]. intros [_ Hlt]. rewrite length_fmap in Hlt.
      apply lookup_ge_None in Hj. lia.
  - by rewrite list_lookup_insert_ne, list_lookup_fmap.
Qed.

Lemma calm_init s L s' : calm s L s' → malloc_is_initialized s' = malloc_is_initialized s.
Proof. intros H. unfold malloc_is_initialized. by rewrite (ou_init _ _ (ca_outside _ _ _ H)). Qed.

(** ** Threads *)
Lemma tld_link_upd s tld f a :
  tld_link (upd_tld tld f s) a =
    if decide (a = tld) then (λ t, (td_arena (f t), td_thread_id (f t), td_bin_page (f t))) <$> mc_tlds s !! a
    else tld_link s a.
Proof.
  unfold tld_link, upd_tld. simpl. rewrite lookup_alter.
  destruct (decide (tld = a)) as [->|]; [rewrite decide_True by done|by rewrite decide_False by congruence].
  by destruct (mc_tlds s !! a).
Qed.

Lemma ctl_inv_upd_tld s tld f t :
  ctl_inv s → mc_tlds s !! tld = Some t → td_thread_id (f t) = td_thread_id t →
  tld_inv s (td_arena (f t)) (td_thread_id (f t)) (td_bin_page (f t)) →
  ctl_inv (upd_tld tld f s).
Proof.
  intros [H1 H2 H3 H4 H5 H6 Hid H7 H8 H9] Ht Hf Hti. split; try done.
  - intros i bins segs Ha. destruct (H3 i bins segs Ha). split; eauto.
  - intros a arena id cache. rewrite tld_link_upd. destruct (decide (a = tld)) as [->|].
    + rewrite Ht. intros [= <- <- <-]. by destruct Hti.
    + intros Ha. by destruct (H6 a arena id cache Ha).
  - assert (∀ a arena id cache, tld_link (upd_tld tld f s) a = Some (arena, id, cache) →
      ∃ arena0 cache0, tld_link s a = Some (arena0, id, cache0)) as Hlk.
    { intros a arena id cache. rewrite tld_link_upd. destruct (decide (a = tld)) as [->|]; [|eauto].
      rewrite Ht. intros [= _ <- _]. unfold tld_link. rewrite Ht. simpl. rewrite Hf. eauto. }
    intros a a' ar ar' id ca ca' (? & ? & Ha)%Hlk (? & ? & Ha')%Hlk. by eapply Hid.
  - intros tid a Ha. destruct (H7 tid a Ha) as [? Hlk]. split; [done|].
    rewrite tld_link_upd. destruct (decide (a = tld)) as [->|]; [|done]. rewrite Ht. eauto.
Qed.

Lemma tld_inv_of s a t :
  ctl_inv s → mc_tlds s !! a = Some t → tld_inv s (td_arena t) (td_thread_id t) (td_bin_page t).
Proof. intros Hc Ha. apply (ci_tld _ Hc a). unfold tld_link. by rewrite Ha. Qed.

(** Dropping an entry of the cache. *)
Lemma ctl_inv_drop_cache s tld t bin :
  ctl_inv s → mc_tlds s !! tld = Some t →
  ctl_inv (upd_tld tld (λ t, t <| td_bin_page ::= <[bin := None]> |>) s).
Proof.
  intros Hc Ht. apply (ctl_inv_upd_tld s tld _ t Hc Ht); [done|].
  destruct (tld_inv_of s tld t Hc Ht). split; simpl; try done.
  - by rewrite length_insert.
  - intros b r. rewrite list_lookup_insert_Some. intros [(_ & [=] & _)|[_ Hb]]. by apply ti_cached.
Qed.

Lemma os_mmap_aligned_bytes size al s :
  bytes (mc_mem s) → bytes (mc_mem (os_mmap_aligned size al s).2).
Proof.
  assert (∀ lo len, bytes (mc_mem s) → bytes (zero_range (mc_mem s) lo len)) as Hz.
  { intros lo len Hb a. rewrite load8_zero_range. destruct (decide _); [lia|apply Hb]. }
  intros Hb. unfold os_mmap_aligned, sys_mmap.
  destruct (al <=? getpagesize); destruct (mmap_choose _ _); simpl; auto.
  repeat (destruct (_ <? _); simpl; auto).
Qed.

Section Laws.
Context {EL : EnvLaws E}.

Lemma mapped_fresh_calm size p s s' L :
  slab_inv s L → ctl_inv s → mapped_fresh size p s s' → bytes (mc_mem s') → calm s L s'.
Proof.
  intros Hs Hc (_ & _ & Hmap & _ & _ & Hold & Heq) Hby.
  assert (same_shape s s') as Hsh.
  { split; intros; rewrite Heq; done. }
  split.
  - eapply slab_inv_same; [done|by rewrite Heq| |done|done]. split; [by rewrite Heq..|].
    intros a Ha. apply Hmap. by left.
  - by rewrite <- Hsh.
  - by rewrite Heq.
  - by rewrite Heq.
  - by rewrite Heq.
  - split.
    + intros a n. unfold block, no_new. rewrite Heq. unfold lookup_page. simpl. tauto.
    + intros a n b Hbl Hin. apply Hold. by eapply block_mapped.
  - split; [|by rewrite Heq|by auto|by rewrite Heq..]. intros a Ha. apply Hmap. by left.
Qed.

(** A new thread. *)
Lemma ctl_inv_new_tld s tid tld :
  ctl_inv s → tld ≠ 0 → mc_thread_id_counter s < UINT32_MAX →
  ctl_inv (s <| mc_tlds ::= <[tld := fresh_tld (mc_thread_id_counter s)]> |>
             <| mc_thread_id_counter ::= λ c, u32 (c + 1) |>
             <| mc_specific ::= <[tid := tld]> |>).
Proof.
  intros [H1 H2 H3 H4 H5 H6 Hid H7 H8 H9] H0 Hlt. set (s' := s <| mc_tlds ::= _ |> <| _ ::= _ |> <| _ ::= _ |>).
  assert (mc_thread_id_counter s' = mc_thread_id_counter s + 1) as Hcnt.
  { simpl. apply u32_small. unfold UINT32_MAX in *. lia. }
  assert (∀ a, tld_link s' a = if decide (a = tld) then
      Some (None, mc_thread_id_counter s, replicate 75 None) else tld_link s a) as Hlk.
  { intros a. unfold tld_link. simpl. rewrite lookup_insert.
    destruct (decide (tld = a)) as [->|]; [by rewrite decide_True|by rewrite decide_False by congruence]. }
  split; try done.
  - intros i bins segs Ha. destruct (H3 i bins segs Ha). split; eauto.
  - rewrite Hcnt. lia.
  - intros a arena id cache. rewrite Hlk. destruct (decide (a = tld)) as [->|].
    + intros Heq. assert (arena = None ∧ id = mc_thread_id_counter s ∧ cache = replicate 75 None)
        as (-> & -> & ->) by (split_and!; congruence). split; try done; [lia| |].
      * intros bin r. by intros [? _]%lookup_replicate_1.
      * intros r n b ar Hl. apply H8 in Hl. lia.
    + intros Ha. destruct (H6 a arena id cache Ha). split; try done. lia.
  - intros a a' ar ar' id ca ca'. rewrite !Hlk.
    destruct (decide (a = tld)) as [->|], (decide (a' = tld)) as [->|]; [done| | |by eapply Hid].
    + intros H1' H2'. assert (id = mc_thread_id_counter s) as -> by congruence.
      destruct (H6 _ _ _ _ H2'). lia.
    + intros H1' H2'. assert (id = mc_thread_id_counter s) as -> by congruence.
      destruct (H6 _ _ _ _ H1'). lia.
  - intros tid' a. simpl. rewrite lookup_insert_Some. rewrite Hlk.
    intros [[<- <-]|[_ Ha]]; [by rewrite decide_True|].
    destruct (H7 tid' a Ha). split; [done|]. destruct (decide _); eauto.
  - intros r n b a o Hl. destruct (H8 r n b a o Hl); [by left|right]. lia.
Qed.

Lemma tld_get_calm tid s L tld s' :
  slab_inv s L → ctl_inv s → malloc_is_initialized s = true →
  mc_thread_id_counter s < UINT32_MAX → tld_get tid s = (tld, s') →
  calm s L s' ∧
  g_arena_next (mc_g s') = g_arena_next (mc_g s) ∧
  mc_thread_id_counter s' ≤ mc_thread_id_counter s + 1 ∧
  ((tld = 0 ∧ s' = s) ∨
   (tld ≠ 0 ∧ mc_specific s' !! tid = Some tld ∧ is_Some (mc_tlds s' !! tld))).
Proof.
  intros Hs Hc Hinit Hcnt. unfold tld_get. rewrite Hinit. cbn [negb].
  destruct (mc_specific s !! tid) as [a|] eqn:Hsp.
  { intros [= <- <-]. destruct (ci_specific _ Hc _ _ Hsp) as [H0 Hl]. split; [by apply calm_refl|].
    split; [done|]. split; [lia|]. right. split_and!; [done..|]. unfold tld_link in Hl.
    destruct (mc_tlds s !! a); [eauto|]. by destruct Hl. }
  pose proof (os_mmap_aligned_bytes os_page_size os_page_size s (si_bytes _ _ Hs)) as Hby.
  destruct (os_mmap_aligned os_page_size os_page_size s) as [p s1] eqn:Hmap. simpl in Hby.
  destruct getpagesize_pow2 as (k & Hk & Hps). unfold os_page_size in *. rewrite Hps in Hmap.
  assert (0 < 2 ^ k ≤ 65536).
  { split; [apply Z.pow_pos_nonneg; lia|]. change 65536 with (2 ^ 16). apply Z.pow_le_mono_r; lia. }
  apply os_mmap_aligned_run in Hmap as [(-> & -> & _)|[_ Hf]]; [| |lia|by rewrite Hps|lia|lia].
  { intros [= <- <-]. split; [by apply calm_refl|]. split; [done|]. split; [lia|by left]. }
  assert (p ≠ 0) as Hp0 by (destruct Hf; lia). destruct (Z.eqb_spec p 0); [done|].
  intros [= <- <-]. pose proof (mapped_fresh_calm _ p s s1 L Hs Hc Hf Hby) as Hcalm.
  assert (mc_thread_id_counter s1 = mc_thread_id_counter s) as Hc1.
  { destruct Hf as (_ & _ & _ & _ & _ & _ & ->). done. }
  split; [|split; [|split; [|right; split_and!; [done| |]]]].
  - eapply calm_trans; [exact Hcalm|]. apply calm_ctl; try done; [apply Hcalm|].
    apply ctl_inv_new_tld; [apply Hcalm|done|by rewrite Hc1].
  - simpl. by destruct Hf as (_ & _ & _ & _ & _ & _ & ->).
  - simpl. rewrite Hc1, u32_small; [lia|]. pose proof (ci_counter _ Hc). unfold UINT32_MAX in *. lia.
  - simpl. by rewrite lookup_insert_eq.
  - simpl. rewrite lookup_insert_eq. eauto.
Qed.

(** ** Statistics *)
Lemma stats_calm s L s' :
  slab_inv s L → ctl_inv s → same_shape s s' → locks s' = locks s → mc_segs s' = mc_segs s →
  mc_mem s' = mc_mem s → mc_mapped s' = mc_mapped s → g_tables (mc_g s') = g_tables (mc_g s) →
  g_segment_registry (mc_g s') = g_segment_registry (mc_g s) →
  large_view s' = large_view s → g_initialized (mc_g s') = g_initialized (mc_g s) → calm s L s'.
Proof. intros Hs Hc Hsh. intros. apply calm_ctl; try done. by rewrite <- Hsh. Qed.

Lemma upd_tld_calm s L tld f :
  slab_inv s L → ctl_inv s →
  (∀ t, td_arena (f t) = td_arena t ∧ td_thread_id (f t) = td_thread_id t ∧
    td_bin_page (f t) = td_bin_page t) →
  same_shape s (upd_tld tld f s) ∧ calm s L (upd_tld tld f s).
Proof.
  intros Hs Hc Hf. pose proof (upd_tld_shape s tld f Hf) as Hsh. split; [done|]. by apply stats_calm.
Qed.

Lemma upd_arena_calm s L i f :
  slab_inv s L → ctl_inv s →
  (∀ a, ar_bins (f a) = ar_bins a ∧ ar_segments (f a) = ar_segments a) →
  (∀ a, ar_lock (f a) = ar_lock a) →
  same_shape s (upd_arena i f s) ∧ calm s L (upd_arena i f s).
Proof.
  intros Hs Hc Hf Hl. pose proof (upd_arena_shape s i f Hf) as Hsh. split; [done|].
  apply stats_calm; try done. by apply locks_upd_arena.
Qed.

Lemma arena_lookup s i : ctl_inv s → (i < 4)%nat → is_Some (g_arenas (mc_g s) !! i).
Proof. intros Hc Hi. apply lookup_lt_is_Some_2. rewrite (ci_length _ Hc). lia. Qed.

(** The counters never stop an operation: the flush finds its arena. *)
Lemma tld_stat_tick_calm s L tld t :
  slab_inv s L → ctl_inv s → mc_tlds s !! tld = Some t → is_Some (td_arena t) →
  ∃ s', tld_stat_tick tld s = Ok s' ∧ same_shape s s' ∧ calm s L s'.
Proof.
  intros Hs Hc Ht [i Hi]. unfold tld_stat_tick.
  set (s1 := upd_tld tld (λ t, t <| td_stat_ops ::= λ n, u32 (n + 1) |>) s).
  destruct (upd_tld_calm s L tld (λ t, t <| td_stat_ops ::= λ n, u32 (n + 1) |>) Hs Hc)
    as [Hsh1 Hca1]; [done|]. fold s1 in Hsh1, Hca1.
  assert (mc_tlds s1 !! tld = Some (t <| td_stat_ops ::= λ n, u32 (n + 1) |>)) as Ht1.
  { unfold s1, upd_tld. simpl. by rewrite lookup_alter_eq, Ht. }
  rewrite Ht1. cbn [deref mbind res_bind]. destruct (_ <=? _); [|eauto].
  unfold tld_stat_flush. rewrite Ht1. cbn [deref mbind res_bind]. simpl td_arena. rewrite Hi.
  cbn [deref mbind res_bind]. destruct (arena_lookup s1 i) as [a Ha]; [apply Hca1| |].
  { by eapply ti_arena; [eapply tld_inv_of; [exact Hc|exact Ht]|]. }
  rewrite Ha. cbn [deref mbind res_bind].
  set (t1 := t <| td_stat_ops ::= λ n, u32 (n + 1) |>) in *.
  assert (∃ s2, (if (td_stat_allocated t1 =? 0) && (td_stat_freed t1 =? 0) && (td_stat_alloc_count t1 =? 0) &&
      (td_stat_free_count t1 =? 0) then Ok s1 else Ok (upd_arena i (flush_stats t1) s1)) = Ok s2 ∧
    same_shape s1 s2 ∧ calm s1 L s2) as (s2 & -> & Hsh2 & Hca2).
  { destruct (_ && _ && _ && _); eexists; (split; [done|]).
    - split; [done|]. apply calm_refl; apply Hca1.
    - by apply upd_arena_calm; [apply Hca1..| |]. }
  cbn [mbind res_bind]. eexists. split; [done|].
  match goal with |- context [upd_tld tld ?g _] =>
    destruct (upd_tld_calm s2 L tld g) as [Hsh3 Hca3]; [apply Hca2..|done|] end.
  split; [by do 2 (etrans; [eassumption|])|]. eapply calm_trans; [exact Hca1|]. by eapply calm_trans.
Qed.

Lemma tld_stat_add_calm s L tld t f :
  slab_inv s L → ctl_inv s → mc_tlds s !! tld = Some t → is_Some (td_arena t) →
  (∀ t, td_arena (f t) = td_arena t ∧ td_thread_id (f t) = td_thread_id t ∧
    td_bin_page (f t) = td_bin_page t) →
  ∃ s', tld_stat_tick tld (upd_tld tld f s) = Ok s' ∧ same_shape s s' ∧ calm s L s'.
Proof.
  intros Hs Hc Ht Hi Hf. destruct (upd_tld_calm s L tld f Hs Hc Hf) as [Hsh Hca].
  destruct (tld_stat_tick_calm (upd_tld tld f s) L tld (f t)) as (s' & Hrun & Hsh' & Hca').
  - apply Hca.
  - apply Hca.
  - unfold upd_tld. simpl. by rewrite lookup_alter_eq, Ht.
  - by destruct (Hf t) as (-> & _).
  - exists s'. split_and!; [done|by etrans|by eapply calm_trans].
Qed.

(** ** Assigning an arena *)
Lemma ctl_inv_next s n :
  ctl_inv s → 0 ≤ n < 2 ^ 31 → ctl_inv (upd_g (λ g, g <| g_arena_next := n |>) s).
Proof.
  intros [H1 H2 H3 H4 H5 H6 Hid H7 H8 H9] Hn. split; try done.
  - intros i bins segs Ha. destruct (H3 i bins segs Ha). split; eauto.
  - intros a arena id cache Ha. destruct (H6 a arena id cache Ha). split; eauto.
Qed.

Lemma ctl_inv_set_arena s tld t i :
  ctl_inv s → mc_tlds s !! tld = Some t → (i < 4)%nat →
  ctl_inv (upd_tld tld (λ t, t <| td_arena := Some i |>) s).
Proof.
  intros Hc Ht Hi. apply (ctl_inv_upd_tld s tld _ t Hc Ht); [done|].
  destruct (tld_inv_of s tld t Hc Ht). split; simpl; eauto.
  - by intros j [= <-].
  - intros bin r Hr. destruct (ti_cached bin r Hr). eauto.
Qed.

(** Reading the thread's data through the pointer [tld_get] returned. *)
Definition tld_read (tld : Z) (s : machine) : res (option tld_t) :=
  if tld =? 0 then Ok None else t ← deref (mc_tlds s !! tld); Ok (Some t).

Lemma tld_read_run tld s :
  (tld ≠ 0 → is_Some (mc_tlds s !! tld)) →
  ∃ o, tld_read tld s = Ok o ∧ (tld ≠ 0 → o = mc_tlds s !! tld) ∧ (tld = 0 → o = None).
Proof.
  intros H. unfold tld_read. destruct (Z.eqb_spec tld 0) as [|H0]; [by exists None|].
  destruct (H H0) as [t Ht]. rewrite Ht. exists (Some t). done.
Qed.

(** The round-robin branch of [arena_get]. *)
Lemma assign_arena tld s L :
  slab_inv s L → ctl_inv s → g_arena_next (mc_g s) + 1 < 2 ^ 31 →
  (tld ≠ 0 → is_Some (mc_tlds s !! tld)) →
  let idx := Z.rem (g_arena_next (mc_g s)) 4 in
  let s1 := upd_g (λ g, g <| g_arena_next ::= λ n, s32 (n + 1) |>) s in
  let s2 := upd_arena (Z.to_nat idx) (λ a, a <| ar_thread_count ::= λ n, s32 (n + 1) |>) s1 in
  let s3 := if tld =? 0 then s2 else upd_tld tld (λ t, t <| td_arena := Some (Z.to_nat idx) |>) s2 in
  0 ≤ idx < 4 ∧ is_Some (g_arenas (mc_g s1) !! Z.to_nat idx) ∧ calm s L s3 ∧
  (tld ≠ 0 → ∃ t, mc_tlds s3 !! tld = Some t ∧ is_Some (td_arena t)).
Proof.
  intros Hs Hc Hnext Htld idx s1 s2 s3. destruct (ci_next _ Hc) as [Hlo Hhi].
  assert (0 ≤ idx < 4) as Hidx by (apply Z.rem_bound_pos; lia).
  assert (s1 = upd_g (λ g, g <| g_arena_next := g_arena_next (mc_g s) + 1 |>) s) as Hs1.
  { unfold s1, upd_g. simpl. unfold s32. rewrite Z.mod_small by lia. repeat f_equal. lia. }
  assert (calm s L s1) as Hca1.
  { rewrite Hs1. apply calm_ctl; try done. apply ctl_inv_next; [done|lia]. }
  assert (mc_tlds s1 = mc_tlds s) as Ht1 by done. clearbody s1.
  destruct (upd_arena_calm s1 L (Z.to_nat idx) (λ a, a <| ar_thread_count ::= λ n, s32 (n + 1) |>))
    as [_ Hca2]; [apply Hca1..|done|done|]. fold s2 in Hca2.
  assert (mc_tlds s2 = mc_tlds s) as Ht2 by done. clearbody s2.
  split_and!; [lia|lia|apply arena_lookup; [apply Hca1|lia]| |].
  - unfold s3. pose proof (calm_trans _ _ _ _ Hca1 Hca2) as Hca. destruct (Z.eqb_spec tld 0) as [|H0]; [done|].
    destruct (Htld H0) as [t Ht]. eapply calm_trans; [exact Hca|]. apply calm_ctl; try done; [apply Hca2|].
    apply (ctl_inv_set_arena _ tld t); [apply Hca2|by rewrite Ht2|lia].
  - unfold s3. intros H0. destruct (Z.eqb_spec tld 0) as [|_]; [done|].
    destruct (Htld H0) as [t Ht]. unfold upd_tld. simpl. rewrite Ht2, lookup_alter_eq, Ht. simpl. eauto.
Qed.

Lemma arena_get_run tid s L :
  slab_inv s L → ctl_inv s → malloc_is_initialized s = true →
  mc_thread_id_counter s < UINT32_MAX → g_arena_next (mc_g s) + 1 < 2 ^ 31 →
  ∃ i s', arena_get tid s = Ok (Some i, s') ∧ (i < 4)%nat ∧ calm s L s' ∧
    ∀ tld, mc_specific s !! tid = Some tld →
      ∃ t, mc_tlds s' !! tld = Some t ∧ is_Some (td_arena t).
Proof.
  intros Hs Hc Hinit Hcnt Hnext. unfold arena_get.
  destruct (tld_get tid s) as [tld s1] eqn:Htld.
  destruct (tld_get_calm tid s L tld s1) as (Hca & Hn1 & _ & Hcase); try done.
  pose proof (ca_slab _ _ _ Hca) as Hs1. pose proof (ca_ctl _ _ _ Hca) as Hc1.
  assert (tld ≠ 0 → is_Some (mc_tlds s1 !! tld)) as Hex by (destruct Hcase as [[-> _]|(_ & _ & ?)]; done).
  assert (∀ tld', mc_specific s !! tid = Some tld' → tld' = tld ∧ tld ≠ 0) as Hsame.
  { intros tld' Hsp. unfold tld_get in Htld. rewrite Hsp in Htld. injection Htld as -> ->.
    by destruct (ci_specific _ Hc _ _ Hsp). }
  fold (tld_read tld s1). destruct (tld_read_run tld s1 Hex) as (o & -> & Ho & Ho0). cbn [mbind res_bind].
  destruct (o ≫= td_arena) as [i|] eqn:Hoa.
  - apply bind_Some in Hoa as (t' & -> & Hi).
    assert (tld ≠ 0) as H0 by (intros H0; by specialize (Ho0 H0)). specialize (Ho H0). symmetry in Ho.
    exists i, s1. split_and!; try done.
    + by apply (ti_arena _ _ _ _ (tld_inv_of s1 tld t' Hc1 Ho)).
    + intros tld' [-> _]%Hsame. eauto.
  - rewrite (ci_count _ Hc1). change (4 =? 0) with false. cbv iota.
    destruct (assign_arena tld s1 L) as (Hidx & [a Ha] & Hca3 & Htld3); try done; [by rewrite Hn1|].
    destruct (Z.ltb_spec (Z.rem (g_arena_next (mc_g s1)) 4) 0); [lia|].
    cbv zeta. rewrite Ha. cbn [deref mbind res_bind].
    eexists _, _. split; [reflexivity|]. split_and!; [lia|by eapply calm_trans|].
    intros tld' [-> ?]%Hsame. by apply Htld3.
Qed.

End Laws.
End Ctl.
