(* ===== verification/ArenaCorrect.v ===== *)
(** * Correctness of the arena's slow path (src/arena.c, src/segment.c) *)
From S2P Require Import Prelude Config Mem Atomic SizeClass Types Os Page Registry Segment Debug Tld Arena Large Slab Heap HeapOps CtlOps.
Import SizeClass Registry.

(** The slot size of a bin, and the bins the slab serves. *)
Definition bin_slot (bin : Z) : Z := slot_size_of (bin_to_size the_tables bin).
Definition slab_bin (bin : Z) : Prop :=
  0 ≤ bin < BIN_COUNT ∧ 1 ≤ bin_to_size the_tables bin ≤ PAGE_SIZE_ALLOC / 2.

Section Arena.
Context `{E : Env} {EL : EnvLaws E}.
Implicit Types (s : machine) (L : live_map) (r : page_ref).

(** A step after which callers hold the same blocks. *)
Record quiet (s : machine) (L : live_map) (s' : machine) (L' : live_map) : Prop := {
  qu_slab : slab_inv s' L';
  qu_ctl : ctl_inv s';
  qu_grows : grows no_new s L s' L';
  qu_outside : outside s s'
}.

(** A step after which they hold one block more: [slot], of the size of
    [bin]; [z] says whether it is known to read as zero. *)
Record alloc_ok (bin slot : Z) (z : option bool) (s : machine) (L : live_map)
    (s' : machine) (L' : live_map) : Prop := {
  al_slab : slab_inv s' L';
  al_ctl : ctl_inv s';
  al_grows : grows (one_new slot (bin_slot bin)) s L s' L';
  al_outside : outside s s';
  al_fresh n : ¬ block s L slot n;
  al_zero b : z = Some true → in_range b slot (bin_slot bin) → load8 (mc_mem s') b = 0
}.

Lemma calm_quiet s L s' : calm s L s' → quiet s L s' L.
Proof. intros []. by split. Qed.

Lemma quiet_trans s1 L1 s2 L2 s3 L3 : quiet s1 L1 s2 L2 → quiet s2 L2 s3 L3 → quiet s1 L1 s3 L3.
Proof. intros [] []. split; try done; [by eapply grows_trans|by etrans]. Qed.

Lemma alloc_ok_pre bin slot z s1 L1 s2 L2 s3 L3 :
  quiet s1 L1 s2 L2 → alloc_ok bin slot z s2 L2 s3 L3 → alloc_ok bin slot z s1 L1 s3 L3.
Proof.
  intros [] []. split; try done; [by eapply grows_trans|by etrans|].
  intros n Hn. apply (al_fresh0 n). apply (gr_blocks _ _ _ _ _ qu_grows0). by left.
Qed.

Lemma alloc_ok_post bin slot z s1 L1 s2 L2 s3 L3 :
  alloc_ok bin slot z s1 L1 s2 L2 → quiet s2 L2 s3 L3 → alloc_ok bin slot z s1 L1 s3 L3.
Proof.
  intros [] []. split; try done; [by eapply grows_trans_r|by etrans|].
  intros b Hz Hb. rewrite (gr_bytes _ _ _ _ _ qu_grows0 slot (bin_slot bin) b); [by apply al_zero0| |done].
  apply (gr_blocks _ _ _ _ _ al_grows0). by right.
Qed.

(** ** Taking a slot *)
Lemma debug_mark_step m p lf rf live slot :
  page_inv m p lf rf (slot :: live) → (malloc_debug = true → bitmap_ok p live) →
  ∃ b, (if malloc_debug then debug_mark_allocated p slot else Ok p) = Ok (p <| pm_debug_bitmap := b |>) ∧
    (malloc_debug = true → bitmap_ok (p <| pm_debug_bitmap := b |>) (slot :: live)).
Proof.
  intros Hi Hb. pose proof (pi_geometry _ _ _ _ _ Hi) as Hg.
  destruct malloc_debug; [|exists (pm_debug_bitmap p); split; [by destruct p|done]].
  specialize (Hb eq_refl).
  assert (slot ∈ touched p) as Ht by (apply (page_inv_touched _ _ _ _ _ Hi); set_solver).
  destruct (touched_index p slot Hg Ht) as (k & Hk & ->).
  destruct (debug_mark_allocated_ok p live Hg Hb k Hk) as (b & Hrun & Hb').
  { pose proof (page_inv_NoDup _ _ _ _ _ Hi) as Hnd. rewrite app_assoc in Hnd.
    apply NoDup_app in Hnd as (_ & _ & Hnd). by apply NoDup_cons in Hnd as [? _]. }
  eauto.
Qed.

Lemma take_step s s' L r p p2 live lf rf slot l bin z :
  slab_inv s L → ctl_inv s → lookup_page s r = Some p → pm_state p = PAGE_ACTIVE →
  L !! r = Some live → pm_bin_idx p = bin → same_slab p p2 →
  page_inv (mc_mem s') p2 lf rf (slot :: live) →
  (malloc_debug = true → bitmap_ok p2 (slot :: live)) →
  mc_segs s' = mc_segs (upd_page r (λ _, p2) s) → same_shape s s' → same_world s s' →
  large_view s' = large_view s → g_initialized (mc_g s') = g_initialized (mc_g s) →
  bytes (mc_mem s') → mem_frame l (mc_mem s) (mc_mem s') →
  (∀ a, a ∈ l → a ∈ touched p ∧ a ∉ live) →
  (z = Some true → ∀ b, in_range b slot (pm_slot_size p) → load8 (mc_mem s') b = 0) →
  alloc_ok bin slot z s L s' (<[r := slot :: live]> L).
Proof.
  intros Hs Hc Hp Hst HL Hbin Hss Hi Hb Hsegs Hsh Hw Hlv Hin Hby Hfr Hl Hz.
  apply same_slab_place in Hss as Hsp.
  assert (∀ a, a ∈ l → a ∈ touched p) as Hl' by (intros; by apply Hl).
  destruct (slab_active s L r p Hs Hp Hst)
    as (sg & live0 & _ & Hpl & Hlt & _ & _ & HL0 & (_ & _ & _ & Hsz & _ & _)).
  assert (live0 = live) as -> by congruence. rewrite Hbin in Hsz. fold (bin_slot bin) in Hsz.
  assert (slot ∉ live) as Hnin.
  { pose proof (page_inv_NoDup _ _ _ _ _ Hi) as Hnd. rewrite app_assoc in Hnd.
    apply NoDup_app in Hnd as (_ & _ & Hnd). by apply NoDup_cons in Hnd as [? _]. }
  split.
  - by eapply (slot_step_inv s s' L r p p2 live _ lf rf l).
  - by rewrite <- Hsh.
  - rewrite <- Hsz. eapply (slot_step_grows s s' L r p p2 live); try done; [set_solver|].
    intros a n. unfold one_new. set_solver.
  - by eapply (slot_step_outside_all s s' L r p p2 l).
  - intros n (r2 & live2 & q & HL2 & Ha2 & Hq & ->).
    destruct (live_in_page s L r2 live2 slot) as (? & ? & ?); try done.
    assert (slot ∈ touched p2) as Ht by (apply (page_inv_touched _ _ _ _ _ Hi); set_solver).
    pose proof (touched_in_page p2 ltac:(apply Hi) slot Ht).
    assert (page_start p2 = page_start p) as Hps.
    { unfold page_start. destruct Hsp as (_ & -> & _ & _ & _ & ->). done. }
    rewrite Hps, (slab_page_start s L r p Hs Hp) in *. pose proof (pg_slot p2 ltac:(apply Hi)).
    assert (r2 = r) as -> by (apply (page_addr_unique r2 r slot); try done; [lia|unfold in_range; lia]).
    congruence.
  - rewrite <- Hsz. intros b Hzt. by apply Hz.
Qed.

(** [bump_from] on an active page of the bin with virgin space. *)
Lemma bump_from_run i r bin p s L :
  slab_inv s L → ctl_inv s → lookup_page s r = Some p → pm_state p = PAGE_ACTIVE →
  pm_bin_idx p = bin → pm_bump_offset p < pm_bump_end p →
  ∃ slot s' L', bump_from i r s = Ok (slot, s') ∧ alloc_ok bin slot (Some true) s L s' L' ∧
    same_shape s s' ∧ locks s' = locks s ∧ slot ≠ 0 ∧
    in_range slot (page_addr r.1 (Z.of_nat r.2)) PAGE_SIZE_ALLOC.
Proof.
  intros Hs Hc Hp Hst Hbin Hlt. destruct (slab_active s L r p Hs Hp Hst)
    as (sg & live & _ & _ & _ & _ & _ & HL & (_ & _ & _ & _ & Hbm & lf & rf & Hi)).
  destruct (bump_slot_inv _ _ _ _ _ Hi Hlt) as (Heq & Hi1 & Hz & _).
  pose proof (pi_geometry _ _ _ _ _ Hi) as Hg. pose proof (bump_step p Hg Hlt).
  pose proof (bump_end_page p Hg). pose proof (pg_bump p Hg). pose proof (pg_addr p Hg).
  pose proof (pg_slot p Hg).
  unfold bump_from. rewrite Hp. cbn [deref mbind res_bind]. rewrite Heq.
  set (p1 := (bump_slot p).2) in *. set (slot := page_start p + pm_bump_offset p) in *.
  destruct (debug_mark_step _ _ _ _ _ _ Hi1) as (b & Hrun & Hbm1).
  { intros Hd. eapply bitmap_ok_ext; [..|by apply Hbm]; done. }
  rewrite Hrun. cbn [mbind res_bind]. set (p2 := p1 <| pm_debug_bitmap := b |>) in *.
  eexists slot, _, _. split; [reflexivity|]. set (s' := upd_arena _ _ _).
  assert (same_shape s s') as Hsh.
  { etrans; [apply (upd_page_shape s r (λ _, p2))|by apply upd_arena_shape].
    intros q Hq. by simplify_eq. }
  split_and!; [|done| |lia|].
  - eapply (take_step s s' L r p p2 live lf rf slot []); try done; [by apply page_inv_bitmap|apply Hs|set_solver].
  - unfold s'. by rewrite locks_upd_arena.
  - rewrite <- (slab_page_start s L r p Hs Hp). unfold in_range. lia.
Qed.

(** ** Walking the lists *)

(** All page references of the segments: the bound on the bin lists. *)
Lemma refs_length s L (l : list page_ref) :
  slab_inv s L → NoDup l → (∀ r, r ∈ l → is_Some (lookup_page s r)) →
  (length l ≤ size (mc_segs s) * 64)%nat.
Proof.
  intros Hs Hnd Hl. set (k := list_prod (elements (dom (mc_segs s))) (seq 0 64)).
  assert (length k = (size (mc_segs s) * 64)%nat) as <-.
  { unfold k. rewrite List.length_prod, length_seq. f_equal.
    change (size (dom (mc_segs s)) = size (mc_segs s)). apply size_dom. }
  apply submseteq_length, NoDup_submseteq; [done|]. intros [b i] Hr.
  destruct (Hl _ Hr) as [p Hp]. destruct (slab_page s L (b, i) p Hs Hp) as (sg & Hsg & _ & Hlt & _).
  apply list_elem_of_In, List.in_prod; apply list_elem_of_In.
  - apply elem_of_elements, elem_of_dom. eauto.
  - apply elem_of_seq. simpl in Hlt. lia.
Qed.

Lemma segs_length s (l : list Z) :
  NoDup l → (∀ b, b ∈ l → is_Some (mc_segs s !! b)) → (length l ≤ size (mc_segs s))%nat.
Proof.
  intros Hnd Hl. rewrite <- (size_dom (mc_segs s)). 
  change (size (dom (mc_segs s))) with (length (elements (dom (mc_segs s)))).
  apply submseteq_length, NoDup_submseteq; [done|]. intros b Hb.
  apply elem_of_elements, elem_of_dom. auto.
Qed.

Lemma scan_bin_run fuel s h l :
  chain (page_next s) h l → (length l ≤ fuel)%nat →
  ∃ o, scan_bin fuel s h = Ok o ∧
    ∀ r, o = Some r → r ∈ l ∧ ∃ p, lookup_page s r = Some p ∧
      pm_owner_tid p = UINT32_MAX ∧ pm_bump_offset p < pm_bump_end p.
Proof.
  revert fuel h. induction l as [|k l IH]; intros fuel h Hch Hlen; simpl in Hch.
  { subst h. exists None. split; [by destruct fuel|done]. }
  destruct Hch as (-> & n & Hn & Hch). destruct fuel as [|fuel]; simpl in Hlen; [lia|].
  unfold page_next in Hn. apply fmap_Some in Hn as (x & (p & Hp & ->)%page_link_Some & ->).
  cbn [scan_bin]. rewrite Hp. cbn [deref mbind res_bind].
  destruct (_ && _) eqn:Hb.
  - apply andb_true_iff in Hb as [?%Z.eqb_eq ?%Z.ltb_lt]. exists (Some k). split; [done|].
    intros r [= ->]. split; [set_solver|eauto].
  - destruct (IH fuel (pm_next p) Hch ltac:(lia)) as (o & -> & Ho). exists o. split; [done|].
    intros r ->. destruct (Ho r eq_refl). split; [set_solver|done].
Qed.

Lemma find_unused_Some pages i k :
  find_unused pages i = Some k →
  ∃ j p, k = (i + j)%nat ∧ pages !! j = Some p ∧ pm_state p = PAGE_UNUSED.
Proof.
  revert i. induction pages as [|p pages IH]; intros i; simpl; [done|]. destruct (decide _).
  - intros [= <-]. exists 0%nat, p. split_and!; [lia|done..].
  - intros (j & q & -> & ? & ?)%IH. exists (S j), q. split_and!; [lia|done..].
Qed.

(** What [segment_alloc_page] returns: nothing, or an unused page made
    active. *)
Definition new_page_state (b : Z) (k : nat) (p' : page_meta_t) (s : machine) : machine :=
  upd_seg b (λ sg, sg <| sg_pages_used ::= λ n, u16 (n + 1) |>) (upd_page (b, k) (λ _, p') s).

Lemma segment_alloc_page_run b sg bin s L :
  slab_inv s L → slab_bin bin → mc_segs s !! b = Some sg →
  segment_alloc_page b bin s = Ok (None, s) ∨
  ∃ k p, lookup_page s (b, k) = Some p ∧ pm_state p = PAGE_UNUSED ∧
    segment_alloc_page b bin s = Ok (Some (b, k), new_page_state b k
      (page_init p b (sg_arena sg) (Z.of_nat k) bin (bin_to_size the_tables bin)) s).
Proof.
  intros Hs [Hbin Hsz] Hsg. unfold segment_alloc_page. rewrite Hsg. cbn [deref mbind res_bind].
  change (Z.to_nat PAGES_DATA_START) with 1%nat.
  destruct (find_unused _ _) as [k|] eqn:Hf; [right|by left].
  apply find_unused_Some in Hf as (j & p & -> & Hp & Hst). rewrite lookup_drop in Hp.
  exists (1 + j)%nat, p. assert (lookup_page s (b, (1 + j)%nat) = Some p) as Hlk
    by (apply lookup_page_Some; eauto).
  destruct (slab_page s L _ p Hs Hlk) as (_ & _ & _ & Hlt & _). simpl in Hlt.
  split_and!; [done..|]. rewrite (si_tables _ _ Hs).
  rewrite u32_small by (change (PAGE_SIZE_ALLOC / 2) with 32768 in Hsz; lia).
  rewrite u16_small by lia. cbv zeta. by rewrite (upd_page_const s _ p).
Qed.

Lemma new_page_segs_upd b k p' s : segs_upd (b, k) p' s (new_page_state b k p' s).
Proof.
  intros c. rewrite <- (upd_page_segs_upd s (b, k) p' c). by apply upd_seg_view.
Qed.

(** Steps on the data alone. *)
Definition data_step (s : machine) (L : live_map) (s' : machine) (L' : live_map) : Prop :=
  slab_inv s' L' ∧ grows no_new s L s' L' ∧ outside s s'.

Lemma data_step_trans s1 L1 s2 L2 s3 L3 :
  data_step s1 L1 s2 L2 → data_step s2 L2 s3 L3 → data_step s1 L1 s3 L3.
Proof. intros (? & ? & ?) (? & ? & ?). split_and!; [done|by eapply grows_trans|by etrans]. Qed.

Lemma new_page_step b k sg p bin s L :
  slab_inv s L → slab_bin bin → mc_segs s !! b = Some sg → lookup_page s (b, k) = Some p →
  pm_state p = PAGE_UNUSED →
  let p' := page_init p b (sg_arena sg) (Z.of_nat k) bin (bin_to_size the_tables bin) in
  data_step s L (new_page_state b k p' s) (<[(b, k) := []]> L).
Proof.
  intros Hs [Hbin Hsz] Hsg Hp Hst p'.
  destruct (slab_page s L (b, k) p Hs Hp) as (sg2 & Hsg2 & Hpl & Hlt & (_ & _ & Hok)).
  rewrite Hst in Hok. destruct Hok as (Hk0 & HLn & Hz). simpl in *.
  pose proof (new_page_segs_upd b k p' s) as Hu. set (s' := new_page_state b k p' s) in *.
  assert (page_inv (mc_mem s) p' [] [] []) as Hi by (apply page_init_inv; [done|config; lia|done..]).
  destruct (page_init_fields p b (sg_arena sg) (Z.of_nat k) bin (bin_to_size the_tables bin))
    as (F1 & F2 & F3 & F4 & F5 & _ & _ & _ & _ & _ & _ & _ & _ & _ & _ & _ & F17).
  fold p' in F1, F2, F3, F4, F5, F17.
  assert (∀ r, lookup_page s' r = if decide (r = (b, k)) then Some p' else lookup_page s r) as Hlk.
  { intros r. apply segs_upd_lookup; eauto. }
  split_and!.
  - eapply slab_inv_step; [exact Hs|eauto|done|done|apply Hs|done| |].
    + intros r' Hne. by rewrite lookup_insert_ne.
    + intros sg3 Hsg3. simpl in Hsg3. assert (sg3 = sg) as -> by congruence.
      split_and!; [done..|]. rewrite F5. split; [done|]. exists []. rewrite lookup_insert_eq.
      split; [done|]. unfold active_ok. rewrite F4. split_and!; try done; try lia.
      * by apply page_init_slot_size.
      * intros _. split.
        -- intros a. rewrite F17. by unfold load8.
        -- intros j _. rewrite F17. unfold load8. rewrite lookup_empty. simpl. by rewrite Z.bits_0.
      * by exists [], [].
  - split; [|done]. intros a n. unfold no_new. split.
    + intros (r & live & q & HL & Ha & Hq & ->). left. destruct (decide (r = (b, k))) as [->|Hne].
      * rewrite lookup_insert_eq in HL. simplify_eq. set_solver.
      * rewrite lookup_insert_ne in HL by done. rewrite Hlk, decide_False in Hq by done. by exists r, live, q.
    + intros [(r & live & q & HL & Ha & Hq & ->)|[]]. assert (r ≠ (b, k)) by congruence.
      exists r, live, q. by rewrite lookup_insert_ne, Hlk, decide_False by done.
  - apply outside_meta; try done. intros c Hc. by apply (segs_upd_is_Some _ _ _ _ _ Hu).
Qed.

(** ** The links after a page or a segment is added *)
Definition link_state (x : option page_ref * page_state_t * Z * option nat * Z) : page_state_t := x.1.1.1.2.

(** The scalars of the control state. *)
Definition ctl_scalars (s : machine) :=
  (length (g_arenas (mc_g s)), g_arena_count (mc_g s), g_arena_next (mc_g s),
   mc_specific s, mc_thread_id_counter s).

(** A page that was not active enters the list of bin [bin] of arena [i]. *)
Section NewPage.
Context (s s' : machine) (r : page_ref) (bin i : nat) (bins : list (option page_ref)) (segs : Z).
Context (head : option page_ref) (x : option page_ref * page_state_t * Z * option nat * Z).
Context (Hc : ctl_inv s) (Hr : page_link s r = Some x) (Hx : link_state x ≠ PAGE_ACTIVE).
Context (Hpg : ∀ r', page_link s' r' = if decide (r' = r)
  then Some (head, PAGE_ACTIVE, Z.of_nat bin, Some i, UINT32_MAX) else page_link s r').
Context (Hseg : ∀ b, seg_link s' b = seg_link s b).
Context (Har : arena_link s i = Some (bins, segs)) (Hhd : bins !! bin = Some head).
Context (Har' : ∀ j, arena_link s' j =
  if decide (j = i) then Some (<[bin := Some r]> bins, segs) else arena_link s j).
Context (Htl : ∀ a, tld_link s' a = tld_link s a) (Hsc : ctl_scalars s' = ctl_scalars s).

Lemma new_page_old r' n b a o :
  page_link s r' = Some (n, PAGE_ACTIVE, b, a, o) → r' ≠ r ∧ page_link s' r' = page_link s r'.
Proof.
  intros Hr'. assert (r' ≠ r) as Hne; [|split; [done|by rewrite Hpg, decide_False]].
  intros ->. rewrite Hr in Hr'. injection Hr' as ->. by apply Hx.
Qed.

Lemma new_page_chain j b0 h l :
  chain (page_next s) h l → (∀ r', r' ∈ l → active_page s j b0 r') →
  chain (page_next s') h l ∧ (∀ r', r' ∈ l → active_page s' j b0 r') ∧ r ∉ l.
Proof.
  intros Hl Hact. assert (∀ r', r' ∈ l → r' ≠ r ∧ page_link s' r' = page_link s r') as Hold.
  { intros r' Hr'. destruct (Hact r' Hr') as (n & o & Hlk). by eapply new_page_old. }
  split_and!.
  - eapply chain_ext; [|done]. intros r' Hr'. unfold page_next. by rewrite (proj2 (Hold r' Hr')).
  - intros r' Hr'. unfold active_page. rewrite (proj2 (Hold r' Hr')). by apply Hact.
  - intros Hin. by destruct (Hold r Hin).
Qed.

(** The list that grows. *)
Lemma new_page_list :
  ∃ l, chain (page_next s') (Some r) l ∧ NoDup l ∧ ∀ r', r' ∈ l → active_page s' i bin r'.
Proof.
  destruct (ai_bin _ _ _ _ (ci_arena _ Hc i bins segs Har) bin head Hhd) as (l & Hl & Hnd & Hact).
  destruct (new_page_chain _ _ _ _ Hl Hact) as (Hl' & Hact' & Hnin). exists (r :: l). split_and!.
  - simpl. split; [done|]. exists head. split; [|done]. unfold page_next. by rewrite Hpg, decide_True.
  - by apply NoDup_cons.
  - intros r' [->|Hr']%elem_of_cons; [|by apply Hact']. exists head, UINT32_MAX. by rewrite Hpg, decide_True.
Qed.

Lemma new_page_arena j bins' segs' : arena_link s' j = Some (bins', segs') → arena_inv s' j bins' segs'.
Proof.
  intros Hj. assert (∃ bins0, arena_inv s j bins0 segs' ∧ length bins' = length bins0 ∧
    ∀ b0 h, bins' !! b0 = Some h → (j = i ∧ b0 = bin ∧ h = Some r) ∨ bins0 !! b0 = Some h)
    as (bins0 & [A1 A2 A3] & Hlen & Hbins).
  { rewrite Har' in Hj. destruct (decide (j = i)) as [->|].
    - injection Hj as <- <-. exists bins. split_and!; [by apply (ci_arena _ Hc)|by rewrite length_insert|].
      intros b0 h. rewrite list_lookup_insert_Some. naive_solver.
    - exists bins'. split_and!; [by apply (ci_arena _ Hc)|done|]. by right. }
  split; [congruence| |].
  - intros b0 h [(-> & -> & ->)|Hh]%Hbins; [apply new_page_list|].
    destruct (A2 b0 h Hh) as (l & Hl & Hnd & Hact). destruct (new_page_chain _ _ _ _ Hl Hact) as (? & ? & _). eauto.
  - destruct A3 as (l & Hl & Hnd & Hact). exists l. split_and!; [|done|].
    + eapply chain_ext; [|done]. intros b _. unfold seg_next. by rewrite Hseg.
    + intros b Hb. rewrite Hseg. by apply Hact.
Qed.

Lemma ctl_new_page : ctl_inv s'.
Proof.
  pose proof Hc as [H1 H2 H3 H4 H5 H6 Hid H7 H8 H9]. pose proof Hsc as Hs0. injection Hs0 as S1 S2 S3 S4 S5.
  split; rewrite ?S1, ?S2, ?S3, ?S4, ?S5; try done.
  - apply new_page_arena.
  - intros b n ar. rewrite Hseg. apply H4.
  - intros a arena id cache. rewrite Htl. intros Ha. destruct (H6 a arena id cache Ha) as [T1 T2 T3 T4 T5].
    split; rewrite ?S5; try done.
    + intros b0 r' Hca. destruct (T4 b0 r' Hca) as (? & n & a' & Hlk). split; [done|]. exists n, a'.
      by destruct (new_page_old _ _ _ _ _ Hlk) as [_ ->].
    + intros r' n b a'. rewrite Hpg. destruct (decide (r' = r)); [|apply T5]. intros [= _ _ _ <-]. lia.
  - intros a a' ar ar' id ca ca'. rewrite !Htl. by apply Hid.
  - intros tid a. rewrite Htl. apply H7.
  - intros r' n b a o. rewrite Hpg. destruct (decide (r' = r)); [|apply H8]. intros [= _ _ _ <-]. by left.
Qed.

End NewPage.

(** A fresh segment [p] becomes the head of the list of arena [i]. *)
Section NewSegment.
Context (s s' : machine) (p : Z) (i : nat) (bins : list (option page_ref)) (segs : Z).
Context (Hc : ctl_inv s) (Hp : mc_segs s !! p = None) (Hp0 : p ≠ 0) (Hi : (i < 4)%nat).
Context (Hpg : ∀ r', r'.1 ≠ p → page_link s' r' = page_link s r').
Context (Hnew : ∀ r' x, r'.1 = p → page_link s' r' = Some x → link_state x ≠ PAGE_ACTIVE).
Context (Hseg : ∀ b, seg_link s' b = if decide (b = p) then Some (segs, Some i) else seg_link s b).
Context (Har : arena_link s i = Some (bins, segs)).
Context (Har' : ∀ j, arena_link s' j = if decide (j = i) then Some (bins, p) else arena_link s j).
Context (Htl : ∀ a, tld_link s' a = tld_link s a) (Hsc : ctl_scalars s' = ctl_scalars s).

Lemma new_segment_page r' x : page_link s r' = Some x → page_link s' r' = Some x.
Proof.
  intros Hx. rewrite Hpg; [done|]. intros Heq. apply page_link_Some in Hx as (q & Hq & _).
  unfold lookup_page in Hq. by rewrite Heq, Hp in Hq.
Qed.

Lemma new_segment_active r' n b a o :
  page_link s' r' = Some (n, PAGE_ACTIVE, b, a, o) → page_link s r' = Some (n, PAGE_ACTIVE, b, a, o).
Proof.
  intros Hx. destruct (decide (r'.1 = p)) as [Heq|Hne]; [|by rewrite Hpg in Hx].
  by apply (Hnew r') in Hx.
Qed.

Lemma new_segment_seg b n o : seg_link s b = Some (n, o) → b ≠ p ∧ seg_link s' b = Some (n, o).
Proof.
  intros Hb. assert (b ≠ p) as Hne; [|split; [done|by rewrite Hseg, decide_False]].
  intros ->. unfold seg_link in Hb. by rewrite Hp in Hb.
Qed.

Lemma new_segment_list j h l :
  chain (seg_next s) h l → (∀ b, b ∈ l → ∃ n, seg_link s b = Some (n, Some j)) →
  chain (seg_next s') h l ∧ (∀ b, b ∈ l → ∃ n, seg_link s' b = Some (n, Some j)) ∧ p ∉ l.
Proof.
  intros Hl Hal. split_and!.
  - eapply chain_ext; [|done]. intros b Hb. destruct (Hal b Hb) as [n Hn].
    unfold seg_next. by rewrite Hn, (proj2 (new_segment_seg _ _ _ Hn)).
  - intros b Hb. destruct (Hal b Hb) as [n Hn]. exists n. by apply new_segment_seg.
  - intros Hin. destruct (Hal p Hin) as [n Hn]. by destruct (new_segment_seg _ _ _ Hn).
Qed.

Lemma new_segment_arena j bins' segs' : arena_link s' j = Some (bins', segs') → arena_inv s' j bins' segs'.
Proof.
  intros Hj. assert (∃ segs0, arena_inv s j bins' segs0 ∧
    ((j = i ∧ segs' = p ∧ segs0 = segs) ∨ segs' = segs0)) as (segs0 & [A1 A2 (l & Hl & Hnd & Hal)] & Hsg).
  { rewrite Har' in Hj. destruct (decide (j = i)) as [->|].
    - injection Hj as <- <-. exists segs. split; [by apply (ci_arena _ Hc)|by left].
    - exists segs'. split; [by apply (ci_arena _ Hc)|by right]. }
  destruct (new_segment_list _ _ _ Hl Hal) as (Hl' & Hal' & Hnin). split; [done| |].
  - intros b0 h Hh. destruct (A2 b0 h Hh) as (k & Hk & Hndk & Hact). exists k. split_and!; [|done|].
    + eapply chain_ext; [|done]. intros r' Hr'. unfold page_next.
      destruct (Hact r' Hr') as (n & o & Hlk). by rewrite Hlk, (new_segment_page _ _ Hlk).
    + intros r' Hr'. destruct (Hact r' Hr') as (n & o & Hlk). exists n, o. by apply new_segment_page.
  - destruct Hsg as [(-> & -> & ->)| ->]; [|by exists l]. exists (p :: l). split_and!.
    + simpl. unfold ptr_opt at 1. destruct (Z.eqb_spec p 0); [done|]. split; [done|].
      exists (ptr_opt segs). split; [|done]. unfold seg_next. by rewrite Hseg, decide_True.
    + by apply NoDup_cons.
    + intros b [->|Hb]%elem_of_cons; [|by apply Hal']. exists segs. by rewrite Hseg, decide_True.
Qed.

Lemma ctl_new_segment : ctl_inv s'.
Proof.
  pose proof Hc as [H1 H2 H3 H4 H5 H6 Hid H7 H8 H9]. pose proof Hsc as Hs0. injection Hs0 as S1 S2 S3 S4 S5.
  split; rewrite ?S1, ?S2, ?S3, ?S4, ?S5; try done.
  - apply new_segment_arena.
  - intros b n ar. rewrite Hseg. destruct (decide (b = p)); [|apply H4]. intros [= _ <-]. eauto.
  - intros a arena id cache. rewrite Htl. intros Ha. destruct (H6 a arena id cache Ha) as [T1 T2 T3 T4 T5].
    split; rewrite ?S5; try done.
    + intros b0 r' Hca. destruct (T4 b0 r' Hca) as (? & n & a' & Hlk). split; [done|]. exists n, a'.
      by apply new_segment_page.
    + intros r' n b a' Hlk. by eapply T5, new_segment_active.
  - intros a a' ar ar' id ca ca'. rewrite !Htl. by apply Hid.
  - intros tid a. rewrite Htl. apply H7.
  - intros r' n b a o Hlk. by eapply H8, new_segment_active.
Qed.

End NewSegment.

(** ** A page from a segment into its bin *)
Lemma arena_bin s i a bin :
  ctl_inv s → g_arenas (mc_g s) !! i = Some a → slab_bin bin →
  ∃ head l, ar_bins a !! Z.to_nat bin = Some head ∧ chain (page_next s) head l ∧ NoDup l ∧
    ∀ r, r ∈ l → active_page s i (Z.to_nat bin) r.
Proof.
  intros Hc Ha [Hb _]. assert (arena_inv s i (ar_bins a) (ar_segments a)) as [A1 A2 _].
  { apply (ci_arena _ Hc). unfold arena_link. by rewrite Ha. }
  destruct (lookup_lt_is_Some_2 (ar_bins a) (Z.to_nat bin)) as [head Hh]; [rewrite A1; config; lia|].
  destruct (A2 _ _ Hh) as (l & ? & ? & ?). eauto 10.
Qed.

Lemma active_page_lookup s i bin r :
  active_page s i bin r → ∃ p, lookup_page s r = Some p ∧ pm_state p = PAGE_ACTIVE ∧ pm_bin_idx p = Z.of_nat bin.
Proof.
  intros (n & o & (p & Hp & Heq)%page_link_Some). injection Heq as ? ? ? ? ?. exists p. by split_and!.
Qed.

(** [bin_insert_page] of an active page [r] that is in no list yet. *)
Lemma bin_insert_data i r p a head s L :
  slab_inv s L → lookup_page s r = Some p → pm_state p = PAGE_ACTIVE →
  g_arenas (mc_g s) !! i = Some a → ar_bins a !! Z.to_nat (pm_bin_idx p) = Some head →
  (∀ h, head = Some h → h ≠ r ∧ ∃ q, lookup_page s h = Some q ∧ pm_state q = PAGE_ACTIVE) →
  ∃ s', bin_insert_page i r s = Ok s' ∧ data_step s L s' L ∧ locks s' = locks s ∧
    lookup_page s' r = Some (p <| pm_prev := None |> <| pm_next := head |>) ∧
    (∀ r', page_link s' r' = if decide (r' = r)
      then Some (head, pm_state p, pm_bin_idx p, pm_arena p, pm_owner_tid p) else page_link s r') ∧
    (∀ b, seg_link s' b = seg_link s b) ∧
    (∀ j, arena_link s' j = if decide (j = i)
      then Some (<[Z.to_nat (pm_bin_idx p) := Some r]> (ar_bins a), ar_segments a) else arena_link s j) ∧
    (∀ t, tld_link s' t = tld_link s t) ∧ ctl_scalars s' = ctl_scalars s.
Proof.
  intros Hs Hp Hst Ha Hh Hhead. unfold bin_insert_page. rewrite Hp. cbn [deref mbind res_bind].
  rewrite Ha. cbn [deref mbind res_bind]. rewrite Hh. cbn [deref mbind res_bind].
  set (p1 := p <| pm_prev := None |> <| pm_next := head |>).
  rewrite (upd_page_const s r p) by done. fold p1. set (s1 := upd_page r (λ _, p1) s).
  assert (data_step s L s1 L) as Hd1.
  { apply (relink_step s L r p p1 Hs Hp Hst). by destruct p. }
  assert (lookup_page s1 r = Some p1) as Hp1 by (unfold s1; by rewrite lookup_upd_page_eq, Hp).
  set (s2 := match head with Some h => _ | None => s1 end).
  assert (data_step s1 L s2 L ∧ same_shape s1 s2 ∧ mc_g s2 = mc_g s1 ∧ lookup_page s2 r = Some p1)
    as (Hd2 & Hsh2 & Hg2 & Hp2).
  { unfold s2. destruct head as [h|].
    - destruct (Hhead h eq_refl) as (Hne & q & Hq & Hqst).
      assert (lookup_page s1 h = Some q) as Hq1 by (unfold s1; by rewrite lookup_upd_page_ne).
      rewrite (upd_page_const s1 h q) by done. split_and!.
      + apply (relink_step s1 L h q _ (proj1 Hd1) Hq1 Hqst). by destruct q.
      + apply upd_page_shape. intros q' Hq'. by simplify_eq.
      + done.
      + by rewrite lookup_upd_page_ne.
    - split_and!; try done. split_and!; [apply Hd1|by apply grows_refl|done]. }
  clearbody s2. eexists. split; [reflexivity|]. set (s3 := upd_arena _ _ _).
  assert (data_step s2 L s3 L) as Hd3.
  { split_and!; [|by apply grows_refl|by apply outside_meta].
    eapply slab_inv_same; [apply Hd2|done|by split|apply Hd2|done]. }
  split_and!.
  - by do 2 (eapply data_step_trans; [eassumption|]).
  - unfold s3. rewrite locks_upd_arena by done. unfold locks. by rewrite Hg2.
  - done.
  - intros r'. change (page_link s3 r') with (page_link s2 r'). rewrite <- (ss_page _ _ Hsh2).
    unfold page_link, s1. destruct (decide (r' = r)) as [->|].
    + by rewrite lookup_upd_page_eq, Hp.
    + by rewrite lookup_upd_page_ne.
  - intros b. change (seg_link s3 b) with (seg_link s2 b). rewrite <- (ss_seg _ _ Hsh2).
    unfold seg_link, s1, upd_page, upd_seg. simpl. rewrite lookup_alter.
    destruct (decide _) as [->|]; [|done]. by destruct (mc_segs s !! b).
  - intros j. unfold arena_link, s3, upd_arena. simpl. rewrite Hg2. simpl. rewrite list_lookup_alter.
    destruct (decide (i = j)) as [->|]; [rewrite decide_True, Ha by done|rewrite decide_False by congruence]; done.
  - intros t. change (tld_link s3 t) with (tld_link s2 t). by rewrite <- (ss_tld _ _ Hsh2).
  - unfold ctl_scalars, s3, upd_arena. simpl. rewrite Hg2. simpl. rewrite length_alter.
    pose proof (ss_specific _ _ Hsh2) as Hsp. pose proof (ss_counter _ _ Hsh2) as Hcn.
    rewrite <- Hsp, <- Hcn. done.
Qed.

(** What an arena operation leaves alone on the threads' side. *)
Definition same_threads (s s' : machine) : Prop :=
  (∀ t, tld_link s' t = tld_link s t) ∧ ctl_scalars s' = ctl_scalars s.

Lemma same_threads_trans s1 s2 s3 : same_threads s1 s2 → same_threads s2 s3 → same_threads s1 s3.
Proof. intros [H1 H2] [H3 H4]. split; [intros t; by rewrite H3|congruence]. Qed.

Lemma same_threads_shape s s' : same_shape s s' → same_threads s s'.
Proof. intros [H1 H2 H3 H4 H5 H6 H7 H8 H9]. split; [done|]. unfold ctl_scalars. congruence. Qed.

Lemma new_page_links b k p' s :
  (∀ c, seg_link (new_page_state b k p' s) c = seg_link s c) ∧ same_threads s (new_page_state b k p' s).
Proof.
  split; [|done]. intros c. unfold seg_link, new_page_state, upd_page, upd_seg. simpl.
  destruct (decide (b = c)) as [->|]; [rewrite !lookup_alter_eq|by rewrite !lookup_alter_ne].
  by destruct (mc_segs s !! c).
Qed.

Lemma install_page i b k p p' bin s L a :
  slab_inv s L → ctl_inv s → slab_bin bin →
  lookup_page s (b, k) = Some p → pm_state p = PAGE_UNUSED → g_arenas (mc_g s) !! i = Some a →
  data_step s L (new_page_state b k p' s) (<[(b, k) := []]> L) →
  pm_state p' = PAGE_ACTIVE → pm_bin_idx p' = bin → pm_arena p' = Some i →
  pm_owner_tid p' = UINT32_MAX → pm_bump_offset p' = 0 →
  ∃ s2 p2, bin_insert_page i (b, k) (new_page_state b k p' s) = Ok s2 ∧
    quiet s L s2 (<[(b, k) := []]> L) ∧
    locks s2 = locks s ∧ same_threads s s2 ∧ lookup_page s2 (b, k) = Some p2 ∧
    pm_state p2 = PAGE_ACTIVE ∧ pm_bin_idx p2 = bin ∧ pm_bump_offset p2 < pm_bump_end p2.
Proof.
  intros Hs Hc Hbin Hp Hst Ha Hd1 F5 F4 F2 F6 F9. pose proof Hbin as [Hb1 Hb2].
  set (s1 := new_page_state b k p' s) in *.
  assert (∀ r, lookup_page s1 r = if decide (r = (b, k)) then Some p' else lookup_page s r) as Hlk.
  { intros r. apply segs_upd_lookup; [apply new_page_segs_upd|eauto]. }
  assert (page_link s (b, k) = Some (pm_next p, PAGE_UNUSED, pm_bin_idx p, pm_arena p, pm_owner_tid p)) as Hlink.
  { apply page_link_Some. exists p. by rewrite Hst. }
  destruct (arena_bin s i a bin Hc Ha Hbin) as (head & l & Hh & Hl & _ & Hact).
  destruct (bin_insert_data i (b, k) p' a head s1 (<[(b, k) := []]> L))
    as (s2 & Hrun & Hd2 & Hlk2 & Hp2 & Hpl & Hsl & Hal & Htl & Hsc); try done.
  { apply Hd1. }
  { by rewrite Hlk, decide_True. }
  { by rewrite F4. }
  { intros h ->. destruct (chain_head _ _ _ Hl) as (l' & n & -> & _).
    destruct (Hact h) as (n' & o & Hah); [set_solver|].
    assert (h ≠ (b, k)) as Hne by (intros ->; rewrite Hlink in Hah; discriminate). split; [done|].
    destruct (active_page_lookup s i (Z.to_nat bin) h) as (q & ? & ? & _); [by exists n', o|].
    exists q. by rewrite Hlk, decide_False. }
  destruct (new_page_links b k p' s) as [Hsl1 Hth1]. fold s1 in Hsl1, Hth1.
  assert (ctl_inv s2) as Hc2.
  { eapply (ctl_new_page s s2 (b, k) (Z.to_nat bin) i (ar_bins a) (ar_segments a) head); [done|exact Hlink|done|..].
    - intros r'. rewrite Hpl, F2, F4, F5, F6. destruct (decide _); [by rewrite Z2Nat.id by lia|].
      unfold page_link. by rewrite Hlk, decide_False.
    - intros c. by rewrite Hsl, Hsl1.
    - unfold arena_link. by rewrite Ha.
    - done.
    - intros j. by rewrite Hal, F4.
    - intros t. by rewrite Htl.
    - by rewrite Hsc. }
  pose proof (data_step_trans _ _ _ _ _ _ Hd1 Hd2) as (D1 & D2 & D3).
  exists s2, (p' <| pm_prev := None |> <| pm_next := head |>).
  split; [exact Hrun|]. split; [by split|]. split; [exact Hlk2|].
  split; [exact (same_threads_trans _ _ _ Hth1 (conj Htl Hsc))|].
  split; [exact Hp2|]. split; [exact F5|]. split; [exact F4|].
  change (pm_bump_offset p' < pm_bump_end p'). destruct (slab_active s2 (<[(b, k) := []]> L) (b, k) _ D1 Hp2 F5)
    as (? & ? & _ & _ & _ & _ & _ & _ & (_ & _ & _ & _ & _ & lf & rf & Hi)).
  pose proof (bump_end_page _ (pi_geometry _ _ _ _ _ Hi)) as [Hend _].
  rewrite F9. exact Hend.
Qed.

(** The slot lies in an active page of the bin. *)
Definition slot_page (bin slot : Z) (s : machine) : Prop :=
  ∃ r p, lookup_page s r = Some p ∧ pm_state p = PAGE_ACTIVE ∧ pm_bin_idx p = bin ∧
    in_range slot (page_addr r.1 (Z.of_nat r.2)) PAGE_SIZE_ALLOC.

(** What the arena promises: a fresh zero slot of the bin. *)
Definition arena_post (bin slot : Z) (s : machine) (L : live_map) (s' : machine) : Prop :=
  slot ≠ 0 ∧ same_threads s s' ∧ slot_page bin slot s' ∧
  ∃ L', alloc_ok bin slot (Some true) s L s' L'.

Lemma bump_from_post i r bin p s L :
  slab_inv s L → ctl_inv s → lookup_page s r = Some p → pm_state p = PAGE_ACTIVE →
  pm_bin_idx p = bin → pm_bump_offset p < pm_bump_end p →
  ∃ slot s', bump_from i r s = Ok (slot, s') ∧ locks s' = locks s ∧ arena_post bin slot s L s'.
Proof.
  intros Hs Hc Hp Hst Hbin Hlt.
  destruct (bump_from_run i r bin p s L) as (slot & s' & L' & Hrun & Hok & Hsh & Hlk & H0 & Hin); try done.
  exists slot, s'. split_and!; [done..|]. split_and!; [done|by apply same_threads_shape| |by exists L'].
  pose proof (ss_page _ _ Hsh r) as Hl. unfold page_link in Hl. rewrite Hp in Hl. symmetry in Hl.
  apply fmap_Some in Hl as (p' & Hp' & Heq). injection Heq as ? ? ? ? ?.
  exists r, p'. split_and!; [done|congruence|congruence|done].
Qed.

Lemma arena_post_pre bin slot s L s1 L1 s2 :
  quiet s L s1 L1 → same_threads s s1 → arena_post bin slot s1 L1 s2 → arena_post bin slot s L s2.
Proof.
  intros Hq Ht (H0 & Ht2 & Hpg & L' & Hok). split_and!; [done|by eapply same_threads_trans|done|].
  exists L'. by eapply alloc_ok_pre.
Qed.

Lemma page_from_segment i b sg bin r s s1 L a :
  slab_inv s L → ctl_inv s → slab_bin bin → mc_segs s !! b = Some sg → sg_arena sg = Some i →
  g_arenas (mc_g s) !! i = Some a → segment_alloc_page b bin s = Ok (Some r, s1) →
  ∃ s2 slot s3, bin_insert_page i r s1 = Ok s2 ∧ bump_from i r s2 = Ok (slot, s3) ∧
    locks s3 = locks s ∧ arena_post bin slot s L s3.
Proof.
  intros Hs Hc Hbin Hsg Hsga Ha Hrun.
  destruct (segment_alloc_page_run b sg bin s L Hs Hbin Hsg) as [Hn|(k & p & Hp & Hst & Hr)];
    [congruence|].
  rewrite Hr in Hrun. injection Hrun as <- <-.
  destruct (page_init_fields p b (sg_arena sg) (Z.of_nat k) bin (bin_to_size the_tables bin))
    as (_ & F2 & _ & F4 & F5 & F6 & _ & _ & F9 & _).
  pose proof (new_page_step b k sg p bin s L Hs Hbin Hsg Hp Hst) as Hd. cbv zeta in Hd.
  revert F2 F4 F5 F6 F9 Hd. generalize (page_init p b (sg_arena sg) (Z.of_nat k) bin (bin_to_size the_tables bin)).
  intros p' F2 F4 F5 F6 F9 Hd. rewrite Hsga in F2.
  destruct (install_page i b k p p' bin s L a) as (s2 & p2 & Hins & Hq & Hlk & Hth & Hp2 & Hst2 & Hb2 & Hlt); try done.
  destruct (bump_from_post i (b, k) bin p2 s2 (<[(b, k) := []]> L))
    as (slot & s3 & Hbump & Hlk3 & Hpost); try done; [apply Hq..|].
  exists s2, slot, s3. split_and!; [done|done|congruence|]. by eapply arena_post_pre.
Qed.

(** The walk over the arena's segments. *)
Lemma alloc_in_segments_run fuel seg bin s L l :
  slab_inv s L → slab_bin bin → chain (seg_next s) (ptr_opt seg) l → (length l ≤ fuel)%nat →
  (∀ b, b ∈ l → is_Some (mc_segs s !! b)) →
  alloc_in_segments fuel seg bin s = Ok (None, s) ∨
  ∃ b r s1, b ∈ l ∧ segment_alloc_page b bin s = Ok (Some r, s1) ∧
    alloc_in_segments fuel seg bin s = Ok (Some r, s1).
Proof.
  intros Hs Hbin. revert fuel seg. induction l as [|b l IH]; intros fuel seg Hl Hlen Hsegs.
  { simpl in Hl. unfold ptr_opt in Hl. destruct (Z.eqb_spec seg 0) as [E0|]; [|done].
    left. rewrite E0. by destruct fuel. }
  destruct Hl as (Hh & n & Hn & Hl). unfold ptr_opt in Hh.
  destruct (Z.eqb_spec seg 0) as [|H0]; [done|]. assert (seg = b) as -> by congruence.
  destruct fuel as [|fuel]; simpl in Hlen; [lia|]. destruct (Hsegs b) as [sg Hsg]; [set_solver|].
  assert (n = ptr_opt (sg_next sg)) as ->.
  { unfold seg_next, seg_link in Hn. rewrite Hsg in Hn. by injection Hn as <-. }
  assert (alloc_in_segments (S fuel) b bin s = '(new_page, s) ← segment_alloc_page b bin s;
      match new_page with
      | Some r => Ok (Some r, s)
      | None => sg ← deref (mc_segs s !! b); alloc_in_segments fuel (sg_next sg) bin s
      end) as ->.
  { cbn [alloc_in_segments]. by destruct (Z.eqb_spec b 0). }
  destruct (segment_alloc_page_run b sg bin s L Hs Hbin Hsg) as [Hrun|(k & p & _ & _ & Hrun)].
  - rewrite Hrun. cbn [mbind res_bind]. rewrite Hsg. cbn [deref mbind res_bind].
    destruct (IH fuel (sg_next sg) Hl ltac:(lia)) as [Hr|(c & r & s1 & Hc & Hc1 & Hr)]; [set_solver|by left|].
    right. exists c, r, s1. split_and!; [set_solver|done..].
  - rewrite Hrun. right. eexists b, _, _. split_and!; [set_solver|done|done].
Qed.

(** ** New segments *)
Lemma fresh_segment_page b ar i q :
  sg_pages (fresh_segment b ar) !! i = Some q →
  (i < 64)%nat ∧ pm_segment q = b ∧ pm_page_index q = Z.of_nat i ∧
  pm_state q = if decide (i = 0%nat) then PAGE_FULL else PAGE_UNUSED.
Proof.
  unfold fresh_segment. cbv zeta. cbn [sg_pages]. rewrite list_lookup_alter, list_lookup_fmap.
  change PAGES_PER_SEGMENT with 64. intros Hq.
  destruct (decide (0%nat = i)) as [<-|Hne].
  - change (seqZ 0 64 !! 0%nat) with (Some 0) in Hq. injection Hq as <-. split_and!; [lia|done..].
  - rewrite decide_False by congruence. rewrite list_lookup_fmap in Hq. apply fmap_Some in Hq as (z & [-> Hz]%lookup_seqZ & ->).
    assert (i < 64)%nat by lia. simpl. rewrite u16_small by lia. split_and!; [done|done|lia|done].
Qed.

Lemma fresh_segment_length b ar : length (sg_pages (fresh_segment b ar)) = 64%nat.
Proof.
  unfold fresh_segment. cbv zeta. cbn [sg_pages]. by rewrite length_alter, length_fmap, length_seqZ.
Qed.

(** Adding a fresh mapping as a segment. *)
Lemma slab_inv_new_segment s s1 L p ar :
  slab_inv s L → mapped_fresh SEGMENT_SIZE p s s1 → bytes (mc_mem s1) →
  (SEGMENT_SIZE | p) → 0 ∈ g_segment_registry (mc_g s) →
  let s2 := s1 <| mc_segs ::= <[p := fresh_segment p ar]> |>
               <| mc_g ::= λ g, g <| g_segment_registry ::= λ reg, segment_register reg p |> |> in
  mc_segs s !! p = None ∧ slab_inv s2 L.
Proof.
  intros Hs (Hp & Hlim & Hmap & Hfresh & Hzero & Hold & Heq) Hby Hdiv Hfree s2.
  assert (mc_segs s !! p = None) as Hnone.
  { destruct (mc_segs s !! p) as [sg|] eqn:Hsg; [|done]. exfalso.
    apply (Hfresh p); [unfold in_range; config; lia|]. eapply si_mapped; [done..|].
    unfold in_range. config. lia. }
  assert (mc_segs s1 = mc_segs s) as Hs1 by (by rewrite Heq).
  assert (g_segment_registry (mc_g s1) = g_segment_registry (mc_g s)) as Hr1 by (by rewrite Heq).
  destruct (segment_register_spec (g_segment_registry (mc_g s)) p (si_registry _ _ Hs) ltac:(lia) Hfree)
    as [Hwf Hin].
  split; [done|]. assert (∀ b sg, mc_segs s2 !! b = Some sg →
    (b = p ∧ sg = fresh_segment p ar) ∨ (b ≠ p ∧ mc_segs s !! b = Some sg)) as Hcase.
  { intros b sg. simpl. rewrite Hs1, lookup_insert_Some. naive_solver. }
  split.
  - simpl. rewrite Heq. apply Hs.
  - done.
  - intros b sg [[-> ->]|[_ Hb]]%Hcase; [by split_and!|by eapply si_place].
  - intros b sg [[-> ->]|[_ Hb]]%Hcase; [apply fresh_segment_length|by eapply si_pages].
  - intros b sg a [[-> ->]|[_ Hb]]%Hcase Ha; apply Hmap; [by right|left; by eapply si_mapped].
  - intros b sg i q [[-> ->]|[Hne Hb]]%Hcase Hq.
    + destruct (fresh_segment_page p ar i q Hq) as (Hlt & H1 & H2 & H3). split_and!; [done..|].
      assert (L !! (p, i) = None) as HL.
      { destruct (L !! (p, i)) as [live|] eqn:HL; [|done].
        apply (si_live _ _ Hs) in HL as [q' Hq']. unfold lookup_page in Hq'. simpl in Hq'.
        by rewrite Hnone in Hq'. }
      rewrite H3. destruct (decide (i = 0%nat)) as [->|Hi]; [done|]. split_and!; [done..|].
      intros a Ha. apply Hzero. eapply page_addr_in_segment; [|done]. simpl. lia.
    + assert (i < 64)%nat by (rewrite <- (si_pages _ _ Hs _ _ Hb); by eapply lookup_lt_Some).
      eapply page_ok_frame; [|by eapply si_place|done|done|by eapply si_page].
      intros a Ha. apply Hold. eapply si_mapped; [done..|].
      eapply page_addr_in_segment; [|done]. simpl. lia.
  - intros r live HL. destruct (si_live _ _ Hs _ _ HL) as [q Hq]. unfold lookup_page in *. simpl.
    rewrite Hs1. destruct (decide (r.1 = p)) as [E1|]; [by rewrite E1, Hnone in Hq|].
    rewrite lookup_insert_ne by done. eauto.
  - simpl. by rewrite Hr1.
  - intros b Hb. simpl. rewrite Hr1, Hs1, Hin by done. rewrite (si_registered _ _ Hs b Hb).
    destruct (decide (b = p)) as [->|]; [rewrite lookup_insert_eq; naive_solver|].
    rewrite lookup_insert_ne by done. naive_solver.
Qed.

(** The kernel refuses the mapping a new segment needs. *)
Definition segment_refused (s : machine) : Prop :=
  mmap_refused (mapping_request SEGMENT_SIZE SEGMENT_SIZE) s.

Lemma segment_create_run ar s L :
  slab_inv s L → 0 ∈ g_segment_registry (mc_g s) →
  (segment_create ar s = (0, s) ∧ segment_refused s) ∨
  ∃ p s1, segment_create ar s = (p, s1) ∧ p ≠ 0 ∧ mc_segs s !! p = None ∧
    mc_segs s1 = <[p := fresh_segment p ar]> (mc_segs s) ∧ data_step s L s1 L ∧
    g_arenas (mc_g s1) = g_arenas (mc_g s) ∧ same_threads s s1.
Proof.
  intros Hs Hfree. unfold segment_create.
  pose proof (os_mmap_aligned_bytes SEGMENT_SIZE SEGMENT_SIZE s (si_bytes _ _ Hs)) as Hby.
  destruct (os_mmap_aligned SEGMENT_SIZE SEGMENT_SIZE s) as [p s1] eqn:Hmap. simpl in Hby.
  change SEGMENT_SIZE with (2 ^ 22) in Hmap at 2.
  apply os_mmap_aligned_run in Hmap as [(-> & -> & Href)|[Hdiv Hf]]; [by left| |done|apply segment_whole_pages|lia|done].
  destruct (Z.eqb_spec p 0) as [->|Hp0]; [destruct Hf; lia|].
  right. eexists p, _. split; [reflexivity|].
  destruct (slab_inv_new_segment s s1 L p ar Hs Hf Hby Hdiv Hfree) as [Hnone Hs2]. cbv zeta in Hs2.
  set (s2 := s1 <| mc_segs ::= _ |> <| mc_g ::= _ |>) in *.
  pose proof Hf as (_ & _ & Hmap & Hfresh & _ & Hold & Heq).
  assert (mc_segs s2 = <[p := fresh_segment p ar]> (mc_segs s)) as Hsegs by (unfold s2; simpl; by rewrite Heq).
  split_and!; [done|done|done| |by unfold s2; simpl; rewrite Heq|].
  - split; [done|]. split.
    + split.
      * intros a n. unfold no_new. split.
        -- intros (r & live & q & HL & Ha & Hq & ->). left. exists r, live, q. split_and!; try done.
           destruct (si_live _ _ Hs _ _ HL) as [q' Hq']. unfold lookup_page in Hq, Hq' |- *.
           rewrite Hsegs in Hq. destruct (decide (r.1 = p)) as [E1|]; [by rewrite E1, Hnone in Hq'|].
           by rewrite lookup_insert_ne in Hq.
        -- intros [(r & live & q & HL & Ha & Hq & ->)|[]]. exists r, live, q. split_and!; try done.
           unfold lookup_page in Hq |- *. rewrite Hsegs.
           destruct (decide (r.1 = p)) as [E1|]; [by rewrite E1, Hnone in Hq|].
           by rewrite lookup_insert_ne.
      * intros a n b Hbl Hb. apply Hold. by eapply block_mapped.
    + split; [| |by intros a Ha _; apply Hold|by unfold s2, large_view; simpl; rewrite Heq..].
      * intros a Ha. apply Hmap. by left.
      * intros a Ha (b & sg & Hsg & Hab). rewrite Hsegs in Hsg.
        destruct (decide (b = p)) as [->|]; [by destruct (Hfresh a)|].
        rewrite lookup_insert_ne in Hsg by done. by exists b, sg.
  - split; [|unfold ctl_scalars, s2; simpl; by rewrite Heq].
    intros t. unfold tld_link, s2. simpl. by rewrite Heq.
Qed.

(** A fresh segment has a free page. *)
Lemma fresh_segment_alloc p ar sg bin s L :
  slab_inv s L → slab_bin bin → mc_segs s !! p = Some sg →
  sg_pages sg = sg_pages (fresh_segment p ar) →
  ∃ r s', segment_alloc_page p bin s = Ok (Some r, s').
Proof.
  intros Hs Hbin Hsg Hpg. unfold segment_alloc_page. rewrite Hsg. cbn [deref mbind res_bind].
  rewrite Hpg. assert (find_unused (drop (Z.to_nat PAGES_DATA_START) (sg_pages (fresh_segment p ar)))
    (Z.to_nat PAGES_DATA_START) = Some 1%nat) as -> by reflexivity. eauto.
Qed.

Section LinkSegment.
Context (i : nat) (seg old : Z) (s : machine) (sg : segment_t).
Context (Hsg : mc_segs s !! seg = Some sg).

Lemma link_segment_view b :
  seg_view <$> mc_segs (link_segment i seg old s) !! b = seg_view <$> mc_segs s !! b.
Proof.
  unfold link_segment. change (mc_segs (upd_arena ?i ?f ?s)) with (mc_segs s).
  destruct (old =? 0); [|rewrite upd_seg_view by done]; by rewrite upd_seg_view.
Qed.

Lemma link_segment_seg b :
  seg_link (link_segment i seg old s) b = if decide (b = seg) then Some (old, sg_arena sg) else seg_link s b.
Proof.
  assert (∀ f, seg_link (upd_seg seg (λ sg, sg <| sg_next := old |>) s) b = f b →
    seg_link (link_segment i seg old s) b = f b) as H.
  { intros f <-. unfold link_segment. change (seg_link (upd_arena ?i ?f ?s)) with (seg_link s).
    destruct (old =? 0); [done|]. by apply upd_seg_link. }
  apply (H (λ b, if decide (b = seg) then Some (old, sg_arena sg) else seg_link s b)).
  unfold seg_link, upd_seg. simpl. rewrite lookup_alter.
  destruct (decide (seg = b)) as [<-|]; [by rewrite Hsg, decide_True|by rewrite decide_False by congruence].
Qed.

Lemma link_segment_rest :
  let s' := link_segment i seg old s in
  mc_mem s' = mc_mem s ∧ mc_mapped s' = mc_mapped s ∧ g_tables (mc_g s') = g_tables (mc_g s) ∧
  g_segment_registry (mc_g s') = g_segment_registry (mc_g s) ∧ large_view s' = large_view s ∧
  g_initialized (mc_g s') = g_initialized (mc_g s) ∧ same_threads s s' ∧ locks s' = locks s ∧
  ∀ j, arena_link s' j = if decide (j = i) then (λ a, (ar_bins a, seg)) <$> g_arenas (mc_g s) !! j
    else arena_link s j.
Proof.
  unfold link_segment. cbv zeta. set (s1 := if old =? 0 then _ else _).
  assert (mc_g s1 = mc_g s ∧ mc_mem s1 = mc_mem s ∧ mc_mapped s1 = mc_mapped s ∧
    mc_larges s1 = mc_larges s ∧ mc_tlds s1 = mc_tlds s ∧ mc_specific s1 = mc_specific s ∧
    mc_thread_id_counter s1 = mc_thread_id_counter s) as (G1 & G2 & G3 & G4 & G5 & G6 & G7).
  { unfold s1. by destruct (old =? 0). }
  clearbody s1. split_and!; try (simpl; congruence).
  - unfold large_view. simpl. congruence.
  - split; [intros t; unfold tld_link; simpl; by rewrite G5|].
    unfold ctl_scalars. simpl. rewrite length_alter, G1. congruence.
  - rewrite locks_upd_arena by done. unfold locks. by rewrite G1.
  - intros j. unfold arena_link, upd_arena. simpl. rewrite G1, list_lookup_alter.
    destruct (decide (i = j)) as [->|]; [rewrite decide_True by done|by rewrite decide_False by congruence].
    by destruct (g_arenas (mc_g s) !! j).
Qed.

End LinkSegment.

(** Two machines with the same segment views have the same pages. *)
Lemma lookup_page_view s s' r :
  (∀ b, seg_view <$> mc_segs s' !! b = seg_view <$> mc_segs s !! b) →
  lookup_page s' r = lookup_page s r.
Proof.
  intros Hv. unfold lookup_page. specialize (Hv r.1).
  destruct (mc_segs s' !! r.1), (mc_segs s !! r.1); simpl in *; try done.
  injection Hv as _ ->. done.
Qed.

Lemma link_segment_quiet i p a s s1 L :
  slab_inv s L → ctl_inv s → (i < 4)%nat → g_arenas (mc_g s) !! i = Some a →
  p ≠ 0 → mc_segs s !! p = None → mc_segs s1 = <[p := fresh_segment p (Some i)]> (mc_segs s) →
  data_step s L s1 L → g_arenas (mc_g s1) = g_arenas (mc_g s) → same_threads s s1 →
  let s2 := link_segment i p (ar_segments a) s1 in
  quiet s L s2 L ∧ locks s2 = locks s ∧ same_threads s s2.
Proof.
  intros Hs Hc Hi Ha Hp0 Hnone Hsegs Hd1 Hg1 Hth1 s2.
  assert (mc_segs s1 !! p = Some (fresh_segment p (Some i))) as Hsg by (by rewrite Hsegs, lookup_insert_eq).
  pose proof (link_segment_view i p (ar_segments a) s1) as Hv. fold s2 in Hv.
  pose proof (link_segment_seg i p (ar_segments a) s1 _ Hsg) as Hsl. fold s2 in Hsl.
  destruct (link_segment_rest i p (ar_segments a) s1) as (R1 & R2 & R3 & R4 & R5 & R6 & R7 & R8 & R9).
  fold s2 in R1, R2, R3, R4, R5, R6, R7, R8, R9.
  pose proof (λ r, lookup_page_view s1 s2 r Hv) as Hlk.
  assert (same_threads s s2) as Hth by (by eapply same_threads_trans).
  assert (locks s2 = locks s) as Hlo by (rewrite R8; unfold locks; by rewrite Hg1).
  split_and!; [|done|done].
  assert (data_step s1 L s2 L) as Hd2.
  { split_and!; [|by apply grows_refl|apply outside_meta; try done].
    - eapply slab_inv_same; [apply Hd1|done| |by rewrite R1; apply Hd1|by rewrite R1].
      split; [done..|]. intros b. unfold is_mapped. by rewrite R2.
    - intros b. specialize (Hv b). by destruct (mc_segs s2 !! b), (mc_segs s1 !! b). }
  destruct (data_step_trans _ _ _ _ _ _ Hd1 Hd2) as (D1 & D2 & D3). split; [done| |done|done].
  eapply (ctl_new_segment s s2 p i (ar_bins a) (ar_segments a)); try done.
  - intros r' Hr'. unfold page_link. rewrite Hlk. unfold lookup_page. by rewrite Hsegs, lookup_insert_ne.
  - intros r' x Hr' (q & Hq & ->)%page_link_Some. rewrite Hlk in Hq. unfold lookup_page in Hq.
    rewrite Hr', Hsg in Hq. apply fresh_segment_page in Hq as (_ & _ & _ & Hst).
    unfold link_state. simpl. rewrite Hst. by destruct (decide _).
  - intros b. rewrite Hsl. destruct (decide (b = p)); [done|]. unfold seg_link.
    by rewrite Hsegs, lookup_insert_ne.
  - unfold arena_link. by rewrite Ha.
  - intros j. rewrite R9, Hg1. destruct (decide (j = i)) as [->|]; [by rewrite Ha|].
    unfold arena_link. by rewrite Hg1.
  - apply Hth.
  - apply Hth.
Qed.

Lemma grow_arena_run i bin s L a :
  slab_inv s L → ctl_inv s → 0 ∈ g_segment_registry (mc_g s) → (i < 4)%nat →
  g_arenas (mc_g s) !! i = Some a → slab_bin bin →
  (grow_arena i bin s = Ok (None, s) ∧ segment_refused s) ∨
  ∃ b sg r s1 s2, quiet s L s1 L ∧ locks s1 = locks s ∧ same_threads s s1 ∧
    mc_segs s1 !! b = Some sg ∧ sg_arena sg = Some i ∧ is_Some (g_arenas (mc_g s1) !! i) ∧
    segment_alloc_page b bin s1 = Ok (Some r, s2) ∧ grow_arena i bin s = Ok (Some r, s2).
Proof.
  intros Hs Hc Hfree Hi Ha Hbin. unfold grow_arena.
  destruct (segment_create_run (Some i) s L Hs Hfree)
    as [[Heq Href]|(p & s1 & Heq & Hp0 & Hnone & Hsegs & Hd1 & Hg1 & Hth1)]; rewrite Heq; [by left|].
  destruct (Z.eqb_spec p 0); [done|]. rewrite Hg1, Ha. cbn [deref mbind res_bind]. right.
  destruct (link_segment_quiet i p a s s1 L) as (Hq & Hlk & Hth); try done.
  pose proof (link_segment_view i p (ar_segments a) s1 p) as Hv.
  set (s2 := link_segment i p (ar_segments a) s1) in *.
  rewrite Hsegs, lookup_insert_eq in Hv. apply fmap_Some in Hv as (sg & Hsg & Hview).
  injection Hview as Har Hpg.
  destruct (fresh_segment_alloc p (Some i) sg bin s2 L) as (r & s3 & Hrun); try done; [apply Hq|].
  exists p, sg, r, s2, s3. split_and!; try done.
  apply arena_lookup; [apply Hq|done].
Qed.

(** ** The mutex *)
Lemma lock_quiet s L i b :
  slab_inv s L → ctl_inv s →
  quiet s L (upd_arena i (λ a, a <| ar_lock := b |>) s) L ∧
  same_threads s (upd_arena i (λ a, a <| ar_lock := b |>) s).
Proof.
  intros Hs Hc. assert (same_shape s (upd_arena i (λ a, a <| ar_lock := b |>) s)) as Hsh
    by (by apply upd_arena_shape).
  split; [|by apply same_threads_shape]. split.
  - eapply slab_inv_same; [done|done|done|apply Hs|done].
  - by rewrite <- Hsh.
  - by apply grows_refl.
  - by apply outside_meta.
Qed.

Lemma locks_lock_unlock s s' i :
  locks s !! i = Some false → locks s' = <[i := true]> (locks s) → locks (unlock_arena i s') = locks s.
Proof.
  intros Hi Hs'. unfold unlock_arena. rewrite locks_set, Hs', list_insert_insert_eq. by apply list_insert_id.
Qed.

(** The last step of every path: give the mutex back. *)
Lemma arena_post_unlock bin slot s L s' i :
  arena_post bin slot s L s' → arena_post bin slot s L (unlock_arena i s').
Proof.
  intros (H0 & Hth & Hpg & L' & Hok). destruct (lock_quiet s' L' i false) as [Hq Hth2]; [apply Hok..|].
  split_and!; [done|by eapply same_threads_trans|done|]. exists L'. by eapply alloc_ok_post.
Qed.

(** The two outcomes of the slow path. *)
Definition arena_outcome (bin slot : Z) (z : option bool) (s : machine) (L : live_map) (s' : machine) : Prop :=
  (slot = 0 ∧ z = None ∧ quiet s L s' L ∧ same_threads s s' ∧ segment_refused s') ∨
  (z = Some true ∧ arena_post bin slot s L s').

(** The part of [arena_alloc] below the scan. *)
Lemma arena_refill i bin a s L :
  slab_inv s L → ctl_inv s → 0 ∈ g_segment_registry (mc_g s) → (i < 4)%nat →
  g_arenas (mc_g s) !! i = Some a → slab_bin bin →
  ∃ o s1, ('(new_page, s) ← alloc_in_segments (S (size (mc_segs s))) (ar_segments a) bin s;
    match new_page with Some r => Ok (Some r, s) | None => grow_arena i bin s end) = Ok (o, s1) ∧
  match o with
  | None => s1 = s ∧ segment_refused s
  | Some r => ∃ s2 slot s3, bin_insert_page i r s1 = Ok s2 ∧ bump_from i r s2 = Ok (slot, s3) ∧
      locks s3 = locks s ∧ arena_post bin slot s L s3
  end.
Proof.
  intros Hs Hc Hfree Hi Ha Hbin.
  assert (arena_inv s i (ar_bins a) (ar_segments a)) as [_ _ (l & Hl & Hnd & Hseg)].
  { apply (ci_arena _ Hc). unfold arena_link. by rewrite Ha. }
  assert (∀ b, b ∈ l → ∃ sg, mc_segs s !! b = Some sg ∧ sg_arena sg = Some i) as Hsegs.
  { intros b Hb. destruct (Hseg b Hb) as [n Hn]. unfold seg_link in Hn.
    apply fmap_Some in Hn as (sg & Hsg & Heq). injection Heq as _ ?. eauto. }
  destruct (alloc_in_segments_run (S (size (mc_segs s))) (ar_segments a) bin s L l)
    as [Hrun|(b & r & s1 & Hb & Hpg & Hrun)]; try done.
  { apply Nat.le_le_succ_r, segs_length; [done|]. intros b Hb. destruct (Hsegs b Hb) as (sg & -> & _). eauto. }
  { intros b Hb. destruct (Hsegs b Hb) as (sg & -> & _). eauto. }
  - rewrite Hrun. cbn [mbind res_bind].
    destruct (grow_arena_run i bin s L a) as [[Hg Href]|(b & sg & r & s1 & s2 & Hq & Hlk & Hth & Hsg & Har & [a' Ha'] & Hpg & Hg)];
      try done; rewrite Hg; [by exists None, s|].
    exists (Some r), s2. split; [done|].
    destruct (page_from_segment i b sg bin r s1 s2 L a') as (s3 & slot & s4 & H1 & H2 & H3 & H4); try done; [apply Hq..|].
    exists s3, slot, s4. split_and!; [done|done|congruence|by eapply arena_post_pre].
  - rewrite Hrun. cbn [mbind res_bind]. exists (Some r), s1. split; [done|].
    destruct (Hsegs b Hb) as (sg & Hsg & Har). by eapply page_from_segment.
Qed.

Lemma arena_alloc_run i bin s L :
  slab_inv s L → ctl_inv s → locks s !! i = Some false → (i < 4)%nat →
  0 ∈ g_segment_registry (mc_g s) → slab_bin bin →
  ∃ slot z s', arena_alloc i bin s = Ok (slot, z, s') ∧ locks s' = locks s ∧
    arena_outcome bin slot z s L s'.
Proof.
  intros Hs Hc Hlock Hi Hfree Hbin. destruct (arena_lookup s i Hc Hi) as [a0 Ha0].
  assert (ar_lock a0 = false) as Hl0.
  { unfold locks in Hlock. rewrite list_lookup_fmap, Ha0 in Hlock. by injection Hlock. }
  unfold arena_alloc. rewrite (locks_lock s i a0) by done. cbn [mbind res_bind].
  destruct (lock_quiet s L i true Hs Hc) as [Hq0 Hth0].
  assert (locks (upd_arena i (λ a, a <| ar_lock := true |>) s) = <[i := true]> (locks s)) as Hlk0.
  { apply locks_set. }
  assert (0 ∈ g_segment_registry (mc_g (upd_arena i (λ a, a <| ar_lock := true |>) s))) as Hfree0 by done.
  set (s0 := upd_arena i (λ a, a <| ar_lock := true |>) s) in *. clearbody s0.
  pose proof (qu_slab _ _ _ _ Hq0) as Hs0. pose proof (qu_ctl _ _ _ _ Hq0) as Hc0.
  destruct (arena_lookup s0 i Hc0 Hi) as [a Ha]. rewrite Ha. cbn [deref mbind res_bind].
  rewrite u8_small by (destruct Hbin as [? _]; config; lia).
  destruct (arena_bin s0 i a bin Hc0 Ha Hbin) as (head & l & -> & Hl & Hnd & Hact).
  cbn [deref mbind res_bind].
  destruct (scan_bin_run (page_fuel s0) s0 head l Hl) as (found & -> & Hfound).
  { unfold page_fuel. change (Z.to_nat PAGES_PER_SEGMENT) with 64%nat.
    apply Nat.le_le_succ_r, (refs_length s0 L); [done..|].
    intros r Hr. destruct (active_page_lookup s0 i (Z.to_nat bin) r) as (p & -> & _); eauto. }
  cbn [mbind res_bind]. destruct found as [r|].
  - destruct (Hfound r eq_refl) as (Hr & p & Hp & _ & Hlt).
    destruct (active_page_lookup s0 i (Z.to_nat bin) r (Hact r Hr)) as (p' & Hp' & Hst & Hb').
    assert (p' = p) as -> by congruence. rewrite Z2Nat.id in Hb' by (destruct Hbin; lia).
    destruct (bump_from_post i r bin p s0 L) as (slot & s' & -> & Hlk & Hpost); try done.
    cbn [mbind res_bind]. eexists slot, _, _. split; [done|]. split.
    + apply (locks_lock_unlock s); [done|congruence].
    + right. split; [done|]. apply arena_post_unlock. by eapply arena_post_pre.
  - destruct (arena_refill i bin a s0 L) as (o & s1 & Hrun & Ho); try done.
    apply res_bind_Ok in Hrun as ([np sx] & -> & Hm). cbn [mbind res_bind]. rewrite Hm.
    cbn [mbind res_bind]. destruct o as [r|].
    + destruct Ho as (s2 & slot & s3 & -> & Hbump & Hlk & Hpost). cbn [mbind res_bind]. rewrite Hbump.
      cbn [mbind res_bind]. eexists slot, _, _. split; [done|]. split.
      * apply (locks_lock_unlock s); [done|congruence].
      * right. split; [done|]. apply arena_post_unlock. by eapply arena_post_pre.
    + destruct Ho as [-> Href]. eexists 0, _, _. split; [done|]. split; [by apply (locks_lock_unlock s)|].
      left. destruct (lock_quiet s0 L i false Hs0 Hc0) as [Hq1 Hth1].
      split_and!; [done|done|by eapply quiet_trans|by eapply same_threads_trans|exact Href].
Qed.

End Arena.
