(* ===== verification/SlabCorrect.v ===== *)
(** * Correctness of the slab allocator (src/slab.c, src/arena.c)

    [slab_free] and [slab_alloc] on a machine that satisfies the heap
    invariant: they return, they keep the invariant, and the blocks callers
    hold change by exactly the one allocated or freed. *)
From S2P Require Import Prelude Config Mem Atomic SizeClass Types Os Page Registry Segment Debug Tld Arena Large Slab Heap HeapOps CtlOps ArenaCorrect.
Import SizeClass Registry.

(** From [s] to [s'] the block at [a] disappears, and nothing else. *)
Record shrinks (a : Z) (s : machine) (L : live_map) (s' : machine) (L' : live_map) : Prop := {
  sh_blocks x n : block s' L' x n ↔ block s L x n ∧ x ≠ a;
  sh_bytes x n b : block s L x n → x ≠ a → in_range b x n → load8 (mc_mem s') b = load8 (mc_mem s) b
}.

Section Correct.
Context `{E : Env} {EL : EnvLaws E}.
Implicit Types (s : machine) (L : live_map) (r : page_ref).

(** Making the thread's data does not look at the pages. *)
Lemma os_mmap_upd_page r f size al s :
  os_mmap_aligned size al (upd_page r f s) =
    let '(p, s') := os_mmap_aligned size al s in (p, upd_page r f s').
Proof.
  unfold os_mmap_aligned, sys_mmap. simpl.
  destruct (al <=? getpagesize), (mmap_choose _ _); try done.
  by repeat destruct (_ <? _).
Qed.

Lemma tld_get_upd_page r f tid s :
  tld_get tid (upd_page r f s) = let '(t, s') := tld_get tid s in (t, upd_page r f s').
Proof.
  unfold tld_get. rewrite os_mmap_upd_page. simpl.
  destruct (mc_specific s !! tid); [done|].
  change (malloc_is_initialized (upd_page r f s)) with (malloc_is_initialized s).
  destruct (negb (malloc_is_initialized s)).
  - unfold bootstrap_alloc. simpl.
    repeat match goal with |- context [if ?b then _ else _] => destruct b end; done.
  - destruct (os_mmap_aligned os_page_size os_page_size s) as [p s1].
    by destruct (p =? 0).
Qed.

Lemma upd_page_twice r p1 p2 s s' :
  mc_segs s' = mc_segs (upd_page r (λ _, p1) s) →
  mc_segs (upd_page r (λ _, p2) s') = mc_segs (upd_page r (λ _, p2) s).
Proof.
  intros Heq. unfold upd_page at 1, upd_seg. simpl. rewrite Heq. unfold upd_page, upd_seg. simpl.
  apply map_eq. intros b. destruct (decide (r.1 = b)) as [<-|]; [|by rewrite !lookup_alter_ne].
  rewrite !lookup_alter_eq. destruct (mc_segs s !! r.1) as [sg|]; [|done]. simpl. do 2 f_equal.
  apply list_eq. intros i. destruct (decide (r.2 = i)) as [<-|]; [|by rewrite !list_lookup_alter_ne].
  rewrite !list_lookup_alter_eq. by destruct (sg_pages sg !! r.2).
Qed.

(** The debug check before a free succeeds on a live slot. *)
Lemma debug_free_step m p lf rf live live1 a :
  page_inv m p lf rf live → live ≡ₚ a :: live1 → (malloc_debug = true → bitmap_ok p live) →
  ∃ p1, (if malloc_debug then debug_check_and_mark_freed p a else Ok p) = Ok p1 ∧
    same_slab p p1 ∧ page_inv m p1 lf rf (a :: live1) ∧
    pm_bump_offset p1 = pm_bump_offset p ∧ (malloc_debug = true → bitmap_ok p1 live1).
Proof.
  intros Hi Hperm Hb. pose proof (pi_geometry _ _ _ _ _ Hi) as Hg.
  pose proof (page_inv_live_perm _ _ _ _ _ _ Hperm Hi) as Hi1.
  destruct malloc_debug; [|exists p; by split_and!]. specialize (Hb eq_refl).
  assert (a ∈ touched p) as Ht by (apply (page_inv_touched _ _ _ _ _ Hi1); set_solver).
  destruct (touched_index p a Hg Ht) as (k & Hk & ->).
  destruct (debug_check_freed_ok p live Hg Hb k live1 Hk Hperm) as (b & Hrun & Hb').
  { pose proof (page_inv_NoDup _ _ _ _ _ Hi) as Hnd. rewrite app_assoc in Hnd.
    by apply NoDup_app in Hnd as (_ & _ & ?). }
  eexists. split; [exact Hrun|]. split_and!; try done. by apply page_inv_bitmap.
Qed.

(** The two ways of giving a live slot back, from the page's point of view. *)
Lemma free_slot_inv (local : bool) m p lf rf live a :
  page_inv m p lf rf (a :: live) → bytes m →
  let '(m', p') := if local then page_free_slot_local m p a else page_free_slot_remote m p a in
  same_slab p p' ∧ mem_frame [a] m m' ∧ bytes m' ∧ pm_bump_offset p' = pm_bump_offset p ∧
  pm_debug_bitmap p' = pm_debug_bitmap p ∧ ∃ lf' rf', page_inv m' p' lf' rf' live.
Proof.
  intros Hi Hby. destruct local.
  - pose proof (page_free_slot_local_inv _ _ _ _ _ _ Hi) as H.
    destruct (page_free_slot_local m p a) as [m' p'] eqn:Hrun. destruct H as [Hm Hi'].
    assert (p' = snd (page_free_slot_local m p a)) as Hp' by (by rewrite Hrun).
    split_and!; try (by rewrite Hp'); [| |by eauto].
    + intros b Hb. rewrite Hm. apply load8_store64_out, Hb. set_solver.
    + rewrite Hm. by apply bytes_store64.
  - pose proof (page_free_slot_remote_inv _ _ _ _ _ _ Hi) as H.
    destruct (page_free_slot_remote m p a) as [m' p'] eqn:Hrun. destruct H as [Hm Hi'].
    assert (p' = snd (page_free_slot_remote m p a)) as Hp' by (by rewrite Hrun).
    unfold page_free_slot_remote in Hp'.
    destruct (treiber_push m (pm_remote_free p) a 0) as [m2 h2]. simpl in Hp'.
    split_and!; try (by rewrite Hp'); [| |by eauto].
    + intros b Hb. rewrite Hm. apply load8_store64_out, Hb. set_solver.
    + rewrite Hm. by apply bytes_store64.
Qed.

(** The step both kinds of free make: page [r] of [s1] gets the metadata
    [p2] and memory [m2], in which the slot [a] is free again. *)
Lemma free_step s1 s2 L r p p2 live live1 lf rf a :
  slab_inv s1 L → ctl_inv s1 → lookup_page s1 r = Some p → pm_state p = PAGE_ACTIVE →
  L !! r = Some live → live ≡ₚ a :: live1 → same_slab p p2 →
  page_inv (mc_mem s2) p2 lf rf live1 → (malloc_debug = true → bitmap_ok p2 live1) →
  mem_frame [a] (mc_mem s1) (mc_mem s2) → bytes (mc_mem s2) →
  mc_segs s2 = mc_segs (upd_page r (λ _, p2) s1) → same_shape s1 s2 → locks s2 = locks s1 →
  mc_mapped s2 = mc_mapped s1 → g_tables (mc_g s2) = g_tables (mc_g s1) →
  g_segment_registry (mc_g s2) = g_segment_registry (mc_g s1) →
  large_view s2 = large_view s1 → g_initialized (mc_g s2) = g_initialized (mc_g s1) →
  slab_inv s2 (<[r := live1]> L) ∧ ctl_inv s2 ∧ shrinks a s1 L s2 (<[r := live1]> L) ∧ outside s1 s2.
Proof.
  intros Hs Hc Hp Hst HL Hperm Hss Hi Hb Hfr Hby Hsegs Hsh Hlk Hmap Ht Hreg Hlv Hin.
  apply same_slab_place in Hss as Hsp. assert (a ∈ live) as Ha by (rewrite Hperm; set_solver).
  destruct (slab_active s1 L r p Hs Hp Hst)
    as (sg & live0 & _ & _ & _ & _ & _ & HL2 & (_ & _ & _ & _ & _ & lf0 & rf0 & Hi0)).
  assert (live0 = live) as -> by congruence. clear HL2.
  assert (a ∈ touched p) as Hta.
  { apply (page_inv_touched _ _ _ _ _ Hi0). set_solver. }
  assert (∀ c, c ∈ [a] → c ∈ touched p) as Hl by set_solver.
  assert (same_world s1 s2) as Hw by (split; [done..|]; intros b; unfold is_mapped; by rewrite Hmap).
  assert (∀ x n, block s1 L x n → x ∈ live → x ≠ a → n = pm_slot_size p) as Hsz.
  { intros x n Hbl Hx _. destruct Hbl as (r2 & live2 & q & HL' & Hx2 & Hq & ->).
    destruct (live_in_page s1 L r2 live2 x) as (? & ? & ?); try done.
    destruct (live_in_page s1 L r live x) as (? & ? & ?); try done.
    assert (r2 = r) as -> by (by apply (page_addr_unique r2 r x)). congruence. }
  assert (NoDup live) as Hnd.
  { pose proof (page_inv_NoDup _ _ _ _ _ Hi0) as Hnd. rewrite app_assoc in Hnd.
    by apply NoDup_app in Hnd as (_ & _ & ?). }
  rewrite Hperm in Hnd. apply NoDup_cons in Hnd as [Hna _].
  assert (∀ x, x ∈ live ↔ x = a ∨ x ∈ live1) as Hlive by (intros x; rewrite Hperm; set_solver).
  split_and!.
  - by eapply (slot_step_inv s1 s2 L r p p2 live live1 lf rf [a]).
  - by rewrite <- Hsh.
  - split.
    + intros x n. rewrite (slot_step_blocks s1 s2 L r p p2 live live1) by done. split.
      * intros [[Hbl Hx]|[Hx ->]]; (split; [|intros ->; set_solver]); [done|].
        exists r, live, p. split_and!; try done. apply Hlive. by right.
      * intros [Hbl Hne]. destruct (decide (x ∈ live)) as [Hx|Hx]; [right|by left].
        split; [|by eapply Hsz]. apply Hlive in Hx as [->|?]; done.
    + intros x n b Hbl Hne Hb'. eapply (slot_step_bytes s1 s2 L r p p2 live [a]); try done. set_solver.
  - by eapply (slot_step_outside_all s1 s2 L r p p2 [a]).
Qed.

(** The common tail of both kinds of free. *)
Definition free_tail_spec s s1 L r p p1 live1 a (local : bool) : Prop :=
  let '(m, p2) := if local then page_free_slot_local (mc_mem s1) p1 a
                  else page_free_slot_remote (mc_mem s1) p1 a in
  let s2 := upd_page r (λ _, p2) (upd_page r (λ _, p1) s1 <| mc_mem := m |>) in
  same_slab p p2 ∧
  slab_inv s2 (<[r := live1]> L) ∧ ctl_inv s2 ∧ same_shape s1 s2 ∧ locks s2 = locks s1 ∧
  shrinks a s L s2 (<[r := live1]> L) ∧ outside s s2.

Lemma shrinks_calm a s L s1 s2 L2 : calm s L s1 → shrinks a s1 L s2 L2 → shrinks a s L s2 L2.
Proof.
  intros Hca [Sb Sm]. destruct (ca_grows _ _ _ Hca) as [Gb Gm]. split.
  - intros x n. rewrite Sb, Gb. unfold no_new. tauto.
  - intros x n b Hx Hne Hb. rewrite (Sm x n b), (Gm x n b); try done. apply Gb. by left.
Qed.

Lemma shrinks_calm_r a s L s1 L1 s2 : shrinks a s L s1 L1 → calm s1 L1 s2 → shrinks a s L s2 L1.
Proof.
  intros [Sb Sm] Hca. destruct (ca_grows _ _ _ Hca) as [Gb Gm]. split.
  - intros x n. rewrite Gb, Sb. unfold no_new. tauto.
  - intros x n b Hx Hne Hb. rewrite (Gm x n b), (Sm x n b); try done. by apply Sb.
Qed.

Lemma free_tail s s1 L r p p1 live live1 lf rf a local :
  calm s L s1 → lookup_page s1 r = Some p → pm_state p = PAGE_ACTIVE → L !! r = Some live →
  live ≡ₚ a :: live1 → same_slab p p1 → page_inv (mc_mem s1) p1 lf rf (a :: live1) →
  (malloc_debug = true → bitmap_ok p1 live1) → free_tail_spec s s1 L r p p1 live1 a local.
Proof.
  intros Hca Hp1 Hst HL Hperm Hss1 Hi1 Hbm1. pose proof (ca_slab _ _ _ Hca) as Hs1.
  unfold free_tail_spec. pose proof (free_slot_inv local _ _ _ _ _ _ Hi1 (si_bytes _ _ Hs1)) as Hfree.
  destruct (if local then _ else _) as [m p2].
  destruct Hfree as (Hss2 & Hfr & Hby & Hbo & Hbm2 & lf' & rf' & Hi2).
  assert (same_slab p p2) as Hss by (unfold same_slab in *; naive_solver congruence).
  set (s2 := upd_page r (λ _, p2) _). cbv zeta. split; [done|].
  assert (same_shape s1 s2) as Hsh.
  { etrans; [apply (upd_page_shape s1 r (λ _, p1))|etrans; [apply (set_mem_shape _ m)|apply upd_page_shape]].
    - intros q Hq. simplify_eq. unfold same_slab in Hss1. naive_solver.
    - intros q Hq. change (lookup_page (upd_page r (λ _, p1) s1) r = Some q) in Hq.
      rewrite lookup_upd_page_eq, Hp1 in Hq. simplify_eq/=. unfold same_slab in Hss2. naive_solver. }
  destruct (free_step s1 s2 L r p p2 live live1 lf' rf' a) as (H1 & H2 & H3 & H4); try done.
  - apply Hca.
  - intros Hd. eapply bitmap_ok_ext; [done|..|by apply Hbm1]; by apply Hss2.
  - by eapply (upd_page_twice r p1 p2 s1).
  - split_and!; try done; [by eapply shrinks_calm|]. etrans; [apply Hca|done].
Qed.

(** The test that tells a local free from a remote one, and who passes it. *)
Lemma free_owner s tld p p1 r :
  ctl_inv s → lookup_page s r = Some p → pm_state p = PAGE_ACTIVE → pm_owner_tid p1 = pm_owner_tid p →
  (tld ≠ 0 → is_Some (mc_tlds s !! tld)) →
  ∃ o, (if tld =? 0 then Ok false else
        t ← deref (mc_tlds s !! tld); Ok (pm_owner_tid p1 =? td_thread_id t)) = Ok o ∧
    (o = true → ∃ t, mc_tlds s !! tld = Some t ∧ is_Some (td_arena t)).
Proof.
  intros Hc Hp Hst Ho Ht. destruct (Z.eqb_spec tld 0) as [|H0]; [by exists false|].
  destruct (Ht H0) as [t Ht']. rewrite Ht'. eexists. split; [done|]. intros Heq%Z.eqb_eq. exists t. split; [done|].
  destruct (tld_inv_of s tld t Hc Ht') as [_ _ _ _ Hown].
  apply (Hown r (pm_next p) (pm_bin_idx p) (pm_arena p)). apply page_link_Some. exists p.
  split; [done|]. rewrite Hst, <- Heq. congruence.
Qed.

(** What is left of [slab_free] after the test. *)
Lemma free_finish s s1 L r p p1 live1 a tld (o : bool) :
  calm s L s1 → free_tail_spec s s1 L r p p1 live1 a o →
  (o = true → ∃ t, mc_tlds s1 !! tld = Some t ∧ is_Some (td_arena t)) →
  ∃ s', (if o then
      let '(m, p) := page_free_slot_local (mc_mem s1) p1 a in
      tld_stat_free tld (pm_slot_size p) (upd_page r (λ _, p) (upd_page r (λ _, p1) s1 <| mc_mem := m |>))
    else
      let '(m, p) := page_free_slot_remote (mc_mem s1) p1 a in
      let s := upd_page r (λ _, p) (upd_page r (λ _, p1) s1 <| mc_mem := m |>) in
      match pm_arena p with
      | None => Ok s
      | Some i => Ok (upd_arena i (λ a, a <| ar_freed ::= λ x, add64 x (pm_slot_size p) |>
                                         <| ar_free_count ::= λ x, add64 x 1 |>) s)
      end) = Ok s' ∧
    slab_inv s' (<[r := live1]> L) ∧ ctl_inv s' ∧ locks s' = locks s ∧
    shrinks a s L s' (<[r := live1]> L) ∧ outside s s'.
Proof.
  unfold free_tail_spec. intros Hca Htail Ho.
  assert (∀ s2 s3, locks s2 = locks s1 → shrinks a s L s2 (<[r := live1]> L) → outside s s2 →
    calm s2 (<[r := live1]> L) s3 → slab_inv s3 (<[r := live1]> L) ∧ ctl_inv s3 ∧ locks s3 = locks s ∧
    shrinks a s L s3 (<[r := live1]> L) ∧ outside s s3) as Hend.
  { intros s2 s3 Hlk Hshr Hout Hca3. split_and!; [apply Hca3..| | |].
    - by rewrite (ca_locks _ _ _ Hca3), Hlk, (ca_locks _ _ _ Hca).
    - by eapply shrinks_calm_r.
    - etrans; [done|apply Hca3]. }
  destruct o; [destruct (page_free_slot_local _ _ _) as [m p2]|destruct (page_free_slot_remote _ _ _) as [m p2]];
    destruct Htail as (Hss & Hs2 & Hc2 & Hsh & Hlk & Hshr & Hout); set (s2 := upd_page r _ _) in *.
  - destruct (Ho eq_refl) as (t & Ht & Har).
    destruct (tld_stat_add_calm s2 (<[r := live1]> L) tld t
      (λ t, t <| td_stat_freed ::= λ x, add64 x (pm_slot_size p2) |>
              <| td_stat_free_count ::= λ x, add64 x 1 |>)) as (s3 & Hrun & _ & Hca3); try done.
    exists s3. split; [done|]. by eapply Hend.
  - destruct (pm_arena p2) as [i|]; eexists; (split; [done|]).
    + eapply Hend; [done..|]. by apply upd_arena_calm.
    + eapply Hend; [done..|]. by apply calm_refl.
Qed.

Lemma slab_free_run tid a n s L :
  slab_inv s L → ctl_inv s → malloc_is_initialized s = true →
  mc_thread_id_counter s < UINT32_MAX → block s L a n →
  ∃ s' L', slab_free tid a s = Ok s' ∧ slab_inv s' L' ∧ ctl_inv s' ∧ locks s' = locks s ∧
    shrinks a s L s' L' ∧ outside s s'.
Proof.
  intros Hs Hc Hinit Hcnt Hbl.
  destruct (block_place s L a n Hs Hbl)
    as (r & p & live & HL & Hp & Ha & -> & Hst & Hpl & Hlt & _ & Hlo & Hhi & Hn16 & _ & Ha0).
  destruct (ptr_to_page_in s L r p a Hs Hp) as [Hseg Hpage]; [unfold in_range; lia|].
  unfold slab_free. destruct (Z.eqb_spec a 0); [lia|]. rewrite Hseg, Hpage.
  destruct Hpl as (Hr0 & _). destruct (Z.eqb_spec r.1 0); [lia|].
  rewrite Hp. cbn [deref mbind res_bind]. rewrite decide_False by congruence.
  destruct (tld_get tid s) as [tld s1] eqn:Htld.
  destruct (tld_get_calm tid s L tld s1) as (Hca & _ & _ & Hcase); try done.
  pose proof (ca_slab _ _ _ Hca) as Hs1. pose proof (ca_ctl _ _ _ Hca) as Hc1.
  assert (lookup_page s1 r = Some p) as Hp1 by (unfold lookup_page; by rewrite (ca_segs _ _ _ Hca)).
  destruct (slab_active s1 L r p Hs1 Hp1 Hst)
    as (sg & live0 & _ & _ & _ & _ & _ & HL0 & (_ & _ & _ & _ & Hbm & lf & rf & Hi)).
  assert (live0 = live) as -> by congruence.
  destruct (proj1 (elem_of_Permutation live a) Ha) as [live1 Hperm].
  destruct (debug_free_step _ _ _ _ _ _ _ Hi Hperm Hbm) as (p1 & -> & Hss1 & Hi1 & Hbo1 & Hbm1).
  cbn [mbind res_bind]. rewrite tld_get_upd_page, Htld.
  destruct (free_owner s1 tld p p1 r) as (o & Ho & Harena); [done|done|done|by apply Hss1| |].
  { intros H0. by destruct Hcase as [[? _]|(_ & _ & ?)]. }
  change (mc_tlds (upd_page r (λ _, p1) s1)) with (mc_tlds s1). rewrite Ho. cbn [mbind res_bind].
  change (mc_mem (upd_page r (λ _, p1) s1)) with (mc_mem s1).
  destruct (free_finish s s1 L r p p1 live1 a tld o) as (s' & Hrun & H); [done|by eapply free_tail|done|].
  exists s', (<[r := live1]> L). by split.
Qed.

(** ** Claiming a page *)
Lemma ctl_set_owner s r p tld t :
  ctl_inv s → lookup_page s r = Some p → pm_owner_tid p = UINT32_MAX →
  mc_tlds s !! tld = Some t → is_Some (td_arena t) →
  ctl_inv (upd_page r (λ p, p <| pm_owner_tid := td_thread_id t |>) s).
Proof.
  intros [H1 H2 H3 H4 H5 H6 Hid H7 H8 H9] Hp Hown Ht Har. set (s' := upd_page _ _ _).
  assert (tld_link s tld = Some (td_arena t, td_thread_id t, td_bin_page t)) as Htl
    by (unfold tld_link; by rewrite Ht).
  pose proof (H6 _ _ _ _ Htl) as [_ Hidr _ _ _].
  assert (∀ r', page_link s' r' = if decide (r' = r)
    then Some (pm_next p, pm_state p, pm_bin_idx p, pm_arena p, td_thread_id t) else page_link s r') as Hpg.
  { intros r'. unfold page_link, s'. destruct (decide (r' = r)) as [->|].
    - by rewrite lookup_upd_page_eq, Hp.
    - by rewrite lookup_upd_page_ne. }
  assert (page_link s r = Some (pm_next p, pm_state p, pm_bin_idx p, pm_arena p, UINT32_MAX)) as Hr.
  { unfold page_link. by rewrite Hp, <- Hown. }
  assert (∀ r' n st b a o, page_link s r' = Some (n, st, b, a, o) →
    ∃ o', page_link s' r' = Some (n, st, b, a, o')) as Hfwd.
  { intros r' n st b a o Hl. rewrite Hpg. destruct (decide (r' = r)) as [->|]; [|eauto].
    rewrite Hr in Hl. injection Hl as <- <- <- <- <-. eauto. }
  assert (∀ b, seg_link s' b = seg_link s b) as Hsl.
  { intros b. unfold seg_link, s', upd_page, upd_seg. simpl. rewrite lookup_alter.
    destruct (decide _) as [->|]; [|done]. by destruct (mc_segs s !! b). }
  split; try done.
  - intros i bins segs Ha. destruct (H3 i bins segs Ha) as [A1 A2 A3]. split; [done| |].
    + intros b0 h Hh. destruct (A2 b0 h Hh) as (l & Hl & Hnd & Hact). exists l. split_and!; [|done|].
      * eapply chain_ext; [|done]. intros r' Hr'. destruct (Hact r' Hr') as (n & o & Hlk).
        unfold page_next. rewrite Hlk. by destruct (Hfwd _ _ _ _ _ _ Hlk) as [o' ->].
      * intros r' Hr'. destruct (Hact r' Hr') as (n & o & Hlk). exists n. by eapply Hfwd.
    + destruct A3 as (l & Hl & Hnd & Hal). exists l. split_and!; [|done|].
      * eapply chain_ext; [|done]. intros b _. unfold seg_next. by rewrite Hsl.
      * intros b Hb. rewrite Hsl. by apply Hal.
  - intros b n ar. rewrite Hsl. apply H4.
  - intros a arena id cache Ha. destruct (H6 a arena id cache Ha) as [T1 T2 T3 T4 T5]. split; try done.
    + intros bin r' Hc'. destruct (T4 bin r' Hc') as (? & n & ar & Hlk). split; [done|]. exists n, ar.
      rewrite Hpg, decide_False; [done|]. intros ->. rewrite Hr in Hlk. injection Hlk as _ _ _ _ <-. 
      unfold UINT32_MAX in *. lia.
    + intros r' n b ar. rewrite Hpg. destruct (decide (r' = r)); [|apply T5]. intros [= _ _ _ _ <-].
      assert (a = tld) as -> by (by eapply Hid). change (tld_link s tld = Some (arena, td_thread_id t, cache)) in Ha.
      rewrite Htl in Ha. by injection Ha as <- _.
  - intros r' n b a o. rewrite Hpg. destruct (decide (r' = r)); [|apply H8]. intros [= _ _ _ _ <-]. by right.
Qed.

Lemma ctl_set_cache s r p tld t bin :
  ctl_inv s → lookup_page s r = Some p → pm_state p = PAGE_ACTIVE → pm_bin_idx p = Z.of_nat bin →
  pm_owner_tid p = td_thread_id t → mc_tlds s !! tld = Some t → is_Some (td_arena t) →
  ctl_inv (upd_tld tld (λ t, t <| td_bin_page ::= <[bin := Some r]> |>) s).
Proof.
  intros Hc Hp Hst Hb Hown Ht Har. apply (ctl_inv_upd_tld s tld _ t Hc Ht); [done|].
  destruct (tld_inv_of s tld t Hc Ht) as [T1 T2 T3 T4 T5]. split; simpl; try done.
  - by rewrite length_insert.
  - intros b0 r0. rewrite list_lookup_insert_Some. intros [(<- & [= <-] & _)|[_ Hr0]]; [|by apply T4].
    split; [done|]. exists (pm_next p), (pm_arena p). apply page_link_Some. exists p. split; [done|]. congruence.
Qed.

Lemma claim_page_run tld t bin slot s L :
  slab_inv s L → ctl_inv s → slab_bin bin → slot ≠ 0 → slot_page bin slot s →
  mc_tlds s !! tld = Some t → is_Some (td_arena t) →
  ∃ s', claim_page tld bin slot s = Ok s' ∧ quiet s L s' L ∧ locks s' = locks s.
Proof.
  intros Hs Hc [Hbin _] H0 (r & p & Hp & Hst & Hb & Hin) Ht Har. unfold claim_page.
  destruct (Z.eqb_spec slot 0); [done|]. simpl orb.
  destruct (Z.eqb_spec tld 0); [exists s; split_and!; try done; by split; try apply grows_refl|].
  destruct (ptr_to_page_in s L r p slot Hs Hp Hin) as [_ ->].
  rewrite Hp, Ht. cbn [deref mbind res_bind]. rewrite <- (Z2Nat.id bin) in Hb by lia.
  destruct (Z.eqb_spec (pm_owner_tid p) UINT32_MAX) as [Hown|Hown].
  - eexists. split; [reflexivity|]. split; [|done].
    rewrite (upd_page_const s r p) by done. set (p1 := p <| pm_owner_tid := td_thread_id t |>).
    pose proof (ctl_set_owner s r p tld t Hc Hp Hown Ht Har) as Hc1.
    rewrite (upd_page_const s r p) in Hc1 by done. fold p1 in Hc1.
    destruct (relink_step s L r p p1 Hs Hp Hst) as (D1 & D2 & D3); [by destruct p|].
    set (s1 := upd_page r (λ _, p1) s) in *.
    assert (lookup_page s1 r = Some p1) as Hp1 by (unfold s1; by rewrite lookup_upd_page_eq, Hp).
    assert (mc_tlds s1 !! tld = Some t) as Ht1 by done. clearbody s1.
    eapply quiet_trans; [by split|]. apply calm_quiet, calm_ctl; try done.
    by apply (ctl_set_cache s1 r p1 tld t).
  - destruct (Z.eqb_spec (pm_owner_tid p) (td_thread_id t)).
    + eexists. split; [reflexivity|]. split; [|done]. apply calm_quiet, calm_ctl; try done.
      by apply (ctl_set_cache s r p tld t).
    + exists s. split_and!; try done. by apply calm_quiet, calm_refl.
Qed.

(** ** The fast path *)
Lemma page_collect_bytes m p m' p' :
  bytes m → page_collect_remote m p = Ok (m', p') → bytes m'.
Proof.
  intros Hb. unfold page_collect_remote. destruct (treiber_collect _) as [lst h].
  destruct (lst =? 0); [by intros [= <- _]|]. intros H. inv_res. by apply bytes_store64.
Qed.

Section Fast.
Context (tld : Z) (t : tld_t) (s : machine) (L : live_map) (r : page_ref) (p : page_meta_t) (bin : Z).
Context (live lf rf : list Z).
Context (Hs : slab_inv s L) (Hc : ctl_inv s).
Context (Ht : mc_tlds s !! tld = Some t) (Har : is_Some (td_arena t)).
Context (Hp : lookup_page s r = Some p) (Hst : pm_state p = PAGE_ACTIVE) (Hbin : pm_bin_idx p = bin).
Context (HL : L !! r = Some live) (Hbm : malloc_debug = true → bitmap_ok p live).
Context (Hi : page_inv (mc_mem s) p lf rf live).

(** Taking [slot], already moved to the live slots of [p1]. *)
Lemma finish_fast_run slot p1 lf1 rf1 z :
  same_slab p p1 → pm_debug_bitmap p1 = pm_debug_bitmap p →
  page_inv (mc_mem s) p1 lf1 rf1 (slot :: live) →
  (z = Some true → ∀ b, in_range b slot (pm_slot_size p) → load8 (mc_mem s) b = 0) →
  ∃ s' L', finish_fast tld r slot p1 s = Ok (slot, s') ∧ locks s' = locks s ∧
    alloc_ok bin slot z s L s' L'.
Proof.
  intros Hss Hbit Hi1 Hz. unfold finish_fast.
  destruct (debug_mark_step _ _ _ _ _ _ Hi1) as (b & -> & Hbm2).
  { intros Hd. eapply bitmap_ok_ext; [done|..|by apply Hbm]; by apply Hss. }
  cbn [mbind res_bind]. set (p2 := p1 <| pm_debug_bitmap := b |>) in *.
  assert (same_slab p p2) as Hss2 by done.
  set (s1 := upd_page r (λ _, p2) s).
  assert (same_shape s s1) as Hsh.
  { apply upd_page_shape. intros q Hq. assert (q = p) as -> by congruence.
    destruct Hss2 as (? & ? & ? & ? & ? & ? & ? & ? & ? & ? & ?). by split_and!. }
  assert (alloc_ok bin slot z s L s1 (<[r := slot :: live]> L)) as Hok.
  { eapply (take_step s s1 L r p p2 live lf1 rf1 slot []); try done;
      [by apply page_inv_bitmap|apply Hs|set_solver]. }
  destruct (tld_stat_add_calm s1 (<[r := slot :: live]> L) tld t
    (λ t, t <| td_stat_allocated ::= λ x, add64 x (pm_slot_size p2) |>
            <| td_stat_alloc_count ::= λ x, add64 x 1 |>)) as (s2 & Hrun & _ & Hca); [apply Hok..|done|done|done|].
  unfold tld_stat_alloc. rewrite Hrun. cbn [mbind res_bind].
  exists s2, (<[r := slot :: live]> L). split_and!; [done|by rewrite (ca_locks _ _ _ Hca)|].
  by eapply alloc_ok_post, calm_quiet.
Qed.

Lemma fast_pop :
  pm_local_free p ≠ 0 →
  let '(slot, p1) := pop_local_free (mc_mem s) p in
  slot ≠ 0 ∧ ∃ s' L', finish_fast tld r slot p1 s = Ok (slot, s') ∧ locks s' = locks s ∧
    alloc_ok bin slot (Some false) s L s' L'.
Proof.
  intros H0. destruct (is_list_cons _ _ _ (pi_local _ _ _ _ _ Hi) H0) as (lf' & Hlf & _).
  pose proof Hi as Hi0. rewrite Hlf in Hi0.
  destruct (pop_local_free_inv _ _ _ _ _ _ Hi0) as [Heq Hi1]. rewrite Heq.
  split; [done|]. by eapply finish_fast_run.
Qed.

Lemma fast_bump :
  pm_bump_offset p < pm_bump_end p →
  let '(slot, p1) := bump_slot p in
  slot ≠ 0 ∧ ∃ s' L', finish_fast tld r slot p1 s = Ok (slot, s') ∧ locks s' = locks s ∧
    alloc_ok bin slot (Some true) s L s' L'.
Proof.
  intros Hlt. destruct (bump_slot_inv _ _ _ _ _ Hi Hlt) as (Heq & Hi1 & Hz & _). rewrite Heq.
  pose proof (pg_addr p ltac:(apply Hi)). pose proof (pg_bump p ltac:(apply Hi)).
  split; [lia|]. by eapply finish_fast_run.
Qed.

(** Collecting the remote frees is a step without effect on the blocks. *)
Lemma fast_collect :
  ∃ m p1, page_collect_remote (mc_mem s) p = Ok (m, p1) ∧ same_slab p p1 ∧
    (malloc_debug = true → bitmap_ok p1 live) ∧ page_inv m p1 (rf ++ lf) [] live ∧
    let s1 := upd_page r (λ _, p1) (s <| mc_mem := m |>) in
    quiet s L s1 L ∧ same_shape s s1 ∧ lookup_page s1 r = Some p1.
Proof.
  destruct (page_collect_remote_inv _ _ _ _ _ Hi) as (m & p1 & Hrun & Hi1 & Hfr & Heq).
  assert (same_slab p p1) as Hss by (rewrite Heq; done).
  exists m, p1. split_and!; [done|done|by rewrite Heq|done|]. set (s1 := upd_page _ _ _).
  assert (same_shape s s1) as Hsh.
  { etrans; [apply (set_mem_shape _ m)|apply upd_page_shape]. intros q Hq.
    change (lookup_page s r = Some q) in Hq. assert (q = p) as -> by congruence.
    destruct Hss as (? & ? & ? & ? & ? & ? & ? & ? & ? & ? & ?). by split_and!. }
  assert (∀ a, a ∈ rf → a ∈ touched p) as Htl.
  { intros a Ha. apply (page_inv_touched _ _ _ _ _ Hi). set_solver. }
  assert (∀ a, a ∈ live → a ∉ rf) as Hdis.
  { intros a Ha Hrf. pose proof (page_inv_NoDup _ _ _ _ _ Hi) as Hnd.
    apply NoDup_app in Hnd as (_ & _ & (_ & Hd & _)%NoDup_app). by apply (Hd a). }
  assert (<[r := live]> L = L) as HLL by (by apply insert_id).
  assert (bytes m) as Hby by (eapply page_collect_bytes; [apply Hs|done]).
  split_and!; [|done|].
  - split; [rewrite <- HLL| |rewrite <- HLL at 2|].
    + eapply (slot_step_inv s s1 L r p p1 live live _ _ rf); try done;
        [by apply same_slab_place|by rewrite Heq..].
    + by rewrite <- Hsh.
    + eapply (slot_step_grows s s1 L r p p1 live live _ _ rf); try done;
        [by apply same_slab_place|by rewrite Heq|]. intros a n. unfold no_new. tauto.
    + eapply (slot_step_outside_all s s1 L r p p1 rf); done.
  - unfold s1. rewrite lookup_upd_page_eq. change (lookup_page (s <| mc_mem := m |>) r) with (lookup_page s r).
    by rewrite Hp.
Qed.

End Fast.

(** What the slow path needs of the state the fast path leaves. *)
Record handover (s : machine) (L : live_map) (s' : machine) : Prop := {
  ho_quiet : quiet s L s' L;
  ho_specific : mc_specific s' = mc_specific s;
  ho_counter : mc_thread_id_counter s' = mc_thread_id_counter s;
  ho_next : g_arena_next (mc_g s') = g_arena_next (mc_g s);
  ho_registry : g_segment_registry (mc_g s') = g_segment_registry (mc_g s)
}.

Lemma slab_alloc_fast_run tld bin s L :
  slab_inv s L → ctl_inv s → slab_bin bin → (tld ≠ 0 → is_Some (mc_tlds s !! tld)) →
  ∃ o s', slab_alloc_fast tld bin s = Ok (o, s') ∧ locks s' = locks s ∧
    match o with
    | Some (slot, z) => slot ≠ 0 ∧ ∃ L', alloc_ok bin slot z s L s' L'
    | None => handover s L s'
    end.
Proof.
  intros Hs Hc [Hbin _] Htld. unfold slab_alloc_fast.
  assert (handover s L s) as Hrefl by (split; [by apply calm_quiet, calm_refl|done..]).
  destruct (Z.eqb_spec tld 0) as [|H0]; [by exists None, s|].
  destruct (Htld H0) as [t Ht]. rewrite Ht. cbn [deref mbind res_bind].
  pose proof (tld_inv_of s tld t Hc Ht) as [T1 T2 T3 T4 T5].
  destruct (td_bin_page t !! Z.to_nat bin) as [[r|]|] eqn:Hcache; cbn [default from_option id];
    [|by exists None, s..].
  destruct (T4 _ _ Hcache) as (Har & n & ar & (p & Hp & Heq)%page_link_Some).
  injection Heq as -> Hst Hb -> Hid. symmetry in Hst, Hb. rewrite Z2Nat.id in Hb by lia.
  rewrite Hp. cbn [deref mbind res_bind]. rewrite bool_decide_eq_true_2 by done. cbn [negb].
  destruct (slab_active s L r p Hs Hp Hst)
    as (sg & live & _ & _ & _ & _ & _ & HL & (_ & _ & _ & _ & Hbm & lf & rf & Hi)).
  destruct (Z.eqb_spec (pm_local_free p) 0) as [E0|E0]; cbn [negb].
  2: { pose proof (fast_pop tld t s L r p bin live lf rf Hs Hc Ht Har Hp Hst Hb HL Hbm Hi E0) as Hpop.
       destruct (pop_local_free _ _) as [slot p1]. destruct Hpop as (Hn0 & s' & L' & -> & Hlk & Hok).
       cbn [mbind res_bind]. eexists _, s'. split; [done|]. split; [done|]. eauto. }
  destruct (Z.ltb_spec (pm_bump_offset p) (pm_bump_end p)) as [Hlt|Hge].
  { pose proof (fast_bump tld t s L r p bin live lf rf Hs Hc Ht Har Hp Hst Hb HL Hbm Hi Hlt) as Hbump.
    destruct (bump_slot _) as [slot p1]. destruct Hbump as (Hn0 & s' & L' & -> & Hlk & Hok).
    cbn [mbind res_bind]. eexists _, s'. split; [done|]. split; [done|]. eauto. }
  destruct (fast_collect tld t s L r p live lf rf Hs Hc Ht Har Hp Hst HL Hbm Hi)
    as (m & p1 & -> & Hss & Hbm1 & Hi1 & Hq & Hsh & Hp1). cbn [mbind res_bind].
  set (s1 := upd_page r (λ _, p1) (s <| mc_mem := m |>)) in *.
  assert (pm_state p1 = PAGE_ACTIVE ∧ pm_bin_idx p1 = bin) as [Hst1 Hb1]
    by (unfold same_slab in Hss; split; naive_solver congruence).
  pose proof (qu_slab _ _ _ _ Hq) as Hs1. pose proof (qu_ctl _ _ _ _ Hq) as Hc1.
  assert (mc_tlds s1 !! tld = Some t) as Ht1 by done.
  assert (page_inv (mc_mem s1) p1 (rf ++ lf) [] live) as Hi2 by done.
  destruct (Z.eqb_spec (pm_local_free p1) 0) as [E1|E1]; cbn [negb].
  - eexists None, _. split; [done|]. split; [done|].
    assert (calm s1 L (upd_tld tld (λ t, t <| td_bin_page ::= <[Z.to_nat bin := None]> |>) s1)) as Hca.
    { apply calm_ctl; try done. by eapply ctl_inv_drop_cache. }
    split; try done. eapply quiet_trans; [exact Hq|]. by apply calm_quiet.
  - pose proof (fast_pop tld t s1 L r p1 bin live (rf ++ lf) [] Hs1 Hc1 Ht1 Har Hp1 Hst1 Hb1 HL Hbm1 Hi2 E1) as Hpop.
    destruct (pop_local_free _ _) as [slot p2]. destruct Hpop as (Hn0 & s' & L' & -> & Hlk & Hok).
    cbn [mbind res_bind]. eexists _, s'. split; [done|]. split; [done|]. split; [done|].
    exists L'. by eapply alloc_ok_pre.
Qed.

(** The two outcomes of an allocation from the slab. *)
Definition slab_outcome (bin slot : Z) (z : option bool) (s : machine) (L : live_map) (s' : machine) : Prop :=
  (slot = 0 ∧ quiet s L s' L ∧ segment_refused s') ∨ (slot ≠ 0 ∧ ∃ L', alloc_ok bin slot z s L s' L').

(** The slow path, from the state the fast path leaves. *)
Lemma slab_alloc_slow_run tid tld bin s L :
  slab_inv s L → ctl_inv s → unlocked s → malloc_is_initialized s = true →
  mc_thread_id_counter s < UINT32_MAX → g_arena_next (mc_g s) + 1 < 2 ^ 31 →
  0 ∈ g_segment_registry (mc_g s) → slab_bin bin → (tld = 0 ∨ mc_specific s !! tid = Some tld) →
  ∃ slot z s', ('(arena, s) ← arena_get tid s;
    match arena with
    | None => Ok (0, None, s)
    | Some i =>
        '(result, zeroed, s) ← arena_alloc i bin s;
        s ← claim_page tld bin result s;
        Ok (result, zeroed, s)
    end) = Ok (slot, z, s') ∧ locks s' = locks s ∧ slab_outcome bin slot z s L s'.
Proof.
  intros Hs Hc Hun Hinit Hcnt Hnext Hfree Hbin Htld.
  destruct (arena_get_run tid s L) as (i & s1 & -> & Hi & Hca & Hsp); try done. cbn [mbind res_bind].
  destruct (arena_lookup s1 i) as [a Ha]; [apply Hca|done|].
  destruct (arena_alloc_run i bin s1 L) as (slot & z & s2 & -> & Hlk & Hout); try done.
  { apply Hca. }
  { apply Hca. }
  { rewrite (ca_locks _ _ _ Hca). destruct (arena_lookup s i Hc Hi) as [a0 Ha0].
    assert (locks s !! i = Some (ar_lock a0)) as Hl by (unfold locks; by rewrite list_lookup_fmap, Ha0).
    by rewrite Hl, (Hun i _ Hl). }
  { by rewrite (ca_registry _ _ _ Hca). }
  cbn [mbind res_bind]. destruct Hout as [(-> & -> & Hq & Hth & Href)|(-> & H0 & [Hth _] & Hpg & L' & Hok)].
  - unfold claim_page. simpl orb. cbn [mbind res_bind]. eexists 0, _, s2. split; [done|].
    split; [by rewrite Hlk, (ca_locks _ _ _ Hca)|]. left.
    split_and!; [done| |done]. eapply quiet_trans; [by apply calm_quiet|done].
  - pose proof (alloc_ok_pre _ _ _ _ _ _ _ _ _ (calm_quiet _ _ _ Hca) Hok) as Hok2.
    destruct Htld as [->|Htld].
    + assert (claim_page 0 bin slot s2 = Ok s2) as -> by (unfold claim_page; by rewrite orb_true_r).
      cbn [mbind res_bind]. eexists slot, _, s2. split; [done|].
      split; [by rewrite Hlk, (ca_locks _ _ _ Hca)|]. right. eauto.
    + destruct (Hsp tld Htld) as (t & Ht & Har).
      assert (∃ t2, mc_tlds s2 !! tld = Some t2 ∧ is_Some (td_arena t2)) as (t2 & Ht2 & Har2).
      { specialize (Hth tld). unfold tld_link in Hth. rewrite Ht in Hth.
        apply fmap_Some in Hth as (t2 & Ht2 & Heq). injection Heq as E1 _ _. exists t2.
        by rewrite <- E1. }
      destruct (claim_page_run tld t2 bin slot s2 L') as (s3 & -> & Hq3 & Hlk3); try done; [apply Hok..|].
      cbn [mbind res_bind]. eexists slot, _, s3. split; [done|].
      split; [by rewrite Hlk3, Hlk, (ca_locks _ _ _ Hca)|]. right. split; [done|].
      exists L'. by eapply alloc_ok_post.
Qed.

End Correct.
