(* ===== verification/InitCorrect.v ===== *)
(** * Initialisation establishes the heap invariant (src/init.c) *)
From S2P Require Import Prelude Config Mem Atomic SizeClass Types Os DemoEnv Page Registry Segment Debug Tld Arena Large Slab Init Heap HeapOps CtlOps.
Import SizeClass Registry.

Section Init.
Context `{E : Env}.

(** The state after the first call to [malloc_init]. *)
Definition ready_machine : machine := upd_g malloc_init_body boot_machine.

Lemma malloc_init_boot : malloc_init boot_machine = Ok ready_machine.
Proof. reflexivity. Qed.

(** Every arena starts empty and unlocked, initialised or not. *)
Lemma ready_arenas :
  length (g_arenas (mc_g ready_machine)) = 64%nat ∧
  Forall (λ a, ar_bins a = replicate 75 None ∧ ar_segments a = 0 ∧ ar_lock a = false)
    (g_arenas (mc_g ready_machine)).
Proof.
  split; [reflexivity|].
  assert (g_arenas (mc_g ready_machine) =
    [arena_init 0; arena_init 1; arena_init 2; arena_init 3] ++ replicate 60 zero_arena) as -> by reflexivity.
  apply Forall_app. split.
  - repeat (constructor; [by split_and!|]). constructor.
  - apply Forall_replicate. by split_and!.
Qed.

Lemma ready_slab : slab_inv ready_machine ∅.
Proof.
  split.
  - change (g_tables (mc_g ready_machine)) with (size_class_init zero_tables).
    apply size_class_tables. by split.
  - intros a. unfold load8. simpl. rewrite lookup_empty. simpl. lia.
  - intros b sg. simpl. by rewrite lookup_empty.
  - intros b sg. simpl. by rewrite lookup_empty.
  - intros b sg a. simpl. by rewrite lookup_empty.
  - intros b sg i p. simpl. by rewrite lookup_empty.
  - intros r live. by rewrite lookup_empty.
  - change (g_segment_registry (mc_g ready_machine)) with empty_registry. apply empty_registry_wf.
  - intros b Hb. change (g_segment_registry (mc_g ready_machine)) with (replicate 256 0).
    change (mc_segs ready_machine) with (∅ : gmap Z segment_t). rewrite lookup_empty. split.
    + by intros [? _]%elem_of_replicate.
    + by intros [].
Qed.

Lemma ready_ctl : ctl_inv ready_machine.
Proof.
  destruct ready_arenas as [Hlen Har].
  assert (∀ r, page_link ready_machine r = None) as Hpg by done.
  assert (∀ b, seg_link ready_machine b = None) as Hsg by done.
  assert (∀ a, tld_link ready_machine a = None) as Htl by done.
  split; try done.
  - intros i bins segs. unfold arena_link.
    destruct (g_arenas (mc_g ready_machine) !! i) as [a|] eqn:Ha; [|done].
    destruct (proj1 (Forall_forall _ _) Har a) as (Hb & Hs & _); [by eapply list_elem_of_lookup_2|].
    intros Heq. assert (bins = replicate 75 None ∧ segs = 0) as [-> ->].
    { cbn [fmap option_fmap option_map] in Heq. split; congruence. }
    split; [done| |exists []; split_and!; [done|constructor|set_solver]].
    intros bin h [-> _]%lookup_replicate_1. exists []. split_and!; [done|constructor|set_solver].
Qed.

Lemma ready_heap : heap_inv ready_machine ∅.
Proof.
  split; [apply ready_slab|apply ready_ctl|].
  intros i b. unfold locks. rewrite list_lookup_fmap. destruct ready_arenas as [_ Har].
  destruct (g_arenas (mc_g ready_machine) !! i) as [a|] eqn:Ha; [|done].
  destruct (proj1 (Forall_forall _ _) Har a) as (_ & _ & Hl); [by eapply list_elem_of_lookup_2|].
  simpl. by rewrite Hl; intros [= <-].
Qed.

End Init.
