(* ===== verification/SlabSpec.v ===== *)
(** * What the slab allocator promises

    The theorems on [slab_alloc], [slab_alloc_zeroed] and [slab_free] for a
    machine that satisfies the heap invariant, in both build modes. *)
From S2P Require Import Prelude Config Mem Atomic SizeClass Types Os DemoEnv Page Registry Segment Debug Tld Arena Large Slab Init Heap HeapOps CtlOps ArenaCorrect SlabCorrect InitCorrect.
Import SizeClass Registry.

(** The largest request a slab page serves: the last bin of which two slots
    fit into a page. *)
Definition SLAB_MAX : Z := 32464.

Section Spec.
Context `{E : Env}.

(** The counters are far from their limits: another thread id, another
    round-robin assignment, another entry of the segment registry. *)
Record roomy (s : machine) : Prop := {
  ro_init : malloc_is_initialized s = true;
  ro_counter : mc_thread_id_counter s + 1 < UINT32_MAX;
  ro_next : g_arena_next (mc_g s) + 1 < 2 ^ 31;
  ro_segments : (size (mc_segs s) < 256)%nat
}.

(** What [free] needs of them: one more thread id. *)
Definition one_more (s : machine) : Prop :=
  malloc_is_initialized s = true ∧ mc_thread_id_counter s < UINT32_MAX.

Lemma roomy_one_more s : roomy s → one_more s.
Proof. intros [Hi Hc _ _]. split; [done|lia]. Qed.

End Spec.

(** ** Which requests the slab serves *)
Lemma slab_serves size :
  0 ≤ size ≤ MEDIUM_MAX →
  bin_to_size the_tables (size_to_bin the_tables size) ≤ PAGE_SIZE_ALLOC / 2 ↔ size ≤ SLAB_MAX.
Proof.
  intros Hs. destruct (size_to_bin_least size Hs) as (Hr & Hfit & Hlow).
  rewrite bin_to_size_lt by lia. set (b := size_to_bin the_tables size) in *.
  assert (bin_size_at the_tables 62 = SLAB_MAX) as E62 by reflexivity.
  assert (bin_size_at the_tables 63 = 36528) as E63 by reflexivity.
  change (PAGE_SIZE_ALLOC / 2) with 32768. unfold SLAB_MAX in *. split.
  - intros Hle. destruct (decide (b ≤ 62)) as [Hb|Hb].
    + pose proof (the_tables_mono b 62 ltac:(lia) ltac:(config; lia)). lia.
    + pose proof (the_tables_mono 63 b ltac:(lia) ltac:(lia)). lia.
  - intros Hle. destruct (decide (b ≤ 62)) as [Hb|Hb].
    + pose proof (the_tables_mono b 62 ltac:(lia) ltac:(config; lia)). lia.
    + specialize (Hlow 62 ltac:(lia)). lia.
Qed.

Lemma slab_serves_bin size :
  0 ≤ size ≤ SLAB_MAX → slab_bin (size_to_bin the_tables size) ∧
  size ≤ bin_slot (size_to_bin the_tables size).
Proof.
  intros Hs. assert (0 ≤ size ≤ MEDIUM_MAX) as Hm by (unfold SLAB_MAX in Hs; config; lia).
  pose proof (size_to_bin_range size Hm) as Hr.
  pose proof (proj2 (slab_serves size Hm) ltac:(lia)) as Hle.
  assert (1 ≤ bin_to_size the_tables (size_to_bin the_tables size)) as H1.
  { rewrite bin_to_size_lt by lia.
    pose proof (the_tables_mono 0 (size_to_bin the_tables size) ltac:(lia) ltac:(lia)) as Hmono.
    change (bin_size_at the_tables 0) with 8 in Hmono. lia. }
  split; [by split|]. destruct (slot_size_of_bounds _ (conj H1 Hle)) as (_ & _ & Hge).
  pose proof (size_to_bin_fits size Hm). unfold bin_slot. lia.
Qed.

Section Correct.
Context `{E : Env} {EL : EnvLaws E}.

(** With fewer than 256 segments the registry has a free entry. *)
Lemma registry_has_room s L :
  slab_inv s L → (size (mc_segs s) < 256)%nat → 0 ∈ g_segment_registry (mc_g s).
Proof.
  intros Hs Hlt. destruct (decide (0 ∈ g_segment_registry (mc_g s))) as [|Hn]; [done|exfalso].
  pose proof (si_registry _ _ Hs) as Hwf. set (reg := g_segment_registry (mc_g s)) in *.
  assert (NoDup reg) as Hnd.
  { apply NoDup_alt. intros i j b Hi Hj. apply (rw_unique _ Hwf i j b); [|done..].
    intros ->. apply Hn. by eapply list_elem_of_lookup_2. }
  assert (length reg = 256%nat) as Hlen by apply (rw_length _ Hwf).
  pose proof (segs_length s reg Hnd) as Hle. rewrite Hlen in Hle. apply Nat.lt_nge in Hlt. apply Hlt, Hle.
  intros b Hb. apply (si_registered _ _ Hs b); [|done]. intros ->. done.
Qed.

(** The common part of [slab_alloc] and [slab_alloc_zeroed]. *)
Lemma slab_alloc_inner_run tid size s L :
  heap_inv s L → roomy s → 0 ≤ size ≤ SLAB_MAX →
  let bin := size_to_bin the_tables (if size =? 0 then 1 else size) in
  ∃ slot z s', slab_alloc_inner tid size s = Ok (slot, z, s') ∧ locks s' = locks s ∧
    slab_outcome bin slot z s L s'.
Proof.
  intros [Hs Hc Hun] [Hinit Hcnt Hnext Hsegs] Hsz bin. unfold slab_alloc_inner.
  set (size' := if size =? 0 then 1 else size).
  assert (1 ≤ size' ≤ SLAB_MAX) as Hsz'.
  { unfold size', SLAB_MAX in *. destruct (Z.eqb_spec size 0); lia. }
  destruct (Z.ltb_spec MEDIUM_MAX size'); [unfold SLAB_MAX in Hsz'; config; lia|].
  rewrite (si_tables _ _ Hs). change (size_to_bin the_tables size') with bin.
  destruct (slab_serves_bin size' ltac:(lia)) as [Hbin _]. change (size_to_bin the_tables size') with bin in Hbin.
  pose proof Hbin as [_ Hb2]. destruct (Z.ltb_spec (PAGE_SIZE_ALLOC / 2) (bin_to_size the_tables bin)); [lia|].
  destruct (tld_get tid s) as [tld s1] eqn:Htld.
  destruct (tld_get_calm tid s L tld s1) as (Hca & Hn1 & Hcn & Hcase); try done; [lia|].
  assert (tld ≠ 0 → is_Some (mc_tlds s1 !! tld)) as Hex by (destruct Hcase as [[-> _]|(_ & _ & ?)]; done).
  destruct (slab_alloc_fast_run tld bin s1 L) as (o & s2 & Hrun & Hlk & Ho); [apply Hca..|done|done|].
  rewrite Hrun. cbn [mbind res_bind].
  destruct o as [[slot z]|].
  - exists slot, z, s2. split; [done|]. split; [by rewrite Hlk, (ca_locks _ _ _ Hca)|].
    destruct Ho as (Hn0 & L' & Hok). right. split; [done|]. exists L'.
    by eapply alloc_ok_pre, Hok; apply calm_quiet.
  - destruct Ho as [Hq O1 O2 O3 O4].
    destruct (slab_alloc_slow_run tid tld bin s2 L) as (slot & z & s3 & Hslow & Hlk3 & Hout).
    + apply Hq.
    + apply Hq.
    + intros i b. rewrite Hlk, (ca_locks _ _ _ Hca). apply Hun.
    + unfold malloc_is_initialized. rewrite (ou_init _ _ (qu_outside _ _ _ _ Hq)).
      by rewrite (ou_init _ _ (ca_outside _ _ _ Hca)).
    + rewrite O2. lia.
    + by rewrite O3, Hn1.
    + rewrite O4, (ca_registry _ _ _ Hca). by eapply registry_has_room.
    + done.
    + destruct Hcase as [[-> _]|(_ & Hsp & _)]; [by left|right]. by rewrite O1.
    + exists slot, z, s3. split; [done|]. split; [by rewrite Hlk3, Hlk, (ca_locks _ _ _ Hca)|].
      assert (quiet s L s2 L) as Hq2 by (eapply quiet_trans; [by apply calm_quiet|done]).
      destruct Hout as [(-> & Hq3 & Href)|(Hn0 & L' & Hok)].
      * left. split_and!; [done|by eapply quiet_trans|done].
      * right. split; [done|]. exists L'. by eapply alloc_ok_pre.
Qed.

(** ** The contracts *)

(** What a caller sees of an allocation of [size] bytes that returned [slot]
    (0 only when the kernel refuses a segment): the new block is aligned, large enough
    and disjoint from all others, whose bytes are kept. *)
Definition alloc_contract (size slot : Z) (s : machine) (L : live_map) (s' : machine) : Prop :=
  outside s s' ∧
  ((slot = 0 ∧ segment_refused s' ∧ heap_inv s' L ∧ grows no_new s L s' L) ∨
   (0 < slot ∧ (16 | slot) ∧
    ∃ L' n, heap_inv s' L' ∧ grows (one_new slot n) s L s' L' ∧ size ≤ n ∧
      ∀ a m, block s L a m → disjoint_ranges slot n a m)).

Definition free_contract (ptr : Z) (s : machine) (L : live_map) (s' : machine) : Prop :=
  outside s s' ∧ ∃ L', heap_inv s' L' ∧ shrinks ptr s L s' L'.

Lemma unlocked_locks s s' : locks s' = locks s → unlocked s → unlocked s'.
Proof. intros Heq Hun i b. rewrite Heq. apply Hun. Qed.

Lemma slab_outcome_contract size slot z s L s' :
  heap_inv s L → 0 ≤ size ≤ SLAB_MAX → locks s' = locks s →
  slab_outcome (size_to_bin the_tables (if size =? 0 then 1 else size)) slot z s L s' →
  alloc_contract size slot s L s' ∧
  (slot ≠ 0 → z = Some true → ∀ b, in_range b slot (Z.max 1 size) → load8 (mc_mem s') b = 0).
Proof.
  intros [Hs Hc Hun] Hsz Hlk Hout. set (size' := if size =? 0 then 1 else size) in *.
  assert (size' = Z.max 1 size) as Hsz' by (unfold size'; destruct (Z.eqb_spec size 0); lia).
  destruct (slab_serves_bin size') as [_ Hfit]; [unfold SLAB_MAX in *; lia|].
  pose proof (unlocked_locks s s' Hlk Hun) as Hun'.
  destruct Hout as [(-> & Hq & Href)|(H0 & L' & Hok)].
  - split; [|done]. split; [apply Hq|]. left. split_and!; [done|done| |apply Hq]. split; [apply Hq..|done].
  - assert (block s' L' slot (bin_slot (size_to_bin the_tables size'))) as Hbl
      by (apply (gr_blocks _ _ _ _ _ (al_grows _ _ _ _ _ _ _ Hok)); by right).
    destruct (block_place s' L' slot _ (al_slab _ _ _ _ _ _ _ Hok) Hbl)
      as (r & p & live & _ & _ & _ & _ & _ & _ & _ & _ & _ & _ & _ & H16 & Hpos).
    split.
    + split; [apply Hok|]. right. split_and!; [done|done|].
      exists L', (bin_slot (size_to_bin the_tables size')). split_and!; [|apply Hok|lia|].
      * split; [apply Hok..|done].
      * intros a m Ha. eapply block_disjoint; [apply Hok|done| |].
        -- apply (gr_blocks _ _ _ _ _ (al_grows _ _ _ _ _ _ _ Hok)). by left.
        -- intros <-. by apply (al_fresh _ _ _ _ _ _ _ Hok m).
    + intros _ Hz b Hb. apply (al_zero _ _ _ _ _ _ _ Hok b Hz). unfold in_range in *. lia.
Qed.

(** C22: on a machine that satisfies the heap invariant, an allocation the slab
    serves (0 to 32464 bytes), by any thread, in either build mode, returns:
    it follows no dangling pointer, meets no held lock and no endless list,
    and the debug checks do not fire.  It returns null only when the kernel
    refuses the mapping of a new segment, and otherwise a 16-byte aligned block of at least [size]
    bytes that overlaps no block a caller holds.  The invariant is kept, and
    so are the bytes of all those blocks and everything outside the slab. *)
Theorem slab_alloc_correct tid size s L :
  heap_inv s L → roomy s → 0 ≤ size ≤ SLAB_MAX →
  ∃ slot s', slab_alloc tid size s = Ok (slot, s') ∧ alloc_contract size slot s L s'.
Proof.
  intros Hh Hr Hsz. destruct (slab_alloc_inner_run tid size s L Hh Hr Hsz) as (slot & z & s' & Hrun & Hlk & Hout).
  exists slot, s'. unfold slab_alloc. rewrite Hrun. split; [done|].
  by apply (slab_outcome_contract size slot z).
Qed.

Lemma slab_free_contract tid a n s L :
  heap_inv s L → one_more s → block s L a n →
  ∃ s', slab_free tid a s = Ok s' ∧ free_contract a s L s'.
Proof.
  intros [Hs Hc Hun] [Hinit Hcnt] Hbl.
  destruct (slab_free_run tid a n s L) as (s' & L' & Hrun & Hs' & Hc' & Hlk & Hsh & Hout); try done.
  exists s'. split; [done|]. split; [done|]. exists L'. split; [|done].
  split; [done..|]. by eapply unlocked_locks.
Qed.

(** C23: freeing a block a caller holds, from the thread that owns its page or
    from any other, returns (in debug mode too: a live block passes the
    double-free check); the block disappears, all others and their bytes are
    kept, and so is the heap invariant. *)
Theorem slab_free_correct tid a n s L :
  heap_inv s L → roomy s → block s L a n →
  ∃ s', slab_free tid a s = Ok s' ∧ free_contract a s L s'.
Proof. intros Hh Hr. apply slab_free_contract; [done|by apply roomy_one_more]. Qed.

(** A successful allocation leaves a live block. *)
Lemma slab_alloc_live tid size s L slot s' :
  heap_inv s L → roomy s → 0 ≤ size ≤ SLAB_MAX →
  slab_alloc tid size s = Ok (slot, s') → slot ≠ 0 → ∃ L' n, heap_inv s' L' ∧ block s' L' slot n.
Proof.
  intros Hh Hr Hsz Hrun H0.
  destruct (slab_alloc_inner_run tid size s L Hh Hr Hsz) as (slot' & z & s2 & Hrun2 & Hlk & Hout).
  unfold slab_alloc in Hrun. rewrite Hrun2 in Hrun. injection Hrun as -> ->.
  destruct (slab_outcome_contract size slot z s L s' Hh Hsz Hlk Hout)
    as [[_ [[? _]|(_ & _ & L' & n & Hh' & Hg & _)]] _]; [done|].
  exists L', n. split; [done|]. apply Hg. by right.
Qed.

End Correct.

(** ** Runs on the concrete environment *)
Definition demo_ready (debug : bool) : machine := @ready_machine (demo_env debug).

(** The machine after a first allocation of 100 bytes by thread 1. *)
Definition demo_alloc (debug : bool) : res (Z * machine) :=
  @slab_alloc (demo_env debug) 1 100 (demo_ready debug).
Definition run_slot (r : res (Z * machine)) : Z := match r with Ok (p, _) => p | _ => 0 end.
Definition run_heap (s0 : machine) (r : res (Z * machine)) : machine :=
  match r with Ok (_, s) => s | _ => s0 end.
Definition demo_slot : Z := run_slot (demo_alloc true).
Definition demo_heap : machine := run_heap (demo_ready true) (demo_alloc true).

Lemma run_slot_Ok s0 r : run_slot r ≠ 0 → r = Ok (run_slot r, run_heap s0 r).
Proof. by destruct r as [[]| | |]. Qed.

Lemma demo_slot_value : demo_slot = 4299227136.
Proof. vm_compute. reflexivity. Qed.

Lemma demo_alloc_def :
  demo_alloc true = @slab_alloc (demo_env true) 1 100 (demo_ready true).
Proof. reflexivity. Qed.
#[local] Opaque demo_alloc.

Lemma demo_roomy debug : @roomy (demo_ready debug).
Proof.
  split; [done|done|done|]. change (size (mc_segs (demo_ready debug))) with 0%nat. lia.
Qed.

Lemma demo_alloc_run : demo_alloc true = Ok (demo_slot, demo_heap).
Proof.
  assert (demo_slot ≠ 0) as H by (rewrite demo_slot_value; discriminate).
  exact (run_slot_Ok (demo_ready true) (demo_alloc true) H).
Qed.

Lemma demo_heap_inv :
  ∃ L n, @heap_inv (demo_env true) demo_heap L ∧ block demo_heap L demo_slot n.
Proof.
  apply (@slab_alloc_live (demo_env true) (demo_laws true) 1 100 (demo_ready true) ∅ demo_slot demo_heap).
  - exact ready_heap.
  - exact (demo_roomy true).
  - done.
  - rewrite <- demo_alloc_def. exact demo_alloc_run.
  - rewrite demo_slot_value. discriminate.
Qed.

Lemma demo_heap_roomy : @roomy demo_heap.
Proof.
  split; [vm_compute; reflexivity|vm_compute; reflexivity|vm_compute; reflexivity|].
  assert (size (mc_segs demo_heap) = 1%nat) as -> by (vm_compute; reflexivity). lia.
Qed.

Lemma slab_alloc_correct_witness :
  ∃ slot s', @slab_alloc (demo_env true) 1 100 (demo_ready true) = Ok (slot, s') ∧
    @alloc_contract (demo_env true) 100 slot (demo_ready true) ∅ s'.
Proof.
  apply (@slab_alloc_correct (demo_env true) (demo_laws true) 1 100 (demo_ready true) ∅);
    [apply ready_heap|apply demo_roomy|done].
Defined.

Lemma slab_free_correct_witness :
  ∃ L s', @slab_free (demo_env true) 2 demo_slot demo_heap = Ok s' ∧
    @free_contract (demo_env true) demo_slot demo_heap L s'.
Proof.
  destruct demo_heap_inv as (L & n & Hh & Hbl). exists L.
  exact (@slab_free_correct (demo_env true) (demo_laws true) 2 demo_slot n demo_heap L Hh demo_heap_roomy Hbl).
Defined.
