(* ===== verification/DebugCorrect.v ===== *)
(** * The heap check on a consistent heap (src/debug.c) *)
From S2P Require Import Prelude Config Mem Atomic SizeClass Types Os DemoEnv Page Registry Segment Debug Tld Arena Large Slab Init Heap HeapOps CtlOps ArenaCorrect SlabCorrect InitCorrect SlabSpec.
Import SizeClass Registry.

Section Check.
Context `{E : Env} {EL : EnvLaws E}.
Implicit Types (s : machine) (L : live_map).

(** Every data page of a segment passes. *)
Lemma check_segment_pages s L b sg :
  slab_inv s L → malloc_debug = true → mc_segs s !! b = Some sg →
  forallb (check_page (mc_mem s)) (drop (Z.to_nat PAGES_DATA_START) (sg_pages sg)) = true.
Proof.
  intros Hs Hd Hsg. apply forallb_forall. intros p Hp%list_elem_of_In.
  apply list_elem_of_lookup in Hp as [i Hi]. rewrite lookup_drop in Hi.
  destruct (si_page _ _ Hs _ _ _ _ Hsg Hi) as (_ & _ & Hok).
  destruct (pm_state p) eqn:Hst; [|destruct Hok as (_ & live & _ & Hact)|destruct Hok; simpl in *; lia|done].
  - unfold check_page. rewrite Hst. by destruct (decide _) as [[|]|].
  - destruct Hact as (_ & _ & _ & _ & Hbm & lf & rf & Hinv). by eapply check_page_ok, Hbm.
Qed.

Lemma check_segments_run fuel s L seg l :
  slab_inv s L → malloc_debug = true → chain (seg_next s) (ptr_opt seg) l → (length l ≤ fuel)%nat →
  check_segments fuel s seg = Ok true.
Proof.
  intros Hs Hd. revert fuel seg. induction l as [|b l IH]; intros fuel seg Hl Hlen.
  { simpl in Hl. unfold ptr_opt in Hl. destruct (Z.eqb_spec seg 0) as [E0|]; [|done].
    rewrite E0. by destruct fuel. }
  destruct Hl as (Hh & n & Hn & Hl). unfold ptr_opt in Hh.
  destruct (Z.eqb_spec seg 0) as [|H0]; [done|]. assert (seg = b) as -> by congruence.
  destruct fuel as [|fuel]; simpl in Hlen; [lia|].
  unfold seg_next, seg_link in Hn. destruct (mc_segs s !! b) as [sg|] eqn:Hsg; [|done].
  injection Hn as <-. cbn [check_segments]. destruct (Z.eqb_spec b 0); [done|].
  rewrite Hsg. cbn [deref mbind res_bind]. rewrite (IH fuel (sg_next sg)) by (done || lia).
  cbn [mbind res_bind]. by rewrite (check_segment_pages s L b sg).
Qed.

Lemma check_arenas_run n i s L :
  slab_inv s L → ctl_inv s → unlocked s → malloc_debug = true → (n + i ≤ 4)%nat →
  ∃ s', check_arenas n i s = Ok (true, s') ∧ heap_inv s' L.
Proof.
  intros Hs Hc Hun Hd. revert i s Hs Hc Hun. induction n as [|n IH]; intros i s Hs Hc Hun Hn.
  { exists s. split; [done|by split]. }
  destruct (arena_lookup s i Hc ltac:(lia)) as [a Ha].
  assert (locks s !! i = Some (ar_lock a)) as Hli by (unfold locks; by rewrite list_lookup_fmap, Ha).
  pose proof (Hun i _ Hli) as Hfree. cbn [check_arenas]. rewrite (locks_lock s i a Ha Hfree). cbn [mbind res_bind].
  destruct (lock_quiet s L i true Hs Hc) as [Hq0 _]. set (s0 := upd_arena i (λ a, a <| ar_lock := true |>) s) in *.
  assert (locks s0 = <[i := true]> (locks s)) as Hlk0 by apply locks_set.
  assert (g_arenas (mc_g s0) !! i = Some (a <| ar_lock := true |>)) as Ha0
    by (unfold s0, upd_arena; simpl; by rewrite list_lookup_alter_eq, Ha).
  clearbody s0. rewrite Ha0. cbn [deref mbind res_bind].
  pose proof (qu_slab _ _ _ _ Hq0) as Hs0. pose proof (qu_ctl _ _ _ _ Hq0) as Hc0.
  destruct (ci_arena _ Hc0 i (ar_bins a) (ar_segments a)) as [_ _ (l & Hl & Hnd & Hseg)].
  { unfold arena_link. by rewrite Ha0. }
  rewrite (check_segments_run _ s0 L _ l Hs0 Hd Hl).
  2: { apply segs_length; [done|]. intros b Hb. destruct (Hseg b Hb) as [x Hx]. unfold seg_link in Hx.
       destruct (mc_segs s0 !! b); [eauto|done]. }
  cbn [mbind res_bind]. destruct (lock_quiet s0 L i false Hs0 Hc0) as [Hq1 _].
  destruct (IH (S i) (unlock_arena i s0)) as (s' & -> & Hh); [apply Hq1..| |lia|].
  - eapply unlocked_locks; [|exact Hun]. apply (locks_lock_unlock s); [by rewrite Hli, Hfree|done].
  - exists s'. done.
Qed.

(** C25: in debug mode the heap check finds nothing wrong on a heap that
    satisfies the invariant: it returns true, every lock it took is free
    again, and the heap is as before.  (The bitmap popcounts, the free list
    walks and the slot accounting all agree.) *)
Theorem debug_heap_check_passes s L :
  heap_inv s L → malloc_debug = true →
  ∃ s', debug_heap_check s = Ok (true, s') ∧ heap_inv s' L.
Proof.
  intros [Hs Hc Hun] Hd. unfold debug_heap_check. rewrite (ci_count _ Hc).
  apply (check_arenas_run 4 0); [done..|lia].
Qed.

End Check.

Lemma debug_heap_check_passes_witness :
  ∃ L s', @debug_heap_check demo_heap = Ok (true, s') ∧ @heap_inv (demo_env true) s' L.
Proof.
  destruct demo_heap_inv as (L & n & Hh & _). exists L.
  exact (@debug_heap_check_passes (demo_env true) demo_heap L Hh eq_refl).
Defined.
