(* ===== verification/LargeCorrect.v ===== *)
(** * Correctness of large allocations (src/large.c)

    [large_inv s G l]: the headers form the doubly-linked list [l] from
    [g_state.large_list]; their mappings are mapped, disjoint from each other
    and from the segments; [G] maps the base of each to the pointer its caller
    holds. *)
From S2P Require Import Prelude Config Mem Atomic SizeClass Types Os DemoEnv Page Registry Segment Debug Tld Arena Large Slab Init Heap HeapOps CtlOps ArenaCorrect SlabCorrect InitCorrect SlabSpec.

(** ** Doubly-linked lists *)

(** [l] lists the entries from [h] on; [p] is what [prev] of the first is. *)
Fixpoint dll (M : gmap Z large_alloc_t) (p h : Z) (l : list Z) : Prop :=
  match l with
  | [] => h = 0
  | b :: l => h = b ∧ b ≠ 0 ∧ ∃ e, M !! b = Some e ∧ la_prev e = p ∧ dll M b (la_next e) l
  end.

(** The two stores of [large_unlink], on the map of headers. *)
Definition set_next (b n : Z) (M : gmap Z large_alloc_t) : gmap Z large_alloc_t :=
  if b =? 0 then M else alter (λ q, q <| la_next := n |>) b M.
Definition set_prev (b p : Z) (M : gmap Z large_alloc_t) : gmap Z large_alloc_t :=
  if b =? 0 then M else alter (λ q, q <| la_prev := p |>) b M.

Lemma set_next_ne b n M a : a ≠ b → set_next b n M !! a = M !! a.
Proof. intros. unfold set_next. destruct (b =? 0); [done|]. by rewrite lookup_alter_ne. Qed.
Lemma set_prev_ne b p M a : a ≠ b → set_prev b p M !! a = M !! a.
Proof. intros. unfold set_prev. destruct (b =? 0); [done|]. by rewrite lookup_alter_ne. Qed.
Lemma set_next_eq b n M e : b ≠ 0 → M !! b = Some e → set_next b n M !! b = Some (e <| la_next := n |>).
Proof. intros ? H. unfold set_next. destruct (Z.eqb_spec b 0); [done|]. by rewrite lookup_alter_eq, H. Qed.
Lemma set_prev_eq b p M e : b ≠ 0 → M !! b = Some e → set_prev b p M !! b = Some (e <| la_prev := p |>).
Proof. intros ? H. unfold set_prev. destruct (Z.eqb_spec b 0); [done|]. by rewrite lookup_alter_eq, H. Qed.

Lemma dll_ext M M' p h l : (∀ b, b ∈ l → M' !! b = M !! b) → dll M p h l → dll M' p h l.
Proof.
  revert p h. induction l as [|b l IH]; intros p h Heq; simpl; [done|].
  intros (-> & H0 & e & He & Hp & Hl). split_and!; [done..|]. exists e.
  rewrite Heq by set_solver. split_and!; [done..|]. apply IH; [|done]. set_solver.
Qed.

Lemma dll_nonzero M p h l b : dll M p h l → b ∈ l → b ≠ 0.
Proof.
  revert p h. induction l as [|c l IH]; intros p h; simpl; [set_solver|].
  intros (-> & H0 & e & _ & _ & Hl) [->|Hb]%elem_of_cons; [done|]. by eapply IH.
Qed.

Lemma dll_is_Some M p h l b : dll M p h l → b ∈ l → is_Some (M !! b).
Proof.
  revert p h. induction l as [|c l IH]; intros p h; simpl; [set_solver|].
  intros (-> & H0 & e & He & _ & Hl) [->|Hb]%elem_of_cons; [eauto|]. by eapply IH.
Qed.

(** Relinking the front of a list. *)
Lemma dll_set_prev M p p' h l : NoDup l → dll M p h l → dll (set_prev h p' M) p' h l.
Proof.
  destruct l as [|b l]; [done|]. intros [Hn _]%NoDup_cons (-> & H0 & e & He & _ & Hl).
  split_and!; [done..|]. eexists. split; [by apply set_prev_eq|]. split; [done|].
  eapply dll_ext; [|done]. intros c Hc. apply set_prev_ne. set_solver.
Qed.

Lemma dll_middle M p h l1 b l2 :
  dll M p h (l1 ++ b :: l2) →
  ∃ e, M !! b = Some e ∧ la_prev e = default p (last l1) ∧ la_next e = default 0 (head l2).
Proof.
  revert p h. induction l1 as [|c l1 IH]; intros p h; simpl.
  - intros (-> & H0 & e & He & Hp & Hl). exists e. split_and!; [done..|].
    destruct l2 as [|d l2]; simpl in *; [done|]. by destruct Hl as (-> & _).
  - intros (-> & H0 & e & He & Hp & Hl). destruct (IH _ _ Hl) as (e' & ? & Hpe & ?).
    exists e'. split_and!; [done| |done]. rewrite Hpe. destruct l1 as [|d l1]; [done|].
    rewrite last_cons_cons. by destruct (last (d :: l1)) eqn:Hlast; [|apply last_None in Hlast].
Qed.

(** Unlinking [b]: its neighbours point at each other, the rest is as before. *)
Lemma dll_unlink M p h l1 b l2 e :
  dll M p h (l1 ++ b :: l2) → NoDup (l1 ++ b :: l2) → p ∉ l1 ++ b :: l2 → M !! b = Some e →
  dll (delete b (set_prev (la_next e) (la_prev e) (set_next (la_prev e) (la_next e) M)))
    p (if decide (h = b) then la_next e else h) (l1 ++ l2).
Proof.
  intros Hl Hnd Hp He. destruct (dll_middle _ _ _ _ _ _ Hl) as (e' & He' & Hprev & Hnext). simplify_eq.
  set (M' := set_next (la_prev e) (la_next e) M). revert p h Hl Hp Hprev.
  induction l1 as [|c l1 IH]; intros p h Hl Hp Hprev; simpl in *.
  - destruct Hl as (-> & H0 & e2 & He2 & Hp2 & Hl). simplify_eq. rewrite decide_True by done.
    apply NoDup_cons in Hnd as [Hb Hnd].
    assert (dll M' b (la_next e) l2) as Hl'.
    { eapply dll_ext; [|done]. intros d Hd. apply set_next_ne. set_solver. }
    apply (dll_ext (set_prev (la_next e) (la_prev e) M')).
    + intros d Hd. apply lookup_delete_ne. set_solver.
    + exact (dll_set_prev M' b (la_prev e) (la_next e) l2 Hnd Hl').
  - destruct Hl as (-> & H0 & ec & Hec & Hpc & Hl). apply NoDup_cons in Hnd as [Hc Hnd].
    rewrite decide_False by set_solver. split_and!; [done..|].
    assert (la_prev e = default c (last l1)) as Hprev'.
    { rewrite Hprev. destruct l1 as [|d l1]; [done|]. rewrite last_cons_cons.
      by destruct (last (d :: l1)) eqn:Hlast; [|apply last_None in Hlast]. }
    assert (c ≠ la_next e) as Hcn.
    { rewrite Hnext. destruct l2; simpl; [done|set_solver]. }
    specialize (IH Hnd c (la_next ec) Hl Hc Hprev').
    assert (M' !! c = Some (if decide (la_next ec = b) then ec <| la_next := la_next e |> else ec)) as HMc.
    { unfold M'. destruct l1 as [|d l1]; simpl in Hl, Hprev'.
      - destruct Hl as (Hn & _). rewrite decide_True, Hprev' by done. by apply set_next_eq.
      - destruct Hl as (Hn & _). rewrite decide_False.
        2: { rewrite Hn. intros ->. apply NoDup_cons in Hnd as [Hd _]. apply Hd.
             apply elem_of_app. right. by left. }
        rewrite set_next_ne; [done|]. rewrite Hprev'. intros Heq.
        destruct (last (d :: l1)) as [x|] eqn:Hlast; [|by apply last_None in Hlast].
        apply last_Some_elem_of in Hlast. apply Hc. simpl in Heq. rewrite Heq.
        apply (elem_of_app (d :: l1)). by left. }
    eexists. split; [rewrite lookup_delete_ne, set_prev_ne by set_solver; exact HMc|].
    split; [by destruct (decide _)|]. by destruct (decide (la_next ec = b)).
Qed.

(** Removing one member of a list without duplicates. *)
Lemma list_remove_mid (l1 : list Z) b l2 :
  NoDup (l1 ++ b :: l2) →
  NoDup (l1 ++ l2) ∧ ∀ c, c ∈ l1 ++ l2 ↔ c ≠ b ∧ c ∈ l1 ++ b :: l2.
Proof.
  intros (N1 & N2 & [N3 N4]%NoDup_cons)%NoDup_app. split.
  - apply NoDup_app. split_and!; [done| |done]. intros x Hx Hx2. apply (N2 x Hx). by right.
  - intros c. rewrite !elem_of_app, elem_of_cons. split.
    + intros [Hc|Hc]; (split; [intros ->|auto]); [|done]. apply (N2 b Hc). by left.
    + intros [Hne [?|[?|?]]]; auto; done.
Qed.

(** ** The invariant *)
Section Large.
Context `{E : Env}.
Implicit Types (s : machine) (L : live_map) (G : gmap Z Z).

(** What one header says of its mapping, and where the caller's bytes are. *)
Record large_ok (s : machine) (G : gmap Z Z) (b : Z) (e : large_alloc_t) : Prop := {
  lo_base : la_base e = b;
  lo_range : 0 < b ∧ 0 < la_size e ∧ b + la_size e ≤ 2 ^ 47;
  lo_pages : (getpagesize | la_size e);
  lo_mapped a : in_range a b (la_size e) → is_mapped s a;
  lo_segs a : in_range a b (la_size e) → ¬ in_segs s a;
  lo_boot a : in_range a b (la_size e) → ¬ in_range a bootstrap_buf BOOTSTRAP_BUF_SIZE;
  lo_ptr : ∃ a, G !! b = Some a ∧ b + LARGE_HEADER_SIZE ≤ a ∧ (16 | a) ∧
    0 ≤ la_user_size e ∧ a + Z.max 1 (la_user_size e) ≤ b + la_size e
}.

Record large_inv (s : machine) (G : gmap Z Z) (l : list Z) : Prop := {
  lv_list : dll (mc_larges s) 0 (g_large_list (mc_g s)) l;
  lv_nodup : NoDup l;
  lv_dom b : is_Some (mc_larges s !! b) ↔ b ∈ l;
  lv_each b e : mc_larges s !! b = Some e → large_ok s G b e;
  lv_disjoint b b' e e' : mc_larges s !! b = Some e → mc_larges s !! b' = Some e' → b ≠ b' →
    disjoint_ranges b (la_size e) b' (la_size e');
  lv_boot a : in_range a bootstrap_buf BOOTSTRAP_BUF_SIZE → is_mapped s a ∧ ¬ in_segs s a;
  lv_lock : g_large_lock (mc_g s) = false
}.

(** A large block a caller holds. *)
Definition lblock (s : machine) (G : gmap Z Z) (a n : Z) : Prop :=
  ∃ b e, mc_larges s !! b = Some e ∧ G !! b = Some a ∧ n = la_user_size e.

(** ** What the slab does keeps it *)
Lemma large_inv_outside s s' G l : outside s s' → large_inv s G l → large_inv s' G l.
Proof.
  intros [O1 O2 O3 O4 O5] [H1 H2 H3 H4 H5 H6 H7]. injection O4 as V1 V2 V3 V4 V5.
  split; rewrite ?V1, ?V2, ?V3; try done.
  - intros b e He. destruct (H4 b e He) as [A1 A2 A3 A4 A5 A6 A7]. split; try done.
    + intros a Ha. auto.
    + intros a Ha Hs. apply (A5 a Ha). auto.
  - intros a Ha. destruct (H6 a Ha) as [Hm Hn]. split; [auto|]. intros Hs. apply Hn. auto.
Qed.

Lemma lblock_outside s s' G a n : outside s s' → lblock s' G a n ↔ lblock s G a n.
Proof. intros [_ _ _ O4 _]. injection O4 as V1 _. unfold lblock. by rewrite V1. Qed.

(** The bytes of a large block: mapped, in no segment. *)
Lemma lblock_bytes s G l a n x :
  large_inv s G l → lblock s G a n → in_range x a n → is_mapped s x ∧ ¬ in_segs s x.
Proof.
  intros Hl (b & e & He & Ha & ->) Hx. destruct (lv_each _ _ _ Hl b e He) as [_ A2 A3 A4 A5 A6 (a' & Ha' & Hlo & _ & _ & Hhi)].
  simplify_eq. config. assert (in_range x b (la_size e)) by (unfold in_range in *; lia). auto.
Qed.

(** The header whose mapping holds a large block. *)
Lemma lblock_in s G l a n :
  large_inv s G l → lblock s G a n →
  ∃ b e, mc_larges s !! b = Some e ∧ G !! b = Some a ∧ n = la_user_size e ∧
    in_range a b (la_size e) ∧ b + LARGE_HEADER_SIZE ≤ a ∧ a + Z.max 1 n ≤ b + la_size e ∧ (16 | a) ∧ 0 ≤ n.
Proof.
  intros Hl (b & e & He & Ha & ->). destruct (lv_each _ _ _ Hl b e He) as [_ A2 A3 A4 A5 A6 (a' & Ha' & Hlo & H16 & H0 & Hhi)].
  simplify_eq. exists b, e. config. split_and!; try done; unfold in_range; lia.
Qed.

(** ** The walk *)
Lemma large_walk_run fuel s G l ptr :
  large_inv s G l → (length l ≤ fuel)%nat →
  large_walk fuel s (g_large_list (mc_g s)) ptr = Ok None ∧
    (∀ b e, mc_larges s !! b = Some e → ¬ in_range ptr b (la_size e)) ∨
  ∃ b e, mc_larges s !! b = Some e ∧ in_range ptr b (la_size e) ∧
    large_walk fuel s (g_large_list (mc_g s)) ptr = Ok (Some e).
Proof.
  intros Hl Hlen.
  cut (∀ l' p h fuel, (∀ b, b ∈ l' → b ∈ l) → dll (mc_larges s) p h l' → (length l' ≤ fuel)%nat →
    (large_walk fuel s h ptr = Ok None ∧
      (∀ b e, b ∈ l' → mc_larges s !! b = Some e → ¬ in_range ptr b (la_size e))) ∨
    ∃ b e, mc_larges s !! b = Some e ∧ in_range ptr b (la_size e) ∧ large_walk fuel s h ptr = Ok (Some e)).
  { intros H. destruct (H l 0 (g_large_list (mc_g s)) fuel) as [[Hr Hn]|?]; [done|apply Hl|done| |by right].
    left. split; [done|]. intros b e He. apply (Hn b e); [|done]. apply (lv_dom _ _ _ Hl). eauto. }
  clear fuel Hlen. induction l' as [|b l' IH]; intros p h fuel Hsub Hd Hlen; simpl in Hd.
  { subst h. left. split; [by destruct fuel|set_solver]. }
  destruct Hd as (-> & H0 & e & He & _ & Hd). destruct fuel as [|fuel]; simpl in Hlen; [lia|].
  destruct (lv_each _ _ _ Hl b e He) as [A1 A2 _ _ _ _ _].
  assert (large_walk (S fuel) s b ptr = if (b <=? ptr) && (ptr <? b + la_size e) then Ok (Some e)
    else large_walk fuel s (la_next e) ptr) as Hstep.
  { cbn [large_walk]. destruct (Z.eqb_spec b 0); [done|]. rewrite He. cbn [deref mbind res_bind].
    by rewrite A1, u64_small by lia. }
  rewrite Hstep. destruct ((b <=? ptr) && (ptr <? b + la_size e)) eqn:Hin.
  - apply andb_true_iff in Hin as [?%Z.leb_le ?%Z.ltb_lt]. right. exists b, e. by split_and!.
  - assert (¬ in_range ptr b (la_size e)) as Hnot.
    { unfold in_range. apply andb_false_iff in Hin as [?%Z.leb_gt|?%Z.ltb_ge]; lia. }
    destruct (IH b (la_next e) fuel) as [[Hr Hn]|?]; [set_solver|done|lia| |by right].
    left. split; [done|]. intros c ec [->|Hc]%elem_of_cons Hec; [by simplify_eq|by eapply Hn].
Qed.

Lemma large_length s G l : large_inv s G l → (length l ≤ size (mc_larges s))%nat.
Proof.
  intros Hl. rewrite <- (size_dom (mc_larges s)).
  change (size (dom (mc_larges s))) with (length (elements (dom (mc_larges s)))).
  apply submseteq_length, NoDup_submseteq; [apply Hl|]. intros b Hb.
  apply elem_of_elements, elem_of_dom. by apply (lv_dom _ _ _ Hl).
Qed.

(** ** Headers up to their links *)
Definition lview (e : large_alloc_t) := (la_base e, la_size e, la_user_size e).

Lemma set_prev_view h p M b : lview <$> set_prev h p M !! b = lview <$> M !! b.
Proof.
  unfold set_prev. destruct (h =? 0); [done|]. rewrite lookup_alter. destruct (decide _) as [->|]; [|done].
  by destruct (M !! b).
Qed.
Lemma set_next_view h p M b : lview <$> set_next h p M !! b = lview <$> M !! b.
Proof.
  unfold set_next. destruct (h =? 0); [done|]. rewrite lookup_alter. destruct (decide _) as [->|]; [|done].
  by destruct (M !! b).
Qed.

Lemma view_Some (M M' : gmap Z large_alloc_t) b e' :
  lview <$> M' !! b = lview <$> M !! b → M' !! b = Some e' →
  ∃ e, M !! b = Some e ∧ la_base e' = la_base e ∧ la_size e' = la_size e ∧ la_user_size e' = la_user_size e.
Proof.
  intros Hv He'. rewrite He' in Hv. symmetry in Hv. apply fmap_Some in Hv as (e & He & Heq).
  injection Heq as ? ? ?. eauto.
Qed.

(** [large_ok] sees neither links nor unrelated mappings. *)
Lemma large_ok_view s s' G G' b e e' :
  la_base e' = la_base e → la_size e' = la_size e → la_user_size e' = la_user_size e →
  G' !! b = G !! b → (∀ a, in_range a b (la_size e) → is_mapped s a → is_mapped s' a) →
  mc_segs s' = mc_segs s → large_ok s G b e → large_ok s' G' b e'.
Proof.
  intros E1 E2 E3 EG Hm Hsg [A1 A2 A3 A4 A5 A6 A7].
  split; rewrite ?E1, ?E2, ?E3, ?EG; try done; [by auto|].
  intros a Ha. unfold in_segs. rewrite Hsg. by apply A5.
Qed.

(** The slab side of a step on large allocations. *)
Record beside (s : machine) (L : live_map) (s' : machine) : Prop := {
  be_slab : slab_inv s' L;
  be_ctl : ctl_inv s';
  be_locks : locks s' = locks s;
  be_segs : mc_segs s' = mc_segs s;
  be_mem a : is_mapped s a → load8 (mc_mem s') a = load8 (mc_mem s) a;
  be_init : g_initialized (mc_g s') = g_initialized (mc_g s)
}.

Lemma beside_refl s L : slab_inv s L → ctl_inv s → beside s L s.
Proof. by split. Qed.

Lemma beside_grows s L s' : slab_inv s L → beside s L s' → grows no_new s L s' L.
Proof.
  intros Hs [_ _ _ Hsg Hm _]. split.
  - intros a n. unfold block, lookup_page, no_new. rewrite Hsg. tauto.
  - intros a n b Hbl Hb. apply Hm. by eapply block_mapped.
Qed.

(** The segments stay mapped and the memory is the same. *)
Lemma beside_intro s L s' :
  slab_inv s L → ctl_inv s → same_shape s s' → locks s' = locks s → mc_segs s' = mc_segs s →
  g_tables (mc_g s') = g_tables (mc_g s) →
  g_segment_registry (mc_g s') = g_segment_registry (mc_g s) →
  g_initialized (mc_g s') = g_initialized (mc_g s) →
  mc_mem s' = mc_mem s → (∀ a, in_segs s a → is_mapped s' a) → beside s L s'.
Proof.
  intros Hs Hc Hsh Hlk Hsg Ht Hr Hin Hm Hmap. split; try done; [|by rewrite <- Hsh|by rewrite Hm].
  destruct Hs as [B1 B2 B3 B4 B5 B6 B7 B8 B9]. split; rewrite ?Ht, ?Hr, ?Hsg, ?Hm; try done.
  - intros b sg a Hb Ha. apply Hmap. by exists b, sg.
  - intros r live HL. unfold lookup_page. rewrite Hsg. by eapply B7.
Qed.

Lemma beside_trans s1 s2 s3 L :
  beside s1 L s2 → (∀ a, is_mapped s1 a → is_mapped s2 a) → beside s2 L s3 → beside s1 L s3.
Proof.
  intros [A1 A2 A3 A4 A5 A6] Hm [B1 B2 B3 B4 B5 B6]. split; try done; try congruence.
  intros a Ha. rewrite B5 by auto. auto.
Qed.

(** ** Linking a header in *)

(** The tail of [large_alloc_aligned] after a successful mapping. *)
Definition large_install (base total size : Z) (s : machine) : machine :=
  upd_g (λ g, g <| g_large_allocated ::= λ x, add64 x size |> <| g_large_alloc_count ::= λ x, add64 x 1 |>)
    (unlock_large (large_link base
      (upd_g (λ g, g <| g_large_lock := true |>)
        (s <| mc_larges ::= <[base := MkLarge base total size 0 0]> |>)))).

Lemma large_install_larges base total size s :
  g_large_list (mc_g s) ≠ base →
  mc_larges (large_install base total size s) =
    set_prev (g_large_list (mc_g s)) base
      (<[base := MkLarge base total size (g_large_list (mc_g s)) 0]> (mc_larges s)).
Proof.
  intros Hne. unfold large_install, large_link, set_prev. cbv zeta. simpl.
  destruct (Z.eqb_spec (g_large_list (mc_g s)) 0); simpl; by rewrite alter_insert_eq.
Qed.

Lemma large_install_rest base total size s :
  let s' := large_install base total size s in
  same_shape s s' ∧ locks s' = locks s ∧ mc_segs s' = mc_segs s ∧ mc_mem s' = mc_mem s ∧
  mc_mapped s' = mc_mapped s ∧ g_tables (mc_g s') = g_tables (mc_g s) ∧
  g_segment_registry (mc_g s') = g_segment_registry (mc_g s) ∧
  g_initialized (mc_g s') = g_initialized (mc_g s) ∧
  g_large_list (mc_g s') = base ∧ g_large_lock (mc_g s') = false.
Proof.
  intros s'. assert (same_shape s s') as Hsh.
  { unfold s', large_install, large_link. cbv zeta. simpl. by destruct (g_large_list (mc_g s) =? 0); split. }
  unfold s', large_install, large_link in *. cbv zeta in *. simpl in *.
  destruct (g_large_list (mc_g s) =? 0); by split_and!.
Qed.

Lemma large_inv_install s1 G l base total size p :
  large_inv s1 G l → mc_larges s1 !! base = None →
  large_ok s1 (<[base := p]> G) base (MkLarge base total size (g_large_list (mc_g s1)) 0) →
  (∀ b e, mc_larges s1 !! b = Some e → disjoint_ranges base total b (la_size e)) →
  large_inv (large_install base total size s1) (<[base := p]> G) (base :: l).
Proof.
  intros [H1 H2 H3 H4 H5 H6 H7] Hnone Hok Hdis. set (s' := large_install base total size s1).
  assert (base ∉ l) as Hnin by (rewrite <- H3, Hnone; by intros []).
  assert (base ≠ 0) as Hb0 by (destruct (lo_range _ _ _ _ Hok); lia).
  assert (g_large_list (mc_g s1) ≠ base) as Hhd.
  { destruct l as [|c l]; simpl in H1; [lia|]. destruct H1 as (-> & _). set_solver. }
  destruct (large_install_rest base total size s1) as (Hsh & Hlk & Hsg & Hm & Hmap & _ & _ & _ & Hl & Hlo).
  fold s' in Hsh, Hlk, Hsg, Hm, Hmap, Hl, Hlo.
  pose proof (large_install_larges base total size s1 Hhd) as HM. fold s' in HM.
  set (e0 := MkLarge base total size (g_large_list (mc_g s1)) 0) in *.
  assert (∀ b, lview <$> mc_larges s' !! b = lview <$> <[base := e0]> (mc_larges s1) !! b) as Hv.
  { intros b. rewrite HM. apply set_prev_view. }
  assert (∀ a, is_mapped s' a ↔ is_mapped s1 a) as Hmm by (intros a; unfold is_mapped; by rewrite Hmap).
  clearbody s'. split.
  - rewrite Hl. simpl. split_and!; [done..|]. exists e0. split_and!.
    + rewrite HM, set_prev_ne by done. by rewrite lookup_insert_eq.
    + done.
    + rewrite HM. eapply dll_set_prev; [done|]. eapply dll_ext; [|exact H1].
      intros b Hb. rewrite lookup_insert_ne; [done|]. set_solver.
  - by apply NoDup_cons.
  - intros b. specialize (Hv b). rewrite elem_of_cons, <- H3.
    assert (is_Some (mc_larges s' !! b) ↔ is_Some (<[base := e0]> (mc_larges s1) !! b)) as ->.
    { destruct (mc_larges s' !! b), (<[base := e0]> (mc_larges s1) !! b); naive_solver. }
    rewrite lookup_insert_is_Some. destruct (decide (b = base)); naive_solver.
  - intros b e' He'. destruct (view_Some _ _ _ _ (Hv b) He') as (e & He & E1 & E2 & E3).
    apply lookup_insert_Some in He as [[<- <-]|[Hne He]].
    + eapply large_ok_view; [done..| |done|exact Hok]. intros a _ Ha. by apply Hmm.
    + eapply large_ok_view; [done..| | |done|by apply H4]; [by rewrite lookup_insert_ne|].
      intros a _ Ha. by apply Hmm.
  - intros b b' e e' He He' Hne.
    destruct (view_Some _ _ _ _ (Hv b) He) as (x & Hx & _ & -> & _).
    destruct (view_Some _ _ _ _ (Hv b') He') as (x' & Hx' & _ & -> & _).
    apply lookup_insert_Some in Hx as [[<- <-]|[Hn Hx]], Hx' as [[<- <-]|[Hn' Hx']]; [done| | |by eapply H5].
    + by apply Hdis in Hx'.
    + apply Hdis in Hx. simpl. unfold disjoint_ranges in *. lia.
  - intros a Ha. rewrite Hmm. destruct (H6 a Ha) as [? Hn]. split; [done|]. unfold in_segs. by rewrite Hsg.
  - done.
Qed.

(** Up to the links, the headers are the old ones and the new one. *)
Lemma large_install_view base total size s G l b :
  large_inv s G l → mc_larges s !! base = None → base ≠ 0 →
  lview <$> mc_larges (large_install base total size s) !! b =
    lview <$> <[base := MkLarge base total size 0 0]> (mc_larges s) !! b.
Proof.
  intros [D1 _ D3 _ _ _ _] Hnone H0. rewrite large_install_larges.
  - rewrite set_prev_view. destruct (decide (b = base)) as [->|]; [by rewrite !lookup_insert_eq|].
    by rewrite !lookup_insert_ne.
  - intros Heq0. rewrite Heq0 in D1. destruct l as [|c l']; simpl in D1; [lia|]. destruct D1 as (<- & _).
    assert (is_Some (mc_larges s !! base)) as [? ?] by (apply D3; set_solver). congruence.
Qed.

(** ** Allocation *)
Context {EL : EnvLaws E}.

Lemma large_sizes size k :
  0 ≤ size → 4 ≤ k → size + 2 ^ k < 2 ^ 60 →
  let hs := large_header_space (2 ^ k) in
  let total := large_total size (2 ^ k) in
  (2 ^ k | hs) ∧ LARGE_HEADER_SIZE ≤ hs < LARGE_HEADER_SIZE + 2 ^ k ∧ (getpagesize | total) ∧
  hs + size ≤ total < 2 ^ 61 ∧ total < hs + size + 65536.
Proof.
  intros Hs Hk Hlim. cbv zeta. pose proof (Z.pow_pos_nonneg 2 k ltac:(lia) ltac:(lia)).
  unfold large_total, large_header_space, os_page_size. config.
  pose proof (align_up_bounds 48 k ltac:(lia) ltac:(lia) ltac:(lia)).
  pose proof (align_up_divide 48 k ltac:(lia) ltac:(lia) ltac:(lia)).
  destruct getpagesize_pow2 as (j & Hj & ->).
  assert (2 ^ j ≤ 65536) by (change 65536 with (2 ^ 16); apply Z.pow_le_mono_r; lia).
  rewrite u64_small by lia.
  pose proof (align_up_bounds (align_up 48 (2 ^ k) + size) j ltac:(lia) ltac:(lia) ltac:(lia)).
  pose proof (align_up_divide (align_up 48 (2 ^ k) + size) j ltac:(lia) ltac:(lia) ltac:(lia)).
  split_and!; try done; lia.
Qed.

(** The alignment asked of the kernel is a power of two, at least a page. *)
Lemma large_map_align k :
  4 ≤ k → k < 60 → ∃ j, k ≤ j < 60 ∧ 2 ^ j ≤ 2 ^ k + 65536 ∧ (getpagesize | 2 ^ j) ∧
    (if 2 ^ k <? os_page_size then os_page_size else 2 ^ k) = 2 ^ j.
Proof.
  intros Hk Hk2. unfold os_page_size. destruct (Z.ltb_spec (2 ^ k) getpagesize) as [Hlt|Hge].
  - destruct getpagesize_pow2 as (j & Hj & Hp). exists j. rewrite Hp in *.
    assert (2 ^ j ≤ 65536) by (change 65536 with (2 ^ 16); apply Z.pow_le_mono_r; lia).
    split_and!; [|lia|lia|done|done]. apply Z.lt_le_incl, (Z.pow_lt_mono_r_iff 2); lia.
  - exists k. split_and!; [lia|lia|lia| |done]. destruct getpagesize_pow2 as (j & Hj & Hp). rewrite Hp in *.
    assert (j ≤ k) by (apply (Z.pow_le_mono_r_iff 2); lia).
    exists (2 ^ (k - j)). rewrite <- Z.pow_add_r by lia. f_equal. lia.
Qed.

(** A fresh mapping as a large allocation whose block starts [o] bytes into
    the mapping. *)
Lemma fresh_large_ok total size o base s s1 L G l :
  slab_inv s L → large_inv s G l → mapped_fresh total base s s1 → (16 | base) → (getpagesize | total) →
  LARGE_HEADER_SIZE ≤ o → (16 | o) → 0 ≤ size → o + Z.max 1 size ≤ total →
  mc_larges s1 !! base = None ∧
  large_ok s1 (<[base := base + o]> G) base (MkLarge base total size (g_large_list (mc_g s1)) 0) ∧
  (∀ b e, mc_larges s1 !! b = Some e → disjoint_ranges base total b (la_size e)).
Proof.
  intros Hsl Hl (Hb0 & Hb47 & Hmap & Hfresh & Hzero & Hold & Heq) Hdiv Hpg Ho Ho16 Hs Htot.
  rewrite LARGE_HEADER_SIZE_eq in Ho.
  assert (mc_larges s1 = mc_larges s) as Hls by (by rewrite Heq).
  assert (mc_segs s1 = mc_segs s) as Hsg by (by rewrite Heq).
  assert (∀ b e, mc_larges s1 !! b = Some e → disjoint_ranges base total b (la_size e)) as Hdis.
  { intros b e He. rewrite Hls in He. destruct (lv_each _ _ _ Hl b e He) as [_ A2 _ A4 _ _ _].
    destruct (decide (disjoint_ranges base total b (la_size e))) as [|Hn]; [done|exfalso].
    apply (Hfresh (Z.max base b)); [|apply A4]; unfold in_range, disjoint_ranges in *; lia. }
  split_and!; [|split|done].
  - rewrite Hls. destruct (mc_larges s !! base) as [e|] eqn:He; [|done]. exfalso.
    specialize (Hdis base e). rewrite Hls in Hdis. specialize (Hdis He).
    destruct (lv_each _ _ _ Hl base e He) as [_ A2 _ _ _ _ _]. unfold disjoint_ranges in Hdis. lia.
  - done.
  - simpl. lia.
  - done.
  - intros a Ha. apply Hmap. by right.
  - intros a Ha (b & sg & Hb & Hab). apply (Hfresh a Ha). rewrite Hsg in Hb. by eapply si_mapped.
  - intros a Ha Hboot. apply (Hfresh a Ha). by apply (lv_boot _ _ _ Hl).
  - exists (base + o). rewrite lookup_insert_eq, LARGE_HEADER_SIZE_eq. simpl.
    split_and!; [done|lia|by apply Z.divide_add_r|lia|lia].
Qed.

(** The kernel refuses the mapping a large allocation of this size and
    alignment needs, which is a little larger than the block. *)
Definition large_refused (size k : Z) (s : machine) : Prop :=
  ∃ len, size ≤ len ≤ size + 2 * 2 ^ k + 2 ^ 18 ∧ mmap_refused len s.

(** What [large_alloc_aligned] does: nothing, or a new mapping [base] on the
    list.  The invariant may place the block anywhere behind the header. *)
Lemma large_alloc_core size k o s L G l :
  0 ≤ size → 4 ≤ k → size + 2 ^ k < 2 ^ 60 → slab_inv s L → ctl_inv s → large_inv s G l →
  let hs := large_header_space (2 ^ k) in let total := large_total size (2 ^ k) in
  LARGE_HEADER_SIZE ≤ o → (16 | o) → o + Z.max 1 size ≤ total →
  (large_alloc_aligned size (2 ^ k) s = Ok (0, s) ∧ large_refused size k s) ∨
  ∃ base s', large_alloc_aligned size (2 ^ k) s = Ok (base + hs, s') ∧ beside s L s' ∧
    (∀ a, is_mapped s a → is_mapped s' a) ∧ 0 < base ∧ (2 ^ k | base) ∧ (getpagesize | base) ∧
    mc_larges s !! base = None ∧ large_inv s' (<[base := base + o]> G) (base :: l) ∧
    (∀ b, lview <$> mc_larges s' !! b =
      lview <$> <[base := MkLarge base total size 0 0]> (mc_larges s) !! b) ∧
    (∀ a, in_range a base total → ¬ is_mapped s a ∧ load8 (mc_mem s') a = 0).
Proof.
  intros Hs Hk Hlim Hsl Hc Hl. cbv zeta. intros Ho Ho16 Hot.
  pose proof (Z.pow_pos_nonneg 2 k ltac:(lia) ltac:(lia)).
  unfold large_alloc_aligned. assert (16 ≤ 2 ^ k) by (change 16 with (2 ^ 4); apply Z.pow_le_mono_r; lia).
  destruct (Z.ltb_spec (2 ^ k) MIN_ALIGN); [config; lia|]. cbv zeta.
  assert (k < 60) by (apply (Z.pow_lt_mono_r_iff 2); lia).
  destruct (large_map_align k Hk ltac:(lia)) as (j & Hj & Hj2 & Hjp & ->).
  destruct (large_sizes size k Hs Hk Hlim) as (_ & Hh & Hpg & [Htot Htot2] & Htot3). cbv zeta in *.
  set (total := large_total size (2 ^ k)) in *.
  pose proof (os_mmap_aligned_bytes total (2 ^ j) s (si_bytes _ _ Hsl)) as Hby.
  destruct (os_mmap_aligned total (2 ^ j) s) as [base s1] eqn:Hmap. simpl in Hby.
  assert (2 ^ j < 2 ^ 60) by (apply Z.pow_lt_mono_r; lia). rewrite LARGE_HEADER_SIZE_eq in Hh.
  apply os_mmap_aligned_run in Hmap as [(-> & -> & Href)|[Hdiv Hf]]; [| |lia|done|lia|lia].
  { left. split; [done|]. eexists. split; [|exact Href]. unfold mapping_request.
    destruct (Z.leb_spec (2 ^ j) getpagesize); lia. }
  right. destruct (Z.eqb_spec base 0) as [->|Hb0]; [destruct Hf; lia|].
  assert (∀ i, 0 ≤ i ≤ j → (2 ^ i | base)) as Hdk.
  { intros i Hi. etrans; [|exact Hdiv]. exists (2 ^ (j - i)). rewrite <- Z.pow_add_r by lia. f_equal. lia. }
  destruct (fresh_large_ok total size o base s s1 L G l) as (Hnone & Hok & Hdis); try done; [apply (Hdk 4); lia|].
  pose proof Hf as (Hb1 & Hp47 & Hmapped & Hfresh & Hzero & Hold & Heq).
  pose proof (mapped_fresh_calm total base s s1 L Hsl Hc Hf Hby) as Hca.
  pose proof (large_inv_outside s s1 G l (ca_outside _ _ _ Hca) Hl) as Hl1.
  unfold lock_large. simpl. rewrite (lv_lock _ _ _ Hl1). cbn [mbind res_bind].
  rewrite u64_small by lia. exists base, (large_install base total size s1). split; [reflexivity|].
  assert (mc_larges s1 = mc_larges s) as Hls by (by rewrite Heq).
  destruct (large_install_rest base total size s1) as (Hsh & Hlk & Hsg & Hm & Hmp & Ht & Hr & Hin & Hli & Hlo).
  assert (beside s1 L (large_install base total size s1)) as Hbe.
  { apply beside_intro; try done; [apply Hca..|]. intros a (b & sg & Hb & Ha).
    unfold is_mapped. rewrite Hmp. by eapply (si_mapped _ _ (ca_slab _ _ _ Hca)). }
  split_and!; [|intros a Ha; unfold is_mapped; rewrite Hmp; apply Hmapped; by left|lia|apply Hdk; lia|by apply (Z.divide_trans _ (2 ^ j))|
    by rewrite <- Hls|by apply large_inv_install| |intros a Ha; split; [auto|rewrite Hm; auto]].
  - eapply beside_trans; [|intros a Ha; apply Hmapped; by left|exact Hbe].
    split; [apply Hca..|done|by rewrite Heq].
  - intros b. rewrite <- Hls. by apply (large_install_view _ _ _ _ G l).
Qed.

Lemma large_alloc_run size k s L G l :
  1 ≤ size → 4 ≤ k → size + 2 ^ k < 2 ^ 60 → slab_inv s L → ctl_inv s → large_inv s G l →
  ∃ p s', large_alloc_aligned size (2 ^ k) s = Ok (p, s') ∧ beside s L s' ∧
    (∀ a, is_mapped s a → is_mapped s' a) ∧
    ((p = 0 ∧ s' = s ∧ large_refused size k s) ∨
     (0 < p ∧ (2 ^ k | p) ∧ ∃ base total, mc_larges s !! base = None ∧
       large_inv s' (<[base := p]> G) (base :: l) ∧
       (∀ b, lview <$> mc_larges s' !! b =
         lview <$> <[base := MkLarge base total size 0 0]> (mc_larges s) !! b) ∧
       (∀ a, in_range a base total → ¬ is_mapped s a ∧ load8 (mc_mem s') a = 0))).
Proof.
  intros Hs Hk Hlim Hsl Hc Hl.
  destruct (large_sizes size k ltac:(lia) Hk Hlim) as (Hd & Hh & _ & [Htot _] & _). cbv zeta in *.
  destruct (large_alloc_core size k (large_header_space (2 ^ k)) s L G l)
    as [[Hrun Href]|(base & s' & Hrun & Hbe & Hmono & H0 & Hdk & _ & Hnone & Hl' & Hv & Hfr)]; try done; [lia|lia| |lia| |].
  - etrans; [|exact Hd]. exists (2 ^ (k - 4)). change 16 with (2 ^ 4). rewrite <- Z.pow_add_r by lia. f_equal. lia.
  - exists 0, s. split_and!; [done|by apply beside_refl|done|by left].
  - eexists _, s'. split_and!; [done|done|done|right]. rewrite LARGE_HEADER_SIZE_eq in Hh.
    split_and!; [lia|by apply Z.divide_add_r|]. by eexists base, _.
Qed.

(** ** Free *)
Lemma large_walk_ext fuel s s' la ptr :
  mc_larges s' = mc_larges s → large_walk fuel s' la ptr = large_walk fuel s la ptr.
Proof.
  intros Heq. revert la. induction fuel as [|fuel IH]; intros la; cbn [large_walk]; [done|].
  rewrite Heq. destruct (la =? 0); [done|]. destruct (mc_larges s !! la); [|done].
  cbn [deref mbind res_bind]. destruct (_ && _); [done|apply IH].
Qed.

(** The header found is the only one whose mapping holds the pointer. *)
Lemma large_walk_found s s' G l b e ptr :
  large_inv s G l → mc_larges s !! b = Some e → in_range ptr b (la_size e) →
  mc_larges s' = mc_larges s →
  large_walk (large_fuel s') s' (g_large_list (mc_g s)) ptr = Ok (Some e).
Proof.
  intros Hl He Hin Heq. rewrite (large_walk_ext _ s s') by done. unfold large_fuel. rewrite Heq.
  pose proof (large_length _ _ _ Hl).
  destruct (large_walk_run (S (size (mc_larges s))) s G l ptr Hl ltac:(lia)) as [[_ Hn]|(b' & e' & He' & Hin' & Hr)].
  - by destruct (Hn b e He).
  - rewrite Hr. destruct (decide (b' = b)) as [->|Hne]; [congruence|].
    pose proof (lv_disjoint _ _ _ Hl _ _ _ _ He' He Hne). unfold in_range, disjoint_ranges in *. lia.
Qed.

(** The tail of [large_free] once the entry is found. *)
Definition large_release (b : Z) (e : large_alloc_t) (s : machine) : machine :=
  os_munmap b (la_size e)
    ((upd_g (λ g, g <| g_large_allocated ::= λ x, sub64 x (la_user_size e) |>
                    <| g_large_alloc_count ::= λ x, sub64 x 1 |>)
       (unlock_large (large_unlink b e s))) <| mc_larges ::= delete b |>).

Lemma large_release_fields b e s :
  b ≠ 0 → 0 < la_size e →
  let s' := large_release b e s in
  mc_larges s' = delete b (set_prev (la_next e) (la_prev e) (set_next (la_prev e) (la_next e) (mc_larges s))) ∧
  g_large_list (mc_g s') = (if decide (g_large_list (mc_g s) = b) then la_next e else g_large_list (mc_g s)) ∧
  g_large_lock (mc_g s') = false ∧ same_shape s s' ∧ locks s' = locks s ∧ mc_segs s' = mc_segs s ∧
  mc_mem s' = mc_mem s ∧ g_tables (mc_g s') = g_tables (mc_g s) ∧
  g_segment_registry (mc_g s') = g_segment_registry (mc_g s) ∧
  g_initialized (mc_g s') = g_initialized (mc_g s) ∧
  mc_mapped s' = mc_mapped s ≫= range_sub b (whole_pages (la_size e)).
Proof.
  intros Hb Hs. cbv zeta. unfold large_release, os_munmap, large_unlink, set_prev, set_next.
  destruct (Z.eqb_spec b 0); [done|]. destruct (Z.ltb_spec 0 (la_size e)); [|lia]. cbn [negb andb].
  set (s1 := if la_next e =? 0 then _ else _).
  assert (mc_larges s1 = (if la_next e =? 0 then
      (if la_prev e =? 0 then mc_larges s else alter (λ q, q <| la_next := la_next e |>) (la_prev e) (mc_larges s))
      else alter (λ q, q <| la_prev := la_prev e |>) (la_next e)
        (if la_prev e =? 0 then mc_larges s else alter (λ q, q <| la_next := la_next e |>) (la_prev e) (mc_larges s)))
    ∧ s1 = s <| mc_larges := mc_larges s1 |>) as [HM Hs1].
  { unfold s1. destruct (la_next e =? 0), (la_prev e =? 0); split; try done; by destruct s. }
  rewrite <- HM. clearbody s1. rewrite Hs1. simpl.
  destruct (Z.eqb_spec (g_large_list (mc_g s)) b), (decide (g_large_list (mc_g s) = b)); try done; by split_and!.
Qed.

Lemma large_inv_release b e s G l :
  large_inv s G l → mc_larges s !! b = Some e →
  let s' := large_release b e s in
  (∀ a, is_mapped s' a ↔ is_mapped s a ∧ ¬ in_range a b (la_size e)) ∧
  (∀ c, lview <$> mc_larges s' !! c = if decide (c = b) then None else lview <$> mc_larges s !! c) ∧
  ∃ l', large_inv s' (delete b G) l'.
Proof.
  intros [H1 H2 H3 H4 H5 H6 H7] He. cbv zeta.
  destruct (H4 b e He) as [A1 (A2 & A2' & A2'') A3 A4 A5 A6 A7].
  destruct (large_release_fields b e s ltac:(lia) ltac:(lia))
    as (F1 & F2 & F3 & _ & _ & F6 & _ & _ & _ & _ & F11).
  assert (∀ a, is_mapped (large_release b e s) a ↔ is_mapped s a ∧ ¬ in_range a b (la_size e)) as Hm.
  { intros a. rewrite <- (whole_pages_id (la_size e)) by done. rewrite <- is_mapped_munmap.
    unfold is_mapped, sys_munmap. by rewrite F11. }
  assert (∀ c, lview <$> mc_larges (large_release b e s) !! c =
    if decide (c = b) then None else lview <$> mc_larges s !! c) as Hv.
  { intros c. rewrite F1. destruct (decide (c = b)) as [->|]; [by rewrite lookup_delete_eq|].
    by rewrite lookup_delete_ne, set_prev_view, set_next_view. }
  split; [done|]. split; [done|].
  destruct (list_elem_of_split l b) as (l1 & l2 & Hsplit).
  { apply H3. eauto. }
  exists (l1 ++ l2). set (s' := large_release b e s) in *. clearbody s'.
  assert (∀ c e', mc_larges s' !! c = Some e' → c ≠ b ∧ ∃ e0, mc_larges s !! c = Some e0 ∧
    la_base e' = la_base e0 ∧ la_size e' = la_size e0 ∧ la_user_size e' = la_user_size e0) as Hinv.
  { intros c e' Hc. specialize (Hv c). destruct (decide (c = b)); [by rewrite Hc in Hv|].
    split; [done|]. by eapply view_Some. }
  split; try done.
  - rewrite F1, F2. rewrite Hsplit in *. apply dll_unlink; try done.
    intros H0. by eapply dll_nonzero in H0.
  - apply (list_remove_mid l1 b l2). by rewrite <- Hsplit.
  - intros c. rewrite <- (fmap_is_Some lview), Hv.
    rewrite (proj2 (list_remove_mid l1 b l2 ltac:(by rewrite <- Hsplit)) c), <- Hsplit, <- H3.
    destruct (decide (c = b)) as [->|]; [split; [by intros []|by intros [? _]]|].
    rewrite fmap_is_Some. tauto.
  - intros c e' Hc. destruct (Hinv c e' Hc) as (Hne & e0 & He0 & E1 & E2 & E3).
    eapply large_ok_view; [done..| | |exact F6|by apply H4]; [by rewrite lookup_delete_ne|].
    intros a Ha Hma. apply Hm. split; [done|]. intros Hab.
    pose proof (H5 _ _ _ _ He0 He Hne). unfold in_range, disjoint_ranges in *. lia.
  - intros c c' e1 e2 Hc Hc' Hne. destruct (Hinv c e1 Hc) as (_ & x & Hx & _ & -> & _).
    destruct (Hinv c' e2 Hc') as (_ & y & Hy & _ & -> & _). by eapply H5.
  - intros a Ha. destruct (H6 a Ha) as [Hma Hn]. split; [apply Hm; split; [done|]; intros Hr; by apply (A6 a)|].
    unfold in_segs. by rewrite F6.
Qed.

Lemma large_free_run ptr b e s L G l :
  slab_inv s L → ctl_inv s → large_inv s G l → mc_larges s !! b = Some e →
  in_range ptr b (la_size e) →
  ∃ s' l', large_free ptr s = Ok s' ∧ beside s L s' ∧ large_inv s' (delete b G) l' ∧
    (∀ c, lview <$> mc_larges s' !! c = if decide (c = b) then None else lview <$> mc_larges s !! c) ∧
    (∀ a, is_mapped s' a ↔ is_mapped s a ∧ ¬ in_range a b (la_size e)).
Proof.
  intros Hs Hc Hl He Hin. destruct (lv_each _ _ _ Hl b e He) as [A1 (A2 & A2' & A2'') A3 A4 A5 A6 A7].
  unfold large_free. destruct (Z.eqb_spec ptr 0); [unfold in_range in Hin; lia|].
  unfold lock_large. rewrite (lv_lock _ _ _ Hl). cbn [mbind res_bind].
  rewrite (large_walk_found s _ G l b e ptr Hl He Hin) by done. cbn [mbind res_bind]. rewrite A1.
  set (s0 := upd_g (λ g, g <| g_large_lock := true |>) s).
  change (∃ s' l', Ok (large_release b e s0) = Ok s' ∧ beside s L s' ∧ large_inv s' (delete b G) l' ∧
    (∀ c, lview <$> mc_larges s' !! c = if decide (c = b) then None else lview <$> mc_larges s !! c) ∧
    (∀ a, is_mapped s' a ↔ is_mapped s a ∧ ¬ in_range a b (la_size e))).
  assert (large_release b e s0 = large_release b e s) as Hrel.
  { unfold large_release, large_unlink, s0, os_munmap. cbv zeta.
    destruct (la_prev e =? 0), (la_next e =? 0); simpl;
      destruct (g_large_list (mc_g s) =? b); simpl; by destruct (_ && _). }
  rewrite Hrel. destruct (large_inv_release b e s G l Hl He) as (Hm & Hv & l' & Hl').
  destruct (large_release_fields b e s ltac:(lia) ltac:(lia))
    as (_ & _ & _ & F4 & F5 & F6 & F7 & F8 & F9 & F10 & _).
  exists (large_release b e s), l'. split_and!; try done. apply beside_intro; try done.
  intros a Ha. apply Hm. split; [|intros Hab; by apply (A5 a)].
  destruct Ha as (c & sg & Hcs & Hca). by eapply si_mapped.
Qed.

(** A pointer into no mapping is ignored. *)
Lemma large_free_unknown ptr s G l :
  large_inv s G l → (∀ b e, mc_larges s !! b = Some e → ¬ in_range ptr b (la_size e)) →
  large_free ptr s = Ok s.
Proof.
  intros Hl Hn. unfold large_free. destruct (ptr =? 0); [done|].
  unfold lock_large. rewrite (lv_lock _ _ _ Hl). cbn [mbind res_bind].
  rewrite (large_walk_ext _ s) by done.
  pose proof (large_length _ _ _ Hl). change (large_fuel (upd_g ?f s)) with (S (size (mc_larges s))).
  change (g_large_list (mc_g (upd_g ?f s))) with (g_large_list (mc_g s)).
  destruct (large_walk_run (S (size (mc_larges s))) s G l ptr Hl ltac:(lia)) as [[-> _]|(b & e & He & Hin & _)].
  - cbn [mbind res_bind]. f_equal. unfold unlock_large, upd_g. simpl. destruct s as [g]. destruct g.
    simpl in *. by rewrite <- (lv_lock _ _ _ Hl).
  - by destruct (Hn b e He).
Qed.

Lemma large_find_run s G l b e ptr :
  large_inv s G l → mc_larges s !! b = Some e → in_range ptr b (la_size e) →
  large_find ptr s = Ok (Some e).
Proof.
  intros Hl He Hin. unfold large_find, lock_large. rewrite (lv_lock _ _ _ Hl). cbn [mbind res_bind].
  by rewrite (large_walk_found s _ G l b e ptr).
Qed.

End Large.
