(* ===== verification/Steady.v ===== *)
(** * What a call can change of the thread bookkeeping

    Only [tld_get] hands out a thread id, only [arena_get] advances the
    round-robin counter and only [segment_create] maps a segment, and a call
    does each of these once at most: all other operations keep the
    initialisation flag, the two counters, the table of thread-specific values
    and the number of segments.  No invariant is needed. *)
From S2P Require Import Prelude Config Mem Atomic SizeClass Types Os Page Registry Segment Debug Tld Arena Large Slab Init Malloc.

Section Steady.
Context `{E : Env}.

(** The flag, the counters and the thread table are kept; so is the number of
    segments up to [n] new ones. *)
Definition counters (s : machine) : Z * Z * Z * gmap Z Z :=
  (g_initialized (mc_g s), g_arena_next (mc_g s), mc_thread_id_counter s, mc_specific s).

Definition steady_by (n : nat) (s s' : machine) : Prop :=
  counters s' = counters s ∧ (size (mc_segs s') ≤ size (mc_segs s) + n)%nat.
Notation steady := (steady_by 0).

#[local] Instance steady_refl n : Reflexive (steady_by n).
Proof. intros s. split; [done|lia]. Qed.
Lemma steady_by_trans n k s s1 s2 : steady_by n s s1 → steady_by k s1 s2 → steady_by (n + k) s s2.
Proof. intros [A B] [C D]. split; [congruence|lia]. Qed.
#[local] Instance steady_trans : Transitive steady.
Proof. intros s s1 s2 H1 H2. by apply (steady_by_trans 0 0 s s1 s2). Qed.
Lemma steady_by_weaken n k s s' : (n ≤ k)%nat → steady_by n s s' → steady_by k s s'.
Proof. intros Hn [A B]. split; [done|lia]. Qed.

Lemma alter_steady s s' (f : segment_t → segment_t) b :
  counters s' = counters s → mc_segs s' = alter f b (mc_segs s) → steady s s'.
Proof.
  intros Hc Hs. split; [done|]. rewrite Hs, Nat.add_0_r. apply Nat.eq_le_incl.
  rewrite <- (size_dom (D := gset Z)), dom_alter_L. apply size_dom.
Qed.
Lemma same_steady s s' : counters s' = counters s → mc_segs s' = mc_segs s → steady s s'.
Proof. intros Hc Hs. split; [done|]. rewrite Hs. lia. Qed.

Lemma upd_seg_steady n b f s s1 : steady_by n s s1 → steady_by n s (upd_seg b f s1).
Proof.
  intros H. rewrite <- (Nat.add_0_r n). eapply steady_by_trans; [exact H|]. by eapply alter_steady.
Qed.
Lemma upd_page_steady n r f s s1 : steady_by n s s1 → steady_by n s (upd_page r f s1).
Proof. apply upd_seg_steady. Qed.
Lemma same_segs_steady n s s1 s2 :
  steady_by n s s1 → counters s2 = counters s1 → mc_segs s2 = mc_segs s1 → steady_by n s s2.
Proof. intros [A B] Hc Hs. split; [congruence|by rewrite Hs]. Qed.
Lemma upd_arena_steady n i f s s1 : steady_by n s s1 → steady_by n s (upd_arena i f s1).
Proof. intros H. by eapply same_segs_steady. Qed.
Lemma upd_tld_steady n a f s s1 : steady_by n s s1 → steady_by n s (upd_tld a f s1).
Proof. intros H. by eapply same_segs_steady. Qed.
Lemma set_mem_steady n f s s1 : steady_by n s s1 → steady_by n s (s1 <| mc_mem ::= f |>).
Proof. intros H. by eapply same_segs_steady. Qed.

(** Split every branch of a run and go back through its stores. *)
Local Ltac branches := repeat (inv_res; simplify_eq; try case_match).
Local Ltac stores :=
  simplify_eq; unfold unlock_arena;
  repeat first [reflexivity | assumption | apply upd_page_steady | apply upd_seg_steady
    | apply upd_arena_steady | apply upd_tld_steady | apply set_mem_steady
    | by apply same_steady].
Local Ltac steady_run := intros; branches; stores.

Lemma mmap_steady size alignment s : steady s (os_mmap_aligned size alignment s).2.
Proof. unfold os_mmap_aligned, sys_mmap. repeat case_match; simplify_eq; by apply same_steady. Qed.

Lemma segment_create_steady ar s : steady_by 1 s (segment_create ar s).2.
Proof.
  unfold segment_create. pose proof (mmap_steady SEGMENT_SIZE SEGMENT_SIZE s) as [A B].
  destruct (os_mmap_aligned _ _ s) as [p s1]. simpl in *. destruct (p =? 0); simpl.
  - split; [done|]. simpl. lia.
  - split; [done|]. simpl. rewrite map_size_insert. case_match; simpl; lia.
Qed.

Lemma segment_alloc_page_steady seg bin s o s' :
  segment_alloc_page seg bin s = Ok (o, s') → steady s s'.
Proof. unfold segment_alloc_page. steady_run. Qed.

Lemma alloc_in_segments_steady fuel seg bin s o s' :
  alloc_in_segments fuel seg bin s = Ok (o, s') → steady s s'.
Proof.
  revert seg s. induction fuel as [|n IH]; intros seg s; simpl; destruct (seg =? 0); intros H; try done;
    inv_res; try done.
  apply segment_alloc_page_steady in Hrun. destruct o0; inv_res; [done|].
  etrans; [done|]. by eapply IH.
Qed.

Lemma link_segment_steady i seg old s : steady s (link_segment i seg old s).
Proof. unfold link_segment. destruct (old =? 0); stores. Qed.

Lemma grow_arena_steady i bin s o s' : grow_arena i bin s = Ok (o, s') → steady_by 1 s s'.
Proof.
  unfold grow_arena. pose proof (segment_create_steady (Some i) s) as Hc.
  destruct (segment_create (Some i) s) as [p s1]. simpl in Hc.
  destruct (p =? 0); intros H; inv_res; [done|]. apply segment_alloc_page_steady in H.
  apply (steady_by_trans 1 0 s s1); [done|]. etrans; [apply link_segment_steady|done].
Qed.

Lemma bin_insert_page_steady i r s s' : bin_insert_page i r s = Ok s' → steady s s'.
Proof. unfold bin_insert_page. steady_run. Qed.

Lemma bump_from_steady i r s slot s' : bump_from i r s = Ok (slot, s') → steady s s'.
Proof. unfold bump_from. intros. inv_res. destruct (bump_slot x). inv_res. stores. Qed.

Lemma lock_arena_steady i s s' : lock_arena i s = Ok s' → steady s s'.
Proof. unfold lock_arena. steady_run. Qed.

Lemma arena_alloc_steady i bin s slot z s' : arena_alloc i bin s = Ok (slot, z, s') → steady_by 1 s s'.
Proof.
  unfold arena_alloc. intros H. apply res_bind_Ok in H as (s0 & H0%lock_arena_steady & H).
  apply (steady_by_trans 0 1 s s0 s' H0). clear H0. inv_res. destruct x1 as [r|]; inv_res.
  - apply bump_from_steady in Hrun2. apply (steady_by_weaken 0); [lia|]. stores.
  - apply alloc_in_segments_steady in Hrun2. apply (steady_by_trans 0 1 s0 m s' Hrun2). clear Hrun2.
    assert (steady_by 1 m m0) as Hg.
    { destruct o; inv_res; [apply (steady_by_weaken 0); [lia|done]|by eapply grow_arena_steady]. }
    apply (steady_by_trans 1 0 m m0 s' Hg). clear Hg Hrun3. destruct o0; inv_res; [|stores].
    apply bin_insert_page_steady in Hrun2. apply bump_from_steady in Hrun3.
    etrans; [exact Hrun2|]. stores.
Qed.

Lemma large_alloc_steady size alignment s p s' :
  large_alloc_aligned size alignment s = Ok (p, s') → steady s s'.
Proof.
  unfold large_alloc_aligned. set (a := if alignment <? MIN_ALIGN then _ else _). clearbody a.
  pose proof (mmap_steady (large_total size a) (if a <? os_page_size then os_page_size else a) s) as Hm.
  destruct (os_mmap_aligned _ _ s) as [base s1]. simpl in Hm.
  destruct (base =? 0); intros H; inv_res; [done|]. unfold lock_large in Hrun. case_match; simplify_eq.
  etrans; [exact Hm|]. unfold large_link. simpl. case_match; by apply same_steady.
Qed.

Lemma tick_steady tld s s' : tld_stat_tick tld s = Ok s' → steady s s'.
Proof. unfold tld_stat_tick, tld_stat_flush. steady_run. Qed.

Lemma finish_fast_steady tld r slot p s x s' : finish_fast tld r slot p s = Ok (x, s') → steady s s'.
Proof.
  unfold finish_fast, tld_stat_alloc. intros. inv_res. apply tick_steady in Hrun0.
  etrans; [|exact Hrun0]. stores.
Qed.

Lemma slab_alloc_fast_steady tld bin s o s' : slab_alloc_fast tld bin s = Ok (o, s') → steady s s'.
Proof.
  unfold slab_alloc_fast. intros. branches; try match goal with
    H : finish_fast _ _ _ _ _ = Ok _ |- _ => apply finish_fast_steady in H; etrans; [|exact H] end; stores.
Qed.

Lemma claim_page_steady tld bin result s s' : claim_page tld bin result s = Ok s' → steady s s'.
Proof. unfold claim_page. steady_run. Qed.

(** What a whole call can use up: one id, one assignment to an arena, one
    segment. *)
Definition spends (s s' : machine) : Prop :=
  g_initialized (mc_g s') = g_initialized (mc_g s) ∧
  (mc_thread_id_counter s' = mc_thread_id_counter s ∨
   mc_thread_id_counter s' = u32 (mc_thread_id_counter s + 1)) ∧
  (g_arena_next (mc_g s') = g_arena_next (mc_g s) ∨ g_arena_next (mc_g s') = s32 (g_arena_next (mc_g s) + 1)) ∧
  (size (mc_segs s') ≤ size (mc_segs s) + 1)%nat.

Lemma steady_spends n s s' : (n ≤ 1)%nat → steady_by n s s' → spends s s'.
Proof. intros Hn [A B]. injection A as A1 A2 A3 A4. split_and!; [done|by left|by left|lia]. Qed.

Lemma spends_steady n s s1 s' :
  (n ≤ 1)%nat → spends s s1 → (size (mc_segs s1) ≤ size (mc_segs s))%nat → steady_by n s1 s' → spends s s'.
Proof.
  intros Hn (B & C & D & F) Hz [A H]. injection A as A1 A2 A3 A4.
  split_and!; [congruence|by rewrite A3|by rewrite A2|lia].
Qed.

(** [tld_get] hands out an id or keeps everything, as it does for a thread
    that has its value. *)
Definition hands_out (tid : Z) (s s' : machine) : Prop :=
  g_initialized (mc_g s') = g_initialized (mc_g s) ∧ g_arena_next (mc_g s') = g_arena_next (mc_g s) ∧
  mc_segs s' = mc_segs s ∧ mc_specific s !! tid = None ∧ is_Some (mc_specific s' !! tid) ∧
  mc_thread_id_counter s' = u32 (mc_thread_id_counter s + 1).

Lemma tld_get_steady tid s :
  let s' := (tld_get tid s).2 in steady s s' ∨ hands_out tid s s'.
Proof.
  unfold tld_get. destruct (mc_specific s !! tid) as [t|] eqn:Ht; [by left|].
  assert (∀ p s1, (if negb (malloc_is_initialized s) then bootstrap_alloc SIZEOF_TLD s
    else os_mmap_aligned os_page_size os_page_size s) = (p, s1) →
    counters s1 = counters s ∧ mc_segs s1 = mc_segs s) as Hb.
  { intros p s1. destruct (malloc_is_initialized s); simpl; intros Heq.
    - unfold os_mmap_aligned, sys_mmap in Heq. repeat case_match; by simplify_eq.
    - unfold bootstrap_alloc in Heq. case_match; by simplify_eq. }
  destruct (if negb _ then _ else _) as [p s1]. specialize (Hb p s1 eq_refl) as [Hc Hs].
  destruct (p =? 0); simpl; [left; by apply same_steady|right].
  injection Hc as C1 C2 C3 C4. split_and!; simpl; try congruence. rewrite lookup_insert_eq. eauto.
Qed.

Lemma hands_out_spends tid s s' : hands_out tid s s' → spends s s'.
Proof. intros (A & B & C & _ & _ & D). split_and!; [done|by right|by left|]. rewrite C. lia. Qed.

Lemma tld_get_known tid s : is_Some (mc_specific s !! tid) → (tld_get tid s).2 = s.
Proof. intros [t Ht]. unfold tld_get. by rewrite Ht. Qed.

(** [arena_get]: what [tld_get] does, and one step of the round robin. *)
Lemma arena_get_steps tid s o s' :
  arena_get tid s = Ok (o, s') →
  let s1 := (tld_get tid s).2 in
  g_initialized (mc_g s') = g_initialized (mc_g s1) ∧ mc_segs s' = mc_segs s1 ∧
  mc_thread_id_counter s' = mc_thread_id_counter s1 ∧
  (g_arena_next (mc_g s') = g_arena_next (mc_g s1) ∨ g_arena_next (mc_g s') = s32 (g_arena_next (mc_g s1) + 1)).
Proof.
  unfold arena_get. destruct (tld_get tid s) as [t s1]. simpl. intros H. branches; split_and!; try done; auto.
Qed.

(** The common shape of [malloc] and [free]: the thread's data first, then the
    work. *)
Lemma slab_alloc_inner_spends tid sz s p z s' :
  slab_alloc_inner tid sz s = Ok (p, z, s') → spends s s'.
Proof.
  unfold slab_alloc_inner, large_alloc. destruct (MEDIUM_MAX <? _).
  { intros. inv_res. by eapply (steady_spends 0), large_alloc_steady; [lia|]. }
  destruct (PAGE_SIZE_ALLOC / 2 <? _).
  { intros. inv_res. by eapply (steady_spends 0), large_alloc_steady; [lia|]. }
  pose proof (tld_get_steady tid s) as Htld. simpl in Htld.
  destruct (tld_get tid s) as [t s1]. simpl in Htld.
  intros H. inv_res. apply slab_alloc_fast_steady in Hrun as [Hc Hz]. injection Hc as C1 C2 C3 C4.
  destruct o as [[]|]; inv_res.
  { destruct Htld as [[A B]|Hh].
    - apply (steady_spends 0); [lia|]. split; [|lia]. unfold counters in *. congruence.
    - apply (spends_steady 0 s s1); [lia|by eapply hands_out_spends| |].
      + destruct Hh as (_ & _ & -> & _). lia.
      + split; [|lia]. unfold counters. congruence. }
  pose proof (arena_get_steps _ _ _ _ Hrun) as (E1 & E2 & E3 & E4).
  assert (steady_by 1 m0 s') as Hst.
  { destruct o; inv_res; [|done]. apply arena_alloc_steady in Hrun0.
    apply claim_page_steady in Hrun1. by apply (steady_by_trans 1 0 m0 m1). }
  clear Hrun H. destruct Hst as [Hc' Hz']. injection Hc' as D1 D2 D3 D4.
  assert (∃ m2, m2 = (tld_get tid m).2 ∧ g_initialized (mc_g m2) = g_initialized (mc_g s) ∧
    g_arena_next (mc_g m2) = g_arena_next (mc_g s) ∧ (size (mc_segs m2) ≤ size (mc_segs s))%nat ∧
    (mc_thread_id_counter m2 = mc_thread_id_counter s ∨
     mc_thread_id_counter m2 = u32 (mc_thread_id_counter s + 1))) as (m2 & -> & F1 & F2 & F3 & F4).
  { destruct Htld as [[A B]|(A1 & A2 & A3 & A4 & A5 & A6)].
    - injection A as A1 A2 A3 A4. eexists. split; [done|].
      destruct (tld_get_steady tid m) as [[G H]|(G1 & G2 & G3 & G4 & G5 & G6)].
      + injection G as G1 G2 G3 G4. split_and!; [congruence|congruence|lia|left; congruence].
      + split_and!; [congruence|congruence|rewrite G3; lia|right; congruence].
    - rewrite tld_get_known by (by rewrite C4). eexists. split; [done|].
      split_and!; [congruence|congruence|rewrite A3 in Hz; lia|right; congruence]. }
  split_and!; [congruence| | |rewrite E2 in Hz'; lia].
  - rewrite D3, E3. done.
  - rewrite D2. destruct E4 as [->| ->]; rewrite F2; auto.
Qed.

(** ** The public calls *)
Lemma malloc_spends tid size s p s' :
  g_initialized (mc_g s) = 2 → my_malloc tid size s = Ok (p, s') → spends s s'.
Proof.
  intros Hi. unfold my_malloc, malloc_ensure_init. rewrite Hi. cbn [Z.eqb Pos.eqb negb mbind res_bind].
  destruct (MEDIUM_MAX <? _).
  - intros H. eapply (steady_spends 0), large_alloc_steady; [lia|exact H].
  - unfold slab_alloc. intros. inv_res. by eapply slab_alloc_inner_spends.
Qed.

Lemma calloc_spends tid count size s p s' :
  g_initialized (mc_g s) = 2 → my_calloc tid count size s = Ok (p, s') → spends s s'.
Proof.
  intros Hi. unfold my_calloc, malloc_ensure_init. destruct (SIZE_MAX <? _).
  { intros. inv_res. apply (steady_spends 0); [lia|]. by apply same_steady. }
  rewrite Hi. cbn [Z.eqb Pos.eqb negb mbind res_bind]. destruct (MEDIUM_MAX <? _).
  - intros H. eapply (steady_spends 0), large_alloc_steady; [lia|exact H].
  - unfold slab_alloc_zeroed. intros H. destruct (slab_alloc_inner _ _ _) as [[[q z] s1]| | |] eqn:Hin; try done.
    apply slab_alloc_inner_spends in Hin. simpl in H. destruct (_ && _); inv_res; exact Hin.
Qed.

Lemma large_free_steady ptr s s' : large_free ptr s = Ok s' → steady s s'.
Proof.
  unfold large_free, lock_large. destruct (ptr =? 0); [intros; inv_res; done|].
  destruct (g_large_lock (mc_g s)); [done|]. intros. inv_res. destruct x0 as [e|]; inv_res; [|by apply same_steady].
  apply same_steady; unfold os_munmap, large_unlink; repeat case_match; done.
Qed.

Lemma slab_free_spends tid ptr s s' : slab_free tid ptr s = Ok s' → spends s s'.
Proof.
  unfold slab_free. destruct (ptr =? 0); [intros; inv_res; apply (steady_spends 0); [lia|done]|].
  destruct (_ =? 0); [intros; inv_res; apply (steady_spends 0); [lia|done]|].
  destruct (ptr_to_page s ptr) as [r|]; [|intros; inv_res; apply (steady_spends 0); [lia|done]].
  intros H. inv_res. destruct (decide _); [inv_res; apply (steady_spends 0); [lia|done]|]. inv_res.
  match goal with H : context [upd_page ?r (λ _, x0) s] |- _ => set (s1 := upd_page r (λ _, x0) s) in * end.
  assert (steady s s1) as Hs by (unfold s1; stores). clearbody s1.
  pose proof (tld_get_steady tid s1) as Htld. simpl in Htld.
  destruct (tld_get tid s1) as [t s2]. simpl in Htld. inv_res.
  assert (steady s2 s') as Hs'.
  { destruct x1.
    - destruct (page_free_slot_local _ _ _). unfold tld_stat_free in H. apply tick_steady in H.
      etrans; [|exact H]. stores.
    - destruct (page_free_slot_remote _ _ _). case_match; inv_res; stores. }
  destruct Htld as [Ht|Hh].
  - apply (steady_spends 0); [lia|]. etrans; [exact Hs|]. by etrans.
  - destruct Hs as [A B], (hands_out_spends _ _ _ Hh) as (S1 & S2 & S3 & S4). injection A as A1 A2 A3 A4.
    apply (spends_steady 0 s s2); [lia| | |done].
    + rewrite A1 in S1. rewrite A2 in S3. rewrite A3 in S2. split_and!; [done|done|done|lia].
    + destruct Hh as (_ & _ & -> & _). lia.
Qed.

Lemma free_spends tid ptr s s' : my_free tid ptr s = Ok s' → spends s s'.
Proof.
  unfold my_free. destruct (ptr =? 0); [intros; inv_res; apply (steady_spends 0); [lia|done]|].
  destruct (in_bootstrap ptr); [intros; inv_res; apply (steady_spends 0); [lia|done]|].
  destruct (negb _); [apply slab_free_spends|].
  intros H. apply (steady_spends 0); [lia|]. by eapply large_free_steady.
Qed.

(** ** Counting calls *)

(** The machine is initialised and [k] more calls stay below every limit: the
    thread ids, the round robin, the segment registry. *)
Record affords (k : nat) (s : machine) : Prop := {
  af_init : g_initialized (mc_g s) = 2;
  af_counter : 0 ≤ mc_thread_id_counter s ∧ mc_thread_id_counter s + Z.of_nat k < UINT32_MAX;
  af_next : 0 ≤ g_arena_next (mc_g s) ∧ g_arena_next (mc_g s) + Z.of_nat k < 2 ^ 31;
  af_segments : (size (mc_segs s) + k ≤ 256)%nat
}.

Lemma affords_weaken k j s : (j ≤ k)%nat → affords k s → affords j s.
Proof. intros Hle [H1 H2 H3 H4]. split; [done|lia|lia|lia]. Qed.

Lemma affords_spend k s s' : affords (S k) s → spends s s' → affords k s'.
Proof.
  intros [H1 [H2 H2'] [H3 H3'] H4] (S1 & S2 & S3 & S4). split; [congruence| | |lia].
  - destruct S2 as [->| ->]; [lia|]. unfold UINT32_MAX in *. rewrite u32_small; lia.
  - destruct S3 as [->| ->]; [lia|]. unfold s32. rewrite Z.mod_small; lia.
Qed.

Lemma realloc_move_affords tid ptr sz n k s p s' :
  affords (S (S k)) s → realloc_move tid ptr sz n s = Ok (p, s') → affords k s'.
Proof.
  intros Ha. unfold realloc_move. intros H. apply res_bind_Ok in H as ([q s1] & Hm & H).
  apply malloc_spends in Hm; [|apply Ha]. pose proof (affords_spend _ _ _ Ha Hm) as Ha1.
  destruct (q =? 0); inv_res; [apply (affords_weaken (S k)); [lia|done]|].
  apply free_spends in Hrun. eapply affords_spend; [|exact Hrun]. by destruct Ha1.
Qed.

Lemma realloc_affords tid ptr sz k s p s' :
  affords (S (S k)) s → my_realloc tid ptr sz s = Ok (p, s') → affords k s'.
Proof.
  intros Ha. pose proof (af_init _ _ Ha) as Hi. assert (affords k s) as Hk by (apply (affords_weaken (S (S k))); [lia|done]).
  unfold my_realloc, malloc_ensure_init. destruct (ptr =? 0).
  { intros H%malloc_spends; [|done]. apply (affords_weaken (S k)); [lia|]. by eapply affords_spend. }
  destruct (sz =? 0).
  { intros H. inv_res. apply free_spends in Hrun. apply (affords_weaken (S k)); [lia|]. by eapply affords_spend. }
  rewrite Hi. cbn [Z.eqb Pos.eqb negb mbind res_bind]. destruct (in_bootstrap ptr).
  { intros H. apply res_bind_Ok in H as ([q s1] & Hm & H). apply malloc_spends in Hm; [|done].
    pose proof (affords_spend _ _ _ Ha Hm) as Ha1. apply (affords_weaken (S k)); [lia|].
    destruct (q =? 0); inv_res; [done|]. by destruct Ha1. }
  assert (realloc_large tid ptr sz s = Ok (p, s') → affords k s') as Hl.
  { unfold realloc_large. intros H. inv_res. destruct x as [e|]; [|by inv_res].
    destruct (_ <=? _); inv_res; [by destruct Hk|]. by eapply realloc_move_affords. }
  destruct (_ =? 0); [done|]. destruct (ptr_to_page s ptr) as [r|]; [|done]. intros H. inv_res.
  destruct (_ && _); inv_res; [done|]. by eapply realloc_move_affords.
Qed.

End Steady.
