(* ===== verification/Threads.v ===== *)
(** * The layout of the address space

    The regions the allocator has mapped, the bootstrap buffer, the segments,
    the large mappings and the page of each thread's [tld_t], are mapped,
    disjoint, and, but for the first, whole pages.  Every call keeps
    [layout], which makes the unmapping at thread exit safe (ExitCorrect.v).
    No other invariant is needed. *)
From S2P Require Import Prelude Config Mem Atomic SizeClass Types Os Page Registry Segment Debug Tld Arena Large Slab Init Malloc Heap HeapOps LargeCorrect Steady.

Section Threads.
Context `{E : Env}.
Implicit Types (s : machine).

(** What the invariant looks at. *)
Definition lprint (s : machine) : gmap Z (Z * Z) := (λ e, (la_base e, la_size e)) <$> mc_larges s.
Definition seg_bases (s : machine) : gset Z := dom (mc_segs s).
Definition tld_bases (s : machine) : gset Z := dom (mc_tlds s).

Inductive key := KBoot | KSeg (b : Z) | KLarge (b : Z) | KTld (a : Z).
#[global] Instance key_eq_dec : EqDecision key.
Proof. solve_decision. Defined.

Definition region (s : machine) (k : key) : option (Z * Z) :=
  match k with
  | KBoot => Some (bootstrap_buf, BOOTSTRAP_BUF_SIZE)
  | KSeg b => if decide (b ∈ seg_bases s) then Some (b, SEGMENT_SIZE) else None
  | KLarge b => lprint s !! b
  | KTld a => if decide (a ∈ tld_bases s) then Some (a, getpagesize) else None
  end.

Definition key_base (k : key) : Z :=
  match k with KBoot => bootstrap_buf | KSeg b | KLarge b | KTld b => b end.

Record layout (s : machine) : Prop := {
  ly_base k lo len : region s k = Some (lo, len) → lo = key_base k;
  ly_mapped k lo len : region s k = Some (lo, len) →
    0 < lo ∧ 0 < len ∧ ∀ x, in_range x lo len → is_mapped s x;
  ly_pages k lo len : region s k = Some (lo, len) → k ≠ KBoot → (getpagesize | len);
  ly_apart k k' lo len lo' len' : region s k = Some (lo, len) → region s k' = Some (lo', len') → k ≠ k' →
    disjoint_ranges lo len lo' len';
  ly_known tid a : mc_specific s !! tid = Some a → a ∈ tld_bases s;
  ly_inj tid tid' a : mc_specific s !! tid = Some a → mc_specific s !! tid' = Some a → tid = tid'
}.

(** ** Steps that change nothing of it *)
Record same_print (s s' : machine) : Prop := {
  sp_mapped : mc_mapped s' = mc_mapped s;
  sp_segs : seg_bases s' = seg_bases s;
  sp_larges : lprint s' = lprint s;
  sp_tlds : tld_bases s' = tld_bases s;
  sp_specific : mc_specific s' = mc_specific s
}.

#[local] Instance same_print_refl : Reflexive same_print.
Proof. by intros s. Qed.
#[local] Instance same_print_trans : Transitive same_print.
Proof. intros s s1 s2 [A B C D F] [A' B' C' D' F']. split; congruence. Qed.

Lemma same_print_region s s' k : same_print s s' → region s' k = region s k.
Proof. intros [A B C D F]. destruct k; simpl; by rewrite ?B, ?C, ?D. Qed.

Lemma same_print_layout s s' : same_print s s' → layout s → layout s'.
Proof.
  intros Hp [T0 T1 T2 T3 T4 T5]. pose proof (λ k, same_print_region s s' k Hp) as Hr. destruct Hp as [A B C D F].
  split; try setoid_rewrite Hr; rewrite ?D, ?F; try done.
  intros k lo len Hk. destruct (T1 k lo len Hk) as (? & ? & Hm). split_and!; [done|done|].
  intros x Hx. unfold is_mapped. rewrite A. by apply Hm.
Qed.

Lemma print_upd_seg b f s s1 : same_print s s1 → same_print s (upd_seg b f s1).
Proof.
  intros H. etrans; [exact H|]. split; try done. unfold seg_bases. simpl. apply dom_alter_L.
Qed.
Lemma print_upd_page r f s s1 : same_print s s1 → same_print s (upd_page r f s1).
Proof. apply print_upd_seg. Qed.
Lemma print_upd_tld a f s s1 : same_print s s1 → same_print s (upd_tld a f s1).
Proof.
  intros H. etrans; [exact H|]. split; try done. unfold tld_bases. simpl. apply dom_alter_L.
Qed.
Lemma print_upd_arena i f s s1 : same_print s s1 → same_print s (upd_arena i f s1).
Proof. intros H. etrans; [exact H|]. by split. Qed.
Lemma print_upd_g f s s1 : same_print s s1 → same_print s (upd_g f s1).
Proof. intros H. etrans; [exact H|]. by split. Qed.
Lemma print_set_mem f s s1 : same_print s s1 → same_print s (s1 <| mc_mem ::= f |>).
Proof. intros H. etrans; [exact H|]. by split. Qed.
Lemma print_upd_large b f s s1 :
  (∀ e, la_base (f e) = la_base e ∧ la_size (f e) = la_size e) →
  same_print s s1 → same_print s (upd_large b f s1).
Proof.
  intros Hf H. etrans; [exact H|]. split; try done. unfold lprint. simpl. apply map_eq. intros c.
  rewrite !lookup_fmap. destruct (decide (b = c)) as [->|Hne].
  - rewrite lookup_alter_eq. destruct (mc_larges s1 !! c) as [e|]; simpl; [|done].
    by destruct (Hf e) as [-> ->].
  - by rewrite lookup_alter_ne.
Qed.

Local Ltac branches := repeat (inv_res; simplify_eq; try case_match).
Local Ltac stores :=
  simplify_eq; unfold unlock_arena, unlock_large;
  repeat first [reflexivity | assumption | apply print_upd_page | apply print_upd_seg
    | apply print_upd_arena | apply print_upd_tld | apply print_upd_g | apply print_set_mem
    | apply print_upd_large; [done|] | by split].
Local Ltac print_run := intros; branches; stores.

Lemma segment_alloc_page_print seg bin s o s' :
  segment_alloc_page seg bin s = Ok (o, s') → same_print s s'.
Proof. unfold segment_alloc_page. print_run. Qed.

Lemma alloc_in_segments_print fuel seg bin s o s' :
  alloc_in_segments fuel seg bin s = Ok (o, s') → same_print s s'.
Proof.
  revert seg s. induction fuel as [|n IH]; intros seg s; simpl; destruct (seg =? 0); intros H; try done;
    inv_res; try done.
  apply segment_alloc_page_print in Hrun. destruct o0; inv_res; [done|].
  etrans; [done|]. by eapply IH.
Qed.

Lemma link_segment_print i seg old s : same_print s (link_segment i seg old s).
Proof. unfold link_segment. destruct (old =? 0); stores. Qed.
Lemma bin_insert_page_print i r s s' : bin_insert_page i r s = Ok s' → same_print s s'.
Proof. unfold bin_insert_page. print_run. Qed.
Lemma bump_from_print i r s slot s' : bump_from i r s = Ok (slot, s') → same_print s s'.
Proof. unfold bump_from. intros. inv_res. destruct (bump_slot x). inv_res. stores. Qed.
Lemma lock_arena_print i s s' : lock_arena i s = Ok s' → same_print s s'.
Proof. unfold lock_arena. print_run. Qed.
Lemma tick_print tld s s' : tld_stat_tick tld s = Ok s' → same_print s s'.
Proof. unfold tld_stat_tick, tld_stat_flush. print_run. Qed.
Lemma finish_fast_print tld r slot p s x s' : finish_fast tld r slot p s = Ok (x, s') → same_print s s'.
Proof.
  unfold finish_fast, tld_stat_alloc. intros. inv_res. apply tick_print in Hrun0.
  etrans; [|exact Hrun0]. stores.
Qed.
Lemma slab_alloc_fast_print tld bin s o s' : slab_alloc_fast tld bin s = Ok (o, s') → same_print s s'.
Proof.
  unfold slab_alloc_fast. intros. branches; try match goal with
    H : finish_fast _ _ _ _ _ = Ok _ |- _ => apply finish_fast_print in H; etrans; [|exact H] end; stores.
Qed.
Lemma claim_page_print tld bin result s s' : claim_page tld bin result s = Ok s' → same_print s s'.
Proof. unfold claim_page. print_run. Qed.
Lemma large_link_print base s : same_print s (large_link base s).
Proof. unfold large_link. destruct (_ =? 0); stores. Qed.
Lemma large_unlink_print la l s : same_print s (large_unlink la l s).
Proof. unfold large_unlink. repeat case_match; stores. Qed.

(** ** Regions come and go *)
Lemma layout_add s s' k0 lo len :
  layout s → lo = key_base k0 → 0 < lo → 0 < len → (getpagesize | len) →
  (∀ k, region s' k = if decide (k = k0) then Some (lo, len) else region s k) →
  (∀ x, is_mapped s' x ↔ is_mapped s x ∨ in_range x lo len) →
  (∀ x, in_range x lo len → ¬ is_mapped s x) →
  (∀ tid a, mc_specific s' !! tid = Some a → a ∈ tld_bases s') →
  (∀ tid tid' a, mc_specific s' !! tid = Some a → mc_specific s' !! tid' = Some a → tid = tid') →
  layout s'.
Proof.
  intros [T0 T1 T2 T3 T4 T5] Hlo H0 Hlen Hpg Hr Hm Hf H4 H5.
  assert (∀ k lo' len', region s k = Some (lo', len') → disjoint_ranges lo len lo' len') as Hd.
  { intros k lo' len' Hk. destruct (T1 k lo' len' Hk) as (? & ? & Hmap). apply ranges_disjoint; [done..|].
    intros x Hx Hx'. by apply (Hf x Hx), Hmap. }
  split; try done.
  - intros k lo' len'. rewrite Hr. destruct (decide (k = k0)) as [->|]; intros Hk; [congruence|by eapply T0].
  - intros k lo' len'. rewrite Hr. destruct (decide (k = k0)); intros Hk.
    + injection Hk as <- <-. split_and!; [done|done|]. intros x Hx. apply Hm. by right.
    + destruct (T1 k lo' len' Hk) as (? & ? & Hmap). split_and!; [done|done|]. intros x Hx. apply Hm. left. by apply Hmap.
  - intros k lo' len'. rewrite Hr. destruct (decide (k = k0)); intros Hk Hb; [by injection Hk as <- <-|by eapply T2].
  - intros k k' lo1 len1 lo2 len2. rewrite !Hr. destruct (decide (k = k0)), (decide (k' = k0)); intros Hk Hk' Hne.
    + congruence.
    + injection Hk as <- <-. by eapply Hd.
    + injection Hk' as <- <-. apply disjoint_ranges_sym. by eapply Hd.
    + by eapply (T3 k k').
Qed.

Lemma layout_remove s s' k0 lo len :
  layout s → region s k0 = Some (lo, len) →
  (∀ k, region s' k = if decide (k = k0) then None else region s k) →
  (∀ x, is_mapped s' x ↔ is_mapped s x ∧ ¬ in_range x lo len) →
  (∀ tid a, mc_specific s' !! tid = Some a → a ∈ tld_bases s') →
  (∀ tid tid' a, mc_specific s' !! tid = Some a → mc_specific s' !! tid' = Some a → tid = tid') →
  layout s'.
Proof.
  intros [T0 T1 T2 T3 T4 T5] H0 Hr Hm H4 H5.
  assert (∀ k lo' len', region s' k = Some (lo', len') → k ≠ k0 ∧ region s k = Some (lo', len')) as Hk'.
  { intros k lo' len'. rewrite Hr. by destruct (decide (k = k0)). }
  split; try done.
  - intros k lo' len' [_ Hk]%Hk'. by eapply T0.
  - intros k lo' len' [Hne Hk]%Hk'. destruct (T1 k lo' len' Hk) as (? & ? & Hmap). split_and!; [done|done|].
    intros x Hx. apply Hm. split; [by apply Hmap|]. pose proof (T3 k k0 _ _ _ _ Hk H0 Hne).
    unfold disjoint_ranges, in_range in *. lia.
  - intros k lo' len' [_ Hk]%Hk'. by eapply (T2 k).
  - intros k k' lo1 len1 lo2 len2 [_ Hk]%Hk' [_ Hk2]%Hk'. by apply (T3 k k').
Qed.

(** ** Mappings *)
Context {EL : EnvLaws E}.

Lemma segment_create_layout ar s p s' :
  segment_create ar s = (p, s') → layout s → layout s'.
Proof.
  unfold segment_create. destruct (os_mmap_aligned SEGMENT_SIZE SEGMENT_SIZE s) as [q s1] eqn:Hmap.
  change SEGMENT_SIZE with (2 ^ 22) in Hmap at 2. intros H Hl.
  pose proof segment_whole_pages as Hpg.
  apply os_mmap_aligned_run in Hmap as [(-> & -> & _)|[_ Hf]]; [by injection H as _ <-| |done|done|lia|done].
  pose proof Hf as (H0 & _ & Hm & Hnew & _ & _ & Heq). destruct (Z.eqb_spec q 0); [lia|]. injection H as _ <-.
  apply (layout_add s _ (KSeg q) q SEGMENT_SIZE Hl); try done.
  - intros k. destruct k as [|b|b|a]; rewrite Heq; simpl; try done.
    unfold seg_bases. simpl. rewrite dom_insert_L. destruct (decide (KSeg b = KSeg q)) as [[= ->]|Hne].
    + by rewrite decide_True by set_solver.
    + assert (b ≠ q) by congruence. repeat case_decide; try done; set_solver.
  - intros tid a. rewrite Heq. apply Hl.
  - intros tid tid' a. rewrite Heq. apply Hl.
Qed.

Lemma tld_get_layout tid s tld s' :
  malloc_is_initialized s = true → tld_get tid s = (tld, s') → layout s → layout s'.
Proof.
  intros Hi. unfold tld_get. rewrite Hi. cbn [negb]. destruct (mc_specific s !! tid) as [t|] eqn:Ht; [by intros [= _ <-]|].
  destruct (os_mmap_aligned os_page_size os_page_size s) as [q s1] eqn:Hmap. intros H Hl.
  destruct getpagesize_pow2 as (k & Hk & Hps). unfold os_page_size in *. rewrite Hps in Hmap.
  assert (0 < 2 ^ k ≤ 65536) as Hsz.
  { split; [apply Z.pow_pos_nonneg; lia|]. change 65536 with (2 ^ 16). apply Z.pow_le_mono_r; lia. }
  apply os_mmap_aligned_run in Hmap as [(-> & -> & _)|[_ Hf]]; [by injection H as _ <-| |lia|by rewrite Hps|lia|lia].
  pose proof Hf as (H0 & _ & Hm & Hnew & _ & _ & Heq). destruct (Z.eqb_spec q 0); [lia|]. injection H as _ <-.
  assert (q ∉ tld_bases s) as Hq.
  { intros Hin. destruct (ly_mapped _ Hl (KTld q) q getpagesize) as (_ & ? & Hmq); [simpl; by rewrite decide_True|].
    apply (Hnew q); [unfold in_range; lia|]. apply Hmq. unfold in_range. lia. }
  apply (layout_add s _ (KTld q) q (2 ^ k) Hl); try done; [lia|by rewrite Hps| | |].
  - intros k'. destruct k' as [|b|b|a]; rewrite Heq; simpl; try done.
    unfold tld_bases. simpl. rewrite dom_insert_L. destruct (decide (KTld a = KTld q)) as [[= ->]|Hne].
    + rewrite decide_True by set_solver. by rewrite Hps.
    + assert (a ≠ q) by congruence. repeat case_decide; try done; set_solver.
  - intros tid' a. rewrite Heq. simpl. unfold tld_bases. simpl. rewrite dom_insert_L.
    intros [[_ <-]|[_ Ha%(ly_known _ Hl)]]%lookup_insert_Some; set_solver.
  - intros t1 t2 a. rewrite Heq. simpl.
    intros [[<- <-]|[_ H1]]%lookup_insert_Some [[<- H2]|[_ H2]]%lookup_insert_Some; try done.
    + by apply (ly_known _ Hl) in H2.
    + subst a. by apply (ly_known _ Hl) in H1.
    + by eapply (ly_inj _ Hl).
Qed.

Lemma grow_arena_layout i bin s o s' : grow_arena i bin s = Ok (o, s') → layout s → layout s'.
Proof.
  unfold grow_arena. destruct (segment_create (Some i) s) as [p s1] eqn:Hc. intros H Hl.
  apply segment_create_layout in Hc; [|done]. destruct (p =? 0); inv_res; [done|].
  apply segment_alloc_page_print in H. eapply same_print_layout; [|exact Hc].
  etrans; [apply link_segment_print|exact H].
Qed.

Lemma arena_alloc_layout i bin s slot z s' : arena_alloc i bin s = Ok (slot, z, s') → layout s → layout s'.
Proof.
  unfold arena_alloc. intros H Hl. apply res_bind_Ok in H as (s0 & H0%lock_arena_print & H).
  apply (same_print_layout _ _ H0) in Hl. clear H0. inv_res. destruct x1 as [r|]; inv_res.
  - apply bump_from_print in Hrun2. eapply same_print_layout; [|exact Hl]. stores.
  - apply alloc_in_segments_print in Hrun2. apply (same_print_layout _ _ Hrun2) in Hl. clear Hrun2.
    assert (layout m0) as Hl0 by (destruct o; inv_res; [done|by eapply grow_arena_layout]).
    destruct o0; inv_res; (eapply same_print_layout; [|exact Hl0]); [|stores].
    apply bin_insert_page_print in Hrun2. apply bump_from_print in Hrun4.
    etrans; [exact Hrun2|]. stores.
Qed.

Lemma arena_get_layout tid s o s' :
  malloc_is_initialized s = true → arena_get tid s = Ok (o, s') → layout s → layout s'.
Proof.
  intros Hi. unfold arena_get. destruct (tld_get tid s) as [t s1] eqn:Ht. intros H Hl.
  apply tld_get_layout in Ht; [|done..]. eapply same_print_layout; [|exact Ht]. branches; stores.
Qed.

(** The bounds under which [large_alloc_aligned] asks for whole pages. *)
Lemma large_alloc_layout size k s p s' :
  1 ≤ size → 4 ≤ k → size + 2 ^ k < 2 ^ 60 →
  large_alloc_aligned size (2 ^ k) s = Ok (p, s') → layout s → layout s'.
Proof.
  intros Hs Hk Hlim. pose proof (Z.pow_pos_nonneg 2 k ltac:(lia) ltac:(lia)).
  unfold large_alloc_aligned. assert (16 ≤ 2 ^ k) by (change 16 with (2 ^ 4); apply Z.pow_le_mono_r; lia).
  destruct (Z.ltb_spec (2 ^ k) MIN_ALIGN); [config; lia|]. cbv zeta.
  assert (k < 60) by (apply (Z.pow_lt_mono_r_iff 2); lia).
  destruct (large_map_align k Hk ltac:(lia)) as (j & Hj & Hj2 & _ & ->).
  destruct (large_sizes size k ltac:(lia) Hk Hlim) as (Hd & Hh & Hpg & [Htot Htot2] & Htot3). cbv zeta in *.
  set (total := large_total size (2 ^ k)) in *.
  destruct (os_mmap_aligned total (2 ^ j) s) as [base s1] eqn:Hmap. intros H' Hl.
  assert (2 ^ j < 2 ^ 60) by (apply Z.pow_lt_mono_r; lia). rewrite LARGE_HEADER_SIZE_eq in Hh.
  apply os_mmap_aligned_run in Hmap as [(-> & -> & _)|[_ Hf]]; [by injection H' as _ <-| |lia|done|lia|lia].
  pose proof Hf as (Hb0 & _ & Hm & Hnew & _ & _ & Heq). destruct (Z.eqb_spec base 0); [lia|]. inv_res.
  unfold lock_large in Hrun. destruct (g_large_lock _); [done|]. inv_res.
  set (s2 := s1 <| mc_larges ::= <[base := MkLarge base total size 0 0]> |>) in *.
  assert (layout s2) as Hl2.
  { apply (layout_add s _ (KLarge base) base total Hl); try done; [lia| | |].
    - intros k'. unfold s2. destruct k' as [|b|b|a]; rewrite Heq; simpl; try done.
      unfold lprint. simpl. rewrite fmap_insert. simpl. destruct (decide (KLarge b = KLarge base)) as [[= ->]|Hne].
      + apply lookup_insert_eq.
      + apply lookup_insert_ne. congruence.
    - intros tid a. unfold s2. rewrite Heq. apply Hl.
    - intros tid tid' a. unfold s2. rewrite Heq. apply Hl. }
  eapply same_print_layout; [|exact Hl2]. apply print_upd_g, print_upd_g.
  etrans; [|apply large_link_print]. stores.
Qed.

(** ** The public calls *)
Lemma slab_alloc_inner_layout tid size s p z s' :
  malloc_is_initialized s = true → 0 ≤ size ≤ MEDIUM_MAX →
  slab_alloc_inner tid size s = Ok (p, z, s') → layout s → layout s'.
Proof.
  intros Hi Hsz. unfold slab_alloc_inner, large_alloc. set (size' := if size =? 0 then 1 else size).
  assert (1 ≤ size' ≤ MEDIUM_MAX) as Hsz' by (unfold size'; destruct (Z.eqb_spec size 0); config; lia). clearbody size'.
  destruct (Z.ltb_spec MEDIUM_MAX size'); [lia|]. destruct (_ <? _).
  { intros H' Hl. inv_res. eapply (large_alloc_layout size' 4); [lia|lia|config; lia|exact Hrun|exact Hl]. }
  destruct (tld_get tid s) as [t s1] eqn:Ht. intros H' Hl. inv_res.
  assert (malloc_is_initialized s1 = true) as Hi1.
  { unfold malloc_is_initialized in *. pose proof (tld_get_steady tid s) as Hst. rewrite Ht in Hst. simpl in Hst.
    destruct Hst as [[A _]|(A & _)]; [injection A as A _ _ _|]; by rewrite A. }
  apply tld_get_layout in Ht; [|done..]. apply slab_alloc_fast_steady in Hrun as Hst.
  apply slab_alloc_fast_print in Hrun. apply (same_print_layout _ _ Hrun) in Ht.
  destruct o as [[]|]; inv_res; [done|].
  assert (malloc_is_initialized m = true) as Him.
  { unfold malloc_is_initialized in *. destruct Hst as [A _]. injection A as A _ _ _. by rewrite A. }
  apply arena_get_layout in Hrun0; [|done..]. destruct o; inv_res; [|done].
  apply arena_alloc_layout in Hrun1; [|done]. apply claim_page_print in Hrun2.
  by eapply same_print_layout.
Qed.

Lemma slab_free_layout tid ptr s s' :
  malloc_is_initialized s = true → slab_free tid ptr s = Ok s' → layout s → layout s'.
Proof.
  intros Hi. unfold slab_free. destruct (ptr =? 0); [intros; by inv_res|].
  destruct (_ =? 0); [intros; by inv_res|]. destruct (ptr_to_page s ptr) as [r|]; [|intros; by inv_res].
  intros H' Hl. inv_res. destruct (decide _); [by inv_res|]. inv_res.
  set (s1 := upd_page _ _ s) in H'.
  assert (same_print s s1) as Hp by (unfold s1; stores).
  assert (malloc_is_initialized s1 = true) as Hi1 by exact Hi. clearbody s1.
  apply (same_print_layout _ _ Hp) in Hl. destruct (tld_get tid s1) as [t s2] eqn:Ht. inv_res.
  apply tld_get_layout in Ht; [|done..]. eapply same_print_layout; [|exact Ht]. destruct x1.
  - destruct (page_free_slot_local _ _ _). unfold tld_stat_free in H'. apply tick_print in H'.
    etrans; [|exact H']. stores.
  - destruct (page_free_slot_remote _ _ _). case_match; inv_res; stores.
Qed.

Lemma large_walk_entry fuel s la ptr e :
  large_walk fuel s la ptr = Ok (Some e) → ∃ b, mc_larges s !! b = Some e.
Proof.
  revert la. induction fuel as [|n IH]; intros la; simpl; destruct (la =? 0); try done.
  intros H'. inv_res. destruct (_ && _); [|by eapply IH]. inv_res. eauto.
Qed.

Lemma lock_large_print s s' : lock_large s = Ok s' → same_print s s'.
Proof. unfold lock_large. print_run. Qed.

Lemma large_free_layout ptr s s' : large_free ptr s = Ok s' → layout s → layout s'.
Proof.
  unfold large_free. destruct (ptr =? 0); [intros; by inv_res|]. intros H' Hl.
  apply res_bind_Ok in H' as (s0 & Hlk & H'). apply lock_large_print in Hlk.
  pose proof (same_print_layout _ _ Hlk Hl) as Hl0. clear Hl Hlk.
  apply res_bind_Ok in H' as ([e|] & Hw & H'); [|inv_res; eapply same_print_layout; [|exact Hl0]; stores].
  apply large_walk_entry in Hw as (b & He).
  set (s1 := upd_g _ (unlock_large _)) in H'.
  assert (same_print s0 s1) as Hp.
  { unfold s1. apply print_upd_g. unfold unlock_large. apply print_upd_g. apply large_unlink_print. }
  clearbody s1. injection H' as <-. pose proof (same_print_layout _ _ Hp Hl0) as Hl1.
  assert (region s0 (KLarge b) = Some (la_base e, la_size e)) as Hr0 by (simpl; unfold lprint; by rewrite lookup_fmap, He).
  pose proof (ly_base _ Hl0 _ _ _ Hr0) as Hb. simpl in Hb.
  assert (region s1 (KLarge b) = Some (la_base e, la_size e)) as Hr1 by (by rewrite (same_print_region _ _ _ Hp)).
  destruct (ly_mapped _ Hl1 _ _ _ Hr1) as (? & ? & _).
  pose proof (ly_pages _ Hl1 _ _ _ Hr1 ltac:(done)) as Hpg.
  unfold os_munmap. destruct (Z.eqb_spec (la_base e) 0); [lia|]. destruct (Z.ltb_spec 0 (la_size e)); [|lia]. cbn [negb andb].
  apply (layout_remove s1 _ (KLarge b) _ _ Hl1 Hr1); [|intros x|apply Hl1|apply Hl1].
  - intros k. destruct k as [|c|c|a]; simpl; try done. unfold lprint. simpl. rewrite fmap_delete, Hb.
    destruct (decide (KLarge c = KLarge b)) as [[= ->]|Hne]; [apply lookup_delete_eq|].
    apply lookup_delete_ne. congruence.
  - change (is_mapped (sub_mmap_bytes ?n ?s) x) with (is_mapped s x). rewrite is_mapped_munmap.
    by rewrite whole_pages_id by done.
Qed.

Lemma free_layout tid ptr s s' :
  malloc_is_initialized s = true → my_free tid ptr s = Ok s' → layout s → layout s'.
Proof.
  intros Hi. unfold my_free. destruct (ptr =? 0); [intros; by inv_res|].
  destruct (in_bootstrap ptr); [intros; by inv_res|].
  destruct (negb _); [by apply slab_free_layout|apply large_free_layout].
Qed.

Lemma malloc_layout tid size s p s' :
  malloc_is_initialized s = true → 0 ≤ size < 2 ^ 59 → my_malloc tid size s = Ok (p, s') → layout s → layout s'.
Proof.
  intros Hi Hsz. unfold my_malloc, malloc_ensure_init. unfold malloc_is_initialized in Hi. rewrite Hi. cbn [negb mbind res_bind].
  set (size' := if size =? 0 then 1 else size).
  assert (1 ≤ size' < 2 ^ 59) as Hsz' by (unfold size'; destruct (Z.eqb_spec size 0); lia). clearbody size'.
  destruct (Z.ltb_spec MEDIUM_MAX size').
  - intros H' Hl. eapply (large_alloc_layout size' 4); [lia|lia|lia|exact H'|exact Hl].
  - unfold slab_alloc. intros H' Hl. inv_res. eapply slab_alloc_inner_layout; [done| |exact Hrun|done]. lia.
Qed.

Lemma calloc_layout tid count size s p s' :
  malloc_is_initialized s = true → 0 ≤ count * size < 2 ^ 59 →
  my_calloc tid count size s = Ok (p, s') → layout s → layout s'.
Proof.
  intros Hi Hsz. unfold my_calloc, malloc_ensure_init. unfold malloc_is_initialized in Hi. rewrite Hi. cbn [negb mbind res_bind].
  destruct (SIZE_MAX <? _); [intros H' Hl; inv_res; eapply same_print_layout; [|exact Hl]; by split|].
  set (total := if count * size =? 0 then 1 else count * size).
  assert (1 ≤ total < 2 ^ 59) as Ht by (unfold total; destruct (Z.eqb_spec (count * size) 0); lia). clearbody total.
  destruct (Z.ltb_spec MEDIUM_MAX total).
  - intros H' Hl. eapply (large_alloc_layout total 4); [lia|lia|lia|exact H'|exact Hl].
  - unfold slab_alloc_zeroed. intros H' Hl. destruct (slab_alloc_inner _ _ _) as [[[q z] s1]| | |] eqn:Hin; try done.
    apply slab_alloc_inner_layout in Hin; [|done|lia|done]. simpl in H'. destruct (_ && _); inv_res; [|done].
    eapply same_print_layout; [|exact Hin]. by split.
Qed.

Lemma realloc_move_layout tid ptr size n s p s' :
  malloc_is_initialized s = true → 0 ≤ size < 2 ^ 59 →
  realloc_move tid ptr size n s = Ok (p, s') → layout s → layout s'.
Proof.
  intros Hi Hsz. unfold realloc_move. intros H' Hl. apply res_bind_Ok in H' as ([q s1] & Hm & H').
  assert (malloc_is_initialized s1 = true) as Hi1.
  { unfold malloc_is_initialized in *. apply malloc_spends in Hm; [|by apply Z.eqb_eq]. destruct Hm as [A _]. by rewrite A. }
  apply malloc_layout in Hm; [|done..]. destruct (q =? 0); inv_res; [done|].
  eapply free_layout; [|exact Hrun|]; [done|]. eapply same_print_layout; [|exact Hm]. by split.
Qed.

Lemma realloc_layout tid ptr size s p s' :
  malloc_is_initialized s = true → 0 ≤ size < 2 ^ 59 →
  my_realloc tid ptr size s = Ok (p, s') → layout s → layout s'.
Proof.
  intros Hi Hsz. unfold my_realloc, malloc_ensure_init. destruct (ptr =? 0); [by apply malloc_layout|].
  destruct (size =? 0); [intros H' Hl; inv_res; by eapply free_layout|].
  pose proof Hi as Hi'. unfold malloc_is_initialized in Hi'. rewrite Hi'. cbn [negb mbind res_bind].
  destruct (in_bootstrap ptr).
  { intros H' Hl. apply res_bind_Ok in H' as ([q s1] & Hm & H'). apply malloc_layout in Hm; [|done..].
    destruct (q =? 0); inv_res; [done|]. eapply same_print_layout; [|exact Hm]. by split. }
  assert (realloc_large tid ptr size s = Ok (p, s') → layout s → layout s') as Hlarge.
  { unfold realloc_large. intros H' Hl. inv_res. destruct x as [e|]; [|by inv_res].
    destruct (_ <=? _); inv_res; [|by eapply realloc_move_layout].
    eapply same_print_layout; [|exact Hl]. stores. }
  destruct (_ =? 0); [done|]. destruct (ptr_to_page s ptr) as [r|]; [|done]. intros H' Hl. inv_res.
  destruct (_ && _); inv_res; [done|]. by eapply realloc_move_layout.
Qed.

End Threads.
