(* ===== verification/MallocCorrect.v ===== *)
(** * Correctness of malloc and free (src/malloc.c)

    The slab and the large allocations together: [malloc_inv] is the invariant
    of the whole allocator, [hblock] the blocks callers hold, and
    [abs_malloc] / [abs_free] an abstract allocator, a finite map from block
    addresses to sizes, that [my_malloc] and [my_free] refine. *)
From S2P Require Import Prelude Config Mem Atomic SizeClass Types Os DemoEnv Page Registry Segment Debug Tld Arena Large Slab Init Malloc Heap HeapOps CtlOps ArenaCorrect SlabCorrect InitCorrect SlabSpec LargeCorrect Steady.
Import SizeClass Registry.

(** ** The abstract allocator *)

(** [malloc(size)] answers null, or a fresh aligned address of at least
    [size] bytes that overlaps nothing. *)
Inductive abs_malloc (B : gmap Z Z) (size : Z) : Z → gmap Z Z → Prop :=
| abs_malloc_fail : abs_malloc B size 0 B
| abs_malloc_ok a n :
    0 < a → (16 | a) → size ≤ n → B !! a = None →
    (∀ a' n', B !! a' = Some n' → disjoint_ranges a n a' n') →
    abs_malloc B size a (<[a := n]> B).

(** [free(a)] removes the block at [a]. *)
Inductive abs_free (B : gmap Z Z) (a : Z) : gmap Z Z → Prop :=
| abs_free_ok n : B !! a = Some n → abs_free B a (delete a B).

Section Malloc.
Context `{E : Env}.

Definition malloc_inv (s : machine) (L : live_map) (G : gmap Z Z) (l : list Z) : Prop :=
  heap_inv s L ∧ large_inv s G l.

Definition hblock (s : machine) (L : live_map) (G : gmap Z Z) (a n : Z) : Prop :=
  block s L a n ∨ lblock s G a n.

(** The machine implements the abstract state. *)
Definition represents (s : machine) (B : gmap Z Z) : Prop :=
  ∃ L G l, malloc_inv s L G l ∧ ∀ a n, B !! a = Some n ↔ hblock s L G a n.

(** The bytes of the blocks of [B] that are still there in [B'] are kept. *)
Definition bytes_kept (B B' : gmap Z Z) (s s' : machine) : Prop :=
  ∀ a n b, B !! a = Some n → B' !! a = Some n → in_range b a n →
    load8 (mc_mem s') b = load8 (mc_mem s) b.

Implicit Types (s : machine) (L : live_map) (G : gmap Z Z).

(** ** Blocks of the two kinds *)
Lemma block_in_segs s L a n x : slab_inv s L → block s L a n → in_range x a n → in_segs s x.
Proof.
  intros Hs Hbl Hx. destruct (block_place s L a n Hs Hbl)
    as (r & p & live & _ & Hp & _ & _ & _ & _ & Hlt & _ & Hlo & Hhi & _).
  destruct (slab_page s L r p Hs Hp) as (sg & Hsg & _). exists r.1, sg. split; [done|].
  apply (page_addr_in_segment _ (Z.of_nat r.2)); [lia|]. unfold in_range in *. lia.
Qed.

Lemma block_start_in_segs s L a n : slab_inv s L → block s L a n → in_segs s a.
Proof.
  intros Hs Hbl. eapply block_in_segs; [done..|].
  destruct (block_bounds s L a n Hs Hbl) as (_ & ? & _). unfold in_range. lia.
Qed.

Lemma block_lblock_disjoint s L G l a n b m :
  slab_inv s L → large_inv s G l → block s L a n → lblock s G b m → disjoint_ranges a n b m.
Proof.
  intros Hs Hl Hbl Hlb. destruct (lblock_in s G l b m Hl Hlb) as (c & e & He & _ & -> & Hin & Hlo & Hhi & _ & H0).
  destruct (lv_each _ _ _ Hl c e He) as [_ A2 _ _ A5 _ _].
  assert (0 < n) by (destruct (block_bounds s L a n Hs Hbl) as (? & ? & _); lia).
  assert (disjoint_ranges a n c (la_size e)) as Hd.
  { apply ranges_disjoint; [lia|lia|]. intros x Hx Hx2. apply (A5 x Hx2). by eapply block_in_segs. }
  unfold disjoint_ranges in *. config. lia.
Qed.

Lemma lblock_disjoint s G l a n b m :
  large_inv s G l → lblock s G a n → lblock s G b m → a ≠ b → disjoint_ranges a n b m.
Proof.
  intros Hl Ha Hb Hne.
  destruct (lblock_in s G l a n Hl Ha) as (c & e & He & HG & -> & Hin & Hlo & Hhi & _ & H0).
  destruct (lblock_in s G l b m Hl Hb) as (c' & e' & He' & HG' & -> & Hin' & Hlo' & Hhi' & _ & H0').
  assert (c ≠ c') as Hcc by (intros ->; congruence).
  pose proof (lv_disjoint _ _ _ Hl _ _ _ _ He He' Hcc). unfold disjoint_ranges in *. config. lia.
Qed.

(** No address carries two blocks. *)
Lemma hblock_fun s L G l a n m :
  malloc_inv s L G l → hblock s L G a n → hblock s L G a m → n = m.
Proof.
  intros [[Hs _ _] Hl] [H1|H1] [H2|H2].
  - destruct H1 as (r & live & p & HL & Ha & Hp & ->), H2 as (r' & live' & p' & HL' & Ha' & Hp' & ->).
    destruct (live_in_page s L r live a) as (? & ? & ?); try done.
    destruct (live_in_page s L r' live' a) as (? & ? & ?); try done.
    assert (r = r') as -> by (by apply (page_addr_unique r r' a)). congruence.
  - pose proof (block_lblock_disjoint s L G l a n a m Hs Hl H1 H2).
    destruct (lblock_in s G l a m Hl H2) as (c & e & He & _ & _ & Hin & _).
    destruct (lv_each _ _ _ Hl c e He) as [_ _ _ _ A5 _ _]. destruct (A5 a Hin).
    by eapply block_start_in_segs.
  - destruct (lblock_in s G l a n Hl H1) as (c & e & He & _ & _ & Hin & _).
    destruct (lv_each _ _ _ Hl c e He) as [_ _ _ _ A5 _ _]. destruct (A5 a Hin).
    by eapply block_start_in_segs.
  - destruct H1 as (c & e & He & HG & ->), H2 as (c' & e' & He' & HG' & ->).
    destruct (decide (c = c')) as [->|Hne]; [congruence|].
    pose proof (lv_disjoint _ _ _ Hl _ _ _ _ He He' Hne).
    destruct (lo_ptr _ _ _ _ (lv_each _ _ _ Hl _ _ He)) as (x & Hx & ? & _ & ? & ?).
    destruct (lo_ptr _ _ _ _ (lv_each _ _ _ Hl _ _ He')) as (y & Hy & ? & _ & ? & ?).
    simplify_eq. unfold disjoint_ranges in *. config. lia.
Qed.

(** ** Steps of the whole allocator *)
Record hgrows (new : Z → Z → Prop) s L G s' L' G' : Prop := {
  hg_blocks a n : hblock s' L' G' a n ↔ hblock s L G a n ∨ new a n;
  hg_bytes a n b : hblock s L G a n → in_range b a n → load8 (mc_mem s') b = load8 (mc_mem s) b
}.

(** The kernel refuses a mapping hardly larger than the request and a
    segment together. *)
Definition refused (k size : Z) (s : machine) : Prop :=
  ∃ len, Z.max 1 size ≤ len ≤ Z.max 1 size + 2 * 2 ^ k + 2 ^ 23 ∧ mmap_refused len s.

(** What an allocation of [size] bytes aligned to [2 ^ k] promises its caller
    about the pointer [p] it returns. *)
Definition malloc_post (k size p : Z) s L G s' : Prop :=
  (p = 0 ∧ refused k size s' ∧ ∃ l', malloc_inv s' L G l' ∧ hgrows no_new s L G s' L G) ∨
  (0 < p ∧ (2 ^ k | p) ∧ ∃ L' G' l' n, malloc_inv s' L' G' l' ∧ size ≤ n ∧
    hgrows (one_new p n) s L G s' L' G' ∧ (∀ m, ¬ hblock s L G p m) ∧
    ∀ a m, hblock s L G a m → disjoint_ranges p n a m).

Lemma hgrows_slab new s L G l s' L' :
  malloc_inv s L G l → outside s s' → grows new s L s' L' → hgrows new s L G s' L' G.
Proof.
  intros [_ Hl] Hout [Gb Gm]. split.
  - intros a n. unfold hblock. rewrite Gb, (lblock_outside s s') by done. tauto.
  - intros a n b [Ha|Ha] Hb; [by eapply Gm|].
    destruct (lblock_bytes s G l a n b Hl Ha Hb) as [Hm Hn]. by apply (ou_mem _ _ Hout).
Qed.

Lemma segment_refused_any size s : 0 ≤ size ≤ SLAB_MAX → segment_refused s → refused 4 size s.
Proof.
  intros Hs Hr. eexists. split; [|exact Hr]. unfold mapping_request, SLAB_MAX in *. config.
  change (2 ^ 4) with 16. destruct (Z.leb_spec (2 ^ 22) getpagesize); lia.
Qed.

Lemma slab_malloc_post size slot s L G l s' :
  malloc_inv s L G l → 0 ≤ size ≤ SLAB_MAX → alloc_contract size slot s L s' →
  malloc_post 4 size slot s L G s'.
Proof.
  intros Hinv Hsz [Hout Hcase]. pose proof Hinv as [Hh Hl].
  pose proof (large_inv_outside s s' G l Hout Hl) as Hl'.
  destruct Hcase as [(-> & Href & Hh' & Hg)|(H0 & H16 & L' & n & Hh' & Hg & Hn & Hd)].
  - left. split; [done|]. split; [by apply segment_refused_any|]. exists l.
    split; [by split|]. by eapply hgrows_slab.
  - assert (block s' L' slot n) as Hbl by (apply (gr_blocks _ _ _ _ _ Hg); by right).
    pose proof (hi_slab _ _ Hh') as Hs'.
    destruct (block_bounds s' L' slot n Hs' Hbl) as (_ & Hn16 & _).
    right. split_and!; [done|done|]. exists L', G, l, n.
    split_and!; [by split|done|by eapply hgrows_slab| |].
    + intros m [Hm|Hm].
      * destruct (block_bounds s L slot m (hi_slab _ _ Hh) Hm) as (? & ? & _).
        destruct (Hd slot m Hm); lia.
      * apply (lblock_outside s s' G _ _ Hout) in Hm.
        destruct (lblock_in s' G l slot m Hl' Hm) as (c & e & He & _ & _ & Hin & _).
        destruct (lv_each _ _ _ Hl' c e He) as [_ _ _ _ A5 _ _]. apply (A5 slot Hin).
        by eapply block_start_in_segs.
    + intros a m [Ha|Ha]; [by apply Hd|]. apply (lblock_outside s s' G _ _ Hout) in Ha.
      by eapply block_lblock_disjoint.
Qed.

(** The large blocks after a header is added or removed. *)
Lemma lblock_insert s s' G base total size p a n :
  mc_larges s !! base = None →
  (∀ b, lview <$> mc_larges s' !! b =
    lview <$> <[base := MkLarge base total size 0 0]> (mc_larges s) !! b) →
  lblock s' (<[base := p]> G) a n ↔ lblock s G a n ∨ (a = p ∧ n = size).
Proof.
  intros Hnone Hv. split.
  - intros (b & e & He & HG & ->). destruct (view_Some _ _ _ _ (Hv b) He) as (e0 & He0 & _ & _ & ->).
    apply lookup_insert_Some in He0 as [[<- <-]|[Hne He0]].
    + rewrite lookup_insert_eq in HG. right. split; [congruence|done].
    + rewrite lookup_insert_ne in HG by done. left. by exists b, e0.
  - intros [(b & e & He & HG & ->)|[-> ->]].
    + assert (base ≠ b) as Hne by congruence. specialize (Hv b). rewrite lookup_insert_ne, He in Hv by done.
      apply fmap_Some in Hv as (e' & He' & Heq). injection Heq as _ _ Hu. exists b, e'.
      rewrite lookup_insert_ne by done. by rewrite Hu.
    + specialize (Hv base). rewrite lookup_insert_eq in Hv. apply fmap_Some in Hv as (e' & He' & Heq).
      injection Heq as _ _ Hu. exists base, e'. rewrite lookup_insert_eq. by rewrite Hu.
Qed.

Lemma hblock_mapped s L G l a n b :
  malloc_inv s L G l → hblock s L G a n → in_range b a n → is_mapped s b.
Proof.
  intros [[Hs _ _] Hl] [Ha|Ha] Hb; [by eapply block_mapped|].
  by destruct (lblock_bytes s G l a n b Hl Ha Hb).
Qed.

Lemma hblock_start s L G l a n : malloc_inv s L G l → hblock s L G a n → is_mapped s a.
Proof.
  intros [[Hs _ _] Hl] [Ha|Ha].
  - eapply block_mapped; [done..|]. destruct (block_bounds s L a n Hs Ha) as (? & ? & _).
    unfold in_range. lia.
  - destruct (lblock_in s G l a n Hl Ha) as (c & e & He & _ & _ & Hin & _).
    by apply (lv_each _ _ _ Hl c e He).
Qed.

Lemma block_beside s L s' a n : beside s L s' → block s' L a n ↔ block s L a n.
Proof. intros [_ _ _ Hsg _ _]. unfold block, lookup_page. by rewrite Hsg. Qed.

Context {EL : EnvLaws E}.

Lemma large_malloc_post size k s L G l :
  malloc_inv s L G l → 1 ≤ size → 4 ≤ k → size + 2 ^ k < 2 ^ 60 →
  ∃ p s', large_alloc_aligned size (2 ^ k) s = Ok (p, s') ∧ malloc_post k size p s L G s' ∧
    (p ≠ 0 → ∀ b, in_range b p size → load8 (mc_mem s') b = 0).
Proof.
  intros Hinv Hs Hk Hlim. pose proof Hinv as [[Hsl Hc Hun] Hl].
  destruct (large_alloc_run size k s L G l) as (p & s' & Hrun & Hbe & Hmono & Hcase); try done.
  exists p, s'. split; [done|].
  destruct Hcase as [(-> & -> & len & Hlen & Href)|(H0 & Hdiv & base & total & Hnone & Hl' & Hv & Hfr)].
  { split; [|done]. left. split; [done|]. split; [exists len; split; [lia|done]|].
    exists l. split; [done|]. split; [|done]. intros a n. unfold no_new. tauto. }
  assert (lblock s' (<[base := p]> G) p size) as Hlb by (apply (lblock_insert s s' G base total size p); [done|done|by right]).
  destruct (lblock_in _ _ _ _ _ Hl' Hlb) as (c & e & He & HGc & Hn & Hin & Hlo & Hhi & H16 & _).
  assert (∀ x, in_range x p size → in_range x base total) as Hsub.
  { destruct (decide (c = base)) as [->|Hne].
    - destruct (view_Some _ _ _ _ (Hv base) He) as (e0 & He0 & _ & Hsz & _).
      rewrite lookup_insert_eq in He0. injection He0 as <-. simpl in Hsz. intros x Hx.
      unfold in_range in *. config. lia.
    - exfalso. specialize (Hv base). rewrite lookup_insert_eq in Hv. apply fmap_Some in Hv as (e' & He' & _).
      pose proof (lv_disjoint _ _ _ Hl' _ _ _ _ He He' Hne) as Hd.
      destruct (lo_ptr _ _ _ _ (lv_each _ _ _ Hl' _ _ He')) as (y & Hy & ? & _ & ? & ?).
      rewrite lookup_insert_eq in Hy. simplify_eq. unfold disjoint_ranges, in_range in *. config. lia. }
  assert (∀ x, in_range x p size → ¬ is_mapped s x) as Hnew by (intros x Hx; by apply Hfr, Hsub).
  assert (∀ a m, hblock s L G a m → disjoint_ranges p size a m) as Hdis.
  { intros a m Ha. destruct (Z.le_gt_cases m 0) as [Hm|Hm].
    - destruct Ha as [Ha|Ha].
      + destruct (block_bounds s L a m Hsl Ha) as (? & ? & _). lia.
      + destruct (lblock_in s G l a m Hl Ha) as (c2 & e2 & He2 & _ & -> & Hin2 & _ & _ & _ & Hm0).
        destruct (lv_each _ _ _ Hl c2 e2 He2) as [_ _ _ A4 _ _ _]. unfold disjoint_ranges.
        destruct (decide (in_range a p size)) as [Hap|Hap]; [by destruct (Hnew a Hap (A4 a Hin2))|].
        unfold in_range in Hap. lia.
    - apply ranges_disjoint; [lia|lia|]. intros x Hx Hx2. apply (Hnew x Hx). by eapply hblock_mapped. }
  split; [|intros _ b Hb; by apply Hfr, Hsub].
  right. split_and!; [done|done|]. exists L, (<[base := p]> G), (base :: l), size. split_and!; [|done| | |done].
  - split; [|done]. split; [apply Hbe..|]. eapply unlocked_locks; [apply Hbe|done].
  - split.
    + intros a n. unfold hblock, one_new. rewrite (block_beside s L s') by done.
      rewrite (lblock_insert s s' G base total size p) by done. tauto.
    + intros a n b Ha Hb. apply (be_mem _ _ _ Hbe). by eapply hblock_mapped.
  - intros m Hm. apply (Hnew p); [unfold in_range; lia|]. by eapply hblock_start.
Qed.

Lemma malloc_post_weaken k size size' p s L G s' :
  size ≤ size' → Z.max 1 size = Z.max 1 size' → malloc_post k size' p s L G s' → malloc_post k size p s L G s'.
Proof.
  intros Hle Hmax [(-> & (len & Hlen & Href) & H)|(H0 & Hk & L' & G' & l' & n & Hi & Hn & H)]; [left|right].
  - split; [done|]. split; [|done]. exists len. by rewrite Hmax.
  - split_and!; [done..|]. exists L', G', l', n. split_and!; [done|lia|apply H..].
Qed.

(** ** malloc *)
Lemma slab_alloc_any tid size s L G l :
  malloc_inv s L G l → roomy s → 1 ≤ size ≤ MEDIUM_MAX →
  ∃ p z s', slab_alloc_inner tid size s = Ok (p, z, s') ∧ malloc_post 4 size p s L G s' ∧
    (p ≠ 0 → z = Some true → ∀ b, in_range b p size → load8 (mc_mem s') b = 0).
Proof.
  intros Hinv Hr Hsz. pose proof Hinv as [Hh Hl]. destruct (decide (size ≤ SLAB_MAX)) as [Hle|Hgt].
  - destruct (slab_alloc_inner_run tid size s L Hh Hr ltac:(lia)) as (p & z & s' & Hrun & Hlk & Hout).
    destruct (slab_outcome_contract size p z s L s' Hh ltac:(lia) Hlk Hout) as [Hct Hz].
    exists p, z, s'. split_and!; [done|eapply slab_malloc_post; [done|lia|done]|].
    intros H0 Hzt b Hb. apply Hz; try done. unfold in_range in *. lia.
  - unfold slab_alloc_inner. destruct (Z.eqb_spec size 0); [lia|].
    destruct (Z.ltb_spec MEDIUM_MAX size); [lia|]. rewrite (si_tables _ _ (hi_slab _ _ Hh)).
    destruct (Z.ltb_spec (PAGE_SIZE_ALLOC / 2) (bin_to_size the_tables (size_to_bin the_tables size))) as [|Hle];
      [|apply slab_serves in Hle; lia].
    destruct (large_malloc_post size 4 s L G l) as (p & s' & Hrun & Hp & Hz); try done; [lia|config; lia|].
    unfold large_alloc. change MIN_ALIGN with (2 ^ 4). rewrite Hrun. exists p, (Some false), s'.
    split_and!; done.
Qed.

Lemma my_malloc_run tid size s L G l :
  malloc_inv s L G l → roomy s → 0 ≤ size < 2 ^ 59 →
  ∃ p s', my_malloc tid size s = Ok (p, s') ∧ malloc_post 4 size p s L G s'.
Proof.
  intros Hinv Hr Hsz. unfold my_malloc, malloc_ensure_init.
  pose proof (ro_init _ Hr) as Hin. unfold malloc_is_initialized in Hin. rewrite Hin. cbn [negb mbind res_bind].
  set (size' := if size =? 0 then 1 else size).
  assert (1 ≤ size' < 2 ^ 59 ∧ size ≤ size') as [Hsz' Hle] by (unfold size'; destruct (Z.eqb_spec size 0); lia).
  assert (∀ p s', malloc_post 4 size' p s L G s' → malloc_post 4 size p s L G s') as Hweak.
  { intros p s'. apply malloc_post_weaken; unfold size'; destruct (Z.eqb_spec size 0); lia. }
  destruct (Z.ltb_spec MEDIUM_MAX size').
  - destruct (large_malloc_post size' 4 s L G l) as (p & s' & Hrun & Hp & _); try done; [lia|lia|].
    exists p, s'. split; [done|]. by apply Hweak.
  - destruct (slab_alloc_any tid size' s L G l) as (p & z & s' & Hrun & Hp & _); try done; [lia|].
    exists p, s'. unfold slab_alloc. rewrite Hrun. split; [done|]. by apply Hweak.
Qed.

(** ** free *)
Lemma in_bootstrap_false s L G l a n :
  malloc_inv s L G l → hblock s L G a n → in_bootstrap a = false.
Proof.
  intros [[Hs _ _] Hl] Ha. apply not_true_is_false. unfold in_bootstrap.
  intros [?%Z.leb_le ?%Z.ltb_lt]%andb_true_iff.
  assert (in_range a bootstrap_buf BOOTSTRAP_BUF_SIZE) as Hb by (unfold in_range; lia).
  destruct Ha as [Ha|Ha].
  - destruct (lv_boot _ _ _ Hl a Hb) as [_ Hn]. apply Hn. by eapply block_start_in_segs.
  - destruct (lblock_in s G l a n Hl Ha) as (c & e & He & _ & _ & Hin & _).
    destruct (lv_each _ _ _ Hl c e He) as [_ _ _ _ _ A6 _]. by apply (A6 a).
Qed.

Lemma ptr_to_segment_outside s L a : slab_inv s L → 0 < a → ¬ in_segs s a → ptr_to_segment s a = 0.
Proof.
  intros Hs Ha Hn. unfold ptr_to_segment. set (base := Z.land a SEGMENT_MASK).
  destruct (segment_is_registered _ base) eqn:Hreg; [|done].
  destruct (decide (base = 0)) as [|H0]; [done|exfalso]. apply Hn.
  apply segment_is_registered_iff in Hreg; [|apply Hs|done].
  apply (si_registered _ _ Hs) in Hreg as [sg Hsg]; [|done]. exists base, sg. split; [done|].
  unfold base, in_range, SEGMENT_MASK. config. rewrite land_lnot_pow2 by lia.
  change (2 ^ 22) with 4194304. Z.div_mod_to_equations; lia.
Qed.

Lemma lblock_delete s s' G l b e a0 a n :
  large_inv s G l → mc_larges s !! b = Some e → G !! b = Some a0 →
  (∀ c, lview <$> mc_larges s' !! c = if decide (c = b) then None else lview <$> mc_larges s !! c) →
  lblock s' (delete b G) a n ↔ lblock s G a n ∧ a ≠ a0.
Proof.
  intros Hl He HG Hv. split.
  - intros (c & e' & He' & HG' & ->). specialize (Hv c) as Hvc. destruct (decide (c = b)) as [->|Hne];
      [by rewrite He' in Hvc|]. rewrite lookup_delete_ne in HG' by done.
    destruct (view_Some _ _ _ _ Hvc He') as (e0 & He0 & _ & _ & Hu). rewrite Hu.
    split; [by exists c, e0|]. intros ->.
    pose proof (lv_disjoint _ _ _ Hl _ _ _ _ He0 He Hne) as Hd.
    destruct (lo_ptr _ _ _ _ (lv_each _ _ _ Hl _ _ He0)) as (x & Hx & ? & _ & ? & ?).
    destruct (lo_ptr _ _ _ _ (lv_each _ _ _ Hl _ _ He)) as (y & Hy & ? & _ & ? & ?).
    simplify_eq. unfold disjoint_ranges in Hd. config. lia.
  - intros [(c & e0 & He0 & HG0 & ->) Hne]. assert (c ≠ b) as Hcb by (intros ->; congruence).
    specialize (Hv c). rewrite decide_False, He0 in Hv by done. apply fmap_Some in Hv as (e' & He' & Heq).
    injection Heq as _ _ Hu. exists c, e'. rewrite lookup_delete_ne by done. by rewrite Hu.
Qed.

Lemma my_free_run tid a n s L G l :
  malloc_inv s L G l → one_more s → hblock s L G a n →
  ∃ s' L' G' l', my_free tid a s = Ok s' ∧ malloc_inv s' L' G' l' ∧
    (∀ x m, hblock s' L' G' x m ↔ hblock s L G x m ∧ x ≠ a) ∧
    (∀ x m b, hblock s L G x m → x ≠ a → in_range b x m → load8 (mc_mem s') b = load8 (mc_mem s) b).
Proof.
  intros Hinv Hr Ha. pose proof Hinv as [[Hs Hc Hun] Hl]. unfold my_free.
  rewrite (in_bootstrap_false s L G l a n) by done. destruct Ha as [Ha|Ha].
  - destruct (block_place s L a n Hs Ha) as (r & p & live & _ & Hp & _ & _ & _ & (Hr0 & _) & _ & _ & Hlo & Hhi & ? & _ & ?).
    destruct (Z.eqb_spec a 0); [lia|].
    destruct (ptr_to_page_in s L r p a Hs Hp) as [-> _]; [unfold in_range; lia|].
    destruct (Z.eqb_spec r.1 0); [lia|]. cbn [negb].
    destruct (slab_free_contract tid a n s L) as (s' & Hrun & Hout & L' & Hh' & [Sb Sm]); [by split|done|done|].
    exists s', L', G, l. split_and!; [done|split; [done|by eapply large_inv_outside]| |].
    + intros x m. unfold hblock. rewrite Sb, (lblock_outside s s') by done. split; [|naive_solver].
      intros [?|Hx]; [naive_solver|]. split; [by right|]. intros ->.
      pose proof (block_lblock_disjoint s L G l a n a m Hs Hl Ha Hx).
      destruct (lblock_in s G l a m Hl Hx) as (c & e & He & _ & _ & Hin & _).
      destruct (lv_each _ _ _ Hl c e He) as [_ _ _ _ A5 _ _]. apply (A5 a Hin).
      by eapply block_start_in_segs.
    + intros x m b [Hx|Hx] Hne Hb; [by eapply Sm|].
      destruct (lblock_bytes s G l x m b Hl Hx Hb) as [Hm Hn]. by apply (ou_mem _ _ Hout).
  - destruct (lblock_in s G l a n Hl Ha) as (c & e & He & HG & -> & Hin & Hlo & Hhi & _ & _).
    destruct (lv_each _ _ _ Hl c e He) as [_ A2 _ _ A5 _ _].
    assert (0 < a) by (unfold in_range in Hin; lia). destruct (Z.eqb_spec a 0); [lia|].
    rewrite (ptr_to_segment_outside s L a) by auto. cbn [Z.eqb negb].
    destruct (large_free_run a c e s L G l) as (s' & l' & Hrun & Hbe & Hl' & Hv & Hm); try done.
    exists s', L, (delete c G), l'. split_and!; [done| | |].
    + split; [|done]. split; [apply Hbe..|]. eapply unlocked_locks; [apply Hbe|done].
    + intros x m. unfold hblock. rewrite (block_beside s L s') by done.
      rewrite (lblock_delete s s' G l c e a) by done. split; [|naive_solver].
      intros [Hx|?]; [|naive_solver]. split; [by left|]. intros ->. apply (A5 a Hin).
      by eapply block_start_in_segs.
    + intros x m b Hx Hne Hb. apply (be_mem _ _ _ Hbe). by eapply hblock_mapped.
Qed.

(** ** Callers write into their blocks *)

(** Bytes of a live slot belong to no free list and not to the virgin part
    of the page. *)
Lemma page_inv_write m m' p lf rf live a :
  page_inv m p lf rf live → a ∈ live →
  (∀ b, ¬ in_range b a (pm_slot_size p) → load8 m' b = load8 m b) → page_inv m' p lf rf live.
Proof.
  intros Hi Ha Hm. pose proof (pi_geometry _ _ _ _ _ Hi) as Hg. pose proof (page_inv_NoDup _ _ _ _ _ Hi) as Hnd.
  assert (∀ x, x ∈ lf ++ rf → load64 m x = load64 m' x) as Hld.
  { intros x Hx. apply load64_ext. intros b Hb. symmetry. apply Hm.
    assert (x ≠ a). { intros ->. rewrite app_assoc in Hnd. apply NoDup_app in Hnd as (_ & Hd & _). by apply (Hd a Hx). }
    pose proof (pg_slot p Hg). unfold in_range.
    destruct (page_inv_sep _ _ _ _ _ Hi x a); [set_solver|set_solver|done|lia|lia]. }
  pose proof (touched_range p Hg a ltac:(apply (page_inv_touched _ _ _ _ _ Hi); set_solver)) as Htr.
  destruct Hi as [_ Hlf Hrf ? ? ? ? ? Hv]. split; try done.
  - eapply is_list_ext; [|done]. intros x Hx. apply Hld. set_solver.
  - eapply is_list_ext; [|done]. intros x Hx. apply Hld. set_solver.
  - intros x Hx. rewrite Hm; [by apply Hv|]. unfold in_range. lia.
Qed.

Lemma slab_inv_write s L a n m' :
  slab_inv s L → block s L a n → bytes m' →
  (∀ b, ¬ in_range b a n → load8 m' b = load8 (mc_mem s) b) → slab_inv (s <| mc_mem := m' |>) L.
Proof.
  intros Hs Hbl Hby Hm. destruct (block_place s L a n Hs Hbl)
    as (r & p & live & HL & Hp & Ha & -> & Hst & Hpl & Hlt & _ & Hlo & Hhi & _).
  destruct (slab_active s L r p Hs Hp Hst)
    as (sg & live2 & Hsg & _ & _ & Hsegp & Hix & HL2 & (B1 & B2 & B3 & B4 & B5 & lf & rf & Hi)).
  assert (live2 = live) as -> by congruence.
  eapply (slab_inv_step s _ L L r p); [done|by eauto| |done|done| |done|].
  - intros b. change (mc_segs (s <| mc_mem := m' |>)) with (mc_segs s).
    destruct (mc_segs s !! b) as [sg2|] eqn:Hsg2; [|done]. simpl. unfold seg_view. do 2 f_equal.
    destruct (decide (b = r.1)) as [->|]; [|done]. symmetry. apply list_insert_id.
    unfold lookup_page in Hp. rewrite Hsg2 in Hp. done.
  - intros b Hb. apply Hm. intros Hin. apply Hb. unfold in_range in *. lia.
  - intros sg2 Hsg2. assert (sg2 = sg) as -> by congruence. split_and!; [done..|]. rewrite Hst.
    split; [lia|]. exists live. split; [done|]. split_and!; try done; try lia.
    exists lf, rf. by eapply page_inv_write.
Qed.

Lemma malloc_inv_write s L G l a n m' :
  malloc_inv s L G l → hblock s L G a n → bytes m' →
  (∀ b, ¬ in_range b a n → load8 m' b = load8 (mc_mem s) b) →
  malloc_inv (s <| mc_mem := m' |>) L G l.
Proof.
  intros [[Hs Hc Hun] Hl] Ha Hby Hm. split; [split; [|by rewrite <- (set_mem_shape s m')|done]|].
  - destruct Ha as [Ha|Ha]; [by eapply slab_inv_write|].
    destruct (lblock_in s G l a n Hl Ha) as (c & e & He & _ & -> & _ & Hlo & Hhi & _).
    destruct (lv_each _ _ _ Hl c e He) as [_ _ _ _ A5 _ _].
    assert (∀ x, in_segs s x → load8 m' x = load8 (mc_mem s) x) as Hsame.
    { intros x Hx. apply Hm. intros Hin. apply (A5 x); [|done]. config. unfold in_range in *. lia. }
    destruct Hs as [B1 B2 B3 B4 B5 B6 B7 B8 B9]. split; try done.
    intros b sg i p Hb Hp. assert (i < 64)%nat by (rewrite <- (B4 _ _ Hb); by eapply lookup_lt_Some).
    eapply page_ok_frame; [|by eapply B3|done|done|by eapply B6].
    intros x Hx. apply Hsame. exists b, sg. split; [done|]. eapply page_addr_in_segment; [|done]. simpl. lia.
  - destruct Hl as [C1 C2 C3 C4 C5 C6 C7]. split; try done. intros b e He. by destruct (C4 b e He).
Qed.

Lemma hblock_mem s L G m' a n : hblock (s <| mc_mem := m' |>) L G a n ↔ hblock s L G a n.
Proof. done. Qed.

(** ** Sizes *)
Lemma usable_size_run s L G l a n :
  malloc_inv s L G l → hblock s L G a n → my_malloc_usable_size a s = Ok n.
Proof.
  intros [[Hs _ _] Hl] Ha. unfold my_malloc_usable_size. destruct Ha as [Ha|Ha].
  - destruct (block_place s L a n Hs Ha)
      as (r & p & live & _ & Hp & _ & -> & _ & (Hr0 & _) & _ & _ & Hlo & Hhi & ? & _ & ?).
    destruct (Z.eqb_spec a 0); [lia|].
    destruct (ptr_to_page_in s L r p a Hs Hp) as [-> ->]; [unfold in_range; lia|].
    destruct (Z.eqb_spec r.1 0); [lia|]. by rewrite Hp.
  - destruct (lblock_in s G l a n Hl Ha) as (c & e & He & _ & -> & Hin & _).
    destruct (lv_each _ _ _ Hl c e He) as [_ A2 _ _ A5 _ _].
    assert (0 < a) by (unfold in_range in Hin; lia). destruct (Z.eqb_spec a 0); [lia|].
    rewrite (ptr_to_segment_outside s L a) by auto. cbn [Z.eqb].
    unfold large_usable_size. by rewrite (large_find_run s G l c e a).
Qed.

(** ** calloc *)
Lemma memset_zero_bytes m p n : bytes m → bytes (memset m p 0 n).
Proof. intros Hm a. rewrite load8_memset. destruct (decide _); [by vm_compute|apply Hm]. Qed.

(** Writing into the new block keeps what [malloc] promised. *)
Lemma malloc_post_write k size p s L G s' m' :
  malloc_post k size p s L G s' → p ≠ 0 → bytes m' →
  (∀ b, ¬ in_range b p size → load8 m' b = load8 (mc_mem s') b) →
  malloc_post k size p s L G (s' <| mc_mem := m' |>).
Proof.
  intros [[? _]|(H0 & Hk & L' & G' & l' & n & Hi & Hn & [Gb Gm] & Hf & Hd)] Hp Hby Hm; [done|right].
  split_and!; [done|done|]. exists L', G', l', n. split_and!; [|done| |done|done].
  - eapply malloc_inv_write; [done|apply Gb; by right|done|]. intros b Hb. apply Hm.
    unfold in_range in *. lia.
  - split; [done|]. intros a x b Ha Hb. simpl. rewrite Hm; [by eapply Gm|].
    pose proof (Hd a x Ha). unfold disjoint_ranges, in_range in *. lia.
Qed.

Lemma malloc_post_bytes k size p s L G s' : malloc_post k size p s L G s' → bytes (mc_mem s').
Proof.
  intros [(_ & _ & l' & [[Hs _ _] _] & _)|(_ & _ & L' & G' & l' & n & [[Hs _ _] _] & _)];
    apply (si_bytes _ _ Hs).
Qed.

Lemma my_calloc_run tid count size s L G l :
  malloc_inv s L G l → roomy s → 0 ≤ count * size < 2 ^ 59 →
  ∃ p s', my_calloc tid count size s = Ok (p, s') ∧ malloc_post 4 (count * size) p s L G s' ∧
    (p ≠ 0 → ∀ b, in_range b p (count * size) → load8 (mc_mem s') b = 0).
Proof.
  intros Hinv Hr Hlim. unfold my_calloc, malloc_ensure_init.
  destruct (Z.ltb_spec SIZE_MAX (count * size)) as [Hbig|_]; [unfold SIZE_MAX in Hbig; lia|].
  pose proof (ro_init _ Hr) as Hin. unfold malloc_is_initialized in Hin. rewrite Hin. cbn [negb mbind res_bind].
  set (total := if count * size =? 0 then 1 else count * size).
  assert (total = Z.max 1 (count * size)) as Ht by (unfold total; destruct (Z.eqb_spec (count * size) 0); lia).
  clearbody total. destruct (Z.ltb_spec MEDIUM_MAX total).
  - destruct (large_malloc_post total 4 s L G l) as (p & s' & Hrun & Hp & Hz); try done; [lia|lia|].
    exists p, s'. split; [done|]. split; [eapply malloc_post_weaken; [| |done]; lia|].
    intros H0 b Hb. apply Hz; [done|]. unfold in_range in *. lia.
  - destruct (slab_alloc_any tid total s L G l) as (p & z & s' & Hrun & Hp & Hz); try done; [lia|].
    unfold slab_alloc_zeroed. rewrite Hrun. cbn [mbind res_bind].
    destruct (Z.eqb_spec p 0) as [->|H0]; cbn [negb andb].
    { exists 0, s'. split; [done|]. split; [eapply malloc_post_weaken; [| |done]; lia|done]. }
    destruct (default false z) eqn:Ez; cbn [negb andb]; eexists p, _; (split; [done|]).
    + split; [eapply malloc_post_weaken; [| |done]; lia|]. intros _ b Hb. destruct z as [[]|]; try done.
      apply Hz; try done. unfold in_range in *. lia.
    + split.
      * eapply malloc_post_weaken; [| |apply (malloc_post_write 4 total p s L G s')]; try done; [lia|lia| |].
        -- apply memset_zero_bytes. by eapply malloc_post_bytes.
        -- intros b Hb. rewrite load8_memset. by rewrite decide_False.
      * intros _ b Hb. simpl. rewrite load8_memset, decide_True; [done|]. unfold in_range in *. lia.
Qed.

(** ** Initialisation *)
Lemma ready_large : large_inv ready_machine ∅ [].
Proof.
  split; try done; try constructor.
  - intros [e He]. simpl in He. by rewrite lookup_empty in He.
  - set_solver.
  - by left.
  - intros (b & sg & Hb & _). simpl in Hb. by rewrite lookup_empty in Hb.
Qed.

(** ** Refinement of the abstract allocator *)
Lemma malloc_post_refines k size p s L G l s' B :
  malloc_inv s L G l → (∀ a n, B !! a = Some n ↔ hblock s L G a n) → 4 ≤ k →
  malloc_post k size p s L G s' →
  ∃ B', abs_malloc B size p B' ∧ represents s' B' ∧ bytes_kept B B' s s' ∧ (2 ^ k | p) ∧
    (p = 0 → refused k size s').
Proof.
  intros Hinv HB Hk [(-> & Href & l' & Hi & [Gb Gm])|(H0 & Hdiv & L' & G' & l' & n & Hi & Hn & [Gb Gm] & Hf & Hd)].
  - exists B. split_and!; [constructor| | |apply Z.divide_0_r|done].
    + exists L, G, l'. split; [done|]. intros a n. rewrite HB, Gb. unfold no_new. tauto.
    + intros a n b Ha _ Hb. eapply Gm; [by apply HB|done].
  - exists (<[p := n]> B). assert (B !! p = None) as HBp.
    { destruct (B !! p) as [m|] eqn:E1; [|done]. by destruct (Hf m); apply HB. }
    split_and!; [constructor; try done| | |done|lia].
    + etrans; [|done]. exists (2 ^ (k - 4)). change 16 with (2 ^ 4). rewrite <- Z.pow_add_r by lia. f_equal. lia.
    + intros a' n' Ha'. by apply Hd, HB.
    + exists L', G', l'. split; [done|]. intros a m. rewrite Gb, lookup_insert_Some, <- HB. unfold one_new.
      destruct (decide (p = a)) as [<-|]; naive_solver.
    + intros a m b Ha _ Hb. eapply Gm; [by apply HB|done].
Qed.

Lemma my_malloc_refines tid size s B :
  represents s B → roomy s → 0 ≤ size < 2 ^ 59 →
  ∃ p s' B', my_malloc tid size s = Ok (p, s') ∧ abs_malloc B size p B' ∧ represents s' B' ∧
    bytes_kept B B' s s' ∧ (p = 0 → refused 4 size s').
Proof.
  intros (L & G & l & Hinv & HB) Hr Hsz. destruct (my_malloc_run tid size s L G l) as (p & s' & Hrun & Hp); try done.
  destruct (malloc_post_refines 4 size p s L G l s' B) as (B' & Ha & Hrep & Hb & _ & Href); try done.
  exists p, s', B'. by split_and!.
Qed.

Lemma my_free_refines tid a s B :
  represents s B → roomy s → is_Some (B !! a) →
  ∃ s' B', my_free tid a s = Ok s' ∧ abs_free B a B' ∧ represents s' B' ∧ bytes_kept B B' s s'.
Proof.
  intros (L & G & l & Hinv & HB) Hr [n Ha].
  destruct (my_free_run tid a n s L G l) as (s' & L' & G' & l' & Hrun & Hi & Hb & Hm); try done;
    [by apply roomy_one_more|by apply HB|].
  exists s', (delete a B). split_and!; [done|by econstructor| |].
  - exists L', G', l'. split; [done|]. intros x m. rewrite Hb, lookup_delete_Some, <- HB. naive_solver.
  - intros x m b Hx [Hne _]%lookup_delete_Some Hbx. eapply Hm; [by apply HB|done|done].
Qed.

Lemma represents_write s B a n m' :
  represents s B → B !! a = Some n → bytes m' →
  (∀ b, ¬ in_range b a n → load8 m' b = load8 (mc_mem s) b) → represents (s <| mc_mem := m' |>) B.
Proof.
  intros (L & G & l & Hinv & HB) Ha Hby Hm. exists L, G, l. split; [|done].
  eapply malloc_inv_write; [done|by apply HB|done|done].
Qed.

Lemma ready_represents : represents ready_machine ∅.
Proof.
  exists ∅, ∅, []. split; [split; [apply ready_heap|apply ready_large]|].
  intros a n. rewrite lookup_empty. split; [done|].
  by intros [(r & live & p & Hr & _)|(b & e & He & _)].
Qed.

End Malloc.
