(* ===== verification/ReallocCorrect.v ===== *)
(** * Correctness of realloc (src/malloc.c)

    A live block is resized in place or moved; the bytes of its common prefix
    are kept, and so is every other block. *)
From S2P Require Import Prelude Config Mem Atomic SizeClass Types Os DemoEnv Page Registry Segment Debug Tld Arena Large Slab Init Malloc Heap HeapOps CtlOps ArenaCorrect SlabCorrect InitCorrect SlabSpec LargeCorrect Steady MallocCorrect.

(** [realloc(a, size)] fails and keeps everything, resizes the block where it
    is, or moves it. *)
Inductive abs_realloc (B : gmap Z Z) (a size : Z) : Z → gmap Z Z → Prop :=
| abs_realloc_fail : abs_realloc B a size 0 B
| abs_realloc_in_place n :
    size ≤ n → (∀ a' n', B !! a' = Some n' → a' ≠ a → disjoint_ranges a n a' n') →
    abs_realloc B a size a (<[a := n]> B)
| abs_realloc_move p B1 B2 :
    p ≠ 0 → abs_malloc B size p B1 → abs_free B1 a B2 → abs_realloc B a size p B2.

Section Realloc.
Context `{E : Env} {EL : EnvLaws E}.
Implicit Types (s : machine) (L : live_map) (G : gmap Z Z) (B : gmap Z Z).

(** ** Resizing a large block where it is *)
Lemma dll_resize M b n p h l :
  dll M p h l → dll (alter (λ e, e <| la_user_size := n |>) b M) p h l.
Proof.
  revert p h. induction l as [|c l IH]; intros p h; simpl; [done|].
  intros (-> & H0 & e & He & Hp & Hl). split_and!; [done..|]. destruct (decide (b = c)) as [->|Hne].
  - rewrite lookup_alter_eq, He. eexists. split; [done|]. split; [done|]. by apply IH.
  - rewrite lookup_alter_ne, He by done. exists e. split_and!; [done..|]. by apply IH.
Qed.

Lemma large_inv_resize s G l b e a n :
  large_inv s G l → mc_larges s !! b = Some e → G !! b = Some a → 1 ≤ n → a + n ≤ b + la_size e →
  large_inv (upd_large b (λ e, e <| la_user_size := n |>) s) G l.
Proof.
  intros [H1 H2 H3 H4 H5 H6 H7] He HG Hn Hfit.
  assert (∀ c f, alter (λ e, e <| la_user_size := n |>) b (mc_larges s) !! c = Some f →
    ∃ f0, mc_larges s !! c = Some f0 ∧ la_size f = la_size f0 ∧
      (c = b ∧ f = f0 <| la_user_size := n |> ∨ f = f0)) as Hcase.
  { intros c f. rewrite lookup_alter_Some. intros [(-> & f0 & Hf0 & ->)|[_ Hf]]; eexists; eauto. }
  split; try done.
  - by apply dll_resize.
  - intros c. rewrite <- H3. simpl. destruct (decide (b = c)) as [->|Hne].
    + rewrite lookup_alter_eq. apply fmap_is_Some.
    + by rewrite lookup_alter_ne.
  - intros c f (f0 & Hf0 & Hsz & Hf)%Hcase. destruct (H4 c f0 Hf0) as [A1 A2 A3 A4 A5 A6 (x & Hx & A7)].
    destruct Hf as [[-> ->]| ->]; [|by split; eauto]. split; try done. exists x. simpl.
    assert (x = a) as -> by congruence. assert (f0 = e) as -> by congruence. split_and!; try done; try apply A7; lia.
  - intros c c' f f' (f0 & Hf0 & -> & _)%Hcase (f0' & Hf0' & -> & _)%Hcase. by apply H5.
Qed.

(** Two headers never hold the same pointer. *)
Lemma large_ptr_inj s G l b c e f a :
  large_inv s G l → mc_larges s !! b = Some e → mc_larges s !! c = Some f →
  G !! b = Some a → G !! c = Some a → b = c.
Proof.
  intros Hl He Hf Hb Hc. destruct (decide (b = c)) as [|Hne]; [done|exfalso].
  pose proof (lv_disjoint _ _ _ Hl _ _ _ _ He Hf Hne) as Hd.
  destruct (lo_ptr _ _ _ _ (lv_each _ _ _ Hl _ _ He)) as (x & Hx & ? & _ & ? & ?).
  destruct (lo_ptr _ _ _ _ (lv_each _ _ _ Hl _ _ Hf)) as (y & Hy & ? & _ & ? & ?).
  simplify_eq. unfold disjoint_ranges in Hd. config. lia.
Qed.

Lemma lblock_resize s G l b e a n x m :
  large_inv s G l → mc_larges s !! b = Some e → G !! b = Some a →
  lblock (upd_large b (λ e, e <| la_user_size := n |>) s) G x m ↔
  (x = a ∧ m = n) ∨ (lblock s G x m ∧ x ≠ a).
Proof.
  intros Hl He HG. unfold lblock. simpl. split.
  - intros (c & f & [(-> & f0 & Hf0 & ->)|[Hne Hf]]%lookup_alter_Some & Hx & ->).
    + left. simpl. split; congruence.
    + right. split; [by exists c, f|]. intros ->. by apply Hne, (large_ptr_inj s G l b c e f a).
  - intros [[-> ->]|[(c & f & Hf & Hx & ->) Hne]].
    + exists b. rewrite lookup_alter_eq, He. eexists. by split_and!.
    + exists c, f. rewrite lookup_alter_ne; [done|]. intros ->. congruence.
Qed.

Lemma resize_run s L G l b e a n :
  malloc_inv s L G l → mc_larges s !! b = Some e → G !! b = Some a → 1 ≤ n → a + n ≤ b + la_size e →
  let s' := upd_large b (λ e, e <| la_user_size := n |>) s in
  malloc_inv s' L G l ∧
  (∀ x m, hblock s' L G x m ↔ (x = a ∧ m = n) ∨ (hblock s L G x m ∧ x ≠ a)).
Proof.
  intros [[Hs Hc Hun] Hl] He HG Hn Hfit s'.
  assert (beside s L s') as Hbe.
  { apply beside_intro; try done. intros x (c & sg & Hsg & Hx). by eapply (si_mapped _ _ Hs). }
  split.
  - split; [|by eapply large_inv_resize]. split; [apply Hbe..|]. by eapply unlocked_locks; [apply Hbe|].
  - intros x m. unfold hblock. rewrite (block_beside s L s') by done.
    unfold s'. rewrite (lblock_resize s G l b e a n) by done. split; [|naive_solver].
    intros [Hx|?]; [|naive_solver]. right. split; [by left|]. intros ->.
    destruct (lv_each _ _ _ Hl b e He) as [_ _ _ _ A5 _ (y & Hy & ? & _ & ? & ?)].
    apply (A5 a); [|by eapply block_start_in_segs]. simplify_eq. unfold in_range. config. lia.
Qed.

(** ** Moving a block *)

(** The bytes of another block copied into a block. *)
Lemma copy_run s L G l p m a k :
  malloc_inv s L G l → hblock s L G p m → disjoint_ranges p k a k → 0 ≤ k ≤ m →
  let s' := s <| mc_mem ::= λ m, memcpy m p a k |> in
  malloc_inv s' L G l ∧ (∀ b, ¬ in_range b p m → load8 (mc_mem s') b = load8 (mc_mem s) b) ∧
  ∀ i, 0 ≤ i < k → load8 (mc_mem s') (p + i) = load8 (mc_mem s) (a + i).
Proof.
  intros Hinv Hp Hd Hk s'. pose proof (si_bytes _ _ (hi_slab _ _ (proj1 Hinv))) as Hby.
  assert (∀ b, load8 (mc_mem s') b = if decide (in_range b p k) then load8 (mc_mem s) (a + (b - p))
    else load8 (mc_mem s) b) as Hm by (intros b; by apply load8_memcpy).
  assert (∀ b, ¬ in_range b p m → load8 (mc_mem s') b = load8 (mc_mem s) b) as Hout.
  { intros b Hb. rewrite Hm, decide_False; [done|]. unfold in_range in *. lia. }
  split_and!; [|done|].
  - change s' with (s <| mc_mem := mc_mem s' |>). eapply malloc_inv_write; [done|done| |done].
    intros b. rewrite Hm. destruct (decide _); apply Hby.
  - intros i Hi. rewrite Hm, decide_True by (unfold in_range; lia). f_equal. lia.
Qed.

(** After a call of [malloc] there is still an id for [free]. *)
Lemma one_more_after s s1 s2 L :
  heap_inv s L → roomy s → spends s s1 →
  g_initialized (mc_g s2) = g_initialized (mc_g s1) →
  mc_thread_id_counter s2 = mc_thread_id_counter s1 → one_more s2.
Proof.
  intros Hh [Hi Hc _ _] (Hi1 & Hc1 & _) Hi2 Hc2. unfold one_more, malloc_is_initialized in *.
  rewrite Hi2, Hi1, Hc2. split; [done|]. pose proof (ci_counter _ (hi_ctl _ _ Hh)).
  unfold UINT32_MAX in *. destruct Hc1 as [-> | ->]; [lia|]. rewrite u32_small; lia.
Qed.

(** What the tail of [my_realloc] leaves. *)
Definition move_post (a size k p : Z) s L G s' : Prop :=
  (p = 0 ∧ refused 4 size s' ∧ ∃ l', malloc_inv s' L G l' ∧ hgrows no_new s L G s' L G) ∨
  (0 < p ∧ (16 | p) ∧ ∃ L' G' l' m, malloc_inv s' L' G' l' ∧ size ≤ m ∧
    (∀ x c, hblock s' L' G' x c ↔ (x = p ∧ c = m) ∨ (hblock s L G x c ∧ x ≠ a)) ∧
    (∀ x c, hblock s L G x c → x ≠ p ∧ disjoint_ranges p m x c) ∧
    (∀ x c b, hblock s L G x c → x ≠ a → in_range b x c → load8 (mc_mem s') b = load8 (mc_mem s) b) ∧
    (∀ i, 0 ≤ i < k → load8 (mc_mem s') (p + i) = load8 (mc_mem s) (a + i))).

Lemma realloc_move_run tid a n size s L G l k :
  malloc_inv s L G l → roomy s → hblock s L G a n → 1 ≤ size < 2 ^ 59 → 0 ≤ k ≤ n → k ≤ size →
  ∃ p s', realloc_move tid a size k s = Ok (p, s') ∧ move_post a size k p s L G s'.
Proof.
  intros Hinv Hr Ha Hsz Hk1 Hk2. unfold realloc_move.
  destruct (my_malloc_run tid size s L G l Hinv Hr ltac:(lia)) as (p & s1 & Hrun & Hp). rewrite Hrun.
  cbn [mbind res_bind]. destruct Hp as [(-> & Href & l' & Hi & Hg)|(H0 & Hdiv & L1 & G1 & l1 & m & Hi1 & Hm & [Gb Gm] & Hf & Hd)].
  { exists 0, s1. split; [done|]. left. eauto. }
  destruct (Z.eqb_spec p 0); [lia|]. pose proof (Hd a n Ha) as Hda.
  assert (hblock s1 L1 G1 p m) as Hp1 by (apply Gb; by right).
  pose proof (si_bytes _ _ (hi_slab _ _ (proj1 Hi1))) as Hby.
  assert (disjoint_ranges p k a k) as Hdk by (unfold disjoint_ranges in *; lia).
  destruct (copy_run s1 L1 G1 l1 p m a k) as (Hi2 & Hm2 & Hcp); try done; [lia|].
  set (s2 := s1 <| mc_mem ::= λ m, memcpy m p a k |>) in *.
  assert (one_more s2) as Hmore.
  { eapply (one_more_after s s1); [by apply Hinv|done| |done|done]. apply (malloc_spends tid size s p s1); [|done].
    pose proof (ro_init _ Hr) as Hin. by apply Z.eqb_eq. }
  assert (p ≠ a) as Hpa by (intros ->; by apply (Hf n)).
  destruct (my_free_run tid a n s2 L1 G1 l1) as (s3 & L3 & G3 & l3 & Hfree & Hi3 & Hb3 & Hm3); try done.
  { apply Gb. by left. }
  rewrite Hfree. cbn [mbind res_bind]. exists p, s3. split; [done|right]. split_and!; [done|done|].
  exists L3, G3, l3, m. split_and!; [done|done| | | |].
  - intros x c. rewrite Hb3. change (hblock s2 L1 G1 x c) with (hblock s1 L1 G1 x c). rewrite Gb.
    unfold one_new. naive_solver.
  - intros x c Hx. split; [intros ->; by apply (Hf c)|by apply Hd].
  - intros x c b Hx Hne Hb. rewrite (Hm3 x c b) by (try done; apply Gb; by left).
    rewrite Hm2; [by eapply Gm|]. pose proof (Hd x c Hx). unfold disjoint_ranges, in_range in *. lia.
  - intros i0 Hi0. rewrite (Hm3 p m) by (try done; unfold in_range; lia). rewrite Hcp by done.
    apply (Gm a n); [done|]. unfold in_range. lia.
Qed.

(** ** Refinement *)
Definition realloc_ok (a n size p : Z) B s B' s' : Prop :=
  abs_realloc B a size p B' ∧ represents s' B' ∧
  (∀ x m b, B !! x = Some m → x ≠ a ∨ p = 0 → in_range b x m → load8 (mc_mem s') b = load8 (mc_mem s) b) ∧
  (p ≠ 0 → ∀ i, 0 ≤ i < Z.min n size → load8 (mc_mem s') (p + i) = load8 (mc_mem s) (a + i)) ∧
  (p = 0 → refused 4 size s').

Lemma move_refines a n size p s L G s' B :
  (∀ x m, B !! x = Some m ↔ hblock s L G x m) → B !! a = Some n →
  move_post a size (Z.min n size) p s L G s' → ∃ B', realloc_ok a n size p B s B' s'.
Proof.
  intros HB Ha [(-> & Href & l' & Hi & [Gb Gm])|(H0 & H16 & L' & G' & l' & m & Hi & Hm & Hb & Hd & Hk & Hc)].
  - exists B. split_and!; [constructor| | |done|done].
    + exists L, G, l'. split; [done|]. intros x c. rewrite HB, Gb. unfold no_new. tauto.
    + intros x c b Hx _ Hb. eapply Gm; [by apply HB|done].
  - assert (p ≠ a) as Hpa by (apply HB, Hd in Ha as [? _]; done).
    exists (delete a (<[p := m]> B)). split_and!; [| | |done|lia].
    + apply (abs_realloc_move B a size p (<[p := m]> B)); [lia| |].
      * constructor; try done.
        -- destruct (B !! p) as [c|] eqn:Hp; [|done]. apply HB, Hd in Hp as [? _]. done.
        -- intros x c Hx%HB. by apply Hd.
      * apply (abs_free_ok _ _ n). by rewrite lookup_insert_ne.
    + exists L', G', l'. split; [done|]. intros x c. rewrite Hb, lookup_delete_Some, lookup_insert_Some, <- HB.
      split.
      * intros (Hne & [[-> ->]|[_ Hx]]); auto.
      * intros [[-> ->]|[Hx Hne]]; [by split; auto|]. split; [done|]. right. split; [|done].
        apply HB, Hd in Hx as [? _]. done.
    + intros x c b Hx [Hne|?] Hbx; [|lia]. eapply Hk; [by apply HB|done|done].
Qed.

Lemma stay_refines a n size s B :
  represents s B → B !! a = Some n → size ≤ n → 0 < a →
  (∀ x m, B !! x = Some m → x ≠ a → disjoint_ranges a n x m) → realloc_ok a n size a B s B s.
Proof.
  intros Hrep Ha Hsz H0 Hd. split_and!; [|done|done|done|lia].
  pose proof (abs_realloc_in_place B a size n Hsz Hd) as H. by rewrite insert_id in H.
Qed.

Lemma hblock_disjoint s L G l a n b m :
  malloc_inv s L G l → hblock s L G a n → hblock s L G b m → a ≠ b → disjoint_ranges a n b m.
Proof.
  intros [[Hs _ _] Hl] [Ha|Ha] [Hb|Hb] Hne.
  - by eapply block_disjoint.
  - by eapply block_lblock_disjoint.
  - pose proof (block_lblock_disjoint s L G l b m a n Hs Hl Hb Ha). unfold disjoint_ranges in *. lia.
  - by eapply lblock_disjoint.
Qed.

(** The case of a slab block. *)
Lemma realloc_slab_run tid a n size s L G l B :
  malloc_inv s L G l → (∀ x m, B !! x = Some m ↔ hblock s L G x m) → roomy s → block s L a n →
  1 ≤ size < 2 ^ 59 →
  ∃ p s' B', my_realloc tid a size s = Ok (p, s') ∧ realloc_ok a n size p B s B' s'.
Proof.
  intros Hinv HB Hr Ha Hsz. pose proof Hinv as [[Hs _ _] Hl].
  assert (hblock s L G a n) as Hh by (by left).
  destruct (block_place s L a n Hs Ha)
    as (r & p & live & _ & Hp & _ & Hn & _ & (Hr0 & _) & _ & _ & Hlo & Hhi & ? & _ & H0).
  unfold my_realloc, malloc_ensure_init. pose proof (ro_init _ Hr) as Hin. unfold malloc_is_initialized in Hin.
  destruct (Z.eqb_spec a 0); [lia|]. destruct (Z.eqb_spec size 0); [lia|]. rewrite Hin. cbn [negb mbind res_bind].
  rewrite (in_bootstrap_false s L G l a n) by done.
  destruct (ptr_to_page_in s L r p a Hs Hp) as [-> ->]; [unfold in_range; lia|].
  destruct (Z.eqb_spec r.1 0); [lia|]. rewrite Hp. cbn [deref mbind res_bind]. rewrite <- Hn.
  destruct ((size <=? n) && _) eqn:Hfit.
  - apply andb_true_iff in Hfit as [Hle%Z.leb_le _]. exists a, s, B. split; [done|].
    apply stay_refines; [by exists L, G, l|by apply HB|done|lia|].
    intros x m Hx%HB Hne. by eapply hblock_disjoint.
  - replace (if n <? size then n else size) with (Z.min n size) by (destruct (Z.ltb_spec n size); lia).
    destruct (realloc_move_run tid a n size s L G l (Z.min n size)) as (q & s' & Hrun & Hpost); try done; [lia|lia|].
    destruct (move_refines a n size q s L G s' B) as (B' & Hok); [done|by apply HB|done|]. eauto.
Qed.

(** The case of a large block. *)
Lemma realloc_large_run tid a n size s L G l B :
  malloc_inv s L G l → (∀ x m, B !! x = Some m ↔ hblock s L G x m) → roomy s → lblock s G a n →
  1 ≤ size < 2 ^ 59 →
  ∃ p s' B', realloc_large tid a size s = Ok (p, s') ∧ realloc_ok a n size p B s B' s'.
Proof.
  intros Hinv HB Hr Ha Hsz. pose proof Hinv as [_ Hl]. assert (hblock s L G a n) as Hh by (by right).
  destruct (lblock_in s G l a n Hl Ha) as (c & e & He & HG & Hn & Hin & Hlo & Hhi & _ & H0n).
  destruct (lv_each _ _ _ Hl c e He) as [A1 A2 _ _ _ _ _]. unfold in_range in Hin.
  unfold realloc_large. rewrite (large_find_run s G l c e a) by done. cbn [mbind res_bind].
  rewrite <- Hn, A1, (u64_small (a - c)), u64_small by lia.
  destruct (Z.leb_spec size (la_size e - (a - c))) as [Hle|Hgt].
  - destruct (resize_run s L G l c e a size) as [Hi Hb]; try done; [lia|lia|].
    set (s' := upd_large _ _ _) in *. exists a, s', (<[a := size]> B). split; [done|].
    split_and!; [| |done|done|lia].
    + constructor; [done|]. intros x m Hx%HB Hne. eapply hblock_disjoint; [done| | |done]; apply Hb; auto.
    + exists L, G, l. split; [done|]. intros x m. rewrite Hb, lookup_insert_Some, <- HB.
      destruct (decide (a = x)) as [<-|]; naive_solver.
  - replace (if n <? size then n else size) with (Z.min n size) by (destruct (Z.ltb_spec n size); lia).
    destruct (realloc_move_run tid a n size s L G l (Z.min n size)) as (q & s' & Hrun & Hpost); try done; [lia|lia|].
    destruct (move_refines a n size q s L G s' B) as (B' & Hok); [done|by apply HB|done|]. eauto.
Qed.

Lemma my_realloc_refines tid a n size s B :
  represents s B → roomy s → B !! a = Some n → 1 ≤ size < 2 ^ 59 →
  ∃ p s' B', my_realloc tid a size s = Ok (p, s') ∧ realloc_ok a n size p B s B' s'.
Proof.
  intros (L & G & l & Hinv & HB) Hr Ha%HB Hsz. destruct Ha as [Ha|Ha]; [by eapply realloc_slab_run|].
  destruct (realloc_large_run tid a n size s L G l B) as (p & s' & B' & Hrun & Hok); try done.
  exists p, s', B'. split; [|done]. rewrite <- Hrun.
  pose proof Hinv as [[Hs _ _] Hl].
  destruct (lblock_in s G l a n Hl Ha) as (c & e & He & _ & _ & Hin & _).
  destruct (lv_each _ _ _ Hl c e He) as [_ A2 _ _ A5 _ _].
  assert (0 < a) by (unfold in_range in Hin; lia).
  unfold my_realloc, malloc_ensure_init. pose proof (ro_init _ Hr) as Hin2. unfold malloc_is_initialized in Hin2.
  destruct (Z.eqb_spec a 0); [lia|]. destruct (Z.eqb_spec size 0); [lia|]. rewrite Hin2. cbn [negb mbind res_bind].
  rewrite (in_bootstrap_false s L G l a n) by (try done; by right).
  by rewrite (ptr_to_segment_outside s L a) by auto.
Qed.

End Realloc.
