(* ===== verification/ExitCorrect.v ===== *)
(** * Thread exit (src/tld.c: [tld_cleanup])

    The destructor of the thread-specific value returns, keeps every block,
    adds the thread's statistics to its arena, and unmaps the page of the
    [tld_t] and nothing else.  The pages of segments the thread owned stay
    with its arena; other threads free into them as before. *)
From S2P Require Import Prelude Config Mem Atomic SizeClass Types Os DemoEnv Page Registry Segment Debug Tld Arena Large Slab Init Malloc Heap HeapOps CtlOps InitCorrect SlabSpec LargeCorrect Steady Threads MallocCorrect ReallocCorrect.

Section Exit.
Context `{E : Env}.
Implicit Types (s : machine) (L : live_map) (G : gmap Z Z).

(** ** The invariants when a thread leaves *)

(** [s'] is [s] without the [tld_t] at [arg], but for the statistics. *)
Record left (arg : Z) (s s' : machine) : Prop := {
  lf_mem : mc_mem s' = mc_mem s;
  lf_segs : mc_segs s' = mc_segs s;
  lf_larges : mc_larges s' = mc_larges s;
  lf_tlds : mc_tlds s' = delete arg (mc_tlds s);
  lf_specific : ∃ tid, mc_specific s !! tid = Some arg ∧ mc_specific s' = delete tid (mc_specific s);
  lf_counter : mc_thread_id_counter s' = mc_thread_id_counter s;
  lf_tables : g_tables (mc_g s') = g_tables (mc_g s);
  lf_registry : g_segment_registry (mc_g s') = g_segment_registry (mc_g s);
  lf_list : g_large_list (mc_g s') = g_large_list (mc_g s);
  lf_llock : g_large_lock (mc_g s') = g_large_lock (mc_g s);
  lf_init : g_initialized (mc_g s') = g_initialized (mc_g s);
  lf_count : g_arena_count (mc_g s') = g_arena_count (mc_g s);
  lf_next : g_arena_next (mc_g s') = g_arena_next (mc_g s);
  lf_length : length (g_arenas (mc_g s')) = length (g_arenas (mc_g s));
  lf_locks : locks s' = locks s;
  lf_arena i : arena_link s' i = arena_link s i;
  lf_mapped x : is_mapped s' x ↔ is_mapped s x ∧ ¬ in_range x arg getpagesize
}.

Lemma left_slab arg s s' L :
  left arg s s' → (∀ x, in_segs s x → is_mapped s' x) → slab_inv s L → slab_inv s' L.
Proof.
  intros H Hm [B1 B2 B3 B4 B5 B6 B7 B8 B9].
  split; rewrite ?(lf_tables _ _ _ H), ?(lf_registry _ _ _ H), ?(lf_mem _ _ _ H), ?(lf_segs _ _ _ H); try done.
  - intros b sg a Hb Ha. apply Hm. by exists b, sg.
  - intros r live Hr. unfold lookup_page. rewrite (lf_segs _ _ _ H). by apply (B7 r live).
Qed.

Lemma left_large arg s s' G l :
  left arg s s' → (∀ k lo len x, region s k = Some (lo, len) → k ≠ KTld arg → in_range x lo len → is_mapped s' x) →
  large_inv s G l → large_inv s' G l.
Proof.
  intros H Hm [H1 H2 H3 H4 H5 H6 H7].
  assert (∀ x, in_segs s' x ↔ in_segs s x) as Hs by (intros x; unfold in_segs; by rewrite (lf_segs _ _ _ H)).
  split; rewrite ?(lf_larges _ _ _ H), ?(lf_list _ _ _ H), ?(lf_llock _ _ _ H); try done.
  - intros b e He. destruct (H4 b e He) as [A1 A2 A3 A4 A5 A6 A7]. split; try done.
    + intros a Ha. apply (Hm (KLarge b) b (la_size e)); try done. simpl. unfold lprint.
      rewrite lookup_fmap, He. simpl. by rewrite A1.
    + intros a Ha. rewrite Hs. by apply A5.
  - intros a Ha. rewrite Hs. split; [by eapply (Hm KBoot)|by apply H6].
Qed.

Lemma left_ctl arg s s' :
  left arg s s' → (∀ tid tid', mc_specific s !! tid = Some arg → mc_specific s !! tid' = Some arg → tid = tid') →
  ctl_inv s → ctl_inv s'.
Proof.
  intros H Hinj [H1 H2 H3 H4 H5 H6 Hid H7 H8 H9].
  assert (∀ r, page_link s' r = page_link s r) as Hpg.
  { intros r. unfold page_link, lookup_page. by rewrite (lf_segs _ _ _ H). }
  assert (∀ b, seg_link s' b = seg_link s b) as Hsg by (intros b; unfold seg_link; by rewrite (lf_segs _ _ _ H)).
  assert (∀ a, tld_link s' a = if decide (a = arg) then None else tld_link s a) as Htl.
  { intros a. unfold tld_link. rewrite (lf_tlds _ _ _ H).
    destruct (decide (a = arg)) as [->|]; [by rewrite lookup_delete_eq|by rewrite lookup_delete_ne]. }
  split; rewrite ?(lf_count _ _ _ H), ?(lf_length _ _ _ H), ?(lf_counter _ _ _ H), ?(lf_next _ _ _ H); try done.
  - intros i bins segs. rewrite (lf_arena _ _ _ H). intros Ha. destruct (H3 i bins segs Ha) as [A1 A2 A3]. split; [done| |].
    + intros bin h Hh. destruct (A2 bin h Hh) as (l & Hl & Hnd & Hact). exists l. split_and!; [|done|].
      * eapply chain_ext; [|done]. intros r _. unfold page_next. by rewrite Hpg.
      * intros r Hr. unfold active_page. rewrite Hpg. by apply Hact.
    + destruct A3 as (l & Hl & Hnd & Hs). exists l. split_and!; [|done|].
      * eapply chain_ext; [|done]. intros b _. unfold seg_next. by rewrite Hsg.
      * intros b Hb. rewrite Hsg. by apply Hs.
  - intros b n ar. rewrite Hsg. apply H4.
  - intros a arena id cache. rewrite Htl. destruct (decide (a = arg)) as [|Hne]; [done|]. intros Ha.
    destruct (H6 a arena id cache Ha) as [T1 T2 T3 T4 T5]. split; try done.
    + by rewrite (lf_counter _ _ _ H).
    + intros bin r. rewrite Hpg. apply T4.
    + intros r n b ar. rewrite Hpg. apply T5.
  - intros a a' ar ar' id ca ca'. rewrite !Htl. repeat case_decide; try done. apply Hid.
  - destruct (lf_specific _ _ _ H) as (tid & Ht & ->). intros tid' a [Hne Ha]%lookup_delete_Some.
    destruct (H7 tid' a Ha) as [H0 Hlk]. split; [done|]. rewrite Htl. destruct (decide (a = arg)) as [->|]; [|done].
    by destruct Hne; apply Hinj.
  - intros r n b a o. rewrite Hpg. apply H8.
Qed.

Lemma left_blocks arg s s' L G a n : left arg s s' → hblock s' L G a n ↔ hblock s L G a n.
Proof.
  intros H. unfold hblock, block, lblock, lookup_page. by rewrite (lf_segs _ _ _ H), (lf_larges _ _ _ H).
Qed.

Lemma left_layout arg s s' : left arg s s' → region s (KTld arg) = Some (arg, getpagesize) → layout s → layout s'.
Proof.
  intros H Hr Hl. destruct (lf_specific _ _ _ H) as (tid & Ht & Hsp).
  apply (layout_remove s s' (KTld arg) arg getpagesize Hl Hr).
  - intros k. destruct k as [|b|b|a]; simpl; unfold seg_bases, tld_bases, lprint;
      rewrite ?(lf_segs _ _ _ H), ?(lf_larges _ _ _ H), ?(lf_tlds _ _ _ H); try done.
    rewrite dom_delete_L. destruct (decide (KTld a = KTld arg)) as [[= ->]|Hne].
    + by rewrite decide_False by set_solver.
    + assert (a ≠ arg) by congruence. repeat case_decide; try done; set_solver.
  - apply H.
  - intros tid' a. rewrite Hsp. intros [Hne Ha]%lookup_delete_Some.
    unfold tld_bases. rewrite (lf_tlds _ _ _ H), dom_delete_L. pose proof (ly_known _ Hl _ _ Ha) as Hk.
    unfold tld_bases in Hk. apply elem_of_difference. split; [done|]. intros ->%elem_of_singleton.
    destruct Hne. by eapply (ly_inj _ Hl).
  - intros t1 t2 a. rewrite Hsp. intros [_ H1]%lookup_delete_Some [_ H2]%lookup_delete_Some. by eapply (ly_inj _ Hl).
Qed.

(** ** The destructor *)

(** The arenas after the flush. *)
Definition exit_arena (t : tld_t) (s : machine) : machine :=
  match td_arena t with
  | None => s
  | Some i => upd_arena i (λ a, flush_stats t a <| ar_thread_count ::= λ x, s32 (x - 1) |>) s
  end.

Lemma exit_arena_link t s i : arena_link (exit_arena t s) i = arena_link s i.
Proof.
  unfold exit_arena, arena_link, upd_arena. destruct (td_arena t) as [j|]; [|done]. simpl.
  rewrite list_lookup_alter. case_decide; [subst|done]. by destruct (g_arenas _ !! _).
Qed.

Lemma exit_arena_locks t s : locks (exit_arena t s) = locks s.
Proof.
  unfold exit_arena, locks, upd_arena. destruct (td_arena t) as [j|]; [|done]. simpl.
  apply list_eq. intros i. rewrite !list_lookup_fmap, list_lookup_alter.
  case_decide; [subst|done]. by destruct (g_arenas _ !! _).
Qed.

Context {EL : EnvLaws E}.

Lemma tld_cleanup_run tid s arg t :
  mc_specific s !! tid = Some arg → mc_tlds s !! arg = Some t →
  (bootstrap_buf <=? arg) && (arg <? bootstrap_buf + BOOTSTRAP_BUF_SIZE) = false → arg ≠ 0 →
  tld_cleanup tid s = Ok (sub_mmap_bytes getpagesize (sys_munmap arg getpagesize
    ((exit_arena t (s <| mc_specific ::= delete tid |>)) <| mc_tlds ::= delete arg |>))).
Proof.
  intros Hsp Ht Hnb H0. unfold tld_cleanup. rewrite Hsp. cbv zeta.
  change (mc_tlds (s <| mc_specific ::= delete tid |>)) with (mc_tlds s). rewrite Ht.
  cbn [deref mbind res_bind]. rewrite Hnb. unfold os_munmap, os_page_size.
  destruct (Z.eqb_spec arg 0); [done|]. pose proof getpagesize_pos. destruct (Z.ltb_spec 0 getpagesize); [reflexivity|lia].
Qed.

Lemma exit_left tid s arg t :
  mc_specific s !! tid = Some arg →
  left arg s (sub_mmap_bytes getpagesize (sys_munmap arg getpagesize
    ((exit_arena t (s <| mc_specific ::= delete tid |>)) <| mc_tlds ::= delete arg |>))).
Proof.
  intros Hsp. assert (whole_pages getpagesize = getpagesize) as Hw by apply whole_pages_id, Z.divide_refl.
  assert (∀ s x, is_mapped (sub_mmap_bytes getpagesize (sys_munmap arg getpagesize s)) x ↔
    is_mapped s x ∧ ¬ in_range x arg getpagesize) as Hm.
  { intros s0 x. rewrite <- Hw at 3. apply is_mapped_munmap. }
  pose proof (exit_arena_link t s) as Hl. pose proof (exit_arena_locks t s) as Hk.
  unfold exit_arena in *. destruct (td_arena t) as [i|];
    (split; try done; [eauto|try (simpl; by rewrite length_alter)..|intros x; by rewrite Hm]).
Qed.

(** The mapped regions but the thread's page are still mapped. *)
Lemma left_mapped arg s s' k lo len x :
  left arg s s' → layout s → region s (KTld arg) = Some (arg, getpagesize) →
  region s k = Some (lo, len) → k ≠ KTld arg → in_range x lo len → is_mapped s' x.
Proof.
  intros H Hl Hr Hk Hne Hx. apply (lf_mapped _ _ _ H). destruct (ly_mapped _ Hl _ _ _ Hk) as (_ & _ & Hm).
  split; [by apply Hm|]. pose proof (ly_apart _ Hl _ _ _ _ _ _ Hk Hr Hne).
  unfold disjoint_ranges, in_range in *. lia.
Qed.

Lemma tld_cleanup_inv tid s L G l :
  malloc_inv s L G l → layout s →
  ∃ s', tld_cleanup tid s = Ok s' ∧ malloc_inv s' L G l ∧ layout s' ∧ mc_mem s' = mc_mem s ∧
    (∀ a n, hblock s' L G a n ↔ hblock s L G a n) ∧ mc_specific s' !! tid = None ∧
    ((mc_specific s !! tid = None ∧ s' = s) ∨
     ∃ arg t, mc_specific s !! tid = Some arg ∧ mc_tlds s !! arg = Some t ∧ left arg s s' ∧
       g_arenas (mc_g s') = g_arenas (mc_g (exit_arena t s))).
Proof.
  intros [[Hs Hc Hun] Hla] Hl. destruct (mc_specific s !! tid) as [arg|] eqn:Hsp.
  2:{ exists s. unfold tld_cleanup. rewrite Hsp. split_and!; try done. by left. }
  destruct (ci_specific _ Hc _ _ Hsp) as [H0 [x Hx]]. unfold tld_link in Hx. apply fmap_Some in Hx as (t & Ht & _).
  assert (region s (KTld arg) = Some (arg, getpagesize)) as Hr by (simpl; rewrite decide_True; [done|by eapply ly_known]).
  assert ((bootstrap_buf <=? arg) && (arg <? bootstrap_buf + BOOTSTRAP_BUF_SIZE) = false) as Hnb.
  { apply not_true_is_false. intros [Hlo%Z.leb_le Hhi%Z.ltb_lt]%andb_true_iff. pose proof getpagesize_pos.
    pose proof (ly_apart _ Hl (KTld arg) KBoot _ _ _ _ Hr eq_refl ltac:(discriminate)) as Hd.
    unfold disjoint_ranges in Hd. config. lia. }
  eexists. split; [by eapply tld_cleanup_run|]. pose proof (exit_left tid s arg t Hsp) as Hleft.
  set (s' := sub_mmap_bytes _ _) in *.
  assert (mc_specific s' !! tid = None ∧ g_arenas (mc_g s') = g_arenas (mc_g (exit_arena t s))) as [Hnone Har].
  { unfold s', exit_arena. split; [destruct (td_arena t); apply lookup_delete_eq|by destruct (td_arena t)]. }
  clearbody s'. split_and!; [split; [split|]| |apply Hleft| |done|right; eauto 10].
  - eapply left_slab; [done| |done]. intros y (b & sg & Hb & Hy).
    apply (left_mapped arg s s' (KSeg b) b SEGMENT_SIZE); try done. simpl. rewrite decide_True; [done|].
    apply elem_of_dom. eauto.
  - eapply left_ctl; [done| |done]. intros t1 t2. apply (ly_inj _ Hl).
  - unfold unlocked. by rewrite (lf_locks _ _ _ Hleft).
  - eapply left_large; [done| |done]. intros. by eapply left_mapped.
  - by eapply left_layout.
  - intros a n. by eapply left_blocks.
Qed.

(** What thread exit does to the machine: nothing when the thread has no
    [tld_t]; otherwise its page is unmapped, and only it. *)
Definition exit_ok (tid : Z) (s s' : machine) : Prop :=
  mc_mem s' = mc_mem s ∧ mc_specific s' !! tid = None ∧
  ((mc_specific s !! tid = None ∧ s' = s) ∨
   ∃ arg t, mc_specific s !! tid = Some arg ∧ mc_tlds s !! arg = Some t ∧
     mc_tlds s' = delete arg (mc_tlds s) ∧ g_arenas (mc_g s') = g_arenas (mc_g (exit_arena t s)) ∧
     ∀ x, is_mapped s' x ↔ is_mapped s x ∧ ¬ in_range x arg getpagesize).

Lemma tld_cleanup_refines tid s B :
  represents s B → layout s →
  ∃ s', tld_cleanup tid s = Ok s' ∧ represents s' B ∧ layout s' ∧ exit_ok tid s s'.
Proof.
  intros (L & G & l & Hinv & HB) Hl.
  destruct (tld_cleanup_inv tid s L G l Hinv Hl) as (s' & Hrun & Hi & Hl' & Hm & Hb & Hn & Hcase).
  exists s'. unfold exit_ok. split_and!; [done| |done|done|done|].
  - exists L, G, l. split; [done|]. intros a n. by rewrite Hb.
  - destruct Hcase as [?|(arg & t & ? & ? & Hleft & ?)]; [by left|right]. exists arg, t.
    split_and!; [done|done|apply Hleft|done|apply Hleft].
Qed.

(** ** The layout holds from the start *)
Lemma ready_layout : layout ready_machine.
Proof.
  assert (∀ k, region ready_machine k = if decide (k = KBoot) then Some (bootstrap_buf, BOOTSTRAP_BUF_SIZE) else None) as Hr.
  { assert (seg_bases ready_machine = ∅ ∧ tld_bases ready_machine = ∅) as [Hs Ht] by (split; apply dom_empty_L).
    intros [|b|b|a]; [done|..]; simpl; rewrite ?Hs, ?Ht; repeat case_decide; try done; set_solver. }
  split; try (setoid_rewrite Hr); try done.
  - intros k lo len. case_decide; [subst; by intros [= <- <-]|done].
  - intros k lo len. case_decide; [subst; intros [= <- <-]|done].
    split_and!; [apply bootstrap_buf_range|config; lia|]. intros x Hx. by apply (lv_boot _ _ _ ready_large).
  - intros k lo len. by case_decide.
  - intros k k' lo len lo' len'. repeat case_decide; try done. by subst.
Qed.

End Exit.
