(* ===== verification/MallocSpec.v ===== *)
(** * What malloc, calloc, realloc and free promise (src/malloc.c, src/init.c)

    The theorems of the public API against the abstract allocator of
    MallocCorrect.v, call by call, and for every sequence of calls from the
    initialised machine: the relation [reach] is the program of a client that
    uses the API as documented. *)
From S2P Require Import Prelude Config Mem Atomic SizeClass Types Os DemoEnv Page Registry Segment Debug Tld Arena Large Slab Init Malloc Heap HeapOps CtlOps ArenaCorrect SlabCorrect InitCorrect SlabSpec LargeCorrect Steady Threads MallocCorrect ReallocCorrect ExitCorrect.

(** ** Sequences of calls *)

(** A call of the API, a store of the client into one of its blocks, or the
    end of the thread. *)
Inductive call :=
| CMalloc (size : Z)
| CCalloc (count size : Z)
| CRealloc (a size : Z)
| CFree (a : Z)
| CStore (a off v : Z)
| CExit.

Section Calls.
Context `{E : Env}.

(** The calls a client may make when it holds the blocks [B]. *)
Definition valid_call (B : gmap Z Z) (c : call) : Prop :=
  match c with
  | CMalloc size => 0 ≤ size < 2 ^ 59
  | CCalloc count size => 0 ≤ count * size < 2 ^ 59
  | CRealloc a size => is_Some (B !! a) ∧ 1 ≤ size < 2 ^ 59
  | CFree a => is_Some (B !! a)
  | CStore a off _ => ∃ n, B !! a = Some n ∧ 0 ≤ off < n
  | CExit => True
  end.

Definition perform (tid : Z) (c : call) (s : machine) : res (Z * machine) :=
  match c with
  | CMalloc size => my_malloc tid size s
  | CCalloc count size => my_calloc tid count size s
  | CRealloc a size => my_realloc tid a size s
  | CFree a => s ← my_free tid a s; Ok (0, s)
  | CStore a off v => Ok (0, s <| mc_mem ::= λ m, store8 m (a + off) v |>)
  | CExit => s ← tld_cleanup tid s; Ok (0, s)
  end.

(** The blocks the client holds after a call that returned [p], with the
    sizes [malloc_usable_size] reports. *)
Definition usable (s : machine) (p : Z) : Z :=
  match my_malloc_usable_size p s with Ok n => n | _ => 0 end.

Definition hold (p : Z) (s : machine) (B0 B : gmap Z Z) : gmap Z Z :=
  if decide (p = 0) then B0 else <[p := usable s p]> B.

Definition held (B : gmap Z Z) (c : call) (p : Z) (s : machine) : gmap Z Z :=
  match c with
  | CMalloc _ | CCalloc _ _ => hold p s B B
  | CRealloc a _ => hold p s B (delete a B)
  | CFree a => delete a B
  | CStore _ _ _ | CExit => B
  end.

(** The states a client can reach; each call is made by some thread. *)
Inductive reach : machine → gmap Z Z → Prop :=
| reach_init s : malloc_init boot_machine = Ok s → reach s ∅
| reach_call s B tid c p s' :
    reach s B → roomy s → valid_call B c → perform tid c s = Ok (p, s') →
    reach s' (held B c p s').

Context {EL : EnvLaws E}.
Implicit Types (s : machine) (B : gmap Z Z).

Lemma represents_usable s B a n : represents s B → B !! a = Some n → usable s a = n.
Proof.
  intros (L & G & l & Hinv & HB) Ha%HB. unfold usable. by rewrite (usable_size_run s L G l a n).
Qed.

Lemma hold_malloc B size p B' s' :
  abs_malloc B size p B' → represents s' B' → hold p s' B B = B'.
Proof.
  intros Ha Hrep. unfold hold. destruct Ha as [|a n H0 H16 Hn Hnone Hd]; [done|].
  rewrite decide_False by lia. f_equal. eapply represents_usable; [done|]. apply lookup_insert_eq.
Qed.

Lemma hold_realloc B a n size p B' s' :
  0 < a → B !! a = Some n → abs_realloc B a size p B' → represents s' B' →
  hold p s' B (delete a B) = B'.
Proof.
  intros H0 Han Ha Hrep. unfold hold. destruct Ha as [|m Hm Hd|p B1 B2 Hp Hma Hfr]; [done| |].
  - rewrite decide_False by lia. rewrite (represents_usable s' (<[a := m]> B) a m) by (done || apply lookup_insert_eq).
    by rewrite insert_delete_eq.
  - rewrite decide_False by done. destruct Hma as [|p m Hp0 H16 Hm Hnone Hd]; [done|].
    destruct Hfr as [n' Hn']. assert (p ≠ a) as Hpa by congruence.
    rewrite (represents_usable s' (delete a (<[p := m]> B)) p m);
      [|done|by rewrite lookup_delete_ne, lookup_insert_eq].
    by rewrite delete_insert_ne.
Qed.

Lemma represents_pos s B a n : represents s B → B !! a = Some n → 0 < a ∧ (16 | a) ∧ 0 ≤ n.
Proof.
  intros (L & G & l & Hinv & HB) Ha%HB. destruct Ha as [Ha|Ha].
  - destruct (block_place s L a n (hi_slab _ _ (proj1 Hinv)) Ha)
      as (r & p & live & _ & _ & _ & _ & _ & _ & _ & _ & _ & _ & ? & ? & ?). split_and!; [lia|done|lia].
  - destruct (lblock_in s G l a n (proj2 Hinv) Ha) as (c & e & He & _ & _ & Hin & _ & _ & ? & ?).
    destruct (lv_each _ _ _ (proj2 Hinv) c e He) as [_ A2 _ _ _ _ _]. unfold in_range in Hin. split_and!; [lia|done|lia].
Qed.

Lemma my_calloc_refines tid count size s B :
  represents s B → roomy s → 0 ≤ count * size < 2 ^ 59 →
  ∃ p s' B', my_calloc tid count size s = Ok (p, s') ∧ abs_malloc B (count * size) p B' ∧ represents s' B' ∧
    bytes_kept B B' s s' ∧ (p = 0 → refused 4 (count * size) s') ∧
    (p ≠ 0 → ∀ b, in_range b p (count * size) → load8 (mc_mem s') b = 0).
Proof.
  intros (L & G & l & Hinv & HB) Hr Hsz.
  destruct (my_calloc_run tid count size s L G l) as (p & s' & Hrun & Hp & Hz); try done.
  destruct (malloc_post_refines 4 (count * size) p s L G l s' B) as (B' & Ha & Hrep & Hb & _ & Href); try done.
  exists p, s', B'. by split_and!.
Qed.

(** One valid call: it returns, and the machine still represents what the
    client holds. *)
Lemma call_run tid c s B :
  represents s B → layout s → roomy s → valid_call B c →
  ∃ p s', perform tid c s = Ok (p, s') ∧ represents s' (held B c p s') ∧ layout s'.
Proof.
  intros Hrep Hl Hr Hv. pose proof (ro_init _ Hr) as Hi.
  destruct c as [size|count size|a size|a|a off v|]; simpl in *.
  - destruct (my_malloc_refines tid size s B) as (p & s' & B' & Hrun & Ha & Hrep' & _); try done.
    exists p, s'. split; [done|]. rewrite (hold_malloc B size p B' s') by done. split; [done|by eapply malloc_layout].
  - destruct (my_calloc_refines tid count size s B) as (p & s' & B' & Hrun & Ha & Hrep' & _); try done.
    exists p, s'. split; [done|]. rewrite (hold_malloc B (count * size) p B' s') by done.
    split; [done|by eapply calloc_layout].
  - destruct Hv as [[n Han] Hsz].
    destruct (my_realloc_refines tid a n size s B) as (p & s' & B' & Hrun & Ha & Hrep' & _); try done.
    exists p, s'. split; [done|]. rewrite (hold_realloc B a n size p B' s'); try done;
      [|by apply (represents_pos s B a n)].
    split; [done|]. eapply realloc_layout; [done| |done|done]. lia.
  - destruct (my_free_refines tid a s B) as (s' & B' & Hrun & Ha & Hrep' & _); try done. rewrite Hrun.
    exists 0, s'. split; [done|]. split; [by destruct Ha|by eapply free_layout].
  - destruct Hv as (n & Ha & Hoff). eexists 0, _. split; [done|]. split.
    + apply (represents_write s B a n (store8 (mc_mem s) (a + off) v)); try done.
      * intros b. rewrite load8_store8. destruct (decide _); [apply u8_range|].
        destruct Hrep as (L & G & l & Hinv & _). apply (si_bytes _ _ (hi_slab _ _ (proj1 Hinv))).
      * intros b Hb. rewrite load8_store8, decide_False; [done|]. unfold in_range in Hb. lia.
    + eapply same_print_layout; [|done]. by split.
  - destruct (tld_cleanup_refines tid s B Hrep Hl) as (s' & -> & Hrep' & Hl' & _). by exists 0, s'.
Qed.

Lemma reach_represents s B : reach s B → represents s B ∧ layout s.
Proof.
  induction 1 as [s Hs|s B tid c p s' _ [IH IHl] Hr Hv Hrun].
  - rewrite malloc_init_boot in Hs. injection Hs as <-. split; [apply ready_represents|apply ready_layout].
  - destruct (call_run tid c s B IH IHl Hr Hv) as (p' & s2 & Hrun' & Hrep). rewrite Hrun in Hrun'.
    by injection Hrun' as <- <-.
Qed.

(** ** Programs of bounded length need no side condition *)
Lemma affords_roomy k s : affords (S k) s → roomy s.
Proof.
  intros [H1 H2 H3 H4]. split; [unfold malloc_is_initialized; by rewrite H1|lia|lia|lia].
Qed.

Lemma cleanup_affords tid k s s' : affords k s → tld_cleanup tid s = Ok s' → affords k s'.
Proof.
  intros [A1 A2 A3 A4]. unfold tld_cleanup, os_munmap. intros H. repeat (case_match || inv_res); by split.
Qed.

Lemma perform_affords tid c k s p s' :
  affords (S (S k)) s → perform tid c s = Ok (p, s') → affords k s'.
Proof.
  intros Ha. pose proof (af_init _ _ Ha) as Hi.
  assert (∀ s', spends s s' → affords k s') as Hspend.
  { intros s2 Hs. apply (affords_weaken (S k)); [lia|]. by eapply affords_spend. }
  destruct c as [sz|count sz|a sz|a|a off v|]; simpl.
  - intros H. by eapply Hspend, malloc_spends.
  - intros H. by eapply Hspend, calloc_spends.
  - by apply realloc_affords.
  - intros H. inv_res. by eapply Hspend, free_spends.
  - intros H. inv_res. apply (affords_weaken (S (S k))); [lia|]. by destruct Ha.
  - intros H. inv_res. apply (affords_weaken (S (S k))); [lia|]. by eapply cleanup_affords.
Qed.

(** What a client reaches in [n] calls from the first initialisation. *)
Inductive plays : nat → machine → gmap Z Z → Prop :=
| plays_init s : malloc_init boot_machine = Ok s → plays 0 s ∅
| plays_call n s B tid c p s' :
    plays n s B → valid_call B c → perform tid c s = Ok (p, s') → plays (S n) s' (held B c p s').

Lemma ready_affords : affords 254 ready_machine.
Proof.
  split; [done|done|done|]. change (size (mc_segs ready_machine)) with 0%nat. lia.
Qed.

Lemma plays_affords n s B : plays n s B → (n ≤ 127)%nat → affords (254 - 2 * n) s.
Proof.
  induction 1 as [s Hs|n s B tid c p s' _ IH _ Hrun]; intros Hn.
  - rewrite malloc_init_boot in Hs. injection Hs as <-. apply ready_affords.
  - eapply perform_affords; [|exact Hrun].
    replace (S (S (254 - 2 * S n))) with (254 - 2 * n)%nat by lia. apply IH. lia.
Qed.

Lemma plays_reach n s B : plays n s B → (n ≤ 127)%nat → reach s B.
Proof.
  induction 1 as [s Hs|n s B tid c p s' Hp IH Hv Hrun]; intros Hn; [by constructor|].
  eapply reach_call; [apply IH; lia| |done|exact Hrun].
  apply (affords_roomy (253 - 2 * n)). replace (S (253 - 2 * n)) with (254 - 2 * n)%nat by lia.
  eapply plays_affords; [done|lia].
Qed.

End Calls.

(** The heap after the first allocation. *)
Lemma first_malloc `{E : Env} {EL : EnvLaws E} tid size s p s' :
  represents s ∅ → roomy s → 0 ≤ size < 2 ^ 59 → my_malloc tid size s = Ok (p, s') → p ≠ 0 →
  ∃ n, size ≤ n ∧ represents s' {[p := n]}.
Proof.
  intros Hrep Hr Hsz Hrun H0.
  destruct (my_malloc_refines tid size s ∅) as (p' & s2 & B' & Hrun' & Ha & Hrep' & _); try done.
  rewrite Hrun in Hrun'. injection Hrun' as <- <-. destruct Ha as [|a n _ _ Hn _ _]; [done|]. by exists n.
Qed.

(** ** The theorems *)
Section Theorems.
Context `{E : Env} {EL : EnvLaws E}.
Implicit Types (s : machine) (B : gmap Z Z).

(** C1: whatever a client does through the API (malloc, calloc, realloc of a
    live block, free of a live block, stores into its blocks, the end of a
    thread, by any threads, in any order, in either build mode, as long as the counters are
    not exhausted), its blocks are 16-byte aligned, mapped and pairwise
    disjoint, and its next valid call returns: no path follows a dangling
    pointer, blocks on a mutex, loops or aborts. *)
Theorem reachable_heap_safe s B :
  reach s B →
  (∀ a n, B !! a = Some n → 0 < a ∧ (16 | a) ∧ ∀ b, in_range b a n → is_mapped s b) ∧
  (∀ a n a' n', B !! a = Some n → B !! a' = Some n' → a ≠ a' → disjoint_ranges a n a' n') ∧
  (∀ tid c, roomy s → valid_call B c → ∃ p s', perform tid c s = Ok (p, s')).
Proof.
  intros [Hrep Hl]%reach_represents. split_and!.
  - intros a n Ha. destruct (represents_pos s B a n Hrep Ha) as (? & ? & _). split_and!; [done..|].
    destruct Hrep as (L & G & l & Hinv & HB). intros b. by apply (hblock_mapped s L G l), HB.
  - destruct Hrep as (L & G & l & Hinv & HB). intros a n a' n' Ha%HB Ha'%HB. by eapply hblock_disjoint.
  - intros tid c Hr Hv. destruct (call_run tid c s B Hrep Hl Hr Hv) as (p & s' & Hrun & _). eauto.
Qed.

(** C2: no side condition is left for short programs.  A program of fewer than
    127 calls from the first initialisation on, each valid when it is made,
    runs to its end, and all along the machine represents the blocks the
    program holds. *)
Theorem short_program_runs n s B :
  plays n s B → (n < 127)%nat →
  represents s B ∧ ∀ tid c, valid_call B c → ∃ p s', perform tid c s = Ok (p, s') ∧ plays (S n) s' (held B c p s').
Proof.
  intros Hp Hn. destruct (reach_represents s B) as [Hrep Hl]; [eapply plays_reach; [done|lia]|].
  split; [done|]. intros tid c Hv. assert (roomy s) as Hr.
  { apply (affords_roomy (253 - 2 * n)). replace (S (253 - 2 * n)) with (254 - 2 * n)%nat by lia.
    eapply plays_affords; [done|lia]. }
  destruct (call_run tid c s B Hrep Hl Hr Hv) as (p & s' & Hrun & _). exists p, s'. split; [done|by eapply plays_call].
Qed.

(** C3: [malloc] refines the abstract allocator.  For any size below 2^59 it
    returns: null, and then the kernel refuses a mapping hardly larger than
    the request; or a fresh 16-byte aligned block of at least that size, next
    to the blocks there were, whose bytes are kept. *)
Theorem malloc_refines tid size s B :
  represents s B → roomy s → 0 ≤ size < 2 ^ 59 →
  ∃ p s' B', my_malloc tid size s = Ok (p, s') ∧ abs_malloc B size p B' ∧ represents s' B' ∧
    bytes_kept B B' s s' ∧ (p = 0 → refused 4 size s').
Proof. apply my_malloc_refines. Qed.

(** C4: [free] of a live block, small or large, by any thread, refines the
    abstract [free]: the block goes, every other block keeps its bytes. *)
Theorem free_refines tid a s B :
  represents s B → roomy s → is_Some (B !! a) →
  ∃ s' B', my_free tid a s = Ok s' ∧ abs_free B a B' ∧ represents s' B' ∧ bytes_kept B B' s s'.
Proof. apply my_free_refines. Qed.

(** C5: [realloc] of a live block of [n] bytes returns null and changes no
    block, or returns the block resized in place, or a new block after
    freeing the old one; the first min(n, size) bytes are those of the old
    block, and all other blocks keep theirs. *)
Theorem realloc_refines tid a n size s B :
  represents s B → roomy s → B !! a = Some n → 1 ≤ size < 2 ^ 59 →
  ∃ p s' B', my_realloc tid a size s = Ok (p, s') ∧ realloc_ok a n size p B s B' s'.
Proof. apply my_realloc_refines. Qed.

(** C6: [calloc] sets ENOMEM and returns null when the product overflows
    [size_t]; for a product below 2^59 it allocates as [malloc] does and every byte of the
    block reads as zero, whether the slot came from a free list or was
    handed out for the first time. *)
Theorem calloc_correct tid count size s B :
  represents s B → roomy s → 0 ≤ count → 0 ≤ size →
  (SIZE_MAX < count * size → my_calloc tid count size s = Ok (0, set_errno ENOMEM s)) ∧
  (count * size < 2 ^ 59 →
   ∃ p s' B', my_calloc tid count size s = Ok (p, s') ∧ abs_malloc B (count * size) p B' ∧
     represents s' B' ∧ bytes_kept B B' s s' ∧ (p = 0 → refused 4 (count * size) s') ∧
     (p ≠ 0 → ∀ b, in_range b p (count * size) → load8 (mc_mem s') b = 0)).
Proof.
  intros Hrep Hr Hc Hs. split.
  - intros Hov. unfold my_calloc. by destruct (Z.ltb_spec SIZE_MAX (count * size)); [|lia].
  - intros Hlim. apply my_calloc_refines; [done|done|nia].
Qed.

Lemma ensure_init_boot : malloc_ensure_init boot_machine = Ok ready_machine.
Proof. reflexivity. Qed.
Lemma ensure_init_ready : malloc_ensure_init ready_machine = Ok ready_machine.
Proof.
  unfold malloc_ensure_init. change (g_initialized (mc_g ready_machine)) with 2. reflexivity.
Qed.

(** C7: the first initialisation, explicit or by the first allocation, leaves
    an allocator that holds no block and has all its counters free. *)
Theorem init_correct :
  ∃ s, malloc_init boot_machine = Ok s ∧ represents s ∅ ∧ roomy s ∧ malloc_init s = Ok s ∧
    ∀ tid size, my_malloc tid size boot_machine = my_malloc tid size s.
Proof.
  exists ready_machine. split; [apply malloc_init_boot|]. split; [apply ready_represents|].
  split; [split; [done|done|done|]|split].
  - change (size (mc_segs ready_machine)) with 0%nat. lia.
  - unfold malloc_init. change (g_initialized (mc_g ready_machine)) with 2. reflexivity.
  - intros tid size. unfold my_malloc. rewrite ensure_init_boot, ensure_init_ready. reflexivity.
Qed.

(** C8: [malloc_usable_size] of a live block is the size the allocator holds
    for it, all of which the client may use. *)
Theorem usable_size_correct s B a n :
  represents s B → B !! a = Some n → my_malloc_usable_size a s = Ok n.
Proof. intros (L & G & l & Hinv & HB) Ha%HB. by eapply usable_size_run. Qed.

(** C9: in every reachable state a thread can end.  The destructor of its
    [tld_t] returns and keeps every block and every byte; the thread's
    statistics are added to its arena, and the mapping of the [tld_t], and
    nothing else, is gone: no block, no segment, no large mapping and no
    other thread's data is in it. *)
Theorem thread_exit_correct tid s B :
  reach s B → ∃ s', tld_cleanup tid s = Ok s' ∧ represents s' B ∧ layout s' ∧ exit_ok tid s s'.
Proof. intros [Hrep Hl]%reach_represents. by apply tld_cleanup_refines. Qed.

End Theorems.

(** ** Witnesses *)
Lemma demo_ready_represents : @represents (demo_env true) (demo_ready true) ∅.
Proof. exact ready_represents. Qed.

Lemma demo_slot_malloc : @my_malloc (demo_env true) 1 100 (demo_ready true) = Ok (demo_slot, demo_heap).
Proof. rewrite <- demo_alloc_run, demo_alloc_def. reflexivity. Qed.

(** The heap after a first [malloc(100)] by thread 1. *)
Lemma demo_represents : ∃ n, 100 ≤ n ∧ @represents (demo_env true) demo_heap {[demo_slot := n]}.
Proof.
  apply (@first_malloc (demo_env true) (demo_laws true) 1 100 (demo_ready true) demo_slot demo_heap).
  - exact demo_ready_represents.
  - exact (demo_roomy true).
  - lia.
  - exact demo_slot_malloc.
  - rewrite demo_slot_value. discriminate.
Qed.

Lemma reachable_heap_safe_witness :
  (∃ s, @reach (demo_env true) s ∅ ∧ @roomy s) ∧
  ∃ s, malloc_init (@boot_machine (demo_env true)) = Ok s ∧
    ∃ p s', @perform (demo_env true) 1 (CCalloc 3 40000) s = Ok (p, s').
Proof.
  assert (@reach (demo_env true) (demo_ready true) ∅) as Hr by (apply reach_init; apply malloc_init_boot).
  split; [exists (demo_ready true); split; [exact Hr|apply demo_roomy]|].
  exists (demo_ready true). split; [apply malloc_init_boot|].
  apply (@reachable_heap_safe (demo_env true) (demo_laws true) (demo_ready true) ∅ Hr);
    [apply demo_roomy|simpl; lia].
Defined.

Lemma malloc_refines_witness :
  ∃ p s' B', @my_malloc (demo_env true) 1 100000 (demo_ready true) = Ok (p, s') ∧
    abs_malloc ∅ 100000 p B' ∧ @represents (demo_env true) s' B' ∧
    bytes_kept ∅ B' (demo_ready true) s' ∧ (p = 0 → @refused (demo_env true) 4 100000 s').
Proof.
  apply (@malloc_refines (demo_env true) (demo_laws true) 1 100000 (demo_ready true) ∅);
    [exact demo_ready_represents|exact (demo_roomy true)|lia].
Defined.

Lemma free_refines_witness :
  ∃ n s' B', @my_free (demo_env true) 2 demo_slot demo_heap = Ok s' ∧
    abs_free {[demo_slot := n]} demo_slot B' ∧ @represents (demo_env true) s' B' ∧
    bytes_kept {[demo_slot := n]} B' demo_heap s'.
Proof.
  destruct demo_represents as (n & _ & Hrep). exists n.
  apply (@free_refines (demo_env true) (demo_laws true) 2 demo_slot demo_heap {[demo_slot := n]});
    [exact Hrep|exact demo_heap_roomy|rewrite lookup_singleton_eq; eauto].
Defined.

Lemma realloc_refines_witness :
  ∃ n p s' B', @my_realloc (demo_env true) 1 demo_slot 5000 demo_heap = Ok (p, s') ∧
    @realloc_ok (demo_env true) demo_slot n 5000 p {[demo_slot := n]} demo_heap B' s'.
Proof.
  destruct demo_represents as (n & _ & Hrep). exists n.
  apply (@realloc_refines (demo_env true) (demo_laws true) 1 demo_slot n 5000 demo_heap {[demo_slot := n]});
    [exact Hrep|exact demo_heap_roomy|apply lookup_singleton_eq|lia].
Defined.

Lemma calloc_correct_witness :
  @my_calloc (demo_env true) 1 (2 ^ 33) (2 ^ 33) (demo_ready true) = Ok (0, set_errno ENOMEM (demo_ready true)) ∧
  ∃ p s' B', @my_calloc (demo_env true) 1 10 30 (demo_ready true) = Ok (p, s') ∧
    abs_malloc ∅ (10 * 30) p B' ∧ @represents (demo_env true) s' B' ∧ bytes_kept ∅ B' (demo_ready true) s' ∧
    (p = 0 → @refused (demo_env true) 4 (10 * 30) s') ∧
    (p ≠ 0 → ∀ b, in_range b p (10 * 30) → load8 (mc_mem s') b = 0).
Proof.
  split.
  - apply (@calloc_correct (demo_env true) (demo_laws true) 1 (2 ^ 33) (2 ^ 33) (demo_ready true) ∅);
      [exact demo_ready_represents|exact (demo_roomy true)|lia|lia|reflexivity].
  - apply (@calloc_correct (demo_env true) (demo_laws true) 1 10 30 (demo_ready true) ∅);
      [exact demo_ready_represents|exact (demo_roomy true)|lia|lia|lia].
Defined.

Lemma usable_size_correct_witness :
  ∃ n, @my_malloc_usable_size demo_slot demo_heap = Ok n ∧ 100 ≤ n.
Proof.
  destruct demo_represents as (n & Hn & Hrep). exists n. split; [|exact Hn].
  apply (@usable_size_correct (demo_env true) demo_heap {[demo_slot := n]} demo_slot n);
    [exact Hrep|apply lookup_singleton_eq].
Defined.

Lemma init_correct_witness :
  ∃ s, malloc_init (@boot_machine (demo_env true)) = Ok s ∧ @represents (demo_env true) s ∅ ∧ @roomy s ∧
    malloc_init s = Ok s ∧
    ∀ tid size, @my_malloc (demo_env true) tid size (@boot_machine (demo_env true)) =
      @my_malloc (demo_env true) tid size s.
Proof. exact (@init_correct (demo_env true) (demo_laws true)). Defined.

Lemma short_program_runs_witness :
  ∃ p s', @perform (demo_env true) 3 (CMalloc 1000000) (demo_ready true) = Ok (p, s') ∧
    @plays (demo_env true) 1 s' (@held ∅ (CMalloc 1000000) p s').
Proof.
  assert (@plays (demo_env true) 0 (demo_ready true) ∅) as H by (apply plays_init; apply malloc_init_boot).
  apply (@short_program_runs (demo_env true) (demo_laws true) 0 (demo_ready true) ∅ H); [lia|simpl; lia].
Defined.

(** Thread 1, which has a block, ends. *)
Lemma thread_exit_correct_witness :
  ∃ B s', B !! demo_slot ≠ None ∧ @tld_cleanup (demo_env true) 1 demo_heap = Ok s' ∧
    @represents (demo_env true) s' B ∧ @layout (demo_env true) s' ∧ @exit_ok (demo_env true) 1 demo_heap s'.
Proof.
  set (B := @held ∅ (CMalloc 100) demo_slot demo_heap).
  assert (@reach (demo_env true) demo_heap B) as Hr.
  { apply (@reach_call (demo_env true) (demo_ready true) ∅ 1 (CMalloc 100) demo_slot demo_heap).
    - apply reach_init. apply malloc_init_boot.
    - apply demo_roomy.
    - simpl. lia.
    - exact demo_slot_malloc. }
  destruct (@thread_exit_correct (demo_env true) (demo_laws true) 1 demo_heap B Hr) as (s' & H).
  exists B, s'. split; [|exact H]. unfold B, held, hold. rewrite decide_False by (rewrite demo_slot_value; discriminate).
  rewrite lookup_insert_eq. discriminate.
Defined.
