(* ===== verification/AlignCorrect.v ===== *)
(** * Aligned allocation (src/malloc.c: memalign, posix_memalign, valloc)

    What the aligned entry points guarantee, and the requests for which they
    do not deliver the alignment asked for. *)
From S2P Require Import Prelude Config Mem Atomic SizeClass Types Os DemoEnv Page Registry Segment Debug Tld Arena Large Slab Init Malloc Heap HeapOps CtlOps ArenaCorrect SlabCorrect InitCorrect SlabSpec LargeCorrect Steady MallocCorrect ReallocCorrect MallocSpec.

(** ** The test for powers of two *)
Lemma pow2_land k : 0 ≤ k → Z.land (2 ^ k) (2 ^ k - 1) = 0.
Proof.
  intros Hk. replace (2 ^ k - 1) with (Z.ones k) by (rewrite Z.ones_equiv; lia).
  rewrite Z.land_ones by done. apply Z.mod_same. pose proof (Z.pow_pos_nonneg 2 k). lia.
Qed.

Lemma land_pred_pow2 a : 0 < a → Z.land a (a - 1) = 0 ↔ ∃ k, 0 ≤ k ∧ a = 2 ^ k.
Proof.
  intros Ha. split.
  - intros Hl. exists (Z.log2 a). pose proof (Z.log2_nonneg a) as Hk.
    destruct (Z.log2_spec a Ha) as [Hlo Hhi]. split; [done|].
    destruct (decide (a = 2 ^ Z.log2 a)) as [|Hne]; [done|exfalso].
    assert (Z.testbit (Z.land a (a - 1)) (Z.log2 a) = true) as Hbit.
    { rewrite Z.land_spec, Z.bit_log2 by done.
      replace (Z.log2 a) with (Z.log2 (a - 1)) by (apply Z.log2_unique; lia).
      apply Z.bit_log2. pose proof (Z.pow_pos_nonneg 2 (Z.log2 a)). lia. }
    rewrite Hl, Z.bits_0 in Hbit. done.
  - intros (k & Hk & ->). by apply pow2_land.
Qed.

(** Rounding up to a multiple of [2^k] stays below a larger power of two. *)
Lemma pow2_multiple_le n n' k j :
  0 ≤ k ≤ j → (2 ^ k | n') → n' < n + 2 ^ k → n ≤ 2 ^ j → n' ≤ 2 ^ j.
Proof.
  intros Hk [q ->] Hlt Hn. pose proof (Z.pow_pos_nonneg 2 k ltac:(lia) ltac:(lia)).
  replace (2 ^ j) with (2 ^ (j - k) * 2 ^ k) in * by (rewrite <- Z.pow_add_r by lia; f_equal; lia).
  assert (q < 2 ^ (j - k) + 1) by nia. nia.
Qed.

Section Align.
Context `{E : Env}.
Implicit Types (s : machine) (B : gmap Z Z).

Lemma abs_malloc_le B size size' p B' : size ≤ size' → abs_malloc B size' p B' → abs_malloc B size p B'.
Proof. intros Hle [|a n H0 H16 Hn Hf Hd]; constructor; try done. lia. Qed.

(** What every aligned allocation promises: a block as [malloc] gives it. *)
Definition aligned_ok (k size p : Z) B s B' s' : Prop :=
  abs_malloc B size p B' ∧ represents s' B' ∧ bytes_kept B B' s s' ∧
  (p = 0 → refused (Z.max 4 k) size s') ∧
  (k ≤ 4 ∨ MEDIUM_MAX < size ∨ PAGE_SIZE_ALLOC < 2 ^ k → (2 ^ k | p)).

Lemma pow2_divide i j a : 0 ≤ i ≤ j → (2 ^ j | a) → (2 ^ i | a).
Proof.
  intros Hij Ha. etrans; [|done]. exists (2 ^ (j - i)). rewrite <- Z.pow_add_r by lia. f_equal. lia.
Qed.

Context {EL : EnvLaws E}.

Lemma memalign_run tid k size s B :
  represents s B → roomy s → 0 ≤ k ≤ 57 → 1 ≤ size < 2 ^ 57 →
  ∃ p s' B', my_memalign tid (2 ^ k) size s = Ok (p, s') ∧ aligned_ok k size p B s B' s'.
Proof.
  intros Hrep Hr Hk Hsz. unfold my_memalign, malloc_ensure_init.
  pose proof (ro_init _ Hr) as Hin. unfold malloc_is_initialized in Hin. rewrite Hin. cbn [negb mbind res_bind].
  pose proof (Z.pow_pos_nonneg 2 k ltac:(lia) ltac:(lia)) as Hpos.
  destruct (Z.eqb_spec (2 ^ k) 0) as [|_]; [lia|]. rewrite pow2_land by lia. cbn [orb negb Z.eqb].
  assert (2 ^ k ≤ 2 ^ 57) by (apply Z.pow_le_mono_r; lia).
  destruct (Z.leb_spec (2 ^ k) MIN_ALIGN) as [Hmin|Hmin].
  { assert (k ≤ 4) by (apply (Z.pow_le_mono_r_iff 2); [lia|lia|exact Hmin]).
    destruct (my_malloc_refines tid size s B) as (p & s' & B' & Hrun & Ha & Hrep' & Hb & Href); try done; [lia|].
    exists p, s', B'. split; [done|]. split_and!; [done|done|done|by replace (Z.max 4 k) with 4 by lia|]. intros _.
    destruct Ha; [apply Z.divide_0_r|]. apply (pow2_divide k 4); [lia|done]. }
  assert (4 < k) by (apply (Z.pow_lt_mono_r_iff 2); [lia|lia|exact Hmin]).
  destruct Hrep as (L & G & l & Hinv & HB).
  destruct (_ || _) eqn:Hbig.
  { destruct (large_malloc_post size k s L G l) as (p & s' & Hrun & Hp & _); try done; [lia|lia|lia|].
    destruct (malloc_post_refines k size p s L G l s' B) as (B' & Ha & Hrep' & Hb & Hd & Href); try done; [lia|].
    exists p, s', B'. split; [done|]. split_and!; [done|done|done|by replace (Z.max 4 k) with k by lia|done]. }
  apply orb_false_iff in Hbig as [Hm%Z.ltb_ge Hp%Z.ltb_ge].
  set (n := if size <? 2 ^ k then 2 ^ k else size).
  assert (n = Z.max size (2 ^ k)) as Hn by (unfold n; destruct (Z.ltb_spec size (2 ^ k)); lia). clearbody n.
  assert (k ≤ 16) by (apply (Z.pow_le_mono_r_iff 2); [lia|lia|exact Hp]).
  pose proof (align_up_bounds n k ltac:(lia) ltac:(lia) ltac:(lia)) as Hau.
  pose proof (align_up_divide n k ltac:(lia) ltac:(lia) ltac:(lia)) as Hdv.
  set (n' := align_up n (2 ^ k)) in *. clearbody n'.
  assert (n' ≤ MEDIUM_MAX) as Hle.
  { config. apply (pow2_multiple_le n n' k 17); [lia|done|lia|]. config. lia. }
  assert (n' < size + 2 ^ k) as Hsl.
  { destruct (Z.le_gt_cases (2 ^ k) size); [lia|]. destruct Hdv as [q ->]. assert (q < 2) by nia. nia. }
  assert (32 ≤ 2 ^ k) by (change 32 with (2 ^ 5); apply Z.pow_le_mono_r; lia).
  destruct (Z.ltb_spec MEDIUM_MAX n'); [lia|]. unfold slab_alloc.
  destruct (slab_alloc_any tid n' s L G l) as (p & z & s' & Hrun & Hp' & _); try done; [lia|].
  rewrite Hrun. cbn [mbind res_bind].
  destruct (malloc_post_refines 4 n' p s L G l s' B) as (B' & Ha & Hrep' & Hb & _ & Href); try done.
  exists p, s', B'. split; [done|]. split_and!; [eapply abs_malloc_le; [|done]; lia|done|done| |lia].
  intros Hp0. destruct (Href Hp0) as (len & Hlen & Hl). exists len. split; [|done]. replace (Z.max 4 k) with k by lia.
  change (2 ^ 4) with 16 in Hlen. lia.
Qed.

(** C14: [memalign] with a power of two and a size from 1 up returns a fresh
    block of at least that size, or null when the kernel refuses memory; the
    alignment is delivered for alignments up to 16 and on the path of large
    allocations (sizes above 128 KB, alignments above 64 KB). *)
Theorem memalign_correct tid k size s B :
  represents s B → roomy s → 0 ≤ k ≤ 57 → 1 ≤ size < 2 ^ 57 →
  ∃ p s' B', my_memalign tid (2 ^ k) size s = Ok (p, s') ∧ aligned_ok k size p B s B' s'.
Proof. apply memalign_run. Qed.

(** C15: [posix_memalign] answers EINVAL, and touches nothing, exactly for the
    alignments that are no power of two of at least 8; for the others it
    stores a block as [memalign] gives it and answers 0, or stores nothing
    and answers ENOMEM when the kernel refuses memory. *)
Theorem posix_memalign_correct tid alignment size s B :
  represents s B → roomy s → 0 ≤ alignment ≤ 2 ^ 57 → 1 ≤ size < 2 ^ 57 →
  ((¬ ∃ k, 3 ≤ k ∧ alignment = 2 ^ k) ∧ my_posix_memalign tid alignment size s = Ok (EINVAL, None, s)) ∨
  (∃ k p s' B', 3 ≤ k ∧ alignment = 2 ^ k ∧ aligned_ok k size p B s B' s' ∧
    my_posix_memalign tid alignment size s =
      Ok (if p =? 0 then (ENOMEM, None, s') else (0, Some p, s'))).
Proof.
  intros Hrep Hr Hal Hsz. unfold my_posix_memalign.
  destruct (Z.ltb_spec alignment 8) as [Hlt|Hge].
  { left. split; [|done]. intros (k & Hk & ->).
    assert (2 ^ 3 ≤ 2 ^ k) by (apply Z.pow_le_mono_r; lia). lia. }
  destruct (Z.eqb_spec (Z.land alignment (alignment - 1)) 0) as [Hl|Hl]; cbn [orb negb].
  - apply land_pred_pow2 in Hl as (k & Hk & ->); [|lia]. right.
    assert (3 ≤ k) by (apply (Z.pow_le_mono_r_iff 2); [lia|lia|exact Hge]).
    assert (k ≤ 57) by (apply (Z.pow_le_mono_r_iff 2); lia).
    destruct (memalign_run tid k size s B) as (p & s' & B' & Hrun & Hok); try done.
    exists k, p, s', B'. split_and!; try done. rewrite Hrun. cbn [mbind res_bind]. by destruct (p =? 0).
  - left. split; [|done]. intros (k & Hk & ->). apply Hl, pow2_land. lia.
Qed.

End Align.

(** ** Witnesses *)
Lemma memalign_correct_witness :
  ∃ p s' B', @my_memalign (demo_env true) 1 (2 ^ 17) 300 (demo_ready true) = Ok (p, s') ∧
    @aligned_ok (demo_env true) 17 300 p ∅ (demo_ready true) B' s'.
Proof.
  apply (@memalign_correct (demo_env true) (demo_laws true) 1 17 300 (demo_ready true) ∅);
    [exact demo_ready_represents|exact (demo_roomy true)|lia|lia].
Defined.

Lemma posix_memalign_correct_witness :
  ((¬ ∃ k, 3 ≤ k ∧ 64 = 2 ^ k) ∧
    @my_posix_memalign (demo_env true) 1 64 300 (demo_ready true) = Ok (EINVAL, None, demo_ready true)) ∨
  (∃ k p s' B', 3 ≤ k ∧ 64 = 2 ^ k ∧ @aligned_ok (demo_env true) k 300 p ∅ (demo_ready true) B' s' ∧
    @my_posix_memalign (demo_env true) 1 64 300 (demo_ready true) =
      Ok (if p =? 0 then (ENOMEM, None, s') else (0, Some p, s'))).
Proof.
  apply (@posix_memalign_correct (demo_env true) (demo_laws true) 1 64 300 (demo_ready true) ∅);
    [exact demo_ready_represents|exact (demo_roomy true)|lia|lia].
Defined.
