(* ===== verification/Script.v ===== *)
(** * Client programs read off by evaluation

    A script is a client program whose calls may use the pointers earlier
    calls returned.  Running one checks on the way that each call is valid and
    finds the counters free, so that a script that runs to its end is a
    sequence of calls in the sense of MallocSpec.v.  The witnesses use it. *)
From S2P Require Import Prelude Config Mem SizeClass Types Os DemoEnv Tld Init Malloc InitCorrect SlabSpec MallocCorrect MallocSpec.

(** What a run returns and leaves satisfies [f]. *)
Definition run_check {A} (f : A → machine → bool) (r : res (A * machine)) : bool :=
  match r with Ok (a, s) => f a s | _ => false end.
Lemma run_check_true {A} (f : A → machine → bool) r : run_check f r = true → ∃ a s, r = Ok (a, s) ∧ f a s = true.
Proof. destruct r as [[a s]| | |]; [|done..]. by exists a, s. Qed.

Section Script.
Context `{E : Env}.
Implicit Types (s : machine) (B : gmap Z Z).

Definition roomyb s : bool :=
  malloc_is_initialized s && (mc_thread_id_counter s + 1 <? UINT32_MAX) &&
  (g_arena_next (mc_g s) + 1 <? 2 ^ 31) && bool_decide (size (mc_segs s) < 256)%nat.
Lemma roomyb_spec s : roomyb s = true → roomy s.
Proof.
  intros [[[Hi ?%Z.ltb_lt]%andb_true_iff ?%Z.ltb_lt]%andb_true_iff ?%bool_decide_eq_true_1]%andb_true_iff. by split.
Qed.

(** Allocations and frees are enough for the scripts here. *)
Definition validb B (c : call) : bool :=
  match c with
  | CMalloc size => (0 <=? size) && (size <? 2 ^ 59)
  | CFree a => bool_decide (is_Some (B !! a))
  | CExit => true
  | _ => false
  end.
Lemma validb_spec B c : validb B c = true → valid_call B c.
Proof.
  destruct c as [size| | |a| |]; simpl; try done.
  - intros [?%Z.leb_le ?%Z.ltb_lt]%andb_true_iff. lia.
  - apply bool_decide_eq_true_1.
Qed.

(** A call, made by a thread, given the pointers returned so far, latest first. *)
Definition script : Type := list (Z * (list Z → call)).

Fixpoint play (cs : script) (ps : list Z) B s : res (list Z * gmap Z Z * machine) :=
  match cs with
  | [] => Ok (ps, B, s)
  | (tid, c) :: cs =>
      if roomyb s && validb B (c ps)
      then '(p, s') ← perform tid (c ps) s; play cs (p :: ps) (held B (c ps) p s') s'
      else Fault
  end.

(** What client calls can make of a state; [reach] is what they can make of
    the initial one. *)
Inductive later : machine → gmap Z Z → machine → gmap Z Z → Prop :=
| later_refl s B : later s B s B
| later_call s B tid c p s1 s' B' :
    roomy s → valid_call B c → perform tid c s = Ok (p, s1) → later s1 (held B c p s1) s' B' →
    later s B s' B'.

Lemma later_reach s B s' B' : later s B s' B' → reach s B → reach s' B'.
Proof. induction 1; [done|]. intros Hr. apply IHlater. by eapply reach_call. Qed.

Lemma play_later cs ps B s ps' B' s' : play cs ps B s = Ok (ps', B', s') → later s B s' B'.
Proof.
  revert ps B s. induction cs as [|[tid c] cs IH]; intros ps B s; simpl.
  - intros [= _ <- <-]. constructor.
  - destruct (roomyb s && validb B (c ps)) eqn:Hok; [|done].
    apply andb_true_iff in Hok as [Hroom%roomyb_spec Hv%validb_spec].
    intros H. apply res_bind_Ok in H as ([p s1] & Hrun & H). eapply later_call; [done..|]. by eapply IH.
Qed.

(** A script run from the first initialisation. *)
Lemma script_reach cs (f : list Z * gmap Z Z → machine → bool) :
  run_check f (play cs [] ∅ ready_machine) = true →
  ∃ ps B s, reach s B ∧ f (ps, B) s = true.
Proof.
  intros ([ps B] & s & Hrun & Hf)%run_check_true. exists ps, B, s. split; [|done].
  eapply later_reach; [by eapply play_later|]. apply reach_init, malloc_init_boot.
Qed.

End Script.
