(* ===== verification/Relief.v ===== *)
(** * Memory pressure (src/zone.c: [zone_pressure_relief])

    The callback offers every empty data page of the listed segments to the
    kernel.  It keeps all live blocks, but an empty page still holds the links
    of its free list, and a kernel that discards the page cuts the list. *)
From S2P Require Import Prelude Config Mem Atomic SizeClass Types Os DemoEnv Page Registry Segment Debug Tld Arena Large Slab Init Malloc Zone Heap HeapOps CtlOps ArenaCorrect SlabCorrect InitCorrect SlabSpec LargeCorrect Threads MallocCorrect ExitCorrect MallocSpec Script.
Import SizeClass Registry.

Section Relief.
Context `{E : Env}.
Implicit Types (s : machine) (L : live_map) (m : mem).

(** The pages that are offered, and the memory after offering one. *)
Definition idle_page (p : page_meta_t) : bool := bool_decide (pm_state p = PAGE_ACTIVE) && page_is_empty p.

Definition offer s m (r : page_ref) : mem :=
  match lookup_page s r with
  | Some p => if idle_page p then madvise_mem m (page_start p) PAGE_SIZE_ALLOC else m
  | None => m
  end.

(** The data pages of a segment; the segments on the list of an arena. *)
Definition data_pages (b : Z) : list page_ref := (λ j, (b, j)) <$> seq 1 63.

Definition listed s (b : Z) : Prop :=
  ∃ i a l, Z.of_nat i < g_arena_count (mc_g s) ∧ g_arenas (mc_g s) !! i = Some a ∧
    chain (seg_next s) (ptr_opt (ar_segments a)) l ∧ b ∈ l.

Definition with_mem m s : machine := s <| mc_mem := m |>.

(** ** The loops *)
Lemma relieve_page_run s L r p m rel :
  slab_inv s L → lookup_page s r = Some p →
  ∃ rel', relieve_page r (with_mem m s, rel) = Ok (with_mem (offer s m r) s, rel').
Proof.
  intros Hs Hp. destruct (slab_page s L r p Hs Hp) as (_ & _ & Hpl & _ & _).
  pose proof (slab_page_start s L r p Hs Hp) as Hst.
  unfold relieve_page, offer. change (lookup_page (with_mem m s) r) with (lookup_page s r). rewrite Hp.
  cbn [deref mbind res_bind]. fold (idle_page p). destruct (idle_page p); [|by eexists].
  unfold os_madvise_free. destruct (Z.eqb_spec (page_start p) 0) as [E0|_]; [|by eexists].
  destruct Hpl as (H0 & Hb & _). unfold page_addr in Hst. config. lia.
Qed.

Lemma relieve_pages_run b sg n i s L m rel :
  slab_inv s L → mc_segs s !! b = Some sg → (i + n ≤ 64)%nat →
  ∃ rel', relieve_pages b n i (with_mem m s, rel) =
    Ok (with_mem (foldl (offer s) m ((λ j, (b, j)) <$> seq i n)) s, rel').
Proof.
  intros Hs Hsg. revert i m rel. induction n as [|n IH]; intros i m rel Hn; cbn [relieve_pages seq fmap list_fmap foldl]; [by eexists|].
  destruct (lookup_lt_is_Some_2 (sg_pages sg) i) as [p Hp]; [rewrite (si_pages _ _ Hs _ _ Hsg); lia|].
  destruct (relieve_page_run s L (b, i) p m rel Hs) as (rel1 & ->); [apply lookup_page_Some; eauto|].
  cbn [mbind res_bind]. apply IH. lia.
Qed.

Lemma relieve_segments_run fuel seg l s L m rel :
  slab_inv s L → chain (seg_next s) (ptr_opt seg) l → (length l ≤ fuel)%nat →
  ∃ rel', relieve_segments fuel seg (with_mem m s, rel) =
    Ok (with_mem (foldl (offer s) m (l ≫= data_pages)) s, rel').
Proof.
  intros Hs. revert fuel seg m rel. induction l as [|b l IH]; intros fuel seg m rel Hl Hlen.
  { simpl in Hl. unfold ptr_opt in Hl. destruct (Z.eqb_spec seg 0) as [E0|]; [|done]. rewrite E0.
    exists rel. by destruct fuel. }
  destruct Hl as (Hh & n & Hn & Hl). unfold ptr_opt in Hh.
  destruct (Z.eqb_spec seg 0) as [|H0]; [done|]. assert (seg = b) as -> by congruence.
  destruct fuel as [|fuel]; simpl in Hlen; [lia|].
  unfold seg_next, seg_link in Hn. destruct (mc_segs s !! b) as [sg|] eqn:Hsg; [|done].
  injection Hn as <-. cbn [relieve_segments]. destruct (Z.eqb_spec b 0); [done|].
  change (Z.to_nat (PAGES_PER_SEGMENT - PAGES_DATA_START)) with 63%nat. change (Z.to_nat PAGES_DATA_START) with 1%nat.
  destruct (relieve_pages_run b sg 63 1 s L m rel Hs Hsg) as (rel1 & ->); [lia|]. fold (data_pages b). cbn [mbind res_bind fst].
  change (mc_segs (with_mem ?m s) !! b) with (mc_segs s !! b). rewrite Hsg. cbn [deref mbind res_bind].
  destruct (IH fuel (sg_next sg) (foldl (offer s) m (data_pages b)) rel1) as (rel2 & Hrun); [done|lia|].
  exists rel2. rewrite Hrun. cbn [mbind list_bind]. by rewrite foldl_app.
Qed.

Lemma unlock_locked i a s m :
  g_arenas (mc_g s) !! i = Some a → ar_lock a = false →
  unlock_arena i (with_mem m (upd_arena i (λ a, a <| ar_lock := true |>) s)) = with_mem m s.
Proof.
  intros Ha Hl. destruct s as [g]. destruct g. unfold unlock_arena, upd_arena, upd_g, with_mem. simpl in *.
  do 2 f_equal. apply list_eq. intros j. destruct (decide (i = j)) as [<-|Hne].
  - rewrite !list_lookup_alter_eq, Ha. simpl. f_equal. destruct a. simpl in *. by rewrite Hl.
  - by rewrite !list_lookup_alter_ne.
Qed.

(** The chain from a node is determined. *)
Lemma chain_fun {K} (next : K → option (option K)) h l l' : chain next h l → chain next h l' → l = l'.
Proof.
  revert h l'. induction l as [|k l IH]; intros h [|k' l']; simpl; [done|naive_solver..|].
  intros (-> & n & Hn & Hl) (Heq & n' & Hn' & Hl'). simplify_eq. f_equal. by eapply IH.
Qed.

Lemma relieve_arenas_run n i s L m rel :
  heap_inv s L → (n + i ≤ 4)%nat →
  ∃ refs rel', relieve_arenas n i (with_mem m s, rel) = Ok (with_mem (foldl (offer s) m refs) s, rel') ∧
    ∀ j a l b k, (i ≤ j < i + n)%nat → g_arenas (mc_g s) !! j = Some a →
      chain (seg_next s) (ptr_opt (ar_segments a)) l → b ∈ l → (1 ≤ k < 64)%nat → (b, k) ∈ refs.
Proof.
  intros [Hs Hc Hun]. revert i m rel. induction n as [|n IH]; intros i m rel Hn.
  { exists [], rel. split; [done|]. lia. }
  destruct (arena_lookup s i Hc ltac:(lia)) as [a Ha].
  assert (ar_lock a = false) as Hfree.
  { apply (Hun i). unfold locks. by rewrite list_lookup_fmap, Ha. }
  destruct (ci_arena _ Hc i (ar_bins a) (ar_segments a)) as [_ _ (l & Hl & Hnd & Hseg)].
  { unfold arena_link. by rewrite Ha. }
  set (s0 := upd_arena i (λ a, a <| ar_lock := true |>) s).
  destruct (lock_quiet s L i true Hs Hc) as [[Hs0 _ _ _] _]. fold s0 in Hs0.
  assert (g_arenas (mc_g (with_mem m s0)) !! i = Some (a <| ar_lock := true |>)) as Ha0.
  { unfold with_mem, s0, upd_arena. simpl. by rewrite list_lookup_alter_eq, Ha. }
  destruct (relieve_segments_run (size (mc_segs s)) (ar_segments a) l s0 L m rel Hs0 Hl) as (rel1 & Hrun).
  { apply segs_length; [done|]. intros b Hb. destruct (Hseg b Hb) as [x Hx]. unfold seg_link in Hx.
    destruct (mc_segs s !! b); [eauto|done]. }
  change (offer s0) with (offer s) in Hrun. set (m1 := foldl (offer s) m (l ≫= data_pages)) in *.
  destruct (IH (S i) m1 rel1) as (refs & rel2 & Hrest & Hin); [lia|].
  exists ((l ≫= data_pages) ++ refs), rel2. split.
  - cbn [relieve_arenas fst snd]. rewrite (locks_lock (with_mem m s) i a Ha Hfree). cbn [mbind res_bind].
    change (upd_arena i (λ a, a <| ar_lock := true |>) (with_mem m s)) with (with_mem m s0). rewrite Ha0.
    cbn [deref mbind res_bind]. change (mc_segs (with_mem m s0)) with (mc_segs s).
    change (ar_segments (a <| ar_lock := true |>)) with (ar_segments a). rewrite Hrun. cbn [mbind res_bind].
    unfold s0. rewrite (unlock_locked i a s m1 Ha Hfree), Hrest, foldl_app. done.
  - intros j a' l' b k Hj Ha' Hl' Hb Hk. apply elem_of_app. destruct (decide (j = i)) as [->|Hne].
    + left. assert (a' = a) as -> by congruence. assert (l' = l) as -> by (by eapply chain_fun).
      apply list_elem_of_bind. exists b. split; [|done]. apply list_elem_of_fmap. exists k. split; [done|].
      apply elem_of_seq. lia.
    + right. apply (Hin j a' l' b k); [lia|done..].
Qed.

Context {EL : EnvLaws E}.

(** ** What becomes of the memory *)
Lemma offers_bytes s m refs b :
  load8 (foldl (offer s) m refs) b = load8 m b ∨
  load8 (foldl (offer s) m refs) b = 0 ∧
    ∃ r p, lookup_page s r = Some p ∧ idle_page p = true ∧ in_range b (page_start p) PAGE_SIZE_ALLOC.
Proof.
  revert m. induction refs as [|r refs IH]; intros m; simpl; [by left|].
  destruct (IH (offer s m r)) as [Heq|[Heq Hr]]; [|by right]. rewrite Heq. unfold offer.
  destruct (lookup_page s r) as [p|] eqn:Hp; [|by left]. destruct (idle_page p) eqn:Hi; [|by left].
  destruct (madvise_mem_spec m (page_start p) PAGE_SIZE_ALLOC b) as [|[? ?]]; [by left|right]. split; [done|eauto].
Qed.

(** A kernel that discards what it is offered at once. *)
Definition discards : Prop := ∀ m lo len a, in_range a lo len → load8 (madvise_mem m lo len) a = 0.

Lemma offers_zero s m refs r p b :
  discards → r ∈ refs → lookup_page s r = Some p → idle_page p = true →
  in_range b (page_start p) PAGE_SIZE_ALLOC → load8 (foldl (offer s) m refs) b = 0.
Proof.
  intros Hdis Hr Hp Hi Hb. revert m. induction refs as [|r' refs IH]; intros m; [set_solver|]. simpl.
  apply elem_of_cons in Hr as [<-|Hr]; [|by apply IH].
  destruct (offers_bytes s (offer s m r) refs b) as [->|[-> _]]; [|done]. unfold offer. rewrite Hp, Hi. by apply Hdis.
Qed.

Lemma idle_page_spec s L r p :
  slab_inv s L → lookup_page s r = Some p → idle_page p = true →
  pm_state p = PAGE_ACTIVE ∧ (0 < r.2 < 64)%nat ∧ page_start p = page_addr r.1 (Z.of_nat r.2) ∧ L !! r = Some [] ∧
  ∃ lf rf, page_inv (mc_mem s) p lf rf [].
Proof.
  intros Hs Hp [Hst%bool_decide_eq_true_1 He]%andb_true_iff. pose proof (slab_page_start s L r p Hs Hp) as Hps.
  destruct (slab_active s L r p Hs Hp Hst)
    as (sg & live & _ & _ & Hlt & _ & _ & HL & (_ & _ & _ & _ & _ & lf & rf & Hi)).
  unfold page_is_empty in He. apply andb_true_iff in He as [Hu%Z.eqb_eq _].
  rewrite (pi_used _ _ _ _ _ Hi) in Hu. destruct live; [|done]. split_and!; try done; try lia. eauto.
Qed.

Lemma offers_keep_blocks s L refs a n b :
  slab_inv s L → block s L a n → in_range b a n → load8 (foldl (offer s) (mc_mem s) refs) b = load8 (mc_mem s) b.
Proof.
  intros Hs Hbl Hb. destruct (offers_bytes s (mc_mem s) refs b) as [|[_ (r & p & Hp & Hi & Hin)]]; [done|exfalso].
  destruct (idle_page_spec s L r p Hs Hp Hi) as (_ & Hlt & Hps & HL & _). rewrite Hps in Hin.
  destruct (slab_page s L r p Hs Hp) as (_ & _ & Hpl & _).
  destruct (block_place s L a n Hs Hbl) as (r' & p' & live & HL' & _ & Ha & _ & _ & Hpl' & Hlt' & _ & Hlo & Hhi & _).
  assert (r = r') as ->; [|rewrite HL in HL'; injection HL' as <-; set_solver].
  apply (page_addr_unique r r' b); try done; [lia|lia|]. unfold in_range in *. lia.
Qed.

(** C39: memory pressure keeps every live block.  But the pages it offers to the
    kernel hold the links of their free lists.  Once the kernel has discarded
    them, the free list of every empty page on the segment lists is cut after
    its first slot: the next allocation from the page takes that slot and
    leaves an empty list, where it used to leave the second slot, and the
    page's counter still counts the slots that are lost. *)
Theorem pressure_relief_loses_slots s L :
  heap_inv s L → discards →
  ∃ m' released, zone_pressure_relief s = Ok (s <| mc_mem := m' |>, released) ∧
    (∀ a n b, block s L a n → in_range b a n → load8 m' b = load8 (mc_mem s) b) ∧
    ∀ r p a1 a2 lf, listed s r.1 → lookup_page s r = Some p → pm_state p = PAGE_ACTIVE → page_is_empty p = true →
      is_list (mc_mem s) (pm_local_free p) (a1 :: a2 :: lf) →
      (∃ p1, page_alloc_slot (mc_mem s) p = Ok (a1, mc_mem s, p1) ∧ pm_local_free p1 = a2) ∧
      (∃ p2, page_alloc_slot m' p = Ok (a1, m', p2) ∧ pm_local_free p2 = 0 ∧
        pm_local_free_count p2 = Z.of_nat (length (a2 :: lf))).
Proof.
  intros Hh Hdis. pose proof Hh as [Hs Hc Hun].
  destruct (relieve_arenas_run 4 0 s L (mc_mem s) 0 Hh ltac:(lia)) as (refs & rel & Hrun & Hin).
  exists (foldl (offer s) (mc_mem s) refs), rel. split_and!.
  - unfold zone_pressure_relief. rewrite (ci_count _ Hc).
    assert (with_mem (mc_mem s) s = s) as Heq by (by destruct s). rewrite Heq in Hrun. exact Hrun.
  - intros a n b Hbl Hb. by eapply offers_keep_blocks.
  - intros r p a1 a2 lf (i & a & l & Hi & Ha & Hl & Hr) Hp Hst He (Hh1 & H01 & Hh2 & H02 & Hrest).
    assert (idle_page p = true) as Hidle by (unfold idle_page; by rewrite bool_decide_eq_true_2, He).
    destruct (idle_page_spec s L r p Hs Hp Hidle) as (_ & Hlt & _ & _ & lf' & rf & Hpi).
    assert (lf' = a1 :: a2 :: lf) as ->.
    { eapply is_list_fun; [apply (pi_local _ _ _ _ _ Hpi)|]. simpl. by rewrite Hh1. }
    rewrite (ci_count _ Hc) in Hi. assert (r ∈ refs) as Href.
    { destruct r as [b k]. apply (Hin i a l b k); [lia|done|done|done|simpl in *; lia]. }
    unfold page_alloc_slot, pop_local_free. rewrite Hh1. destruct (Z.eqb_spec a1 0); [done|]. cbn [negb].
    assert (load64 (foldl (offer s) (mc_mem s) refs) a1 = 0) as Hz.
    { transitivity (load64 ∅ a1); [|reflexivity]. apply load64_ext. intros b Hb.
      rewrite (offers_zero s _ refs r p b Hdis Href Hp Hidle); [unfold load8; by rewrite lookup_empty|].
      assert (a1 ∈ touched p) as Ht by (apply (page_inv_touched _ _ _ _ _ Hpi); set_solver).
      pose proof (touched_in_page p ltac:(apply Hpi) a1 Ht). pose proof (pg_slot p ltac:(apply Hpi)).
      unfold in_range. lia. }
    split; eexists; (split; [done|]); simpl; [by rewrite Hh2|]. rewrite Hz. split; [done|].
    pose proof (page_inv_bounds _ _ _ _ _ Hpi) as (_ & Hbd & _). rewrite (pi_local_count _ _ _ _ _ Hpi) in *.
    simpl length in *. rewrite u16_small by lia. lia.
Qed.

End Relief.

(** ** A run *)

(** Two slots taken and freed again by their owner. *)
Definition two_freed : script :=
  [(1, λ _, CMalloc 64); (1, λ _, CMalloc 64); (1, λ ps, CFree (nth 1 ps 0)); (1, λ ps, CFree (nth 1 ps 0))].

(** Their page is idle, on the list of the first arena, and links them. *)
Definition two_linked (x : list Z * gmap Z Z) (s : machine) : bool :=
  let q := nth 2 x.1 0 in let p := nth 3 x.1 0 in
  match ptr_to_page s q with
  | Some r =>
      match lookup_page s r, g_arenas (mc_g s) !! 0%nat, mc_segs s !! r.1 with
      | Some pg, Some a, Some sg =>
          bool_decide (pm_state pg = PAGE_ACTIVE) && page_is_empty pg && (pm_local_free pg =? q) &&
          negb (q =? 0) && (load64 (mc_mem s) q =? p) && negb (p =? 0) && (load64 (mc_mem s) p =? 0) &&
          (ar_segments a =? r.1) && negb (r.1 =? 0) && (sg_next sg =? 0) && (0 <? g_arena_count (mc_g s))
      | _, _, _ => false
      end
  | None => false
  end.

Lemma two_linked_spec x s :
  two_linked x s = true →
  ∃ r p a1 a2, listed s r.1 ∧ lookup_page s r = Some p ∧ pm_state p = PAGE_ACTIVE ∧ page_is_empty p = true ∧
    is_list (mc_mem s) (pm_local_free p) [a1; a2].
Proof.
  unfold two_linked. cbv zeta. destruct (ptr_to_page s _) as [r|]; [|done].
  destruct (lookup_page s r) as [p|] eqn:Hp; [|done]. destruct (g_arenas (mc_g s) !! 0%nat) as [a|] eqn:Ha; [|done].
  destruct (mc_segs s !! r.1) as [sg|] eqn:Hsg; [|done]. rewrite !andb_true_iff, !negb_true_iff, !Z.eqb_eq, !Z.eqb_neq, Z.ltb_lt.
  intros ((((((((((Hst%bool_decide_eq_true_1 & He) & H1) & H2) & H3) & H4) & H5) & H6) & H7) & H8) & H9).
  exists r, p, (nth 2 x.1 0), (nth 3 x.1 0). split_and!; [|done|done|done|simpl; by rewrite H1, H3, H5].
  exists 0%nat, a, [r.1]. split_and!; [simpl; lia|done| |set_solver]. unfold ptr_opt. rewrite H6.
  destruct (Z.eqb_spec r.1 0); [done|]. split; [done|]. exists None. split; [|done].
  unfold seg_next, seg_link. rewrite Hsg. simpl. by rewrite H8.
Qed.

Lemma demo_discards debug : @discards (demo_env debug).
Proof. intros m lo len a Ha. simpl. rewrite load8_zero_range. by rewrite decide_True. Qed.

Lemma pressure_relief_loses_slots_witness :
  ∃ s r p a1 a2 m' released p2, lookup_page s r = Some p ∧ is_list (mc_mem s) (pm_local_free p) [a1; a2] ∧
    @zone_pressure_relief (demo_env true) s = Ok (s <| mc_mem := m' |>, released) ∧
    page_alloc_slot m' p = Ok (a1, m', p2) ∧ pm_local_free p2 = 0 ∧ pm_local_free_count p2 = 1.
Proof.
  destruct (@script_reach (demo_env true) two_freed two_linked) as (ps & B & s & Hr & Hf); [vm_compute; reflexivity|].
  destruct (@reach_represents (demo_env true) (demo_laws true) s B Hr) as [(L & G & l & [Hh _] & _) _].
  destruct (two_linked_spec _ _ Hf) as (r & p & a1 & a2 & Hlist & Hp & Hst & He & Hl).
  destruct (@pressure_relief_loses_slots (demo_env true) (demo_laws true) s L Hh (demo_discards true))
    as (m' & rel & Hrun & _ & Hcut).
  destruct (Hcut r p a1 a2 [] Hlist Hp Hst He Hl) as (_ & p2 & H1 & H2 & H3).
  exists s, r, p, a1, a2, m', rel, p2. split_and!; done.
Defined.

(** The debug heap check, which passes before, notices. *)
Example relief_fails_check :
  ('(_, _, s) ← @play (demo_env true) two_freed [] ∅ (@ready_machine (demo_env true));
   '(s', _) ← @zone_pressure_relief (demo_env true) s;
   '(ok, _) ← debug_heap_check s; '(ok', _) ← debug_heap_check s'; Ok (ok, ok')) = Ok (true, false).
Proof. vm_compute. reflexivity. Qed.
