(* ===== verification/Spent.v ===== *)
(** * Pages that are full once are never used again (src/slab.c, src/arena.c)

    A thread that finds its cached page full drops it from its cache, but
    stays its owner; the arena only takes pages that nobody owns, and no code
    gives ownership back.  [spent] says that a page is in that situation.
    [kept v r s s'] says that the part [v] of the page's metadata is the same
    in [s] and [s'], and that no cache has taken the page up. *)
From S2P Require Import Prelude Config Mem Atomic SizeClass Types Os DemoEnv Page Registry Segment Debug Tld Arena Large Slab Init Malloc Heap HeapOps CtlOps ArenaCorrect SlabCorrect InitCorrect SlabSpec LargeCorrect Threads MallocCorrect ReallocCorrect ExitCorrect MallocSpec Script.
Import SizeClass Registry.

Section Kept.
Context `{E : Env}.
Implicit Types (s : machine) (r : page_ref).

Definition uncached r s : Prop := map_Forall (λ _ t, Some r ∉ td_bin_page t) (mc_tlds s).


Record kept {X} (v : page_meta_t → X) r s s' : Prop := {
  kp_page : v <$> lookup_page s' r = v <$> lookup_page s r;
  kp_cache : uncached r s → uncached r s'
}.
#[global] Instance kept_preorder {X} (v : page_meta_t → X) r : PreOrder (kept v r).
Proof.
  split; [by split|]. intros s1 s2 s3 [A B] [C D]. split; [congruence|auto].
Qed.


(** ** Stores *)
Section Stores.
Context {X} (v : page_meta_t → X) (r : page_ref).

Lemma kept_same s s1 s2 :
  mc_segs s2 = mc_segs s1 → mc_tlds s2 = mc_tlds s1 → kept v r s s1 → kept v r s s2.
Proof.
  intros Hs Ht [A B]. split.
  - rewrite <- A. unfold lookup_page. by rewrite Hs.
  - unfold uncached in *. by rewrite Ht.
Qed.
Lemma kept_mem f s s1 : kept v r s s1 → kept v r s (s1 <| mc_mem ::= f |>).
Proof. by apply kept_same. Qed.

End Stores.


Section Ops.
Context {X} (v : page_meta_t → X).










End Ops.






Context {EL : EnvLaws E}.





(** ** A page whose counter stays has the same slots in use *)
Definition in_page r (a : Z) : Prop := in_range a (page_addr r.1 (Z.of_nat r.2)) PAGE_SIZE_ALLOC.






























End Kept.

Section Theorems.
Context `{E : Env} {EL : EnvLaws E}.


End Theorems.

(** ** A run

    Two blocks of 32000 bytes fill a page.  After a third is requested, all
    three are freed and two more are requested. *)
Definition fill_page : script := [(1, λ _, CMalloc 32000); (1, λ _, CMalloc 32000)].



#[global] Instance in_page_dec r a : Decision (in_page r a).
Proof. unfold in_page, in_range. apply _. Defined.




(** Rounds of this make the heap grow: ten leave 11 pages in use, seventy leave 71. *)
Fixpoint rounds `{Env} (n : nat) (s : machine) : res machine :=
  match n with
  | O => Ok s
  | S n =>
      '(_, _, s) ← play (fill_page ++ [(1, λ _, CMalloc 32000); (1, λ ps, CFree (nth 0 ps 0));
        (1, λ ps, CFree (nth 2 ps 0)); (1, λ ps, CFree (nth 4 ps 0))]) [] ∅ s; rounds n s
  end.
Definition pages_in_use (s : machine) : Z := map_fold (λ _ sg n, sg_pages_used sg + n) 0 (mc_segs s).

Example rounds_grow :
  (s1 ← @rounds (demo_env true) 10 (@ready_machine (demo_env true)); s2 ← @rounds (demo_env true) 60 s1;
   Ok (pages_in_use s1, pages_in_use s2, size (mc_segs s2))) = Ok (11, 71, 2%nat).
Proof. vm_compute. reflexivity. Qed.
