(* ===== verification/Edges.v ===== *)
(** * Behaviour at the edges

    Where the allocator departs from what its comments, its design document or
    the C standard promise: general statements, next to runs on the concrete
    environment of DemoEnv.v that show that it happens. *)
From S2P Require Import Prelude Config Mem Atomic SizeClass Types Os DemoEnv Page Registry Segment Debug Tld Arena Large Slab Init Malloc Zone Heap HeapOps CtlOps ArenaCorrect SlabCorrect InitCorrect SlabSpec LargeCorrect Steady Threads MallocCorrect ReallocCorrect ExitCorrect MallocSpec AlignCorrect Script.
Import SizeClass.

(** ** Sizes near SIZE_MAX *)
Section Overflow.
Context `{E : Env} {EL : EnvLaws E}.

(** Header space plus such a size wraps around 2^64 to less than a page. *)
Lemma large_total_wraps size :
  SIZE_MAX - 46 ≤ size ≤ SIZE_MAX → large_total size MIN_ALIGN = getpagesize.
Proof.
  intros Hs. unfold large_total, os_page_size.
  change (large_header_space MIN_ALIGN) with 48. unfold SIZE_MAX in Hs.
  assert (u64 (48 + size) = 48 + size - 2 ^ 64) as ->.
  { unfold u64. symmetry. apply (Z.mod_unique _ _ 1); lia. }
  destruct getpagesize_pow2 as (k & Hk & ->).
  assert (2 ^ 12 ≤ 2 ^ k ≤ 2 ^ 16) by (split; apply Z.pow_le_mono_r; lia).
  rewrite align_up_pow2 by lia.
  rewrite <- (Z.div_unique (48 + size - 2 ^ 64 + 2 ^ k - 1) (2 ^ k) 1 (48 + size - 2 ^ 64 - 1)); lia.
Qed.

(** C35: [malloc] of one of the 47 largest sizes does not fail: the size plus
    the header wraps around, a single page is mapped, and the caller gets a
    pointer into it for a block recorded as almost 2^64 bytes long. *)
Theorem huge_malloc_wraps tid size s base :
  g_initialized (mc_g s) = 2 → g_large_lock (mc_g s) = false →
  SIZE_MAX - 46 ≤ size ≤ SIZE_MAX → mmap_choose (mc_mapped s) getpagesize = Some base →
  ∃ s' e, my_malloc tid size s = Ok (base + 48, s') ∧ mc_larges s' !! base = Some e ∧
    la_size e = getpagesize ∧ la_user_size e = size.
Proof.
  intros Hi Hl Hs Hm. destruct (mmap_choose_spec _ _ _ Hm) as (_ & H0 & _ & Hmax & _).
  pose proof getpagesize_pos as Hpg. pose proof (whole_pages_ge getpagesize).
  unfold my_malloc, malloc_ensure_init. rewrite Hi. cbn [Z.eqb Pos.eqb negb mbind res_bind].
  unfold SIZE_MAX in Hs. destruct (Z.eqb_spec size 0); [lia|].
  destruct (Z.ltb_spec MEDIUM_MAX size); [|config; lia].
  unfold large_alloc, large_alloc_aligned. cbn [Z.ltb Z.compare].
  change (MIN_ALIGN <? MIN_ALIGN) with false. cbv iota zeta.
  rewrite large_total_wraps by done. change (large_header_space MIN_ALIGN) with 48.
  unfold os_page_size, os_mmap_aligned, sys_mmap.
  assert (MIN_ALIGN <? getpagesize = true) as ->.
  { apply Z.ltb_lt. destruct getpagesize_pow2 as (k & Hk & ->). config.
    assert (2 ^ 12 ≤ 2 ^ k) by (apply Z.pow_le_mono_r; lia). lia. }
  rewrite Z.leb_refl, Hm. cbv iota zeta beta.
  destruct (Z.eqb_spec base 0); [lia|]. unfold lock_large. simpl. rewrite Hl. simpl.
  rewrite u64_small by lia. unfold large_link. simpl.
  destruct (Z.eqb_spec (g_large_list (mc_g s)) 0) as [Hz|Hz]; simpl.
  - eexists _, _. split; [done|]. simpl. rewrite lookup_alter_eq, lookup_insert_eq. by split_and!.
  - destruct (decide (g_large_list (mc_g s) = base)) as [->|Hne]; eexists _, _; (split; [done|]); simpl.
    + rewrite !lookup_alter_eq, lookup_insert_eq. by split_and!.
    + rewrite lookup_alter_ne, lookup_alter_eq, lookup_insert_eq by done. by split_and!.
Qed.

End Overflow.

(** ** Alignment on the slab path *)
Section Misaligned.
Context `{E : Env} {EL : EnvLaws E}.
Implicit Types (s : machine) (B : gmap Z Z).

(** A large allocation without an alignment of its own starts 48 bytes into a
    page. *)
Lemma large_alloc_offset n s L G l p s' :
  malloc_inv s L G l → 1 ≤ n ≤ MEDIUM_MAX → large_alloc n s = Ok (p, s') → p ≠ 0 → p mod 32 = 16.
Proof.
  intros [[Hs Hc _] Hl] Hn Hrun H0. unfold large_alloc in Hrun. change MIN_ALIGN with (2 ^ 4) in Hrun. config.
  destruct (large_sizes n 4 ltac:(lia) ltac:(lia) ltac:(lia)) as (_ & _ & _ & [Htot _] & _). cbv zeta in Htot.
  change (large_header_space (2 ^ 4)) with 48 in Htot.
  destruct (large_alloc_core n 4 48 s L G l)
    as [[Hrun' _]|(base & s2 & Hrun' & _ & _ & _ & _ & Hpg & _)]; try done; try lia; [by exists 3|congruence|].
  rewrite Hrun in Hrun'. injection Hrun' as -> _. change (large_header_space (2 ^ 4)) with 48.
  destruct getpagesize_pow2 as (j & Hj & Hp). rewrite Hp in Hpg.
  destruct (pow2_divide 5 j base ltac:(lia) Hpg) as [q ->]. change (2 ^ 5) with 32.
  rewrite Z.add_comm, Z.mod_add by lia. done.
Qed.

(** The size [my_memalign] asks the slab for. *)
Definition memalign_size (k size : Z) : Z := align_up (Z.max size (2 ^ k)) (2 ^ k).

Lemma memalign_size_range k size :
  5 ≤ k ≤ 16 → 0 ≤ size ≤ MEDIUM_MAX → 1 ≤ memalign_size k size ≤ MEDIUM_MAX.
Proof.
  intros Hk Hs. unfold memalign_size. pose proof (Z.pow_pos_nonneg 2 k ltac:(lia) ltac:(lia)).
  assert (2 ^ k ≤ 2 ^ 16) by (apply Z.pow_le_mono_r; lia). config. set (n := Z.max size (2 ^ k)).
  pose proof (align_up_bounds n k ltac:(lia) ltac:(lia) ltac:(lia)).
  pose proof (align_up_divide n k ltac:(lia) ltac:(lia) ltac:(lia)).
  split; [lia|]. apply (pow2_multiple_le n _ k 17); lia || done.
Qed.

Lemma memalign_slab tid k size s :
  malloc_is_initialized s = true → 5 ≤ k ≤ 16 → 0 ≤ size ≤ MEDIUM_MAX →
  my_memalign tid (2 ^ k) size s = slab_alloc tid (memalign_size k size) s.
Proof.
  intros Hi Hk Hs. unfold malloc_is_initialized in Hi. pose proof (Z.pow_pos_nonneg 2 k ltac:(lia) ltac:(lia)).
  assert (2 ^ 5 ≤ 2 ^ k ≤ 2 ^ 16) by (split; apply Z.pow_le_mono_r; lia).
  unfold my_memalign, malloc_ensure_init. rewrite Hi. cbn [negb mbind res_bind].
  destruct (Z.eqb_spec (2 ^ k) 0); [lia|]. rewrite pow2_land by lia. cbn [orb negb Z.eqb].
  destruct (Z.leb_spec (2 ^ k) MIN_ALIGN); [config; lia|].
  destruct (Z.ltb_spec MEDIUM_MAX size); [lia|]. destruct (Z.ltb_spec PAGE_SIZE_ALLOC (2 ^ k)); [config; lia|].
  cbn [orb]. replace (if size <? 2 ^ k then 2 ^ k else size) with (Z.max size (2 ^ k))
    by (destruct (Z.ltb_spec size (2 ^ k)); lia).
  fold (memalign_size k size). destruct (memalign_size_range k size Hk Hs).
  by destruct (Z.ltb_spec MEDIUM_MAX (memalign_size k size)); [lia|].
Qed.

(** Rounded sizes no page serves lose the alignment. *)
Lemma memalign_loses_alignment tid k size s B p s' :
  represents s B → malloc_is_initialized s = true → 5 ≤ k ≤ 16 → 0 ≤ size ≤ MEDIUM_MAX →
  SLAB_MAX < memalign_size k size → my_memalign tid (2 ^ k) size s = Ok (p, s') → p ≠ 0 → ¬ (2 ^ k | p).
Proof.
  intros (L & G & l & Hinv & _) Hi Hk Hs Hn Hrun H0 Hd. rewrite memalign_slab in Hrun by done.
  destruct (memalign_size_range k size Hk Hs) as [Hn1 Hn2]. set (n := memalign_size k size) in *. clearbody n.
  unfold slab_alloc in Hrun. apply res_bind_Ok in Hrun as ([[q z] s2] & Hrun & Hret). injection Hret as <- <-.
  unfold slab_alloc_inner in Hrun. destruct (Z.eqb_spec n 0); [lia|].
  destruct (Z.ltb_spec MEDIUM_MAX n); [lia|]. rewrite (si_tables _ _ (hi_slab _ _ (proj1 Hinv))) in Hrun.
  destruct (Z.ltb_spec (PAGE_SIZE_ALLOC / 2) (bin_to_size the_tables (size_to_bin the_tables n))) as [_|Hle].
  2: { apply slab_serves in Hle; lia. }
  apply res_bind_Ok in Hrun as ([q2 s3] & Hrun & Hret). injection Hret as -> _ _.
  pose proof (large_alloc_offset n s L G l q s3 Hinv ltac:(lia) Hrun H0) as Hmod.
  destruct (pow2_divide 5 k q ltac:(lia) Hd) as [c ->]. change (2 ^ 5) with 32 in Hmod.
  by rewrite Z.mod_mul in Hmod by lia.
Qed.

Lemma align_up_exact x k : 0 ≤ k → 0 ≤ x → x + 2 ^ k - 1 < 2 ^ 64 → (2 ^ k | x) → align_up x (2 ^ k) = x.
Proof.
  intros Hk Hx Hlim [q ->]. pose proof (Z.pow_pos_nonneg 2 k ltac:(lia) ltac:(lia)).
  rewrite align_up_pow2 by done. rewrite <- (Z.div_unique (q * 2 ^ k + 2 ^ k - 1) (2 ^ k) q (2 ^ k - 1)) by lia. lia.
Qed.

(** The sizes of an allocation of 0 bytes with a large alignment: the mapping
    ends where the block would start. *)
Lemma zero_sizes k :
  17 ≤ k ≤ 57 → large_header_space (2 ^ k) = 2 ^ k ∧ large_total 0 (2 ^ k) = 2 ^ k.
Proof.
  intros Hk. assert (2 ^ 17 ≤ 2 ^ k ≤ 2 ^ 57) by (split; apply Z.pow_le_mono_r; lia).
  assert (large_header_space (2 ^ k) = 2 ^ k) as Hh.
  { unfold large_header_space. change LARGE_HEADER_SIZE with 48. rewrite align_up_pow2 by lia.
    rewrite <- (Z.div_unique (48 + 2 ^ k - 1) (2 ^ k) 1 47) by lia. lia. }
  split; [done|]. unfold large_total. rewrite Hh, Z.add_0_r, u64_small by lia. unfold os_page_size.
  destruct getpagesize_pow2 as (j & Hj & ->). assert (2 ^ j ≤ 2 ^ 16) by (apply Z.pow_le_mono_r; lia).
  apply align_up_exact; [lia|lia|lia|].
  exists (2 ^ (k - j)). rewrite <- Z.pow_add_r by lia. f_equal. lia.
Qed.

End Misaligned.

(** ** Runs on the concrete environment *)
Module Runs.
#[local] Instance release : Env := demo_env false.
Definition start : machine := ready_machine.

(** Two allocations one after the other. *)
Definition twice (f : machine → res (Z * machine)) : res (Z * Z * machine) :=
  '(p, s) ← f start; '(q, s) ← f s; Ok (p, q, s).

Lemma twice_Ok f p q s' : twice f = Ok (p, q, s') → ∃ s, f start = Ok (p, s) ∧ f s = Ok (q, s').
Proof.
  intros H. apply res_bind_Ok in H as ([p' s] & H1 & H). apply res_bind_Ok in H as ([q' s2] & H2 & H).
  injection H as -> -> ->. eauto.
Qed.

(** Up to 16 KB the alignment may be lost too: 1024 bytes, or the alignment if
    that is more, take a slot whose size is no multiple of it. *)
Lemma memalign_slot k :
  5 ≤ k ≤ 14 → run_check (λ '(_, q) _, negb (q mod 2 ^ k =? 0)) (twice (my_memalign 1 (2 ^ k) 1024)) = true.
Proof.
  intros Hk.
  assert (k = 5 ∨ k = 6 ∨ k = 7 ∨ k = 8 ∨ k = 9 ∨ k = 10 ∨ k = 11 ∨ k = 12 ∨ k = 13 ∨ k = 14) as H by lia.
  repeat destruct H as [->|H]; [..|subst]; vm_compute; reflexivity.
Qed.

End Runs.

(** ** The theorems on alignment, zero sizes and counters *)
Section Theorems.
Context `{E : Env} {EL : EnvLaws E}.
Implicit Types (s : machine) (B : gmap Z Z).

(** C36: [memalign] does not deliver alignments between 32 bytes and 64 KB.  In
    every state, a block whose size rounded up to the alignment exceeds 32464
    bytes, as it does for alignments of 32 KB and 64 KB whatever the size, is
    never aligned: the slab hands it to the large path without its alignment.
    And for each alignment from 32 bytes to 16 KB there is a request whose second
    block is misaligned, because the slot size is no multiple of it. *)
Theorem memalign_misaligned :
  (∀ tid k size s B p s', represents s B → malloc_is_initialized s = true → 5 ≤ k ≤ 16 → 0 ≤ size ≤ MEDIUM_MAX →
    k = 15 ∨ k = 16 ∨ SLAB_MAX < memalign_size k size →
    my_memalign tid (2 ^ k) size s = Ok (p, s') → p ≠ 0 → ¬ (2 ^ k | p)) ∧
  (∀ k, 5 ≤ k ≤ 14 → ∃ size p q s s', @my_memalign (demo_env false) 1 (2 ^ k) size Runs.start = Ok (p, s) ∧
    @my_memalign (demo_env false) 1 (2 ^ k) size s = Ok (q, s') ∧ ¬ (2 ^ k | q)).
Proof.
  split.
  - intros tid k size s B p s' Hrep Hi Hk Hs Hn. apply (memalign_loses_alignment tid k size s B); try done.
    destruct Hn as [->|[->|?]]; [| |done];
      match goal with |- _ < memalign_size ?k _ =>
        pose proof (align_up_bounds (Z.max size (2 ^ k)) k) as Hb end;
      unfold memalign_size, SLAB_MAX; config; lia.
  - intros k Hk. destruct (run_check_true _ _ (Runs.memalign_slot k Hk)) as ([p q] & s' & Hv & Hq).
    apply negb_true_iff, Z.eqb_neq in Hq. destruct (Runs.twice_Ok _ p q s' Hv) as (s & H1 & H2). exists 1024, p, q, s, s'.
    split_and!; [done|done|]. intros Hd. apply Hq, Z.mod_divide; [|done].
    pose proof (Z.pow_pos_nonneg 2 k ltac:(lia) ltac:(lia)). lia.
Qed.

(** A pointer to the start of a large mapping frees it, whatever it was meant
    for. *)
Lemma free_mapping tid s B b e :
  represents s B → mc_larges s !! b = Some e →
  ∃ s', my_free tid b s = Ok s' ∧ (∀ x, is_mapped s' x ↔ is_mapped s x ∧ ¬ in_range x b (la_size e)) ∧
    (∀ c, c ≠ b → is_Some (mc_larges s !! c) → is_Some (mc_larges s' !! c)).
Proof.
  intros (L & G & l & [[Hs Hc _] Hl] & _) He. destruct (lv_each _ _ _ Hl b e He) as [_ A2 _ _ A5 A6 _].
  assert (in_range b b (la_size e)) as Hin by (unfold in_range; lia).
  unfold my_free. destruct (Z.eqb_spec b 0); [lia|].
  assert (in_bootstrap b = false) as ->.
  { apply not_true_is_false. unfold in_bootstrap. intros [?%Z.leb_le ?%Z.ltb_lt]%andb_true_iff.
    apply (A6 b Hin). unfold in_range. lia. }
  rewrite (ptr_to_segment_outside s L b); [|done|lia|by apply A5]. cbn [Z.eqb negb].
  destruct (large_free_run b b e s L G l) as (s' & l' & -> & _ & _ & Hv & Hm); try done.
  exists s'. split_and!; [done|done|]. intros c Hne [x Hx]. specialize (Hv c).
  rewrite decide_False, Hx in Hv by done. apply fmap_Some in Hv as (e' & -> & _). eauto.
Qed.

(** A live block that starts in a large mapping lies in it. *)
Lemma block_of_mapping s B b e q n :
  represents s B → mc_larges s !! b = Some e → B !! q = Some n → in_range q b (la_size e) →
  ∀ x, in_range x q n → in_range x b (la_size e).
Proof.
  intros (L & G & l & [[Hs Hc _] Hl] & HB) He Hq%HB Hin x Hx.
  destruct Hq as [Hq|Hq]; [destruct (lo_segs _ _ _ _ (lv_each _ _ _ Hl b e He) q Hin); by eapply block_start_in_segs|].
  destruct (lblock_in s G l q n Hl Hq) as (c & e' & He' & _ & _ & Hin' & _ & Hhi & _ & _).
  destruct (decide (c = b)) as [->|Hne].
  - assert (e' = e) as -> by congruence. unfold in_range in *. lia.
  - pose proof (lv_disjoint _ _ _ Hl _ _ _ _ He' He Hne). unfold disjoint_ranges, in_range in *. lia.
Qed.

(** C37: [memalign] of 0 bytes with an alignment above 64 KB returns, in every
    state, the address just behind the mapping it made.  Whenever another
    large block's mapping starts there, freeing the pointer unmaps that other
    mapping, with every byte of the live block in it, and keeps its own. *)
Theorem memalign_zero_frees_neighbour tid k s B :
  represents s B → malloc_is_initialized s = true → 17 ≤ k ≤ 57 →
  ∃ p s', my_memalign tid (2 ^ k) 0 s = Ok (p, s') ∧
    (p = 0 ∨ ∃ e, mc_larges s' !! (p - 2 ^ k) = Some e ∧ la_size e = 2 ^ k ∧
      represents s' (<[p - 2 ^ k + 48 := 0]> B) ∧
      ∀ tid2 s2 B2 e2, represents s2 B2 → is_Some (mc_larges s2 !! (p - 2 ^ k)) → mc_larges s2 !! p = Some e2 →
        ∃ s3, my_free tid2 p s2 = Ok s3 ∧ is_Some (mc_larges s3 !! (p - 2 ^ k)) ∧
          ∀ q n x, B2 !! q = Some n → in_range q p (la_size e2) → in_range x q n → ¬ is_mapped s3 x).
Proof.
  intros Hrep Hi Hk. pose proof Hrep as (L & G & l & Hinv & HB). pose proof Hinv as [[Hs Hc Hun] Hl].
  unfold malloc_is_initialized in Hi. assert (2 ^ 17 ≤ 2 ^ k ≤ 2 ^ 57) as Hpw by (split; apply Z.pow_le_mono_r; lia).
  unfold my_memalign, malloc_ensure_init. rewrite Hi. cbn [negb mbind res_bind].
  destruct (Z.eqb_spec (2 ^ k) 0) as [|_]; [lia|]. rewrite pow2_land by lia. cbn [orb negb Z.eqb].
  destruct (Z.leb_spec (2 ^ k) MIN_ALIGN) as [|_]; [config; lia|].
  destruct (Z.ltb_spec PAGE_SIZE_ALLOC (2 ^ k)) as [_|]; [|config; lia]. rewrite orb_true_r.
  destruct (zero_sizes k ltac:(lia)) as [Hhs Htot].
  destruct (large_alloc_core 0 k 48 s L G l)
    as [[-> _]|(base & s' & -> & Hbe & _ & Hb0 & _ & _ & Hnone & Hl' & Hv & Hfr)]; try done; try lia;
    [by exists 3|exists 0, s; split; [done|by left]|].
  rewrite Hhs, Htot in *. exists (base + 2 ^ k), s'. split; [done|right]. replace (base + 2 ^ k - 2 ^ k) with base by lia.
  pose proof (Hv base) as Hvb. rewrite lookup_insert_eq in Hvb. apply fmap_Some in Hvb as (e & He & Heq).
  injection Heq as _ Hsz _. exists e. split_and!; [done|done| |].
  - exists L, (<[base := base + 48]> G), (base :: l). split.
    { split; [|done]. split; [apply Hbe..|]. eapply unlocked_locks; [apply Hbe|done]. }
    intros a n. unfold hblock. rewrite (block_beside s L s') by done.
    rewrite (lblock_insert s s' G base (2 ^ k) 0 (base + 48)) by done. rewrite lookup_insert_Some, HB. unfold hblock.
    destruct (decide (base + 48 = a)) as [<-|]; [|naive_solver]. split; [naive_solver|].
    intros Ha. left. split; [done|]. destruct Ha as [Ha|[Ha|[_ ->]]]; [| |done];
      (destruct (Hfr (base + 48)) as [[] _]; [unfold in_range; lia|]); eapply hblock_start; try done; [by left|by right].
  - intros tid2 s2 B2 e2 Hrep2 [x Hx] He2.
    destruct (free_mapping tid2 s2 B2 (base + 2 ^ k) e2 Hrep2 He2) as (s3 & -> & Hm & Hother).
    exists s3. split_and!; [done|apply Hother; [lia|eauto]|]. intros q n y Hq Hin Hy Hmy.
    apply Hm in Hmy as [_ []]. by eapply block_of_mapping.
Qed.

(** What [large_free] does to the byte counter. *)
Lemma large_free_counter ptr s e s' :
  ptr ≠ 0 → large_find ptr s = Ok (Some e) → large_free ptr s = Ok s' →
  g_large_allocated (mc_g s') = sub64 (g_large_allocated (mc_g s)) (la_user_size e).
Proof.
  unfold large_find, large_free, lock_large. destruct (Z.eqb_spec ptr 0); [done|]. intros _.
  destruct (g_large_lock (mc_g s)); [done|]. cbn [mbind res_bind]. intros -> H. cbn [mbind res_bind] in H.
  injection H as <-. unfold os_munmap. destruct (_ && _); unfold large_unlink; cbv zeta;
    repeat (case_match; simpl); done.
Qed.

Lemma free_large_counter tid s G L l a b e :
  malloc_inv s L G l → mc_larges s !! b = Some e → in_range a b (la_size e) →
  ∃ s', my_free tid a s = Ok s' ∧
    g_large_allocated (mc_g s') = sub64 (g_large_allocated (mc_g s)) (la_user_size e).
Proof.
  intros [[Hs Hc _] Hl] He Hin. destruct (lv_each _ _ _ Hl b e He) as [_ A2 _ _ A5 A6 _].
  assert (0 < a) as Ha by (unfold in_range in Hin; lia).
  destruct (large_free_run a b e s L G l) as (s' & l' & Hrun & _); try done. exists s'.
  split; [|apply (large_free_counter a s e); [lia|by eapply large_find_run|done]].
  unfold my_free. destruct (Z.eqb_spec a 0); [lia|]. assert (in_bootstrap a = false) as ->.
  { apply not_true_is_false. unfold in_bootstrap. intros [?%Z.leb_le ?%Z.ltb_lt]%andb_true_iff.
    apply (A6 a Hin). unfold in_range. lia. }
  by rewrite (ptr_to_segment_outside s L a) by auto.
Qed.

(** C38: growing or shrinking a large block in place, whatever the sizes, does
    not update the byte counter of large allocations, and [free] subtracts
    the new size: freeing the block after such a [realloc] leaves a counter
    that is wrong by the difference of the sizes. *)
Theorem realloc_statistics_drift tid s B a n size b e :
  represents s B → roomy s → B !! a = Some n → mc_larges s !! b = Some e → in_range a b (la_size e) →
  1 ≤ size → a + size ≤ b + la_size e →
  ∃ s1 s2 s3, my_realloc tid a size s = Ok (a, s1) ∧ my_free tid a s1 = Ok s2 ∧ my_free tid a s = Ok s3 ∧
    g_large_allocated (mc_g s1) = g_large_allocated (mc_g s) ∧
    g_large_allocated (mc_g s2) = sub64 (g_large_allocated (mc_g s)) size ∧
    g_large_allocated (mc_g s3) = sub64 (g_large_allocated (mc_g s)) n ∧
    (size ≠ n → g_large_allocated (mc_g s2) ≠ g_large_allocated (mc_g s3)).
Proof.
  intros (L & G & l & Hinv & HB) Hr Ha%HB He Hin Hsz Hfit. pose proof Hinv as [[Hs Hc _] Hl].
  destruct (lv_each _ _ _ Hl b e He) as [A1 A2 _ _ A5 _ _]. unfold in_range in Hin.
  assert (0 < a) as Ha0 by lia.
  destruct Ha as [Ha|Ha]; [destruct (A5 a Hin); by eapply block_start_in_segs|].
  destruct (lblock_in s G l a n Hl Ha) as (c & e' & He' & HG & Hn & Hin' & Hlo & Hhi & _ & H0n).
  assert (c = b) as ->.
  { destruct (decide (c = b)) as [|Hne]; [done|].
    pose proof (lv_disjoint _ _ _ Hl _ _ _ _ He' He Hne). unfold disjoint_ranges, in_range in *. lia. }
  assert (e' = e) as -> by congruence.
  destruct (resize_run s L G l b e a size) as [Hi Hb]; try done.
  set (s1 := upd_large b (λ l, l <| la_user_size := size |>) s) in *.
  assert (my_realloc tid a size s = Ok (a, s1)) as Hrun.
  { unfold my_realloc, malloc_ensure_init. pose proof (ro_init _ Hr) as Hin2. unfold malloc_is_initialized in Hin2.
    destruct (Z.eqb_spec a 0); [lia|]. destruct (Z.eqb_spec size 0); [lia|]. rewrite Hin2. cbn [negb mbind res_bind].
    rewrite (in_bootstrap_false s L G l a n) by (try done; by right).
    rewrite (ptr_to_segment_outside s L a) by auto. cbn [Z.eqb]. unfold realloc_large.
    rewrite (large_find_run s G l b e a) by done. cbn [mbind res_bind]. rewrite A1, (u64_small (a - b)), u64_small by lia.
    by destruct (Z.leb_spec size (la_size e - (a - b))); [|lia]. }
  assert (mc_larges s1 !! b = Some (e <| la_user_size := size |>)) as He1.
  { unfold s1, upd_large. simpl. by rewrite lookup_alter_eq, He. }
  destruct (free_large_counter tid s1 G L l a b _ Hi He1 Hin) as (s2 & Hf2 & Hc2).
  destruct (free_large_counter tid s G L l a b e Hinv He Hin) as (s3 & Hf3 & Hc3).
  exists s1, s2, s3. rewrite <- Hn in Hc3. split_and!; [done..|]. rewrite Hc2, Hc3. simpl. unfold sub64, u64.
  intros Hne Heq. apply Hne. set (x := g_large_allocated (mc_g s)) in *.
  change (g_large_allocated (mc_g s1)) with x in Heq. Z.div_mod_to_equations; lia.
Qed.

End Theorems.

Lemma huge_malloc_wraps_witness :
  ∃ s' e, @my_malloc (demo_env false) 1 SIZE_MAX (@ready_machine (demo_env false)) = Ok (2 ^ 32 + 48, s') ∧
    mc_larges s' !! (2 ^ 32) = Some e ∧ la_size e = 16384 ∧ la_user_size e = SIZE_MAX.
Proof.
  apply (@huge_malloc_wraps (demo_env false) (demo_laws false) 1 SIZE_MAX (@ready_machine (demo_env false)) (2 ^ 32));
    [reflexivity|reflexivity|unfold SIZE_MAX; lia|vm_compute; reflexivity].
Defined.

(** ** Witnesses, on [demo_env false] *)
Lemma memalign_misaligned_witness :
  ∃ p s, @my_memalign (demo_env false) 1 (2 ^ 15) 100 Runs.start = Ok (p, s) ∧ p ≠ 0 ∧ ¬ (2 ^ 15 | p).
Proof.
  destruct (run_check_true (λ p _, negb (p =? 0)) (@my_memalign (demo_env false) 1 (2 ^ 15) 100 Runs.start))
    as (p & s & Hrun & Hp); [vm_compute; reflexivity|].
  apply negb_true_iff, Z.eqb_neq in Hp. exists p, s. split; [exact Hrun|]. split; [exact Hp|].
  apply (proj1 (@memalign_misaligned (demo_env false) (demo_laws false)) 1 15 100 Runs.start ∅ p s);
    [apply ready_represents|reflexivity|lia|config; lia|left; reflexivity|exact Hrun|exact Hp].
Defined.

(** After [memalign(131072, 0)] and [malloc(200000)], freeing the first pointer
    unmaps the second block. *)
Lemma memalign_zero_frees_neighbour_witness :
  ∃ p s1 q s2 s3, @my_memalign (demo_env false) 1 (2 ^ 17) 0 Runs.start = Ok (p, s1) ∧
    @my_malloc (demo_env false) 1 200000 s1 = Ok (q, s2) ∧ @my_free (demo_env false) 2 p s2 = Ok s3 ∧
    p ≠ q ∧ ¬ is_mapped s3 q.
Proof.
  destruct (run_check_true (λ p s1, roomyb s1 && run_check (λ q s2, (0 <? p) && (q =? p + 48) &&
      bool_decide (is_Some (mc_larges s2 !! (p - 2 ^ 17))) &&
      match mc_larges s2 !! p with Some e => 200000 <=? la_size e | None => false end)
      (@my_malloc (demo_env false) 1 200000 s1)) (@my_memalign (demo_env false) 1 (2 ^ 17) 0 Runs.start))
    as (p & s1 & Hrun1 & [Hr1%roomyb_spec (q & s2 & Hrun2 & Hq)%run_check_true]%andb_true_iff); [vm_compute; reflexivity|].
  apply andb_true_iff in Hq as [[[H0 Hq]%andb_true_iff Hown]%andb_true_iff He].
  apply Z.ltb_lt in H0. apply Z.eqb_eq in Hq. apply bool_decide_eq_true_1 in Hown.
  destruct (mc_larges s2 !! p) as [e2|] eqn:He2; [|discriminate]. apply Z.leb_le in He.
  destruct (@memalign_zero_frees_neighbour (demo_env false) (demo_laws false) 1 17 Runs.start ∅)
    as (p' & s' & Hrun & Hp); [apply ready_represents|reflexivity|lia|].
  rewrite Hrun1 in Hrun. injection Hrun as <- <-. destruct Hp as [|(e & _ & _ & Hrep & Hn)]; [lia|].
  destruct (@my_malloc_refines (demo_env false) (demo_laws false) 1 200000 s1 _ Hrep Hr1)
    as (q' & s2' & B2 & Hrun & Ha & Hrep2 & _); [lia|].
  rewrite Hrun2 in Hrun. injection Hrun as <- <-.
  destruct (Hn 2 s2 B2 e2 Hrep2 Hown He2) as (s3 & Hfree & _ & Hgone).
  exists p, s1, q, s2, s3. split_and!; [done..|lia|].
  destruct Ha as [|q n _ _ Hlen _ _]; [lia|]. apply (Hgone q n q); [apply lookup_insert_eq|unfold in_range; lia..].
Defined.

(** 100000 bytes grown in place to 110000. *)
Lemma realloc_statistics_drift_witness :
  ∃ a s s1 s2 s3, @my_malloc (demo_env false) 1 100000 Runs.start = Ok (a, s) ∧
    @my_realloc (demo_env false) 1 a 110000 s = Ok (a, s1) ∧ @my_free (demo_env false) 1 a s1 = Ok s2 ∧
    @my_free (demo_env false) 1 a s = Ok s3 ∧ g_large_allocated (mc_g s3) = 0 ∧
    g_large_allocated (mc_g s2) = 2 ^ 64 - 10000.
Proof.
  destruct (run_check_true (λ a s, roomyb s && negb (a =? 0) && (g_large_allocated (mc_g s) =? 100000) &&
      (usable s a =? 100000) &&
      match mc_larges s !! (a - 48) with Some e => 110048 <=? la_size e | None => false end)
      (@my_malloc (demo_env false) 1 100000 Runs.start))
    as (a & s & Hrun & [[[[Hr%roomyb_spec H0]%andb_true_iff Hc]%andb_true_iff Hu]%andb_true_iff He]%andb_true_iff);
    [vm_compute; reflexivity|].
  apply negb_true_iff, Z.eqb_neq in H0. apply Z.eqb_eq in Hc. apply Z.eqb_eq in Hu.
  destruct (mc_larges s !! (a - 48)) as [e|] eqn:He2; [|discriminate]. apply Z.leb_le in He.
  destruct (@my_malloc_refines (demo_env false) (demo_laws false) 1 100000 Runs.start ∅)
    as (a' & s' & B & Hrun' & Ha & Hrep & _); [apply ready_represents|by apply roomyb_spec|lia|].
  rewrite Hrun in Hrun'. injection Hrun' as <- <-. destruct Ha as [|a n _ _ _ _ _]; [done|].
  assert (n = 100000) as ->.
  { pose proof (@represents_usable (demo_env false) s (<[a := n]> ∅) a n Hrep (lookup_insert_eq _ _ _)) as Hn.
    by rewrite Hu in Hn. }
  destruct (@realloc_statistics_drift (demo_env false) (demo_laws false) 1 s (<[a := 100000]> ∅) a 100000 110000 (a - 48) e)
    as (s1 & s2 & s3 & H1 & H2 & H3 & _ & E2 & E3 & _); [done|done|apply lookup_insert_eq|done|unfold in_range; lia|lia|lia|].
  exists a, s, s1, s2, s3. split_and!; [done..| |]; [rewrite E3|rewrite E2]; rewrite Hc; reflexivity.
Defined.
