(* ===== verification/Treiber.v ===== *)
(** * The Treiber stack under concurrency: include/malloc_atomic.h

    The remote free list of a page is pushed to by any thread and emptied by
    its owner.  Here the loops of [treiber_push] and [treiber_collect] are
    taken apart into their accesses to shared memory (the acquire load of the
    head, the store of the link, the CAS), which the threads interleave in
    any order; clients store elsewhere in between, and a weak CAS may fail
    although the head holds the expected word.  [treiber_pop] has no caller
    in the sources and is left out. *)
From S2P Require Import Prelude Config Mem Atomic.

(** Where a thread is in one of the two loops. *)
Inductive pc :=
| PushStart (node : Z)
| PushRead (node old : Z)
| PushLinked (node old : Z)
| CollectStart
| CollectRead (old : Z).
#[global] Instance pc_eq_dec : EqDecision pc.
Proof. solve_decision. Defined.

(** The calls that have taken effect, the latest first: a push of a node, and
    a collect with the pointer it returns. *)
Inductive event := Pushed (node : Z) | Took (ptr : Z).

Record tstate := MkTs { ts_mem : mem; ts_head : Z; ts_pcs : gmap Z pc; ts_log : list event }.

(** The specification: a stack on which push and collect are atomic. *)
Fixpoint stack_of (log : list event) : list Z :=
  match log with
  | [] => []
  | Pushed n :: log => n :: stack_of log
  | Took _ :: _ => []
  end.

(** Every collect returned the top of the stack it emptied. *)
Fixpoint took_all (log : list event) : Prop :=
  match log with
  | [] => True
  | Pushed _ :: log => took_all log
  | Took p :: log => p = default 0 (head (stack_of log)) ∧ took_all log
  end.

Definition pc_node (c : pc) : option Z :=
  match c with
  | PushStart n | PushRead n _ | PushLinked n _ => Some n
  | _ => None
  end.

(** The nodes in use: on the stack, or in the hands of a pushing thread. *)
Definition in_use (s : tstate) (n : Z) : Prop :=
  n ∈ stack_of (ts_log s) ∨ ∃ t c, ts_pcs s !! t = Some c ∧ pc_node c = Some n.

Definition apart (a b : Z) : Prop := a + 8 ≤ b ∨ b + 8 ≤ a.

(** The word a push or a collect tries to install. *)
Definition push_word (node old : Z) : Z := tagged_make node (u16 (tagged_ptr_tag old + 1)).
Definition collect_word (old : Z) : Z := tagged_make 0 (u16 (tagged_ptr_tag old + 1)).

Inductive step : tstate → tstate → Prop :=
| step_push m h P g t n :
    P !! t = None → user_addr n →
    (∀ b, in_use (MkTs m h P g) b → apart n b) →
    step (MkTs m h P g) (MkTs m h (<[t := PushStart n]> P) g)
| step_push_load m h P g t n :
    P !! t = Some (PushStart n) →
    step (MkTs m h P g) (MkTs m h (<[t := PushRead n h]> P) g)
| step_push_link m h P g t n old :
    P !! t = Some (PushRead n old) →
    step (MkTs m h P g) (MkTs (store64 m n (tagged_ptr_get old)) h (<[t := PushLinked n old]> P) g)
| step_push_cas m h P g t n old spurious h' :
    P !! t = Some (PushLinked n old) → tagged_cas spurious h old (push_word n old) = (true, h') →
    step (MkTs m h P g) (MkTs m h' (delete t P) (Pushed n :: g))
| step_push_retry m h P g t n old spurious h' :
    P !! t = Some (PushLinked n old) → tagged_cas spurious h old (push_word n old) = (false, h') →
    step (MkTs m h P g) (MkTs m h' (<[t := PushStart n]> P) g)
| step_collect m h P g t :
    P !! t = None → step (MkTs m h P g) (MkTs m h (<[t := CollectStart]> P) g)
| step_collect_empty m h P g t :
    P !! t = Some CollectStart → tagged_ptr_get h = 0 →
    step (MkTs m h P g) (MkTs m h (delete t P) (Took 0 :: g))
| step_collect_load m h P g t :
    P !! t = Some CollectStart → tagged_ptr_get h ≠ 0 →
    step (MkTs m h P g) (MkTs m h (<[t := CollectRead h]> P) g)
| step_collect_cas m h P g t old spurious h' :
    P !! t = Some (CollectRead old) → tagged_cas spurious h old (collect_word old) = (true, h') →
    step (MkTs m h P g) (MkTs m h' (delete t P) (Took (tagged_ptr_get old) :: g))
| step_collect_retry m h P g t old spurious h' :
    P !! t = Some (CollectRead old) → tagged_cas spurious h old (collect_word old) = (false, h') →
    step (MkTs m h P g) (MkTs m h' (<[t := CollectStart]> P) g)
| step_client m m' h P g :
    (∀ n, in_use (MkTs m h P g) n → load64 m' n = load64 m n) →
    step (MkTs m h P g) (MkTs m' h P g).

(** An empty stack and no call under way. *)
Definition start (m : mem) : tstate := MkTs m 0 ∅ [].

(** ** The invariant *)
Record tinv (s : tstate) : Prop := {
  ti_stack : is_stack (ts_mem s) (ts_head s) (stack_of (ts_log s));
  ti_nodup : NoDup (stack_of (ts_log s));
  ti_took : took_all (ts_log s);
  ti_linked t n old : ts_pcs s !! t = Some (PushLinked n old) →
    load64 (ts_mem s) n = tagged_ptr_get old;
  ti_addr t c n : ts_pcs s !! t = Some c → pc_node c = Some n → user_addr n;
  ti_apart t c n b : ts_pcs s !! t = Some c → pc_node c = Some n →
    b ∈ stack_of (ts_log s) ∨ (∃ t' c', t' ≠ t ∧ ts_pcs s !! t' = Some c' ∧ pc_node c' = Some b) →
    apart n b
}.

Lemma start_tinv m : tinv (start m).
Proof. split; try done. constructor. Qed.

Lemma tagged_cas_true b h old d h' : tagged_cas b h old d = (true, h') → h = old ∧ h' = d.
Proof.
  unfold tagged_cas. destruct (negb b && (h =? old)) eqn:Hc; [|done]. intros [= <-].
  apply andb_true_iff in Hc as [_ ?%Z.eqb_eq]. done.
Qed.

Lemma tagged_cas_false b h old d h' : tagged_cas b h old d = (false, h') → h' = h.
Proof. unfold tagged_cas. destruct (negb b && (h =? old)); [done|]. by intros [= <-]. Qed.

Lemma apart_sym a b : apart a b → apart b a.
Proof. unfold apart. lia. Qed.

(** A thread moves on with the node it has, or without one. *)
Lemma tinv_move m h P g t c :
  tinv (MkTs m h P g) →
  (∀ n, pc_node c = Some n → ∃ c0, P !! t = Some c0 ∧ pc_node c0 = Some n) →
  (∀ n old, c = PushLinked n old → load64 m n = tagged_ptr_get old) →
  tinv (MkTs m h (<[t := c]> P) g).
Proof.
  intros [H1 Hnd H2 H3 H4 H5] Hn Hl. simpl in *.
  assert (∀ t' c' n, <[t := c]> P !! t' = Some c' → pc_node c' = Some n →
    ∃ c0, P !! t' = Some c0 ∧ pc_node c0 = Some n) as Hold.
  { intros t' c' n [[<- <-]|[_ ?]]%lookup_insert_Some; eauto. }
  split; simpl; [done|done|done| | |].
  - intros t' n old [[<- ?]|[_ ?]]%lookup_insert_Some; [by apply Hl|by eapply H3].
  - intros t' c' n Hc Hcn. destruct (Hold _ _ _ Hc Hcn) as (c0 & ? & ?). by eapply H4.
  - intros t' c' n b Hc Hcn Hb. destruct (Hold _ _ _ Hc Hcn) as (c0 & ? & ?). apply (H5 t' c0 n b); [done|done|].
    destruct Hb as [?|(u & cu & Hu & Hcu & Hb)]; [by left|right].
    destruct (Hold _ _ _ Hcu Hb) as (c1 & ? & ?). by exists u, c1.
Qed.

Lemma tinv_leave m h P g t : tinv (MkTs m h P g) → tinv (MkTs m h (delete t P) g).
Proof.
  intros [H1 Hnd H2 H3 H4 H5]. simpl in *. split; simpl; [done|done|done| | |].
  - intros t' n old [_ ?]%lookup_delete_Some. by eapply H3.
  - intros t' c n [_ ?]%lookup_delete_Some. by eapply H4.
  - intros t' c n b [_ ?]%lookup_delete_Some ? [?|(u & cu & Hu & [_ ?]%lookup_delete_Some & ?)];
      apply (H5 t' c n b); try done; [by left|right; by exists u, cu].
Qed.

(** Memory may change outside the nodes in use. *)
Lemma tinv_mem m m' h P g :
  tinv (MkTs m h P g) → (∀ n, in_use (MkTs m h P g) n → load64 m' n = load64 m n) →
  tinv (MkTs m' h P g).
Proof.
  intros [H1 Hnd H2 H3 H4 H5] Hm. simpl in *. split; simpl; try done.
  - eapply is_list_ext; [|exact H1]. intros n Hn. symmetry. apply Hm. by left.
  - intros t n old Ht. rewrite Hm; [by eapply H3|]. right. by exists t, (PushLinked n old).
Qed.

(** A thread stores the link of its own node. *)
Lemma tinv_link m h P g t n old :
  tinv (MkTs m h P g) → P !! t = Some (PushRead n old) →
  tinv (MkTs (store64 m n (tagged_ptr_get old)) h (<[t := PushLinked n old]> P) g).
Proof.
  intros Hi Ht. pose proof Hi as [H1 Hnd H2 H3 H4 H5]. simpl in *.
  assert (load64 (store64 m n (tagged_ptr_get old)) n = tagged_ptr_get old) as Hl.
  { apply load64_store64_eq. pose proof (tagged_get_range old). lia. }
  assert (tinv (MkTs m h (<[t := PushStart n]> P) g)) as Hi2.
  { apply tinv_move; [done| |done]. intros x [= <-]. eauto. }
  assert (tinv (MkTs (store64 m n (tagged_ptr_get old)) h (<[t := PushStart n]> P) g)) as [J1 Jnd J2 J3 J4 J5].
  { destruct Hi2 as [J1 Jnd J2 J3 J4 J5]. simpl in *. split; simpl; try done.
    - apply is_list_store; [|done]. intros b Hb. apply apart_sym. eapply H5; eauto.
    - intros t' x y Ht'. rewrite load64_store64_ne; [by eapply J3|].
      assert (t' ≠ t) by (intros ->; by rewrite lookup_insert_eq in Ht').
      rewrite lookup_insert_ne in Ht' by done. apply apart_sym, (H5 t _ n x Ht eq_refl). right. eauto. }
  simpl in *. rewrite <- (insert_insert_eq P t (PushLinked n old) (PushStart n)).
  apply tinv_move; [by split|intros x [= <-]|intros x y [= <- <-]; done].
  exists (PushStart n). by rewrite lookup_insert_eq.
Qed.

(** The successful CAS of a push: its link points at the top of the stack. *)
Lemma tinv_push m P g t n old :
  tinv (MkTs m old P g) → P !! t = Some (PushLinked n old) →
  tinv (MkTs m (push_word n old) (delete t P) (Pushed n :: g)).
Proof.
  intros Hi Ht. pose proof Hi as [H1 Hnd H2 H3 H4 H5]. simpl in *.
  pose proof (H4 t _ n Ht eq_refl) as Hn. unfold user_addr in Hn.
  destruct (tinv_leave m old P g t Hi) as [J1 Jnd J2 J3 J4 J5]. simpl in *. split; simpl; try done.
  - unfold is_stack, push_word. rewrite tagged_get_make by (try apply u16_range; lia).
    split_and!; [done|lia|]. by rewrite (H3 t n old).
  - constructor; [|done]. intros Hb. destruct (H5 t _ n n Ht eq_refl (or_introl Hb)); lia.
  - intros t' c x b Hc Hcx Hb. destruct Hb as [[->|Hb]%elem_of_cons|Hb]; [|by eapply J5; eauto..].
    apply lookup_delete_Some in Hc as [Hne Hc]. apply (H5 t' c x n Hc Hcx). right.
    by exists t, (PushLinked n old).
Qed.

(** The successful CAS of a collect: the stack is empty and its top returned. *)
Lemma tinv_collect m P g t old :
  tinv (MkTs m old P g) → tinv (MkTs m (collect_word old) (delete t P) (Took (tagged_ptr_get old) :: g)).
Proof.
  intros Hi. destruct (tinv_leave m old P g t Hi) as [J1 Jnd J2 J3 J4 J5]. simpl in *. split; simpl; try done.
  - unfold is_stack, collect_word. simpl. apply tagged_get_make; [lia|apply u16_range].
  - constructor.
  - split; [|done]. unfold is_stack in J1. destruct (stack_of g); simpl in *; [done|]. by destruct J1.
  - intros t' c x b Hc Hcx [Hb|Hb]; [by apply elem_of_nil in Hb|]. eapply J5; eauto.
Qed.

(** Starting a push with a node apart from those in use. *)
Lemma tinv_begin m h P g t n :
  tinv (MkTs m h P g) → P !! t = None → user_addr n →
  (∀ b, in_use (MkTs m h P g) b → apart n b) → tinv (MkTs m h (<[t := PushStart n]> P) g).
Proof.
  intros [H1 Hnd H2 H3 H4 H5] Ht Hn Hap. simpl in *. split; simpl; [done|done|done| | |].
  - intros t' x old [[_ ?]|[_ ?]]%lookup_insert_Some; [done|by eapply H3].
  - intros t' c x [[_ <-]|[_ ?]]%lookup_insert_Some; [by intros [= <-]|by eapply H4].
  - intros t' c x b [[<- <-]|[Hne Hc]]%lookup_insert_Some Hx Hb.
    + injection Hx as <-. apply Hap. destruct Hb as [?|(u & cu & Hu & Hcu & ?)]; [by left|right].
      rewrite lookup_insert_ne in Hcu by done. eauto.
    + destruct Hb as [?|(u & cu & Hu & [[<- <-]|[_ Hcu]]%lookup_insert_Some & Hbu)].
      * apply (H5 t' c x b); [done|done|by left].
      * injection Hbu as <-. apply apart_sym, Hap. right. eauto.
      * apply (H5 t' c x b); [done|done|right; by exists u, cu].
Qed.

Lemma step_tinv s s' : step s s' → tinv s → tinv s'.
Proof.
  intros Hst Hi. destruct Hst.
  - by apply tinv_begin.
  - apply tinv_move; [done| |done]. intros x [= <-]. eauto.
  - by apply tinv_link.
  - apply tagged_cas_true in H0 as [-> ->]. by apply tinv_push.
  - apply tagged_cas_false in H0 as ->. apply tinv_move; [done| |done]. intros x [= <-]. eauto.
  - by apply tinv_move.
  - destruct (tinv_leave m h P g t Hi) as [J1 Jnd J2 J3 J4 J5]. simpl in *.
    unfold is_stack in J1. rewrite H0 in J1. apply is_list_null in J1. split; simpl; try done.
    + constructor.
    + by rewrite J1.
    + intros t' c x b Hc Hcx [Hb|Hb]; [by apply elem_of_nil in Hb|]. eapply J5; eauto.
  - by apply tinv_move.
  - apply tagged_cas_true in H0 as [-> ->]. by apply tinv_collect.
  - apply tagged_cas_false in H0 as ->. by apply tinv_move.
  - by eapply tinv_mem.
Qed.

Lemma reach_tinv m s : rtc step (start m) s → tinv s.
Proof.
  intros H. pose proof (start_tinv m) as Hi. induction H as [|s s' s'' Hst _ IH]; [done|].
  apply IH. by eapply step_tinv.
Qed.

(** C10: under every interleaving of pushes, collects and stores of clients,
    with spurious CAS failures, the head word always denotes the stack that
    results from the completed calls done one after the other; no node is on
    it twice, every collect returned the top of the stack it emptied, and at
    that moment the whole stack hangs off the pointer returned: no node is
    lost and none is handed out twice. *)
Theorem treiber_linearizable m s :
  rtc step (start m) s →
  is_stack (ts_mem s) (ts_head s) (stack_of (ts_log s)) ∧ NoDup (stack_of (ts_log s)) ∧
  took_all (ts_log s) ∧
  ∀ s' p, step s s' → ts_log s' = Took p :: ts_log s →
    is_list (ts_mem s') p (stack_of (ts_log s)) ∧ tagged_ptr_get (ts_head s') = 0.
Proof.
  intros Hi%reach_tinv. pose proof Hi as [H1 Hnd H2 _ _ _]. split_and!; [done..|].
  intros s' p Hst Hlog. pose proof (step_tinv _ _ Hst Hi) as [J1 _ J2 _ _ _].
  rewrite Hlog in J1, J2. split; [|exact J1]. destruct J2 as [-> _].
  assert (ts_mem s' = ts_mem s) as -> by (destruct Hst; simpl in *; try done; apply (f_equal length) in Hlog; simpl in Hlog; lia).
  unfold is_stack in H1. destruct (stack_of (ts_log s)) as [|a l]; [done|]. by destruct H1.
Qed.

(** ** Calls complete *)

(** From any point of its loop a push that runs alone takes effect. *)
Lemma push_alone m h P g t c n :
  P !! t = Some c → pc_node c = Some n →
  ∃ m' h', rtc step (MkTs m h P g) (MkTs m' h' (delete t P) (Pushed n :: g)).
Proof.
  assert (∀ old, tagged_cas false old old (push_word n old) = (true, push_word n old)) as Hcas.
  { intros old. unfold tagged_cas. by rewrite Z.eqb_refl. }
  assert (∀ m P, P !! t = Some (PushRead n h) →
    ∃ m' h', rtc step (MkTs m h P g) (MkTs m' h' (delete t P) (Pushed n :: g))) as Hread.
  { intros m1 P1 Ht. do 2 eexists. eapply rtc_l; [by apply step_push_link|]. eapply rtc_l; [|apply rtc_refl].
    rewrite <- (delete_insert_eq P1 t (PushLinked n h)). eapply step_push_cas; [by rewrite lookup_insert_eq|done]. }
  assert (∀ m P, P !! t = Some (PushStart n) →
    ∃ m' h', rtc step (MkTs m h P g) (MkTs m' h' (delete t P) (Pushed n :: g))) as Hstart.
  { intros m1 P1 Ht. destruct (Hread m1 (<[t := PushRead n h]> P1)) as (m' & h' & H).
    { by rewrite lookup_insert_eq. }
    exists m', h'. rewrite delete_insert_eq in H. eapply rtc_l; [by apply step_push_load|done]. }
  assert (∀ m P old, P !! t = Some (PushLinked n old) →
    ∃ m' h', rtc step (MkTs m h P g) (MkTs m' h' (delete t P) (Pushed n :: g))) as Hretry.
  { intros m1 P1 old Ht. destruct (Hstart m1 (<[t := PushStart n]> P1)) as (m' & h' & H).
    { by rewrite lookup_insert_eq. }
    exists m', h'. rewrite delete_insert_eq in H. eapply rtc_l; [|exact H].
    by apply (step_push_retry _ _ _ _ t n old true). }
  intros Ht Hc. destruct c as [x|x old|x old| |]; simplify_eq/=; [by apply Hstart| |by eapply Hretry].
  destruct (Hretry (store64 m n (tagged_ptr_get old)) (<[t := PushLinked n old]> P) old) as (m' & h' & H).
  { by rewrite lookup_insert_eq. }
  exists m', h'. rewrite delete_insert_eq in H. eapply rtc_l; [by apply step_push_link|exact H].
Qed.

Lemma collect_alone m h P g t c :
  P !! t = Some c → pc_node c = None →
  ∃ h' p, rtc step (MkTs m h P g) (MkTs m h' (delete t P) (Took p :: g)).
Proof.
  assert (∀ P, P !! t = Some CollectStart →
    ∃ h' p, rtc step (MkTs m h P g) (MkTs m h' (delete t P) (Took p :: g))) as Hstart.
  { intros P1 Ht. destruct (decide (tagged_ptr_get h = 0)).
    - do 2 eexists. eapply rtc_l; [by apply (step_collect_empty _ _ _ _ t)|apply rtc_refl].
    - do 2 eexists. eapply rtc_l; [by apply (step_collect_load _ _ _ _ t)|]. eapply rtc_l; [|apply rtc_refl].
      rewrite <- (delete_insert_eq P1 t (CollectRead h)).
      apply (step_collect_cas _ _ _ _ t h false (collect_word h)); [by rewrite lookup_insert_eq|].
      unfold tagged_cas. by rewrite Z.eqb_refl. }
  intros Ht Hc. destruct c as [x|x old|x old| |old]; try done; [by apply Hstart|].
  destruct (Hstart (<[t := CollectStart]> P)) as (h' & p & H); [by rewrite lookup_insert_eq|].
  exists h', p. rewrite delete_insert_eq in H. eapply rtc_l; [|exact H].
  by apply (step_collect_retry _ _ _ _ t old true).
Qed.

(** C11: no call can be stuck.  Whatever the other threads have done, a push or
    a collect that is under way and then runs without interference takes
    effect, and leaves the calls of the other threads where they were. *)
Theorem treiber_obstruction_free s t c :
  ts_pcs s !! t = Some c →
  ∃ s', rtc step s s' ∧ ts_pcs s' = delete t (ts_pcs s) ∧
    ∃ e, ts_log s' = e :: ts_log s ∧
      match pc_node c with Some n => e = Pushed n | None => ∃ p, e = Took p end.
Proof.
  intros Ht. destruct s as [m1 h P g]. simpl in *. destruct (pc_node c) as [n|] eqn:Hc.
  - destruct (push_alone m1 h P g t c n Ht Hc) as (m' & h' & H). eexists. split; [exact H|]. simpl. eauto.
  - destruct (collect_alone m1 h P g t c Ht Hc) as (h' & p & H). eexists. split; [exact H|]. simpl. eauto.
Qed.

(** C12: the sequential [treiber_push] and [treiber_collect] of Atomic.v, which
    the page model uses, are what the interleaved machine does when the call
    meets no other. *)
Theorem treiber_sequential m h P g t n :
  P !! t = None → user_addr n → (∀ b, in_use (MkTs m h P g) b → apart n b) →
  rtc step (MkTs m h P g)
    (MkTs (treiber_push m h n 0).1 (treiber_push m h n 0).2 P (Pushed n :: g)) ∧
  rtc step (MkTs m h P g) (MkTs m (treiber_collect h).2 P (Took (treiber_collect h).1 :: g)).
Proof.
  intros Ht Hn Hap. rewrite treiber_push_value, treiber_collect_value. split.
  - eapply rtc_l; [by apply (step_push _ _ _ _ t n)|].
    eapply rtc_l; [apply (step_push_load _ _ _ _ t n); by rewrite lookup_insert_eq|].
    eapply rtc_l; [apply (step_push_link _ _ _ _ t n h); by rewrite lookup_insert_eq|].
    eapply rtc_l; [|apply rtc_refl]. rewrite !insert_insert_eq.
    rewrite <- (delete_insert_id P t (PushLinked n h)) at 2 by done.
    apply (step_push_cas _ _ _ _ t n h false); [by rewrite lookup_insert_eq|].
    unfold tagged_cas. by rewrite Z.eqb_refl.
  - eapply rtc_l; [by apply (step_collect _ _ _ _ t)|]. destruct (Z.eqb_spec (tagged_ptr_get h) 0) as [Hz|Hz]; simpl.
    + eapply rtc_l; [|apply rtc_refl]. rewrite <- (delete_insert_id P t CollectStart) at 2 by done.
      apply step_collect_empty; [by rewrite lookup_insert_eq|done].
    + eapply rtc_l; [apply (step_collect_load _ _ _ _ t); [by rewrite lookup_insert_eq|done]|].
      eapply rtc_l; [|apply rtc_refl]. rewrite insert_insert_eq.
      rewrite <- (delete_insert_id P t (CollectRead h)) at 2 by done.
      apply (step_collect_cas _ _ _ _ t h false); [by rewrite lookup_insert_eq|].
      unfold tagged_cas. by rewrite Z.eqb_refl.
Qed.

(** ** Witnesses *)
Lemma demo_push : ∃ m h, rtc step (start ∅) (MkTs m h ∅ [Pushed 4096]).
Proof.
  destruct (push_alone ∅ 0 {[1 := PushStart 4096]} [] 1 (PushStart 4096) 4096) as (m & h & H); [done|done|].
  exists m, h. rewrite delete_singleton_eq in H. eapply rtc_l; [|exact H].
  apply (step_push ∅ 0 ∅ [] 1 4096); [done|unfold user_addr; lia|].
  intros b [Hb|(t & c & Ht & _)]; [by apply elem_of_nil in Hb|done].
Qed.

Lemma treiber_linearizable_witness :
  ∃ m h, is_stack m h [4096] ∧ NoDup [4096] ∧ took_all [Pushed 4096].
Proof.
  destruct demo_push as (m & h & H). exists m, h.
  destruct (treiber_linearizable ∅ (MkTs m h ∅ [Pushed 4096]) H) as (H1 & H2 & H3 & _).
  exact (conj H1 (conj H2 H3)).
Defined.

Lemma treiber_obstruction_free_witness :
  ∃ s', rtc step (MkTs ∅ 0 {[1 := PushRead 4096 7]} []) s' ∧ ts_pcs s' = delete 1 {[1 := PushRead 4096 7]} ∧
    ∃ e, ts_log s' = [e] ∧ e = Pushed 4096.
Proof.
  exact (treiber_obstruction_free (MkTs ∅ 0 {[1 := PushRead 4096 7]} []) 1 (PushRead 4096 7) eq_refl).
Defined.

Lemma treiber_sequential_witness :
  rtc step (MkTs ∅ 0 ∅ []) (MkTs (treiber_push ∅ 0 4096 0).1 (treiber_push ∅ 0 4096 0).2 ∅ [Pushed 4096]) ∧
  rtc step (MkTs ∅ 0 ∅ []) (MkTs ∅ (treiber_collect 0).2 ∅ [Took (treiber_collect 0).1]).
Proof.
  apply (treiber_sequential ∅ 0 ∅ [] 1 4096); [reflexivity|unfold user_addr; lia|].
  intros b [Hb|(t & c & Ht & _)]; [by apply elem_of_nil in Hb|done].
Defined.
