(* ===== verification/Race.v ===== *)
(** * Two threads in the slow path: src/arena.c against src/slab.c

    The rest of the development runs a call to completion before the next one
    starts.  Here two calls of [malloc] that meet at one page are taken apart
    statement by statement: [arena_alloc] works under the arena's mutex, but
    the page it allocates from is claimed after the mutex is released, and
    its owner then bumps the same offset without the mutex. *)
From S2P Require Import Prelude Config Mem Types Page.

(** Where a thread is; the slot is the value of its local variable. *)
Inductive rpc :=
| Idle
| Scan                 (* holds the mutex, about to test the page *)
| SlowSlot             (* the test passed, about to compute the slot *)
| SlowBump (slot : Z)  (* about to advance the offset *)
| Unlock (slot : Z)
| Claim (slot : Z)     (* about to CAS the owner *)
| FastSlot             (* the owner, about to compute the slot *)
| FastBump (slot : Z).

Record rstate := MkR {
  r_page : page_meta_t;
  r_lock : option Z;             (* the holder of the arena's mutex *)
  r_cache : list Z;              (* the threads whose [bin_page] is the page *)
  r_pcs : list (Z * rpc);
  r_out : list (Z * Z)           (* the slots handed out, by thread *)
}.
#[global] Instance rstate_eta : Eta rstate := λ r,
  MkR (r_page r) (r_lock r) (r_cache r) (r_pcs r) (r_out r).

Definition pc_of (t : Z) (r : rstate) : rpc :=
  default Idle (snd <$> head (filter (λ e, e.1 = t) (r_pcs r))).
Definition goto (t : Z) (c : rpc) (r : rstate) : rstate := r <| r_pcs ::= cons (t, c) |>.
Definition return_slot (t slot : Z) (r : rstate) : rstate := goto t Idle (r <| r_out ::= cons (t, slot) |>).

(** The two halves of [bump_slot]: the slot, and the page afterwards. *)
Definition next_slot (p : page_meta_t) : Z := (bump_slot p).1.
Definition advance (p : page_meta_t) : page_meta_t := (bump_slot p).2.

(** The statements of [arena_alloc] on a page of the bin list. *)
Definition slow_step (t : Z) (r : rstate) : option rstate :=
  match pc_of t r with
  | Scan =>
      if (pm_owner_tid (r_page r) =? UINT32_MAX) && (pm_bump_offset (r_page r) <? pm_bump_end (r_page r))
      then Some (goto t SlowSlot r) else None
  | SlowSlot => Some (goto t (SlowBump (next_slot (r_page r))) r)
  | SlowBump slot => Some (goto t (Unlock slot) (r <| r_page ::= advance |>))
  | Unlock slot => Some (goto t (Claim slot) (r <| r_lock := None |>))
  | _ => None
  end.

(** The statements of [slab_alloc_inner] around it: the fast path of a thread
    that has the page cached, else the mutex; the claim at the end. *)
Definition slab_step (t : Z) (r : rstate) : option rstate :=
  match pc_of t r with
  | Idle =>
      if decide (t ∈ r_cache r) then
        if (pm_local_free (r_page r) =? 0) && (pm_bump_offset (r_page r) <? pm_bump_end (r_page r))
        then Some (goto t FastSlot r) else None
      else if decide (r_lock r = None) then Some (goto t Scan (r <| r_lock := Some t |>)) else None
  | Claim slot =>
      let owner := pm_owner_tid (r_page r) in
      if owner =? UINT32_MAX then
        Some (return_slot t slot (r <| r_page ::= λ p, p <| pm_owner_tid := t |> |> <| r_cache ::= cons t |>))
      else if owner =? t then Some (return_slot t slot (r <| r_cache ::= cons t |>))
      else Some (return_slot t slot r)
  | FastSlot => Some (goto t (FastBump (next_slot (r_page r))) r)
  | FastBump slot => Some (return_slot t slot (r <| r_page ::= advance |>))
  | _ => None
  end.

Definition rstep (t : Z) (r : rstate) : option rstate :=
  match slab_step t r with Some r' => Some r' | None => slow_step t r end.

(** A schedule names the thread that makes the next step. *)
Fixpoint run (schedule : list Z) (r : rstate) : option rstate :=
  match schedule with
  | [] => Some r
  | t :: schedule => rstep t r ≫= run schedule
  end.

(** Thread 1, holding the mutex, has put a page fresh from [segment_alloc_page]
    on the bin list and is about to take its first slot. *)
Definition race_start : rstate := MkR demo_page_meta (Some 1) [] [(1, SlowSlot)] [].

(** C13: the claim of a page comes too late.  Thread 1 takes the first slot and
    gives the mutex back; thread 2 tests the page, which has no owner yet;
    thread 1 claims it and starts its next allocation without the mutex: both
    compute the same slot, and both callers are handed it. *)
Theorem ownership_race :
  ∃ schedule, r_out <$> run schedule race_start = Some [(2, 4259904); (1, 4259904); (1, 4259840)].
Proof. exists [1; 1; 1;  2; 2;  1;  2;  1; 1; 1;  2; 2; 2]. vm_compute. reflexivity. Qed.
