(* ===== verification/ZoneCorrect.v ===== *)
(** * Correctness of the zone's own callbacks (src/zone.c)

    The batch callbacks are clients of [malloc] and [free]: their theorems are
    proved against the interface [Allocator], which the public API
    implements.  Fork safety, address classification and size rounding
    follow. *)
From S2P Require Import Prelude Config Mem Atomic SizeClass Types Os DemoEnv Page Registry Segment Debug Tld Arena Large Slab Init Malloc Zone Heap HeapOps CtlOps ArenaCorrect SlabCorrect InitCorrect SlabSpec LargeCorrect Steady MallocCorrect ReallocCorrect MallocSpec.
Import SizeClass.

(** ** The interface *)

(** What clients of [malloc] and [free] rely on: [rep k s B] says that the
    machine holds the blocks [B] and that [k] more calls are possible. *)
Class Allocator `{E : Env} (rep : nat → machine → gmap Z Z → Prop) := {
  rep_malloc k tid size s B :
    rep (S k) s B → 0 ≤ size < 2 ^ 59 →
    ∃ p s' B', my_malloc tid size s = Ok (p, s') ∧ abs_malloc B size p B' ∧ rep k s' B' ∧ bytes_kept B B' s s';
  rep_free k tid a s B :
    rep (S k) s B → is_Some (B !! a) →
    ∃ s', my_free tid a s = Ok s' ∧ rep k s' (delete a B) ∧ bytes_kept B (delete a B) s s';
  rep_weaken k s B : rep (S k) s B → rep k s B
}.

(** The public API implements it. *)
Definition api_rep `{E : Env} (k : nat) (s : machine) (B : gmap Z Z) : Prop :=
  represents s B ∧ affords k s.

#[global] Instance api_allocator `{E : Env} `{EL : !EnvLaws E} : Allocator api_rep.
Proof.
  split.
  - intros k tid sz s B [Hrep Ha] Hsz.
    destruct (my_malloc_refines tid sz s B) as (p & s' & B' & Hrun & Hm & Hrep' & Hb & _);
      [done|by eapply affords_roomy|done|].
    exists p, s', B'. split_and!; try done. split; [done|]. eapply affords_spend; [done|]. eapply malloc_spends; [apply Ha|done].
  - intros k tid a s B [Hrep Ha] Hin.
    destruct (my_free_refines tid a s B) as (s' & B' & Hrun & Hf & Hrep' & Hb); [done|by eapply affords_roomy|done|].
    destruct Hf. exists s'. split_and!; try done. split; [done|]. eapply affords_spend; [done|]. by eapply free_spends.
  - intros k s B [Hrep Ha]. split; [done|]. apply (affords_weaken (S k)); [lia|done].
Qed.

Section Batch.
Context `{E : Env} {rep : nat → machine → gmap Z Z → Prop} {A : Allocator rep}.
Implicit Types (s : machine) (B : gmap Z Z) (ps : list Z).

(** The blocks of [B'] are those of [B] and, all new, the addresses [ps]. *)
Definition adds (size : Z) ps B B' : Prop :=
  B ⊆ B' ∧ NoDup ps ∧ dom B' = dom B ∪ list_to_set ps ∧
  ∀ p, p ∈ ps → B !! p = None ∧ 0 < p ∧ ∃ n, B' !! p = Some n ∧ size ≤ n.

Lemma adds_nil size B : adds size [] B B.
Proof. split_and!; [done|constructor|set_solver|set_solver]. Qed.

Lemma adds_cons size p n ps B B' :
  0 < p → B !! p = None → size ≤ n → adds size ps (<[p := n]> B) B' → adds size (p :: ps) B B'.
Proof.
  intros H0 Hp Hn (Hsub & Hnd & Hdom & Hps). split_and!.
  - etrans; [|exact Hsub]. by apply insert_subseteq.
  - constructor; [|done]. intros Hin. apply Hps in Hin as [Hin _]. by rewrite lookup_insert_eq in Hin.
  - rewrite Hdom, dom_insert_L. set_solver.
  - intros q [->|Hq]%elem_of_cons.
    + split_and!; [done|done|]. exists n. split; [|done]. eapply lookup_weaken; [|exact Hsub].
      by rewrite lookup_insert_eq.
    + apply Hps in Hq as (Hq & ? & ?). split_and!; [|done|done].
      apply lookup_insert_None in Hq. by destruct Hq.
Qed.

Lemma batch_malloc_run tid size n k s B :
  rep (n + k) s B → 0 ≤ size < 2 ^ 59 →
  ∃ ps s' B', zone_batch_malloc tid size n s =
      Ok (ps ++ (if decide (length ps = n) then [] else [0]), Z.of_nat (length ps), s') ∧
    (length ps ≤ n)%nat ∧ rep k s' B' ∧ adds size ps B B' ∧ bytes_kept B B s s'.
Proof.
  revert s B. induction n as [|n IH]; intros s B Hrep Hsz; simpl.
  { exists [], s, B. simpl. split_and!; [done|lia|done|apply adds_nil|by intros a m b]. }
  destruct (rep_malloc (n + k) tid size s B Hrep Hsz) as (p & s1 & B1 & -> & Hm & Hrep1 & Hb1).
  cbn [mbind res_bind]. destruct Hm as [|p m H0 H16 Hm Hnone Hd].
  - exists [], s1, B. simpl. split_and!; [done|lia| |apply adds_nil|exact Hb1].
    clear -Hrep1 A. induction n as [|n IH]; [done|]. by apply IH, rep_weaken.
  - destruct (Z.eqb_spec p 0); [lia|].
    destruct (IH s1 _ Hrep1 Hsz) as (ps & s' & B' & -> & Hlen & Hrep' & Hadd & Hb). cbn [mbind res_bind].
    exists (p :: ps), s', B'. split_and!; [| |done|by eapply adds_cons|].
    + simpl length. rewrite (Nat2Z.inj_succ (length ps)), Z.add_1_l.
      by destruct (decide (length ps = n)), (decide (S (length ps) = S n)); try lia.
    + simpl. lia.
    + intros a m' b Ha _ Hab. assert (a ≠ p) as Hne by (intros ->; congruence).
      rewrite (Hb a m' b); [|by rewrite lookup_insert_ne..|done].
      apply (Hb1 a m' b Ha); [by rewrite lookup_insert_ne|done].
Qed.

(** The map without the given keys. *)
Definition removes ps B : gmap Z Z := foldl (λ B p, delete p B) B ps.

Lemma batch_free_run tid ps k s B :
  rep (length ps + k) s B → NoDup ps → (∀ p, p ∈ ps → is_Some (B !! p)) →
  ∃ s', zone_batch_free tid ps s = Ok (replicate (length ps) 0, s') ∧ rep k s' (removes ps B) ∧
    bytes_kept B (removes ps B) s s'.
Proof.
  revert s B. induction ps as [|p ps IH]; intros s B Hrep Hnd Hin; simpl.
  { exists s. by split_and!. }
  apply NoDup_cons in Hnd as [Hp Hnd].
  destruct (rep_free (length ps + k) tid p s B Hrep) as (s1 & -> & Hrep1 & Hb1); [apply Hin; by left|].
  cbn [mbind res_bind]. destruct (IH s1 _ Hrep1 Hnd) as (s' & -> & Hrep' & Hb).
  { intros q Hq. rewrite lookup_delete_ne by set_solver. apply Hin. by right. }
  cbn [mbind res_bind]. exists s'. split_and!; [done|done|]. intros a m b Ha Ha' Hab.
  assert (removes ps (delete p B) ⊆ delete p B) as Hsub.
  { clear. generalize (delete p B). induction ps as [|q ps IH]; intros B'; simpl; [done|].
    etrans; [apply IH|apply delete_subseteq]. }
  assert (delete p B !! a = Some m) as Ha1 by (by eapply lookup_weaken).
  rewrite (Hb a m b Ha1 Ha' Hab). by apply (Hb1 a m b).
Qed.

Lemma removes_adds size ps B B' : adds size ps B B' → removes ps B' = B.
Proof.
  intros (Hsub & _ & Hdom & Hps). apply map_eq. intros a.
  assert (removes ps B' !! a = if decide (a ∈ ps) then None else B' !! a) as ->.
  { clear. revert B'. induction ps as [|p ps IH]; intros B'; simpl; [done|]. rewrite IH.
    destruct (decide (a ∈ ps)); [by rewrite decide_True by set_solver|].
    destruct (decide (a = p)) as [->|]; [rewrite decide_True by set_solver; apply lookup_delete_eq|].
    rewrite decide_False by set_solver. by rewrite lookup_delete_ne. }
  destruct (decide (a ∈ ps)) as [Hin|Hin]; [by apply Hps in Hin as [-> _]|].
  destruct (B !! a) as [n|] eqn:Ha; [by eapply lookup_weaken|].
  apply not_elem_of_dom. rewrite Hdom. apply not_elem_of_dom in Ha. set_solver.
Qed.

Lemma rep_weaken_by j k s B : rep (j + k) s B → rep k s B.
Proof. induction j as [|j IH]; [done|]. intros H. by apply IH, rep_weaken. Qed.

(** C16: [zone_batch_malloc] stores as many pointers as it counts, each a new
    block of at least the size and no two the same, with a null pointer behind
    them when it stopped early; [zone_batch_free] of these pointers, by any
    thread, nulls the array and leaves exactly the blocks there were before,
    which kept their bytes all along.  Proved for every implementation of the
    interface [Allocator]. *)
Theorem batch_roundtrip tid tid' size n k s B :
  rep (n + (n + k)) s B → 0 ≤ size < 2 ^ 59 →
  ∃ ps s' B', zone_batch_malloc tid size n s =
      Ok (ps ++ (if decide (length ps = n) then [] else [0]), Z.of_nat (length ps), s') ∧
    (length ps ≤ n)%nat ∧ rep (n + k) s' B' ∧ adds size ps B B' ∧ bytes_kept B B s s' ∧
    ∃ s'', zone_batch_free tid' ps s' = Ok (replicate (length ps) 0, s'') ∧ rep k s'' B ∧ bytes_kept B B s s''.
Proof.
  intros Hrep Hsz. destruct (batch_malloc_run tid size n (n + k) s B Hrep Hsz)
    as (ps & s' & B' & Hrun & Hlen & Hrep' & Hadd & Hb).
  exists ps, s', B'. split_and!; try done. pose proof Hadd as (Hsub & Hnd & Hdom & Hps).
  destruct (batch_free_run tid' ps k s' B') as (s'' & Hfree & Hrep'' & Hb2).
  - apply (rep_weaken_by (n - length ps)). by replace (n - length ps + (length ps + k))%nat with (n + k)%nat by lia.
  - done.
  - intros p (_ & _ & m & ? & _)%Hps. eauto.
  - rewrite (removes_adds size ps B B' Hadd) in Hrep'', Hb2. exists s''. split_and!; [done|done|].
    intros a m b Ha Ha' Hab. rewrite (Hb2 a m b); [by apply (Hb a m b)| |done|done]. by eapply lookup_weaken.
Qed.

End Batch.

(** ** Fork safety *)
Definition set_locks (b : bool) (i n : nat) (l : list arena_t) : list arena_t :=
  imap (λ j a, if decide (i ≤ j < i + n)%nat then a <| ar_lock := b |> else a) l.

Definition upd_arenas (f : list arena_t → list arena_t) (s : machine) : machine :=
  upd_g (λ g, g <| g_arenas ::= f |>) s.

Lemma set_locks_0 b i l : set_locks b i 0 l = l.
Proof.
  unfold set_locks. apply list_eq. intros j. rewrite list_lookup_imap. destruct (l !! j); simpl; [|done].
  by rewrite decide_False by lia.
Qed.

Lemma set_locks_S b i n l :
  set_locks b (S i) n (alter (λ a, a <| ar_lock := b |>) i l) = set_locks b i (S n) l.
Proof.
  unfold set_locks. apply list_eq. intros j. rewrite !list_lookup_imap. destruct (decide (i = j)) as [->|Hne].
  - rewrite list_lookup_alter_eq. destruct (l !! j); simpl; [|done].
    by rewrite decide_False, decide_True by lia.
  - rewrite list_lookup_alter_ne by done. destruct (l !! j); simpl; [|done].
    repeat case_decide; try done; lia.
Qed.

Lemma lock_arenas_run n i s :
  (i + n ≤ length (g_arenas (mc_g s)))%nat →
  (∀ j a, (i ≤ j)%nat → g_arenas (mc_g s) !! j = Some a → ar_lock a = false) →
  lock_arenas n i s = Ok (upd_arenas (set_locks true i n) s).
Proof.
  revert i s. induction n as [|n IH]; intros i s Hlen Hun; simpl.
  - f_equal. unfold upd_arenas, upd_g. simpl. rewrite set_locks_0. by destruct s as [[]].
  - destruct (lookup_lt_is_Some_2 (g_arenas (mc_g s)) i) as [a Ha]; [lia|].
    unfold lock_arena. rewrite Ha. cbn [deref mbind res_bind]. rewrite (Hun i a) by (done || lia).
    cbn [mbind res_bind]. rewrite IH.
    + f_equal. unfold upd_arenas, upd_arena, upd_g. simpl. by rewrite set_locks_S.
    + unfold upd_arena. simpl. rewrite length_alter. lia.
    + intros j a' Hj. unfold upd_arena. simpl. rewrite list_lookup_alter_ne by lia. apply Hun. lia.
Qed.

Lemma unlock_arenas_run n i s :
  foldl (λ s i, unlock_arena i s) s (seq i n) = upd_arenas (set_locks false i n) s.
Proof.
  revert i s. induction n as [|n IH]; intros i s; simpl.
  - unfold upd_arenas, upd_g. simpl. rewrite set_locks_0. by destruct s as [[]].
  - rewrite IH. unfold upd_arenas, unlock_arena, upd_arena, upd_g. simpl. by rewrite set_locks_S.
Qed.

Lemma set_locks_undo n l :
  Forall (λ a, ar_lock a = false) l → set_locks false 0 n (set_locks true 0 n l) = l.
Proof.
  intros Hl. unfold set_locks. apply list_eq. intros j. rewrite !list_lookup_imap.
  destruct (l !! j) as [a|] eqn:Ha; simpl; [|done]. rewrite Forall_lookup in Hl. specialize (Hl j a Ha).
  destruct (decide _); [|done]. f_equal. destruct a. simpl in *. by rewrite Hl.
Qed.

(** C17: [force_lock] on unlocked mutexes returns with every arena's mutex and
    the one of the large list taken, so that nobody else gets past them;
    [force_unlock] then restores the state of before exactly. *)
Theorem fork_lock_roundtrip s :
  Forall (λ a, ar_lock a = false) (g_arenas (mc_g s)) → g_large_lock (mc_g s) = false →
  g_arena_count (mc_g s) ≤ Z.of_nat (length (g_arenas (mc_g s))) →
  ∃ s', zone_force_lock s = Ok s' ∧ zone_force_unlock s' = s ∧ lock_large s' = Hang ∧
    ∀ i, (Z.of_nat i < g_arena_count (mc_g s)) → lock_arena i s' = Hang.
Proof.
  intros Hun Hlarge Hcount. unfold zone_force_lock. rewrite lock_arenas_run; [|lia|].
  2: { intros j a _ Ha. by eapply Forall_lookup in Hun. }
  cbn [mbind res_bind]. unfold lock_large. simpl. rewrite Hlarge. eexists. split; [done|]. split_and!.
  - unfold zone_force_unlock. rewrite unlock_arenas_run. unfold upd_arenas, unlock_large, upd_g. simpl.
    rewrite set_locks_undo by done. destruct s as [[]]. simpl in *. by rewrite Hlarge.
  - done.
  - intros i Hi. unfold lock_arena. simpl. unfold set_locks. rewrite list_lookup_imap.
    destruct (lookup_lt_is_Some_2 (g_arenas (mc_g s)) i) as [a ->]; [lia|]. simpl.
    rewrite decide_True by lia. done.
Qed.

(** ** Rounding of sizes *)
Lemma size_to_bin_exact b : 0 ≤ b < BIN_COUNT → size_to_bin the_tables (bin_size_at the_tables b) = b.
Proof.
  intros Hb. assert (bin_size_at the_tables 0 = 8) as E0 by reflexivity.
  assert (bin_size_at the_tables 74 = MEDIUM_MAX) as E74 by reflexivity.
  pose proof (the_tables_mono 0 b ltac:(lia) ltac:(lia)).
  pose proof (the_tables_mono b 74 ltac:(config; lia) ltac:(config; lia)).
  destruct (size_to_bin_least (bin_size_at the_tables b)) as (Hr & Hfit & Hlow); [lia|].
  set (c := size_to_bin the_tables _) in *. destruct (Z.lt_trichotomy b c) as [Hlt|[?|Hgt]]; [|done|].
  - specialize (Hlow b ltac:(lia)). lia.
  - pose proof (the_tables_strict c b ltac:(lia) ltac:(lia)). lia.
Qed.

Section Theorems.
Context `{E : Env} {EL : EnvLaws E}.
Implicit Types (s : machine) (B : gmap Z Z).

(** C18: [malloc_good_size] answers, up to 128 KB, the size of the least class
    that holds the request, the class [malloc] itself looks up (its slots are
    that size rounded up to a multiple of 16), and above, the least multiple
    of the page size.  So it never rounds down, and it is idempotent: a size
    it returns is returned unchanged. *)
Theorem good_size_correct s B size :
  represents s B → 0 ≤ size < 2 ^ 62 →
  let n := zone_good_size s size in
  size ≤ n ∧ 0 < n ∧ zone_good_size s n = n ∧
  (size ≤ MEDIUM_MAX → ∃ b, least_bin the_tables (Z.max 1 size) b ∧ n = class_size b) ∧
  (MEDIUM_MAX < size → (getpagesize | n) ∧ n < size + getpagesize).
Proof.
  intros (L & G & l & [[Hs _ _] _] & _) Hsz. unfold zone_good_size. rewrite (si_tables _ _ Hs).
  set (size' := if size =? 0 then 1 else size).
  assert (size' = Z.max 1 size) as Hs' by (unfold size'; destruct (Z.eqb_spec size 0); lia). clearbody size'.
  unfold os_page_size. destruct getpagesize_pow2 as (k & Hk & ->).
  assert (2 ^ 12 ≤ 2 ^ k ≤ 2 ^ 16) by (split; apply Z.pow_le_mono_r; lia).
  destruct (Z.ltb_spec MEDIUM_MAX size') as [Hbig|Hsm].
  - pose proof (align_up_bounds size' k ltac:(lia) ltac:(lia) ltac:(lia)) as Hb.
    pose proof (align_up_divide size' k ltac:(lia) ltac:(lia) ltac:(lia)) as Hd.
    set (n := align_up size' (2 ^ k)) in *. assert (1 ≤ n) by (config; lia).
    destruct (Z.eqb_spec n 0); [lia|]. destruct (Z.ltb_spec MEDIUM_MAX n); [|lia].
    split_and!; [lia|lia| |intros; config; lia|intros; split; [done|config; lia]].
    pose proof (align_up_bounds n k ltac:(lia) ltac:(lia) ltac:(lia)).
    pose proof (align_up_divide n k ltac:(lia) ltac:(lia) ltac:(lia)) as [q Hq].
    destruct Hd as [q' Hq']. assert (q = q') by nia. congruence.
  - destruct (size_to_bin_least size' ltac:(lia)) as (Hr & Hfit & _).
    rewrite bin_to_size_lt by lia. set (b := size_to_bin the_tables size') in *.
    assert (bin_size_at the_tables 74 = MEDIUM_MAX) as E74 by reflexivity.
    pose proof (the_tables_mono b 74 ltac:(config; lia) ltac:(config; lia)).
    destruct (Z.eqb_spec (bin_size_at the_tables b) 0); [lia|].
    destruct (Z.ltb_spec MEDIUM_MAX (bin_size_at the_tables b)); [lia|].
    rewrite size_to_bin_exact, bin_to_size_lt by lia. split_and!; [lia..| |lia].
    intros _. exists b. rewrite <- Hs', the_tables_class by lia. split; [apply size_to_bin_least; lia|done].
Qed.

(** C19: [zone_claimed_address] recognises every block a caller holds, and
    claims no address the allocator has not mapped. *)
Theorem claimed_address_correct s B a :
  represents s B →
  (is_Some (B !! a) → zone_claimed_address a s = Ok true) ∧
  (¬ is_mapped s a → 0 ≤ a → zone_claimed_address a s = Ok false).
Proof.
  intros Hrep. pose proof Hrep as (L & G & l & Hinv & HB). pose proof Hinv as [[Hs _ _] Hl].
  unfold zone_claimed_address. split.
  - intros [n Ha]. pose proof (represents_pos s B a n Hrep Ha) as (H0 & _). apply HB in Ha.
    destruct (Z.eqb_spec a 0); [lia|]. rewrite (in_bootstrap_false s L G l a n) by done. destruct Ha as [Ha|Ha].
    + destruct (block_place s L a n Hs Ha)
        as (r & p & live & _ & Hp & _ & -> & _ & (Hr0 & _) & _ & _ & Hlo & Hhi & ? & _).
      destruct (ptr_to_page_in s L r p a Hs Hp) as [-> _]; [unfold in_range; lia|].
      by destruct (Z.eqb_spec r.1 0); [lia|].
    + destruct (lblock_in s G l a n Hl Ha) as (c & e & He & _ & -> & Hin & _).
      destruct (lv_each _ _ _ Hl c e He) as [_ _ _ _ A5 _ _].
      rewrite (ptr_to_segment_outside s L a) by auto. cbn [Z.eqb negb].
      by rewrite (large_find_run s G l c e a).
  - intros Hn H0. destruct (Z.eqb_spec a 0); [done|].
    assert (in_bootstrap a = false) as ->.
    { apply not_true_is_false. unfold in_bootstrap. intros [?%Z.leb_le ?%Z.ltb_lt]%andb_true_iff.
      apply Hn. by destruct (lv_boot _ _ _ Hl a). }
    rewrite (ptr_to_segment_outside s L a); [|done|lia|].
    + cbn [Z.eqb negb]. unfold large_find, lock_large. rewrite (lv_lock _ _ _ Hl). cbn [mbind res_bind].
      rewrite (large_walk_ext _ s) by done.
      change (large_fuel (upd_g ?f s)) with (S (size (mc_larges s))).
      change (g_large_list (mc_g (upd_g ?f s))) with (g_large_list (mc_g s)).
      pose proof (large_length _ _ _ Hl).
      destruct (large_walk_run (S (size (mc_larges s))) s G l a Hl ltac:(lia)) as [[-> _]|(b & e & He & Hin & _)]; [done|].
      destruct Hn. by apply (lv_each _ _ _ Hl b e He).
    + intros (b & sg & Hsg & Hab). apply Hn. by eapply si_mapped.
Qed.

End Theorems.

(** ** Witnesses *)
Lemma demo_api_rep : @api_rep (demo_env true) 254 (demo_ready true) ∅.
Proof. split; [exact demo_ready_represents|exact ready_affords]. Qed.

Lemma batch_roundtrip_witness :
  ∃ ps s' B', @zone_batch_malloc (demo_env true) 1 48 100 (demo_ready true) =
      Ok (ps ++ (if decide (length ps = 100%nat) then [] else [0]), Z.of_nat (length ps), s') ∧
    (length ps ≤ 100)%nat ∧ @api_rep (demo_env true) 154 s' B' ∧ adds 48 ps ∅ B' ∧
    bytes_kept ∅ ∅ (demo_ready true) s' ∧
    ∃ s'', @zone_batch_free (demo_env true) 2 ps s' = Ok (replicate (length ps) 0, s'') ∧
      @api_rep (demo_env true) 54 s'' ∅ ∧ bytes_kept ∅ ∅ (demo_ready true) s''.
Proof.
  apply (@batch_roundtrip (demo_env true) _ (@api_allocator (demo_env true) (demo_laws true)) 1 2 48 100 54 (demo_ready true) ∅);
    [exact demo_api_rep|lia].
Defined.

Lemma fork_lock_roundtrip_witness :
  ∃ s', zone_force_lock (demo_ready true) = Ok s' ∧ zone_force_unlock s' = demo_ready true ∧
    lock_large s' = Hang ∧ ∀ i, Z.of_nat i < g_arena_count (mc_g (demo_ready true)) → lock_arena i s' = Hang.
Proof.
  apply (fork_lock_roundtrip (demo_ready true)); [|reflexivity|vm_compute; discriminate].
  apply Forall_lookup. intros i a Ha. destruct (@ready_arenas (demo_env true)) as [_ Har].
  rewrite Forall_lookup in Har. by destruct (Har i a Ha) as (_ & _ & ?).
Defined.

Lemma good_size_correct_witness :
  let n := @zone_good_size (demo_env true) (demo_ready true) 145 in
  145 ≤ n ∧ 0 < n ∧ @zone_good_size (demo_env true) (demo_ready true) n = n ∧
    (145 ≤ MEDIUM_MAX → ∃ b, least_bin the_tables (Z.max 1 145) b ∧ n = class_size b) ∧
    (MEDIUM_MAX < 145 → (@getpagesize (demo_env true) | n) ∧ n < 145 + @getpagesize (demo_env true)).
Proof.
  apply (@good_size_correct (demo_env true) (demo_laws true) (demo_ready true) ∅ 145);
    [exact demo_ready_represents|lia].
Defined.

Lemma claimed_address_correct_witness :
  ∃ n, is_Some (({[demo_slot := n]} : gmap Z Z) !! demo_slot) ∧
    @zone_claimed_address (demo_env true) demo_slot demo_heap = Ok true.
Proof.
  destruct demo_represents as (n & _ & Hrep). exists n.
  assert (is_Some (({[demo_slot := n]} : gmap Z Z) !! demo_slot)) as H by (rewrite lookup_singleton_eq; eauto).
  split; [exact H|].
  apply (@claimed_address_correct (demo_env true) demo_heap {[demo_slot := n]} demo_slot Hrep). exact H.
Defined.
