(* ===== verification/OsCorrect.v ===== *)
(** * Mapping and early allocation (src/os.c, bootstrap_alloc of src/init.c) *)
From S2P Require Import Prelude Config Mem SizeClass Types Os DemoEnv Page Registry Segment Debug Tld Arena Init.

Section Os.
Context `{E : Env} {EL : EnvLaws E}.
Implicit Types (s : machine).

(** C20: [os_mmap_aligned] of whole pages returns null, and changes nothing,
    only when the kernel refuses the (enlarged) request; otherwise an address
    with the alignment asked for, from which exactly [size] fresh zero bytes
    are mapped: what it asked for in excess in front and behind is given back.
    Unmapping the range restores the mapped addresses and the byte counter. *)
Theorem os_mmap_aligned_correct size k s p s' :
  0 < size → (getpagesize | size) → 0 ≤ k → size + 2 ^ k < 2 ^ 62 →
  0 ≤ g_mmap_bytes (mc_g s) < 2 ^ 64 →
  os_mmap_aligned size (2 ^ k) s = (p, s') →
  (p = 0 ∧ s' = s ∧ mmap_refused (mapping_request size (2 ^ k)) s) ∨
  ((2 ^ k | p) ∧ mapped_fresh size p s s' ∧
   (∀ a, is_mapped (os_munmap p size s') a ↔ is_mapped s a) ∧
   g_mmap_bytes (mc_g (os_munmap p size s')) = g_mmap_bytes (mc_g s)).
Proof.
  intros Hs Hpg Hk Hlim Hb Hrun. apply os_mmap_aligned_run in Hrun as [?|[Hd Hf]]; [by left| |done..].
  right. split; [done|]. split; [done|]. pose proof Hf as (H0 & Hmax & Hmap & Hnew & _ & _ & Heq).
  unfold os_munmap. destruct (Z.eqb_spec p 0); [lia|]. destruct (Z.ltb_spec 0 size); [|lia]. cbn [negb andb].
  split.
  - intros a. change (is_mapped (sub_mmap_bytes size (sys_munmap p size s')) a) with (is_mapped (sys_munmap p size s') a).
    rewrite is_mapped_munmap, Hmap, whole_pages_id by done. split; [tauto|]. intros Ha. split; [by left|].
    intros Hin. by apply (Hnew a).
  - rewrite Heq. simpl. unfold add64, sub64, u64.
    rewrite Zminus_mod_idemp_l. replace (g_mmap_bytes (mc_g s) + size - size) with (g_mmap_bytes (mc_g s)) by lia.
    by apply Z.mod_small.
Qed.

(** C21: [bootstrap_alloc] cuts the static buffer from the front: a result that
    is not null is 16-byte aligned, lies in the buffer together with its
    [size] bytes, and behind everything handed out before; a request that does
    not fit any more gets null. *)
Theorem bootstrap_alloc_correct size s p s' :
  0 ≤ size < 2 ^ 62 → 0 ≤ g_bootstrap_used (mc_g s) < 2 ^ 62 → (16 | g_bootstrap_used (mc_g s)) →
  bootstrap_alloc size s = (p, s') →
  (16 | g_bootstrap_used (mc_g s')) ∧
  g_bootstrap_used (mc_g s) + size ≤ g_bootstrap_used (mc_g s') ∧
  ((p = 0 ∧ BOOTSTRAP_BUF_SIZE < g_bootstrap_used (mc_g s')) ∨
   ((16 | p) ∧ bootstrap_buf + g_bootstrap_used (mc_g s) ≤ p ∧
    p + size ≤ bootstrap_buf + g_bootstrap_used (mc_g s') ≤ bootstrap_buf + BOOTSTRAP_BUF_SIZE)).
Proof.
  intros Hs Hu Hd. unfold bootstrap_alloc. change MIN_ALIGN with (2 ^ 4).
  pose proof (align_up_bounds size 4 ltac:(lia) ltac:(lia) ltac:(lia)) as Hb.
  pose proof (align_up_divide size 4 ltac:(lia) ltac:(lia) ltac:(lia)) as Hd2.
  set (n := align_up size (2 ^ 4)) in *. clearbody n. set (u := g_bootstrap_used (mc_g s)) in *.
  destruct bootstrap_buf_range as [B1 B2]. pose proof bootstrap_buf_aligned as B3.
  rewrite u64_small by lia. assert (16 | u + n) as Hun by (by apply Z.divide_add_r).
  intros Hrun. assert (g_bootstrap_used (mc_g s') = u + n) as ->.
  { destruct (BOOTSTRAP_BUF_SIZE <? u + n); injection Hrun as <- <-; simpl; unfold add64; apply u64_small; lia. }
  split; [done|]. split; [lia|].
  destruct (Z.ltb_spec BOOTSTRAP_BUF_SIZE (u + n)); injection Hrun as <- _.
  - by left.
  - right. assert (BOOTSTRAP_BUF_SIZE = 65536) by reflexivity. rewrite u64_small by lia.
    split_and!; [by apply Z.divide_add_r|lia|lia|lia].
Qed.

End Os.

(** ** Witnesses *)
Lemma os_mmap_aligned_correct_witness :
  let E := demo_env false in let s := @boot_machine E in
  let r := os_mmap_aligned 4194304 (2 ^ 22) s in
  (r.1 = 0 ∧ r.2 = s ∧ mmap_refused (mapping_request 4194304 (2 ^ 22)) s) ∨
  ((2 ^ 22 | r.1) ∧ mapped_fresh 4194304 r.1 s r.2 ∧
   (∀ a, is_mapped (os_munmap r.1 4194304 r.2) a ↔ is_mapped s a) ∧
   g_mmap_bytes (mc_g (os_munmap r.1 4194304 r.2)) = g_mmap_bytes (mc_g s)).
Proof.
  apply (@os_mmap_aligned_correct (demo_env false) (demo_laws false));
    [lia|by exists 256|lia|lia|done|by apply surjective_pairing].
Defined.

Lemma bootstrap_alloc_correct_witness :
  let E := demo_env false in let s := @boot_machine E in let r := bootstrap_alloc 100 s in
  (16 | g_bootstrap_used (mc_g r.2)) ∧ 0 + 100 ≤ g_bootstrap_used (mc_g r.2) ∧
  ((r.1 = 0 ∧ BOOTSTRAP_BUF_SIZE < g_bootstrap_used (mc_g r.2)) ∨
   ((16 | r.1) ∧ bootstrap_buf + 0 ≤ r.1 ∧
    r.1 + 100 ≤ bootstrap_buf + g_bootstrap_used (mc_g r.2) ≤ bootstrap_buf + BOOTSTRAP_BUF_SIZE)).
Proof.
  apply (@bootstrap_alloc_correct (demo_env false) (demo_laws false) 100 (@boot_machine (demo_env false)));
    [lia|done|by exists 0|by apply surjective_pairing].
Defined.
